(* ===== verification/_CoqProject ===== *)
-Q . S2P
Prelude.v
Errno.v
MemAddr.v
Frames.v
Heap.v
Paging.v
MemorySet.v
AddrSpace.v
AddrSpaceInv.v
AddrSpaceCorrect.v
UserMem.v
MemTheorems.v
KernelMem.v
Dma.v
Mmap.v
FdTable.v
Pipe.v
Sched.v
SchedInv.v
SchedCorrect.v
SchedTheorems.v
Mutex.v
Pthread.v
TimeStat.v
Trap.v
TaskCtx.v
Syscall.v
Str.v
Clock.v
IoMpx.v
PacketBuffer.v
Net.v
NetTheorems.v
Udp.v
SockCalls.v
Resolve.v
Fs.v
FsTheorems.v
Ramfs.v
Disk.v
Ext4.v
Fat.v
FatTheorems.v
PosixFs.v
Stdio.v
Getdents.v
PosixTheorems.v
Loader.v
LoaderTheorems.v
Process.v
Isolation.v
KernelIsolation.v
