(* ===== verification/Prelude.v ===== *)
(** * A verification of the StarryOS kernel

    StarryOS (src/src) is a monolithic kernel for Linux programs, built on the modules of
    ArceOS (src/arceos) and the crates they use (src/vendor). This library models the
    kernel as it is built for one target, riscv64 on QEMU: release mode, so that integer
    arithmetic wraps; Sv39 page tables with 4 KiB pages; any number of CPUs; a FIFO
    scheduler without preemption. Functions of the source are functions on explicit
    state with the names of the source where the language allows; errors are values of
    [result], panics are the outcome [Panic], and code that threads both is written in the
    monad [M] of this file.

    ** The parts and how they fit together

    A program traps into the kernel (Trap), which saves its registers and dispatches the
    cause. A system call goes through the table of numbers (Syscall) to one of the calls on
    memory (Mmap), descriptors (FdTable, Pipe, Stdio, IoMpx), files (PosixFs, Getdents),
    time (Clock, TimeStat) or processes (Process); a page fault goes to the address space
    of the process (AddrSpace). Processes are tasks of the scheduler (Sched), which waits
    on queues and timers and switches contexts (TaskCtx). The memory of all of them comes
    from one page allocator (Frames, Heap), which the boot code sets up (KernelMem) and the
    kernel heap, DMA (Dma) and the processes share (KernelIsolation). Files are served by
    mounted file systems (Fs), in memory (Ramfs) or on a disk (Ext4, Fat, Disk). The C
    interface of sockets (SockCalls) sits on TCP (Net) and UDP (Udp), that of names on
    Resolve, that of threads (Pthread) on the tasks.

    ** Files and the code they model

    - Prelude: machine integers, outcomes and the monad, byte stores, tactics and the lemmas
      that the components share. Errno: axerrno and [syscall_body!].
    - Memory. MemAddr: memory_addr. Frames: the frame allocator (axmm/src/backend/alloc.rs,
      bitmap allocator, axhal/src/mem.rs). Heap: axalloc over the bitmap allocator.
      Paging: page_table_entry and page_table_multiarch. MemorySet: memory_set.
      AddrSpace: axmm. AddrSpaceInv, AddrSpaceCorrect, UserMem: their invariants and lemmas.
      Mmap: src/src/syscall_imp/mm. KernelMem: memory regions (axhal/src/mem.rs), the start
      of the allocator (axruntime), the kernel address space and thread-local storage
      (axhal/src/tls.rs). Dma: axdma. MemTheorems, Isolation, KernelIsolation: the theorems
      about them.
    - Tasks. Sched: axtask, with SchedInv, SchedCorrect and SchedTheorems. Mutex: axsync.
      Pthread: arceos_posix_api/src/imp/pthread.
      Trap and TaskCtx: axhal/src/arch/riscv. Syscall: [handle_syscall] of
      src/src/syscall_imp/mod.rs. TimeStat: src/src/ctypes.rs. Process: src/src/task.rs and
      src/src/syscall_imp/task.
    - Files. Str: paths. Fs: axfs and axfs_vfs, with FsTheorems. Ramfs: axfs_ramfs. Disk:
      axfs/src/dev.rs and the block access of the FAT and ext4 adapters. Ext4:
      axfs/src/fs/lwext4_rust.rs and the file object of lwext4_rust. Fat and FatTheorems:
      axfs/src/fs/fatfs.rs and the files and the allocation table of fatfs. FdTable, Pipe,
      Stdio, IoMpx, PosixFs: arceos_posix_api/src/imp, with PosixTheorems. Getdents:
      src/src/syscall_imp/fs/ctl.rs.
    - Clock: axhal/src/time.rs and the time calls.
    - Sockets. Net and NetTheorems: TCP of axnet. PacketBuffer: the ring and packet buffers
      of smoltcp. Udp: UDP of axnet. SockCalls: arceos_posix_api/src/imp/net.rs. Resolve:
      its name calls and the DNS query.
    - Programs. Loader: src/src/mm.rs, kernel-elf-parser and the test list of src/src/main.rs,
      with LoaderTheorems.

    ** What the theorems show

    - Memory: mapping, unmapping and page faults implement a map from addresses to flags,
      keep page tables and areas in agreement and give back exactly the frames they
      took; what is written is read back; processes never see each other's memory nor that
      of the kernel heap; the heap owns its pages, which lie between the kernel image and the
      end of the memory, and its allocation ends; coherent memory belongs to nobody else; the
      thread-local area is written only inside its bounds.
    - Scheduling: in every interleaving of the CPUs a task is in one place, no assertion
      fails, no blocked task is lost, a joined task is notified; the mutex excludes and
      loses no wake-up; a thread that is joined gives its own value.
    - Traps: registers survive system calls, entries into user space and switches; a system
      call from user mode is dispatched with arguments of the right types, charged to the
      process and answered in [a0].
    - Processes: fork returns twice, the process tree is a tree, a child is waited for once.
    - Files: the longest mount point wins, open modes are enforced, written bytes are read
      back through files, disks and ext4, the paths of ext4 are normal forms, FAT files
      implement lists of bytes by chains of clusters, links are counted, listings are
      complete; pipes and the console are streams; select and epoll report what is ready.
    - Sockets: every socket has one owner and lives as long as a descriptor refers to it,
      [accept] and [recv] return each connection and each byte once and in order, datagrams
      arrive whole; names fit their buffers and address lists hold what was resolved.
    - Programs: segments are loaded where the file says, the initial stack has its layout.

    Theorems that end in a panic, a lost update or a wrong result describe the code as it
    is; they are kept because the code is what is modelled.

    ** Bounds and fuel

    Loops over data recurse on the data. Loops that search (find_free_area, the bitmap, the
    heap) carry fuel equal to the number of candidates, and a theorem shows that it is
    enough. A loop that waits takes the list of what the rest of the system does at
    each of its passes and has the value [None] while it still waits; nothing is assumed
    of that list except where a theorem names it. Descriptor tables have 1024 entries, pipes
    256 bytes, listen queues 512 connections, as in the source.

    ** Parameters

    Code outside the sources, or whose inside does not matter to a caller, is a parameter
    with its documented behaviour: the TLSF pool, the ELF decoder, the SBI console, the
    block device (with the RAM disk as an instance), the mounted file systems (with ramfs as
    an instance), the lwext4 C library, the directories of the FAT library, the object behind
    a descriptor. Each such interface that has laws has an instance. The symbols of the
    linker script and the configuration of the platform are parameters with their order and
    alignment as hypotheses.

    ** Not modelled

    - Other architectures, huge pages, TLB and floating-point state; preemption and task
      migration, which are not built.
    - Boot assembly, device drivers and logging: one-time initialisation and memory-mapped
      I/O.
    - The directories, mounting and formatting of the FAT library, FAT12 and FAT16, and the C
      code of lwext4; the block access of both adapters is modelled.
    - The segment processing of smoltcp beyond its state changes, and the packets of DNS.
    - The user-side C and Rust libraries of the unikernel, and the calls that only return
      constants, such as resource limits.
    - Weak memory: atomics are sequentially consistent; each critical section is one step. *)
From stdpp Require Export base list gmap strings.
From Stdlib Require Export ZArith Lia.

#[global] Open Scope Z_scope.
#[global] Set Default Goal Selector "!".

(** * Machine integers

    [usize], [u64] and pointers are integers in [0, USIZE); the kernel is built
    in release mode ([MODE ?= release] in arceos/Makefile), so the operators
    [+], [-] and [*] wrap around. *)

Abbreviation USIZE := 18446744073709551616.
Abbreviation U32 := 4294967296.
Abbreviation PAGE_SIZE_4K := 4096.

(** A value that fits a [usize]. *)
Definition is_usize (z : Z) : Prop := 0 <= z < USIZE.

(** Wrapping [usize] arithmetic. *)
Definition wrap (z : Z) : Z := z mod USIZE.
Definition wadd (a b : Z) : Z := wrap (a + b).
Definition wsub (a b : Z) : Z := wrap (a - b).

(** [usize::checked_add]. *)
Definition checked_add (a b : Z) : option Z :=
  if a + b <? USIZE then Some (a + b) else None.

(** [usize::checked_sub]. *)
Definition checked_sub (a b : Z) : option Z :=
  if b <=? a then Some (a - b) else None.

(** [!x] on a [usize]. *)
Definition not64 (x : Z) : Z := USIZE - 1 - x.

(** Reinterpretation of the low [w] bits as a two's-complement integer: the
    [as i32] and [as i64] casts. *)
Definition as_unsigned (w : Z) (z : Z) : Z := z mod 2 ^ w.
Definition as_signed (w : Z) (z : Z) : Z :=
  let m := z mod 2 ^ w in
  if m <? 2 ^ (w - 1) then m else m - 2 ^ w.
Definition as_i32 : Z -> Z := as_signed 32.
Definition as_i64 : Z -> Z := as_signed 64.
Definition as_u32 : Z -> Z := as_unsigned 32.
Definition as_u16 : Z -> Z := as_unsigned 16.
Definition as_u8 : Z -> Z := as_unsigned 8.

Declare Scope machine_scope.
Delimit Scope machine_scope with mach.
Notation "a +w b" := (wadd a b) (at level 50, left associativity) : machine_scope.
Notation "a -w b" := (wsub a b) (at level 50, left associativity) : machine_scope.
#[global] Open Scope machine_scope.

(** * Outcomes

    [Result<A, E>] of the source, and the outcome of running a piece of code:
    it either returns or panics ([panic!], [assert!], [unwrap], [expect],
    out-of-range slicing). *)

Inductive result (A E : Type) : Type :=
| Ok (a : A)
| Err (e : E).
Arguments Ok {A E} a.
Arguments Err {A E} e.

Inductive outcome (A : Type) : Type :=
| Ret (a : A)
| Panic.
Arguments Ret {A} a.
Arguments Panic {A}.

(** Code with a mutable state, panics and [?]-style early returns. *)
Definition M (S E A : Type) : Type := S -> outcome (result A E * S).

Definition M_ret {S E A} (a : A) : M S E A := fun s => Ret (Ok a, s).
Definition M_bind {S E A B} (k : A -> M S E B) (m : M S E A) : M S E B :=
  fun s => match m s with
           | Ret (Ok a, s') => k a s'
           | Ret (Err e, s') => Ret (Err e, s')
           | Panic => Panic
           end.
#[export] Instance M_mret S E : MRet (M S E) := fun A a => M_ret a.
#[export] Instance M_mbind S E : MBind (M S E) := fun A B k m => M_bind k m.

Definition throw {S E A} (e : E) : M S E A := fun s => Ret (Err e, s).
Definition panic {S E A} : M S E A := fun _ => Panic.
Definition get {S E} : M S E S := fun s => Ret (Ok s, s).
Definition put {S E} (s' : S) : M S E unit := fun _ => Ret (Ok tt, s').
Definition modify {S E} (f : S -> S) : M S E unit := fun s => Ret (Ok tt, f s).

(** [assert!(b)]. *)
Definition assert_ {S E} (b : bool) : M S E unit := if b then M_ret tt else panic.
(** [if !b { return Err(e) }]. *)
Definition ensure {S E} (b : bool) (e : E) : M S E unit := if b then M_ret tt else throw e.
(** [o.ok_or(e)?] and [o.unwrap()]. *)
Definition ok_or {S E A} (o : option A) (e : E) : M S E A :=
  match o with Some a => M_ret a | None => throw e end.
Definition unwrap {S E A} (o : option A) : M S E A :=
  match o with Some a => M_ret a | None => panic end.
(** Evaluate a pure [Result] with [?]. *)
Definition try_ {S E A} (r : result A E) : M S E A :=
  match r with Ok a => M_ret a | Err e => throw e end.
(** [m.map_err(f)]. *)
Definition map_err {S E E' A} (f : E -> E') (m : M S E A) : M S E' A :=
  fun s => match m s with
           | Ret (Ok a, s') => Ret (Ok a, s')
           | Ret (Err e, s') => Ret (Err (f e), s')
           | Panic => Panic
           end.
(** Run [m] and hand its [Result] to the continuation ([match m { .. }]). *)
Definition attempt {S E E' A} (m : M S E A) : M S E' (result A E) :=
  fun s => match m s with
           | Ret (r, s') => Ret (Ok r, s')
           | Panic => Panic
           end.
(** Run [m] on a component of the state. *)
Definition zoom {S T E A} (prj : S -> T) (inj : T -> S -> S) (m : M T E A) : M S E A :=
  fun s => match m (prj s) with
           | Ret (r, t) => Ret (r, inj t s)
           | Panic => Panic
           end.

Definition res_map_err {A E E'} (f : E -> E') (r : result A E) : result A E' :=
  match r with Ok a => Ok a | Err e => Err (f e) end.
Definition is_ok {A E} (r : result A E) : bool :=
  match r with Ok _ => true | Err _ => false end.
Definition is_err {A E} (r : result A E) : bool := negb (is_ok r).

(** A loop [for x in l { body }] in the monad. *)
Fixpoint for_each {S E A} (l : list A) (body : A -> M S E unit) : M S E unit :=
  match l with
  | [] => M_ret tt
  | x :: l' => M_bind (fun _ => for_each l' body) (body x)
  end.

(** * Bytes in memory *)

(** The byte store of the machine, indexed by physical address. *)
Definition bytes : Type := Z -> Z.

(** [copy_nonoverlapping] of [buf] to address [pa]. *)
Definition mem_write (pa : Z) (buf : list Z) (m : bytes) : bytes :=
  fun a => if (pa <=? a) && (a <? pa + Z.of_nat (length buf))
           then default 0 (buf !! Z.to_nat (a - pa)) else m a.

(** [copy_nonoverlapping] of [n] bytes from address [pa]. *)
Definition mem_read (pa : Z) (n : nat) (m : bytes) : list Z :=
  (fun i => m (pa + Z.of_nat i)) <$> seq 0 n.

(** [write_bytes(ptr, 0, n)]. *)
Definition mem_zero (pa : Z) (n : nat) (m : bytes) : bytes :=
  mem_write pa (replicate n 0) m.

(** The bytes of [src] replace those of [dst] from [start]: [copy_from_slice]. *)
Definition overlay (start : Z) (src dst : list Z) : list Z :=
  take (Z.to_nat start) dst ++ src ++ drop (Z.to_nat start + length src) dst.

(** The bytes of a little-endian field, and its value. *)
Fixpoint le_put (n : nat) (v : Z) : list Z :=
  match n with O => [] | S n => Z.land v 255 :: le_put n (Z.shiftr v 8) end.
Fixpoint le_get (l : list Z) : Z :=
  match l with [] => 0 | b :: l => b + 256 * le_get l end.

(** * Lemmas and automation *)

Create HintDb starry.

(** Let [lia] reason about [/] and [mod]. *)
#[export] Ltac Zify.zify_post_hook ::= Z.div_mod_to_equations.

(** Split the conditionals and matches of the goal and hypotheses. *)
Ltac case_bool :=
  match goal with
  | H : context [if ?b then _ else _] |- _ =>
      lazymatch type of b with bool => destruct b eqn:? | _ => fail end
  | |- context [if ?b then _ else _] =>
      lazymatch type of b with bool => destruct b eqn:? | _ => fail end
  end.

(** Turn boolean comparisons in the context into propositions. *)
Ltac bool_to_prop :=
  repeat match goal with
  | H : (_ && _)%bool = true |- _ => apply andb_true_iff in H as [? ?]
  | H : (_ && _)%bool = false |- _ => apply andb_false_iff in H
  | H : (_ || _)%bool = true |- _ => apply orb_true_iff in H
  | H : (_ || _)%bool = false |- _ => apply orb_false_iff in H as [? ?]
  | H : negb _ = true |- _ => apply negb_true_iff in H
  | H : negb _ = false |- _ => apply negb_false_iff in H
  | H : (_ <? _) = true |- _ => apply Z.ltb_lt in H
  | H : (_ <? _) = false |- _ => apply Z.ltb_ge in H
  | H : (_ <=? _) = true |- _ => apply Z.leb_le in H
  | H : (_ <=? _) = false |- _ => apply Z.leb_gt in H
  | H : (_ =? _) = true |- _ => apply Z.eqb_eq in H
  | H : (_ =? _) = false |- _ => apply Z.eqb_neq in H
  end.

(** Unfold the monad around a successful or failing run. *)
Ltac unfold_M :=
  unfold assert_, ensure, ok_or, unwrap, try_, map_err, attempt, zoom in *;
  unfold mbind, mret, M_mbind, M_mret, M_bind, M_ret, throw, panic, get, put, modify in *.

Lemma wrap_small z : 0 <= z < USIZE -> wrap z = z.
Proof. apply Z.mod_small. Qed.

Lemma wrap_range z : 0 <= wrap z < USIZE.
Proof. apply Z.mod_pos_bound. lia. Qed.

Lemma wadd_small a b : 0 <= a + b < USIZE -> a +w b = a + b.
Proof. apply wrap_small. Qed.

Lemma wsub_small a b : 0 <= a - b < USIZE -> a -w b = a - b.
Proof. apply wrap_small. Qed.

Lemma checked_add_Some a b c :
  checked_add a b = Some c <-> c = a + b /\ a + b < USIZE.
Proof. unfold checked_add. destruct (Z.ltb_spec (a + b) USIZE); naive_solver lia. Qed.

#[export] Hint Resolve wrap_small wadd_small wsub_small : starry.

Lemma as_i32_small z : 0 <= z < 2147483648 -> as_i32 z = z.
Proof.
  intros Hz. unfold as_i32, as_signed. change (2 ^ 32) with 4294967296.
  change (2 ^ (32 - 1)) with 2147483648. rewrite Z.mod_small by lia.
  by destruct (Z.ltb_spec z 2147483648); [|lia].
Qed.

Lemma as_i64_small z : 0 <= z < 9223372036854775808 -> as_i64 z = z.
Proof.
  intros Hz. unfold as_i64, as_signed. change (2 ^ 64) with USIZE.
  change (2 ^ (64 - 1)) with 9223372036854775808. rewrite Z.mod_small by lia.
  by destruct (Z.ltb_spec z 9223372036854775808); [|lia].
Qed.

(** [M_bind] succeeds exactly when both steps do. *)
Lemma M_bind_Ok {S E A B} (m : M S E A) (k : A -> M S E B) s b s' :
  M_bind k m s = Ret (Ok b, s') <->
  exists a s1, m s = Ret (Ok a, s1) /\ k a s1 = Ret (Ok b, s').
Proof.
  unfold M_bind. split.
  - destruct (m s) as [[[a|e] s1]|] eqn:Hm; naive_solver.
  - intros (a & s1 & -> & H). exact H.
Qed.

Lemma mem_write_in pa buf m a :
  pa <= a < pa + Z.of_nat (length buf) ->
  mem_write pa buf m a = default 0 (buf !! Z.to_nat (a - pa)).
Proof.
  intros H. unfold mem_write.
  destruct (Z.leb_spec pa a), (Z.ltb_spec a (pa + Z.of_nat (length buf))); try lia.
  reflexivity.
Qed.

Lemma mem_write_out pa buf m a :
  ~ (pa <= a < pa + Z.of_nat (length buf)) -> mem_write pa buf m a = m a.
Proof.
  intros H. unfold mem_write.
  destruct (Z.leb_spec pa a), (Z.ltb_spec a (pa + Z.of_nat (length buf))); try lia; reflexivity.
Qed.

Lemma mem_zero_in pa n m a : pa <= a < pa + Z.of_nat n -> mem_zero pa n m a = 0.
Proof.
  intros H. unfold mem_zero. rewrite mem_write_in by (rewrite length_replicate; lia).
  rewrite lookup_replicate_2 by lia. reflexivity.
Qed.

Lemma mem_zero_out pa n m a : ~ (pa <= a < pa + Z.of_nat n) -> mem_zero pa n m a = m a.
Proof. intros H. apply mem_write_out. rewrite length_replicate. lia. Qed.

Lemma mem_read_length pa n m : length (mem_read pa n m) = n.
Proof. unfold mem_read. by rewrite length_fmap, length_seq. Qed.

Lemma mem_read_lookup pa n m i :
  (i < n)%nat -> mem_read pa n m !! i = Some (m (pa + Z.of_nat i)).
Proof.
  intros H. unfold mem_read. rewrite list_lookup_fmap, lookup_seq_lt by lia. reflexivity.
Qed.

Lemma mem_read_write pa buf m : mem_read pa (length buf) (mem_write pa buf m) = buf.
Proof.
  apply list_eq. intros i. destruct (decide (i < length buf)%nat) as [Hi|Hi].
  - rewrite mem_read_lookup, mem_write_in by lia.
    replace (Z.to_nat (pa + Z.of_nat i - pa)) with i by lia.
    by destruct (lookup_lt_is_Some_2 buf i Hi) as [x ->].
  - by rewrite !lookup_ge_None_2 by (rewrite ?mem_read_length; lia).
Qed.

Lemma length_overlay start src dst :
  0 <= start <= Z.of_nat (length dst) ->
  length (overlay start src dst) = Nat.max (length dst) (Z.to_nat start + length src).
Proof. intros H. unfold overlay. rewrite !length_app, length_take, length_drop. lia. Qed.
Lemma overlay_in start src dst i :
  0 <= start <= Z.of_nat (length dst) -> start <= i < start + Z.of_nat (length src) ->
  overlay start src dst !! Z.to_nat i = src !! Z.to_nat (i - start).
Proof.
  intros H Hi. unfold overlay. rewrite lookup_app_r, lookup_app_l by (rewrite length_take; lia).
  f_equal. rewrite length_take. lia.
Qed.
Lemma overlay_out start src dst i :
  0 <= start <= Z.of_nat (length dst) -> 0 <= i -> ~ (start <= i < start + Z.of_nat (length src)) ->
  overlay start src dst !! Z.to_nat i = dst !! Z.to_nat i.
Proof.
  intros H Hi Hn. unfold overlay. destruct (decide (i < start)).
  - rewrite lookup_app_l, lookup_take_lt by (rewrite ?length_take; lia). done.
  - rewrite lookup_app_r, lookup_app_r, lookup_drop by (rewrite length_take; lia). f_equal. rewrite length_take. lia.
Qed.

(** Check a property of all small integers by evaluation. *)
Definition all_below (n : nat) (P : Z -> bool) : bool :=
  forallb (fun i => P (Z.of_nat i)) (seq 0 n).

Lemma all_below_spec n P z :
  all_below n P = true -> 0 <= z < Z.of_nat n -> P z = true.
Proof.
  unfold all_below. rewrite forallb_forall. intros H Hz.
  rewrite <- (Z2Nat.id z) by lia. apply H. apply in_seq. lia.
Qed.

(** * Little-endian fields *)

Lemma length_le_put n v : length (le_put n v) = n.
Proof. revert v. induction n as [|n IH]; intros v; [done|]. cbn. by rewrite IH. Qed.
Lemma le_get_put n v : le_get (le_put n v) = v mod 2 ^ (8 * Z.of_nat n).
Proof.
  revert v. induction n as [|n IH]; intros v; [cbn; by rewrite Z.mod_1_r|]. cbn [le_put le_get]. rewrite IH.
  change 255 with (Z.ones 8). rewrite Z.land_ones, Z.shiftr_div_pow2 by lia. change (2 ^ 8) with 256.
  replace (8 * Z.of_nat (S n)) with (8 + 8 * Z.of_nat n) by lia. rewrite Z.pow_add_r by lia. change (2 ^ 8) with 256.
  rewrite Z.rem_mul_r by lia. lia.
Qed.
