(* ===== verification/Errno.v ===== *)
(** Error values: [AxError] and [LinuxError] of vendor/axerrno, the conversion
    between them, and the [syscall_body!] macro (src/syscall_imp/mod.rs and
    arceos_posix_api/src/utils.rs) that turns a [LinuxResult] into the number a
    system call returns. *)
From S2P Require Import Prelude.

(** The error type used by ArceOS. *)
Inductive AxError : Type :=
| AddrInUse | AlreadyExists | BadAddress | BadState | ConnectionRefused
| ConnectionReset | DirectoryNotEmpty | InvalidData | InvalidInput | Io
| IsADirectory | NoMemory | NotADirectory | NotConnected | NotFound
| PermissionDenied | ResourceBusy | StorageFull | UnexpectedEof | Unsupported
| WouldBlock | WriteZero.

(** The Linux error numbers, generated by axerrno/build.rs from errno.h. *)
Inductive LinuxError : Type :=
| EPERM | ENOENT | ESRCH | EINTR | EIO | ENXIO | E2BIG | ENOEXEC
| EBADF | ECHILD | EAGAIN | ENOMEM | EACCES | EFAULT | ENOTBLK | EBUSY
| EEXIST | EXDEV | ENODEV | ENOTDIR | EISDIR | EINVAL | ENFILE | EMFILE
| ENOTTY | ETXTBSY | EFBIG | ENOSPC | ESPIPE | EROFS | EMLINK | EPIPE
| EDOM | ERANGE | EDEADLK | ENAMETOOLONG | ENOLCK | ENOSYS | ENOTEMPTY | ELOOP
| ENOMSG | EIDRM | ECHRNG | EL2NSYNC | EL3HLT | EL3RST | ELNRNG | EUNATCH
| ENOCSI | EL2HLT | EBADE | EBADR | EXFULL | ENOANO | EBADRQC | EBADSLT
| EBFONT | ENOSTR | ENODATA | ETIME | ENOSR | ENONET | ENOPKG | EREMOTE
| ENOLINK | EADV | ESRMNT | ECOMM | EPROTO | EMULTIHOP | EDOTDOT | EBADMSG
| EOVERFLOW | ENOTUNIQ | EBADFD | EREMCHG | ELIBACC | ELIBBAD | ELIBSCN | ELIBMAX
| ELIBEXEC | EILSEQ | ERESTART | ESTRPIPE | EUSERS | ENOTSOCK | EDESTADDRREQ | EMSGSIZE
| EPROTOTYPE | ENOPROTOOPT | EPROTONOSUPPORT | ESOCKTNOSUPPORT | EOPNOTSUPP | EPFNOSUPPORT | EAFNOSUPPORT | EADDRINUSE
| EADDRNOTAVAIL | ENETDOWN | ENETUNREACH | ENETRESET | ECONNABORTED | ECONNRESET | ENOBUFS | EISCONN
| ENOTCONN | ESHUTDOWN | ETOOMANYREFS | ETIMEDOUT | ECONNREFUSED | EHOSTDOWN | EHOSTUNREACH | EALREADY
| EINPROGRESS | ESTALE | EUCLEAN | ENOTNAM | ENAVAIL | EISNAM | EREMOTEIO | EDQUOT
| ENOMEDIUM | EMEDIUMTYPE | ECANCELED | ENOKEY | EKEYEXPIRED | EKEYREVOKED | EKEYREJECTED | EOWNERDEAD
| ENOTRECOVERABLE | ERFKILL | EHWPOISON.

(** [AxError::code]: the discriminant of the enum, numbered from 1. *)
Definition AxError_code (e : AxError) : Z :=
  match e with
  | AddrInUse => 1
  | AlreadyExists => 2
  | BadAddress => 3
  | BadState => 4
  | ConnectionRefused => 5
  | ConnectionReset => 6
  | DirectoryNotEmpty => 7
  | InvalidData => 8
  | InvalidInput => 9
  | Io => 10
  | IsADirectory => 11
  | NoMemory => 12
  | NotADirectory => 13
  | NotConnected => 14
  | NotFound => 15
  | PermissionDenied => 16
  | ResourceBusy => 17
  | StorageFull => 18
  | UnexpectedEof => 19
  | Unsupported => 20
  | WouldBlock => 21
  | WriteZero => 22
  end.

(** [AxError::try_from(i32)]: a transmute guarded by the range of the variants. *)
Definition AxError_try_from (value : Z) : result AxError Z :=
  match value with
  | 1 => Ok AddrInUse
  | 2 => Ok AlreadyExists
  | 3 => Ok BadAddress
  | 4 => Ok BadState
  | 5 => Ok ConnectionRefused
  | 6 => Ok ConnectionReset
  | 7 => Ok DirectoryNotEmpty
  | 8 => Ok InvalidData
  | 9 => Ok InvalidInput
  | 10 => Ok Io
  | 11 => Ok IsADirectory
  | 12 => Ok NoMemory
  | 13 => Ok NotADirectory
  | 14 => Ok NotConnected
  | 15 => Ok NotFound
  | 16 => Ok PermissionDenied
  | 17 => Ok ResourceBusy
  | 18 => Ok StorageFull
  | 19 => Ok UnexpectedEof
  | 20 => Ok Unsupported
  | 21 => Ok WouldBlock
  | 22 => Ok WriteZero
  | _ => Err value
  end.

(** [LinuxError::code]. *)
Definition code (e : LinuxError) : Z :=
  match e with
  | EPERM => 1   | ENOENT => 2   | ESRCH => 3   | EINTR => 4
  | EIO => 5   | ENXIO => 6   | E2BIG => 7   | ENOEXEC => 8
  | EBADF => 9   | ECHILD => 10   | EAGAIN => 11   | ENOMEM => 12
  | EACCES => 13   | EFAULT => 14   | ENOTBLK => 15   | EBUSY => 16
  | EEXIST => 17   | EXDEV => 18   | ENODEV => 19   | ENOTDIR => 20
  | EISDIR => 21   | EINVAL => 22   | ENFILE => 23   | EMFILE => 24
  | ENOTTY => 25   | ETXTBSY => 26   | EFBIG => 27   | ENOSPC => 28
  | ESPIPE => 29   | EROFS => 30   | EMLINK => 31   | EPIPE => 32
  | EDOM => 33   | ERANGE => 34   | EDEADLK => 35   | ENAMETOOLONG => 36
  | ENOLCK => 37   | ENOSYS => 38   | ENOTEMPTY => 39   | ELOOP => 40
  | ENOMSG => 42   | EIDRM => 43   | ECHRNG => 44   | EL2NSYNC => 45
  | EL3HLT => 46   | EL3RST => 47   | ELNRNG => 48   | EUNATCH => 49
  | ENOCSI => 50   | EL2HLT => 51   | EBADE => 52   | EBADR => 53
  | EXFULL => 54   | ENOANO => 55   | EBADRQC => 56   | EBADSLT => 57
  | EBFONT => 59   | ENOSTR => 60   | ENODATA => 61   | ETIME => 62
  | ENOSR => 63   | ENONET => 64   | ENOPKG => 65   | EREMOTE => 66
  | ENOLINK => 67   | EADV => 68   | ESRMNT => 69   | ECOMM => 70
  | EPROTO => 71   | EMULTIHOP => 72   | EDOTDOT => 73   | EBADMSG => 74
  | EOVERFLOW => 75   | ENOTUNIQ => 76   | EBADFD => 77   | EREMCHG => 78
  | ELIBACC => 79   | ELIBBAD => 80   | ELIBSCN => 81   | ELIBMAX => 82
  | ELIBEXEC => 83   | EILSEQ => 84   | ERESTART => 85   | ESTRPIPE => 86
  | EUSERS => 87   | ENOTSOCK => 88   | EDESTADDRREQ => 89   | EMSGSIZE => 90
  | EPROTOTYPE => 91   | ENOPROTOOPT => 92   | EPROTONOSUPPORT => 93   | ESOCKTNOSUPPORT => 94
  | EOPNOTSUPP => 95   | EPFNOSUPPORT => 96   | EAFNOSUPPORT => 97   | EADDRINUSE => 98
  | EADDRNOTAVAIL => 99   | ENETDOWN => 100   | ENETUNREACH => 101   | ENETRESET => 102
  | ECONNABORTED => 103   | ECONNRESET => 104   | ENOBUFS => 105   | EISCONN => 106
  | ENOTCONN => 107   | ESHUTDOWN => 108   | ETOOMANYREFS => 109   | ETIMEDOUT => 110
  | ECONNREFUSED => 111   | EHOSTDOWN => 112   | EHOSTUNREACH => 113   | EALREADY => 114
  | EINPROGRESS => 115   | ESTALE => 116   | EUCLEAN => 117   | ENOTNAM => 118
  | ENAVAIL => 119   | EISNAM => 120   | EREMOTEIO => 121   | EDQUOT => 122
  | ENOMEDIUM => 123   | EMEDIUMTYPE => 124   | ECANCELED => 125   | ENOKEY => 126
  | EKEYEXPIRED => 127   | EKEYREVOKED => 128   | EKEYREJECTED => 129   | EOWNERDEAD => 130
  | ENOTRECOVERABLE => 131   | ERFKILL => 132   | EHWPOISON => 133
  end.

(** [LinuxError::try_from(i32)]. *)
Definition try_from (value : Z) : result LinuxError Z :=
  match value with
  | 1 => Ok EPERM   | 2 => Ok ENOENT   | 3 => Ok ESRCH   | 4 => Ok EINTR
  | 5 => Ok EIO   | 6 => Ok ENXIO   | 7 => Ok E2BIG   | 8 => Ok ENOEXEC
  | 9 => Ok EBADF   | 10 => Ok ECHILD   | 11 => Ok EAGAIN   | 12 => Ok ENOMEM
  | 13 => Ok EACCES   | 14 => Ok EFAULT   | 15 => Ok ENOTBLK   | 16 => Ok EBUSY
  | 17 => Ok EEXIST   | 18 => Ok EXDEV   | 19 => Ok ENODEV   | 20 => Ok ENOTDIR
  | 21 => Ok EISDIR   | 22 => Ok EINVAL   | 23 => Ok ENFILE   | 24 => Ok EMFILE
  | 25 => Ok ENOTTY   | 26 => Ok ETXTBSY   | 27 => Ok EFBIG   | 28 => Ok ENOSPC
  | 29 => Ok ESPIPE   | 30 => Ok EROFS   | 31 => Ok EMLINK   | 32 => Ok EPIPE
  | 33 => Ok EDOM   | 34 => Ok ERANGE   | 35 => Ok EDEADLK   | 36 => Ok ENAMETOOLONG
  | 37 => Ok ENOLCK   | 38 => Ok ENOSYS   | 39 => Ok ENOTEMPTY   | 40 => Ok ELOOP
  | 42 => Ok ENOMSG   | 43 => Ok EIDRM   | 44 => Ok ECHRNG   | 45 => Ok EL2NSYNC
  | 46 => Ok EL3HLT   | 47 => Ok EL3RST   | 48 => Ok ELNRNG   | 49 => Ok EUNATCH
  | 50 => Ok ENOCSI   | 51 => Ok EL2HLT   | 52 => Ok EBADE   | 53 => Ok EBADR
  | 54 => Ok EXFULL   | 55 => Ok ENOANO   | 56 => Ok EBADRQC   | 57 => Ok EBADSLT
  | 59 => Ok EBFONT   | 60 => Ok ENOSTR   | 61 => Ok ENODATA   | 62 => Ok ETIME
  | 63 => Ok ENOSR   | 64 => Ok ENONET   | 65 => Ok ENOPKG   | 66 => Ok EREMOTE
  | 67 => Ok ENOLINK   | 68 => Ok EADV   | 69 => Ok ESRMNT   | 70 => Ok ECOMM
  | 71 => Ok EPROTO   | 72 => Ok EMULTIHOP   | 73 => Ok EDOTDOT   | 74 => Ok EBADMSG
  | 75 => Ok EOVERFLOW   | 76 => Ok ENOTUNIQ   | 77 => Ok EBADFD   | 78 => Ok EREMCHG
  | 79 => Ok ELIBACC   | 80 => Ok ELIBBAD   | 81 => Ok ELIBSCN   | 82 => Ok ELIBMAX
  | 83 => Ok ELIBEXEC   | 84 => Ok EILSEQ   | 85 => Ok ERESTART   | 86 => Ok ESTRPIPE
  | 87 => Ok EUSERS   | 88 => Ok ENOTSOCK   | 89 => Ok EDESTADDRREQ   | 90 => Ok EMSGSIZE
  | 91 => Ok EPROTOTYPE   | 92 => Ok ENOPROTOOPT   | 93 => Ok EPROTONOSUPPORT   | 94 => Ok ESOCKTNOSUPPORT
  | 95 => Ok EOPNOTSUPP   | 96 => Ok EPFNOSUPPORT   | 97 => Ok EAFNOSUPPORT   | 98 => Ok EADDRINUSE
  | 99 => Ok EADDRNOTAVAIL   | 100 => Ok ENETDOWN   | 101 => Ok ENETUNREACH   | 102 => Ok ENETRESET
  | 103 => Ok ECONNABORTED   | 104 => Ok ECONNRESET   | 105 => Ok ENOBUFS   | 106 => Ok EISCONN
  | 107 => Ok ENOTCONN   | 108 => Ok ESHUTDOWN   | 109 => Ok ETOOMANYREFS   | 110 => Ok ETIMEDOUT
  | 111 => Ok ECONNREFUSED   | 112 => Ok EHOSTDOWN   | 113 => Ok EHOSTUNREACH   | 114 => Ok EALREADY
  | 115 => Ok EINPROGRESS   | 116 => Ok ESTALE   | 117 => Ok EUCLEAN   | 118 => Ok ENOTNAM
  | 119 => Ok ENAVAIL   | 120 => Ok EISNAM   | 121 => Ok EREMOTEIO   | 122 => Ok EDQUOT
  | 123 => Ok ENOMEDIUM   | 124 => Ok EMEDIUMTYPE   | 125 => Ok ECANCELED   | 126 => Ok ENOKEY
  | 127 => Ok EKEYEXPIRED   | 128 => Ok EKEYREVOKED   | 129 => Ok EKEYREJECTED   | 130 => Ok EOWNERDEAD
  | 131 => Ok ENOTRECOVERABLE   | 132 => Ok ERFKILL   | 133 => Ok EHWPOISON
  | _ => Err value
  end.

(** [impl From<AxError> for LinuxError]. *)
Definition ax_to_linux (e : AxError) : LinuxError :=
  match e with
  | AddrInUse => EADDRINUSE
  | AlreadyExists => EEXIST
  | BadAddress | BadState => EFAULT
  | ConnectionRefused => ECONNREFUSED
  | ConnectionReset => ECONNRESET
  | DirectoryNotEmpty => ENOTEMPTY
  | InvalidInput | InvalidData => EINVAL
  | Io => EIO
  | IsADirectory => EISDIR
  | NoMemory => ENOMEM
  | NotADirectory => ENOTDIR
  | NotConnected => ENOTCONN
  | NotFound => ENOENT
  | PermissionDenied => EACCES
  | ResourceBusy => EBUSY
  | StorageFull => ENOSPC
  | Unsupported => ENOSYS
  | UnexpectedEof | WriteZero => EIO
  | WouldBlock => EAGAIN
  end.

(** [AxError] converted by [?] inside a [LinuxResult] body. *)
Definition ax_result {A} (r : result A AxError) : result A LinuxError :=
  res_map_err ax_to_linux r.

(** The macro [syscall_body!]: the value of an [Ok] and the negated code of an
    [Err], both converted ([as _]) to the return type of the caller. *)
Definition syscall_body (cast : Z -> Z) (res : result Z LinuxError) : Z :=
  match res with
  | Ok v => cast v
  | Err e => cast (- code e)
  end.

(** The same macro around a stateful body: a panic stays a panic. *)
Definition syscall_run {S} (cast : Z -> Z) (body : M S LinuxError Z) (s : S) : outcome (Z * S) :=
  match body s with
  | Ret (r, s') => Ret (syscall_body cast r, s')
  | Panic => Panic
  end.

(** * Properties *)

Lemma code_bounds e : 1 <= code e <= 133.
Proof. destruct e; cbn; lia. Qed.

Lemma try_from_code e : try_from (code e) = Ok e.
Proof. destruct e; reflexivity. Qed.

Lemma code_inj e1 e2 : code e1 = code e2 -> e1 = e2.
Proof. intros H. enough (Ok (E:=Z) e1 = Ok e2) as [=] by done. by rewrite <- !try_from_code, H. Qed.

#[export] Instance LinuxError_eq_dec : EqDecision LinuxError.
Proof.
  intros e1 e2. destruct (decide (code e1 = code e2)) as [H|H].
  - left. by apply code_inj.
  - right. intros ->. done.
Defined.

Lemma AxError_try_from_code e : AxError_try_from (AxError_code e) = Ok e.
Proof. destruct e; reflexivity. Qed.

#[export] Instance AxError_eq_dec : EqDecision AxError.
Proof. solve_decision. Defined.

(** An error return of a system call is a number of [-4095, -1] that determines
    the error. *)
Lemma syscall_body_i64_err e : syscall_body as_i64 (Err e) = - code e.
Proof. destruct e; reflexivity. Qed.

Lemma syscall_body_i32_err e : syscall_body as_i32 (Err e) = - code e.
Proof. destruct e; reflexivity. Qed.

#[export] Hint Rewrite syscall_body_i64_err syscall_body_i32_err : starry.
