(* ===== verification/MemAddr.v ===== *)
(** Addresses, alignment and address ranges: vendor/memory_addr (lib.rs, addr.rs,
    range.rs, iter.rs), the arithmetic every memory component is written in. *)
From S2P Require Import Prelude.

(** * Alignment (memory_addr/src/lib.rs) *)

Definition align_down (addr align : Z) : Z := Z.land addr (not64 (align -w 1)).
Definition align_up (addr align : Z) : Z := Z.land ((addr +w align) -w 1) (not64 (align -w 1)).
Definition align_offset (addr align : Z) : Z := Z.land addr (align -w 1).
Definition is_aligned (addr align : Z) : bool := align_offset addr align =? 0.

Definition align_down_4k (addr : Z) : Z := align_down addr PAGE_SIZE_4K.
Definition align_up_4k (addr : Z) : Z := align_up addr PAGE_SIZE_4K.
Definition align_offset_4k (addr : Z) : Z := align_offset addr PAGE_SIZE_4K.
Definition is_aligned_4k (addr : Z) : bool := is_aligned addr PAGE_SIZE_4K.

(** * Address ranges (memory_addr/src/range.rs) *)

(** [AddrRange]: the half-open range [start, end). *)
Record AddrRange := mkRange { r_start : Z; r_end : Z }.

(** [AddrRange::from_start_size]: panics when [start + size] overflows. *)
Definition from_start_size {S E} (start size : Z) : M S E AddrRange :=
  match checked_add start size with
  | Some e => M_ret (mkRange start e)
  | None => panic
  end.

(** [AddrRange::try_from_start_size]. *)
Definition try_from_start_size (start size : Z) : option AddrRange :=
  match checked_add start size with
  | Some e => Some (mkRange start e)
  | None => None
  end.

Definition r_is_empty (r : AddrRange) : bool := r_end r <=? r_start r.
Definition r_size (r : AddrRange) : Z := r_end r -w r_start r.
Definition r_contains (r : AddrRange) (a : Z) : bool := (r_start r <=? a) && (a <? r_end r).
Definition contains_range (r other : AddrRange) : bool :=
  (r_start r <=? r_start other) && (r_end other <=? r_end r).
Definition contained_in (r other : AddrRange) : bool := contains_range other r.
Definition overlaps (r other : AddrRange) : bool :=
  (r_start r <? r_end other) && (r_start other <? r_end r).

(** * Page iterators (memory_addr/src/iter.rs) *)

(** The addresses [start, start + 4096, ...] below [end] that a [PageIter4K]
    yields; [n] bounds the number of pages. *)
Fixpoint pages_from (start : Z) (n : nat) : list Z :=
  match n with
  | O => []
  | S n' => start :: pages_from (start + PAGE_SIZE_4K) n'
  end.

(** [PageIter4K::new(start, end)] run to its end. *)
Definition PageIter4K (start end_ : Z) : option (list Z) :=
  if is_aligned_4k start && is_aligned_4k end_
  then Some (pages_from start (Z.to_nat ((end_ - start) / PAGE_SIZE_4K)))
  else None.

(** * Properties *)

Lemma land_high_mask a k :
  0 <= k <= 64 -> is_usize a -> Z.land a (not64 (2 ^ k - 1)) = a / 2 ^ k * 2 ^ k.
Proof.
  intros Hk Ha. unfold not64, is_usize in *.
  replace (USIZE - 1 - (2 ^ k - 1)) with (Z.shiftl (Z.ones (64 - k)) k).
  2: { rewrite Z.shiftl_mul_pow2, Z.ones_equiv by lia.
       change USIZE with (2 ^ 64). replace (2 ^ 64) with (2 ^ (64 - k) * 2 ^ k).
       - lia.
       - rewrite <- Z.pow_add_r by lia. f_equal. lia. }
  replace (Z.land a (Z.shiftl (Z.ones (64 - k)) k))
    with (Z.shiftl (Z.land (Z.shiftr a k) (Z.ones (64 - k))) k).
  2: { apply Z.bits_inj'. intros n Hn. rewrite Z.land_spec, !Z.shiftl_spec by lia.
       destruct (Z.ltb_spec n k).
       - rewrite !(Z.testbit_neg_r _ (n - k)) by lia. by rewrite andb_false_r.
       - rewrite Z.land_spec, Z.shiftr_spec by lia. do 2 f_equal. lia. }
  rewrite Z.land_ones, Z.shiftr_div_pow2, Z.shiftl_mul_pow2 by lia.
  rewrite Z.mod_small; [reflexivity|].
  assert (0 < 2 ^ k) by (apply Z.pow_pos_nonneg; lia).
  split; [apply Z.div_pos; lia|]. apply Z.div_lt_upper_bound; [lia|].
  rewrite <- Z.pow_add_r by lia. replace (k + (64 - k)) with 64 by lia.
  change (2 ^ 64) with USIZE. lia.
Qed.

Lemma align_down_4k_spec a :
  is_usize a -> align_down_4k a = a / PAGE_SIZE_4K * PAGE_SIZE_4K.
Proof. intros H. exact (land_high_mask a 12 ltac:(lia) H). Qed.

Lemma align_up_4k_wrap a :
  align_up_4k a = wrap (a + 4095) / PAGE_SIZE_4K * PAGE_SIZE_4K.
Proof.
  unfold align_up_4k, align_up. change (PAGE_SIZE_4K -w 1) with (2 ^ 12 - 1).
  rewrite land_high_mask; [|lia|apply wrap_range].
  change (2 ^ 12) with PAGE_SIZE_4K. do 2 f_equal.
  unfold wsub, wadd, wrap. rewrite Zminus_mod_idemp_l. f_equal. lia.
Qed.

Lemma align_up_4k_spec a :
  0 <= a <= USIZE - PAGE_SIZE_4K -> align_up_4k a = (a + 4095) / PAGE_SIZE_4K * PAGE_SIZE_4K.
Proof. intros H. rewrite align_up_4k_wrap, wrap_small by lia. reflexivity. Qed.

Lemma align_offset_4k_spec a : align_offset_4k a = a mod PAGE_SIZE_4K.
Proof. unfold align_offset_4k, align_offset. exact (Z.land_ones a 12 ltac:(lia)). Qed.

Lemma is_aligned_4k_spec a : is_aligned_4k a = true <-> a mod PAGE_SIZE_4K = 0.
Proof.
  unfold is_aligned_4k, is_aligned. fold (align_offset_4k a).
  rewrite align_offset_4k_spec. apply Z.eqb_eq.
Qed.

Lemma align_down_4k_le a : is_usize a -> align_down_4k a <= a < align_down_4k a + PAGE_SIZE_4K.
Proof. intros H. rewrite align_down_4k_spec by done. lia. Qed.

Lemma align_down_4k_mod a : is_usize a -> align_down_4k a mod PAGE_SIZE_4K = 0.
Proof. intros H. rewrite align_down_4k_spec by done. apply Z.mod_mul. lia. Qed.

Lemma align_up_4k_bounds a :
  0 <= a <= USIZE - PAGE_SIZE_4K -> a <= align_up_4k a < a + PAGE_SIZE_4K.
Proof. intros H. rewrite align_up_4k_spec by done. lia. Qed.

Lemma align_up_4k_mod a : align_up_4k a mod PAGE_SIZE_4K = 0.
Proof. rewrite align_up_4k_wrap. apply Z.mod_mul. lia. Qed.

Lemma align_up_4k_id a :
  0 <= a <= USIZE - PAGE_SIZE_4K -> a mod PAGE_SIZE_4K = 0 -> align_up_4k a = a.
Proof. intros H Ha. rewrite align_up_4k_spec by done. lia. Qed.

Lemma align_down_4k_id a : is_usize a -> a mod PAGE_SIZE_4K = 0 -> align_down_4k a = a.
Proof. intros H Ha. rewrite align_down_4k_spec by done. lia. Qed.

Lemma from_start_size_Ret {S E} start size (s : S) r s' :
  from_start_size (E:=E) start size s = Ret (r, s') ->
  r = Ok (mkRange start (start + size)) /\ s' = s /\ start + size < USIZE.
Proof.
  unfold from_start_size, checked_add.
  destruct (Z.ltb_spec (start + size) USIZE); [|discriminate].
  cbn. intros [= <- <-]. done.
Qed.

Lemma r_contains_spec r a : r_contains r a = true <-> r_start r <= a < r_end r.
Proof. unfold r_contains. rewrite andb_true_iff, Z.leb_le, Z.ltb_lt. done. Qed.

Lemma contains_range_spec r o :
  contains_range r o = true <-> r_start r <= r_start o /\ r_end o <= r_end r.
Proof. unfold contains_range. rewrite andb_true_iff, !Z.leb_le. done. Qed.

Lemma overlaps_spec r o :
  overlaps r o = true <-> r_start r < r_end o /\ r_start o < r_end r.
Proof. unfold overlaps. rewrite andb_true_iff, !Z.ltb_lt. done. Qed.

(** Two non-empty ranges overlap exactly when they share an address. *)
Lemma overlaps_shared r o :
  r_start r < r_end r -> r_start o < r_end o ->
  overlaps r o = true <-> exists a, r_contains r a = true /\ r_contains o a = true.
Proof.
  intros Hr Ho. rewrite overlaps_spec. setoid_rewrite r_contains_spec. split.
  - intros [??]. exists (Z.max (r_start r) (r_start o)). lia.
  - intros (a & ? & ?). lia.
Qed.

Lemma length_pages_from s n : length (pages_from s n) = n.
Proof. revert s. induction n as [|n IH]; intros s; cbn; [done|]. by rewrite IH. Qed.

Lemma elem_of_pages_from s n a :
  a ∈ pages_from s n <-> exists i, (i < n)%nat /\ a = s + Z.of_nat i * PAGE_SIZE_4K.
Proof.
  revert s. induction n as [|n IH]; intros s; cbn [pages_from].
  - rewrite elem_of_nil. split; [done|]. intros (i & ? & _). lia.
  - rewrite elem_of_cons, IH. split.
    + intros [->|(i & Hi & ->)]; [exists 0%nat; lia | exists (S i); lia].
    + intros ([|i] & Hi & ->); [left; lia | right; exists i; lia].
Qed.

Lemma pages_from_app s n m :
  pages_from s (n + m) = pages_from s n ++ pages_from (s + Z.of_nat n * PAGE_SIZE_4K) m.
Proof.
  revert s. induction n as [|n IH]; intros s; cbn [pages_from Nat.add app].
  - f_equal. lia.
  - rewrite IH. do 3 f_equal. lia.
Qed.

Lemma NoDup_pages_from s n : NoDup (pages_from s n).
Proof.
  revert s. induction n as [|n IH]; intros s; cbn; constructor; [|apply IH].
  rewrite elem_of_pages_from. intros (i & ? & ?). lia.
Qed.

Lemma PageIter4K_aligned s e :
  s mod PAGE_SIZE_4K = 0 -> e mod PAGE_SIZE_4K = 0 ->
  PageIter4K s e = Some (pages_from s (Z.to_nat ((e - s) / PAGE_SIZE_4K))).
Proof.
  intros Hs He. unfold PageIter4K.
  apply is_aligned_4k_spec in Hs, He. by rewrite Hs, He.
Qed.

(** The pages of an aligned range are exactly its aligned addresses. *)
Lemma elem_of_PageIter4K s e l a :
  PageIter4K s e = Some l -> a ∈ l <-> s <= a < e /\ a mod PAGE_SIZE_4K = 0.
Proof.
  unfold PageIter4K. destruct (is_aligned_4k s && is_aligned_4k e)%bool eqn:H; [|done].
  apply andb_true_iff in H as [Hs He].
  rewrite is_aligned_4k_spec in Hs, He. intros [= <-].
  rewrite elem_of_pages_from. split.
  - intros (i & ? & ->). lia.
  - intros [? Ha]. exists (Z.to_nat ((a - s) / PAGE_SIZE_4K)). lia.
Qed.

#[export] Hint Resolve align_down_4k_mod align_up_4k_mod NoDup_pages_from : starry.
#[export] Hint Rewrite align_offset_4k_spec : starry.
