(* ===== verification/Frames.v ===== *)
(** Physical frames: the page side of the global allocator (axalloc), its
    interface to the memory-management code, the bitmap allocator that implements
    it (vendor/allocator/src/bitmap.rs over vendor/bitmap-allocator), the linear
    mapping of axhal/src/mem.rs, and the frame functions of
    axmm/src/backend/alloc.rs. *)
From S2P Require Import Prelude MemAddr.

(** [PHYS_VIRT_OFFSET] of the riscv64-qemu-virt platform. *)
Abbreviation PHYS_VIRT_OFFSET := 18446743798831644672.

Definition virt_to_phys (vaddr : Z) : Z := vaddr -w PHYS_VIRT_OFFSET.
Definition phys_to_virt (paddr : Z) : Z := paddr +w PHYS_VIRT_OFFSET.

(** * The allocator interface

    What [GlobalAllocator::alloc_pages(1, PAGE_SIZE)] and
    [dealloc_pages(pos, 1)] promise to their clients. Addresses are kernel
    virtual addresses of the linear mapping. *)
Class FrameAllocator (FA : Type) := {
  fa_alloc : FA -> option (Z * FA);
  fa_dealloc : Z -> FA -> FA;
  (** Ghost: the pages handed out and not given back. *)
  fa_used : FA -> gset Z;
  (** The representation invariant of the allocator. *)
  fa_wf : FA -> Prop;
}.

(** A page the allocator can hand out: aligned, in the linear mapping, and not
    physical page 0. *)
Definition frame_ok (v : Z) : Prop :=
  PHYS_VIRT_OFFSET < v /\ v + PAGE_SIZE_4K <= USIZE /\ v mod PAGE_SIZE_4K = 0.

Class FrameAllocatorLaws (FA : Type) `{FrameAllocator FA} := {
  fa_alloc_spec fa v fa' :
    fa_wf fa -> fa_alloc fa = Some (v, fa') ->
    fa_wf fa' /\ (v ∉ fa_used fa) /\ fa_used fa' = {[v]} ∪ fa_used fa /\ frame_ok v;
  fa_dealloc_spec fa v :
    fa_wf fa -> v ∈ fa_used fa ->
    fa_wf (fa_dealloc v fa) /\ fa_used (fa_dealloc v fa) = fa_used fa ∖ {[v]};
}.

(** * The bitmap page allocator *)

(** [BitmapPageAllocator]: bit [i] of [inner] set means that page [i] is free. *)
Record BitmapPageAllocator := mkBPA {
  base : Z;
  total_pages : Z;
  used_pages : Z;
  inner : list bool;
}.

(** [BitAlloc::alloc]: the lowest set bit ([trailing_zeros] at every level of the
    cascade), cleared. *)
Fixpoint first_set (l : list bool) : option nat :=
  match l with
  | [] => None
  | true :: _ => Some O
  | false :: l' => S <$> first_set l'
  end.

(** [alloc_pages(1, PAGE_SIZE)]. *)
Definition bpa_alloc (a : BitmapPageAllocator) : option (Z * BitmapPageAllocator) :=
  match first_set (inner a) with
  | Some idx =>
      Some (Z.of_nat idx * PAGE_SIZE_4K +w base a,
            mkBPA (base a) (total_pages a) (used_pages a +w 1) (<[idx := false]> (inner a)))
  | None => None
  end.

(** [dealloc_pages(pos, 1)]; [inner.dealloc] reports whether the bit was clear. *)
Definition bpa_dealloc (pos : Z) (a : BitmapPageAllocator) : BitmapPageAllocator :=
  let idx := Z.to_nat ((pos -w base a) / PAGE_SIZE_4K) in
  let success := negb (default true (inner a !! idx)) in
  mkBPA (base a) (total_pages a)
    (if success then used_pages a -w 1 else used_pages a)
    (<[idx := true]> (inner a)).

(** [init(start, size)]: the region's pages are inserted as free. *)
Definition bpa_init (capacity : nat) (start size : Z) : BitmapPageAllocator :=
  let e := align_down (start +w size) PAGE_SIZE_4K in
  let s := align_up start PAGE_SIZE_4K in
  let total := (e -w s) / PAGE_SIZE_4K in
  let b := align_down s 1073741824 in
  let start_idx := (s -w b) / PAGE_SIZE_4K in
  mkBPA b total 0
    ((fun i => (start_idx <=? Z.of_nat i) && (Z.of_nat i <? start_idx + total))
       <$> seq 0 capacity).

(** The pages of the bitmap that are not free. *)
Definition bpa_used (a : BitmapPageAllocator) : gset Z :=
  list_to_set (omap (fun i => if default true (inner a !! i) then None
                              else Some (base a + Z.of_nat i * PAGE_SIZE_4K))
                    (seq 0 (length (inner a)))).

(** Every page of the bitmap is a valid frame. *)
Definition bpa_wf (a : BitmapPageAllocator) : Prop :=
  forall i, (i < length (inner a))%nat -> frame_ok (base a + Z.of_nat i * PAGE_SIZE_4K).

Arguments bpa_used : simpl never.

#[export] Instance BitmapPageAllocator_FA : FrameAllocator BitmapPageAllocator := {|
  fa_alloc := bpa_alloc;
  fa_dealloc := bpa_dealloc;
  fa_used := bpa_used;
  fa_wf := bpa_wf;
|}.

(** * The machine: allocator and memory *)

(** The allocator and the bytes of the linear mapping, indexed by kernel virtual
    address. *)
Record Mach (FA : Type) := mkMach { m_fa : FA; m_mem : bytes }.
Arguments mkMach {FA} _ _.
Arguments m_fa {FA} _.
Arguments m_mem {FA} _.

Section machine.
Context {FA : Type} `{FrameAllocator FA}.

(** [alloc_frame(zeroed)] of axmm/src/backend/alloc.rs. *)
Definition alloc_frame (zeroed : bool) (m : Mach FA) : option (Z * Mach FA) :=
  match fa_alloc (m_fa m) with
  | Some (vaddr, fa') =>
      let mem' := if zeroed then mem_zero vaddr 4096 (m_mem m) else m_mem m in
      Some (virt_to_phys vaddr, mkMach fa' mem')
  | None => None
  end.

(** [dealloc_frame(frame)]. *)
Definition dealloc_frame (frame : Z) (m : Mach FA) : Mach FA :=
  mkMach (fa_dealloc (phys_to_virt frame) (m_fa m)) (m_mem m).

(** Physical frames in use. *)
Definition frame_used (m : Mach FA) (p : Z) : Prop := phys_to_virt p ∈ fa_used (m_fa m).

(** Two machines agree on the bytes of every frame in use in the first. *)
Definition same_used_bytes (m m' : Mach FA) : Prop :=
  forall p i, frame_used m p -> 0 <= i < PAGE_SIZE_4K ->
    m_mem m' (phys_to_virt p + i) = m_mem m (phys_to_virt p + i).

Definition mach_wf (m : Mach FA) : Prop :=
  fa_wf (m_fa m) /\ forall v, v ∈ fa_used (m_fa m) -> frame_ok v.
End machine.

(** A physical frame address as [virt_to_phys] of an allocated page. *)
Definition pframe_ok (p : Z) : Prop :=
  0 < p /\ p + PAGE_SIZE_4K <= 274877906944 /\ p mod PAGE_SIZE_4K = 0.

(** * Properties *)

Lemma first_set_Some l i :
  first_set l = Some i <->
  l !! i = Some true /\ forall j, (j < i)%nat -> l !! j = Some false.
Proof.
  revert i. induction l as [|[] l IH]; intros i; cbn.
  - split; [done|]. intros [? _]. done.
  - split.
    + intros [= <-]. split; [done|]. lia.
    + destruct i as [|i]; [done|]. intros [_ Hj]. specialize (Hj 0%nat ltac:(lia)). done.
  - split.
    + destruct (first_set l) as [k|] eqn:E; [|done]. cbn. intros [= <-].
      destruct (proj1 (IH k) eq_refl) as [Hk Hj]. split; [done|].
      intros [|j] ?; [done|]. apply Hj. lia.
    + intros [Hi Hj]. destruct i as [|i]; [done|].
      rewrite (proj2 (IH i)); [done|]. split; [done|].
      intros j Hlt. apply (Hj (S j)). lia.
Qed.

Lemma elem_of_bpa_used a v :
  v ∈ bpa_used a <->
  exists i, inner a !! i = Some false /\ v = base a + Z.of_nat i * PAGE_SIZE_4K.
Proof.
  unfold bpa_used. rewrite elem_of_list_to_set, list_elem_of_omap. split.
  - intros (i & _ & Hi). destruct (inner a !! i) as [[]|] eqn:E; cbn in Hi; try done.
    exists i. split; [done|]. congruence.
  - intros (i & Hi & ->). exists i. rewrite Hi. split; [|done].
    apply elem_of_seq. apply lookup_lt_Some in Hi. lia.
Qed.

#[export] Instance BitmapPageAllocator_laws : FrameAllocatorLaws BitmapPageAllocator.
Proof.
  split.
  - intros a v a' Hwf. cbn. unfold bpa_alloc.
    destruct (first_set (inner a)) as [idx|] eqn:E; [|done]. intros [= <- <-].
    apply first_set_Some in E as [Hidx _].
    pose proof (lookup_lt_Some _ _ _ Hidx) as Hlt. pose proof (Hwf idx Hlt) as Hok.
    assert (Hv : Z.of_nat idx * PAGE_SIZE_4K +w base a = base a + Z.of_nat idx * PAGE_SIZE_4K).
    { unfold frame_ok in Hok. rewrite wadd_small by lia. lia. }
    rewrite Hv. split_and!; [| | |done].
    + intros i Hi. cbn in *. rewrite length_insert in Hi. by apply Hwf.
    + rewrite elem_of_bpa_used. intros (i & Hi & Heq). assert (i = idx) as -> by lia. congruence.
    + apply set_eq. intros w. cbn. rewrite elem_of_union, elem_of_singleton, !elem_of_bpa_used.
      cbn [inner base]. split.
      * intros (i & Hi & ->). destruct (decide (i = idx)) as [->|Hne]; [by left|].
        right. exists i. rewrite list_lookup_insert_ne in Hi by done. done.
      * intros [->|(i & Hi & ->)].
        -- exists idx. by rewrite list_lookup_insert_eq by done.
        -- exists i. rewrite list_lookup_insert_ne by congruence. done.
  - intros a v Hwf Hv. cbn in *. apply elem_of_bpa_used in Hv as (i & Hi & ->).
    pose proof (lookup_lt_Some _ _ _ Hi) as Hlt. pose proof (Hwf i Hlt) as Hok.
    pose proof (Hwf 0%nat ltac:(lia)) as Hok0. unfold frame_ok in Hok, Hok0.
    unfold bpa_dealloc.
    assert (Z.to_nat ((base a + Z.of_nat i * PAGE_SIZE_4K -w base a) / PAGE_SIZE_4K) = i) as ->.
    { rewrite wsub_small by lia. lia. }
    split.
    + intros j Hj. cbn in *. rewrite length_insert in Hj. by apply Hwf.
    + apply set_eq. intros w. cbn. rewrite elem_of_difference, elem_of_singleton, !elem_of_bpa_used.
      cbn [inner base]. split.
      * intros (j & Hj & ->). destruct (decide (j = i)) as [->|Hne].
        -- rewrite list_lookup_insert_eq in Hj by done. done.
        -- rewrite list_lookup_insert_ne in Hj by done. split; [by exists j|]. lia.
      * intros [(j & Hj & ->) Hne]. exists j. rewrite list_lookup_insert_ne by (intros ->; lia). done.
Qed.

Lemma phys_to_virt_ok p : 0 <= p < 274877906944 -> phys_to_virt p = p + PHYS_VIRT_OFFSET.
Proof. intros. unfold phys_to_virt. apply wadd_small. lia. Qed.

Lemma virt_to_phys_frame v :
  frame_ok v -> pframe_ok (virt_to_phys v) /\ phys_to_virt (virt_to_phys v) = v.
Proof.
  intros (H1 & H2 & H3). unfold virt_to_phys. rewrite wsub_small by lia.
  split; [unfold pframe_ok; lia|]. rewrite phys_to_virt_ok; lia.
Qed.

Section machine_props.
Context {FA : Type} `{FrameAllocatorLaws FA}.
Implicit Types m : Mach FA.

(** Two distinct frames occupy disjoint bytes of the linear mapping. *)
Lemma frames_disjoint p q i j :
  pframe_ok p -> pframe_ok q -> p <> q ->
  0 <= i < PAGE_SIZE_4K -> 0 <= j < PAGE_SIZE_4K ->
  phys_to_virt p + i <> phys_to_virt q + j.
Proof.
  intros (? & ? & Hp) (? & ? & Hq) Hne Hi Hj. rewrite !phys_to_virt_ok by lia. lia.
Qed.

Lemma phys_to_virt_inj p q :
  pframe_ok p -> pframe_ok q -> phys_to_virt p = phys_to_virt q -> p = q.
Proof. intros (? & ? & _) (? & ? & _). rewrite !phys_to_virt_ok by lia. lia. Qed.

(** Allocation returns a fresh, zeroed frame and leaves the bytes of the frames
    in use alone. *)
Lemma alloc_frame_spec m p m' :
  mach_wf m -> alloc_frame true m = Some (p, m') ->
  mach_wf m' /\ pframe_ok p /\ ~ frame_used m p /\
  (forall q, frame_used m' q <-> phys_to_virt q = phys_to_virt p \/ frame_used m q) /\
  same_used_bytes m m' /\
  (forall i, 0 <= i < PAGE_SIZE_4K -> m_mem m' (phys_to_virt p + i) = 0).
Proof.
  intros [Hwf Hok]. unfold alloc_frame.
  destruct (fa_alloc (m_fa m)) as [[v fa']|] eqn:E; [|done]. intros [= <- <-].
  apply fa_alloc_spec in E as (Hwf' & Hfresh & Hused & Hv); [|done].
  destruct (virt_to_phys_frame v Hv) as [Hp Hpv].
  unfold frame_used, same_used_bytes. rewrite Hpv. cbn. split_and!; try done.
  - split; [done|]. cbn. intros w. rewrite Hused. set_solver.
  - intros q. rewrite Hused. set_solver.
  - intros q i Hq Hi. apply mem_zero_out. apply Hok in Hq as Hq'.
    destruct Hv as (? & ? & ?), Hq' as (? & ? & ?).
    intros Hin. apply Hfresh. replace v with (phys_to_virt q) by lia. done.
  - intros i Hi. apply mem_zero_in. lia.
Qed.

Lemma alloc_frame_None m : alloc_frame true m = None -> fa_alloc (m_fa m) = None.
Proof. unfold alloc_frame. by destruct (fa_alloc (m_fa m)) as [[? ?]|]. Qed.

(** Freeing a frame in use only changes the allocator. *)
Lemma dealloc_frame_spec m p :
  mach_wf m -> frame_used m p ->
  mach_wf (dealloc_frame p m) /\
  (forall q, frame_used (dealloc_frame p m) q <->
     frame_used m q /\ phys_to_virt q <> phys_to_virt p) /\
  m_mem (dealloc_frame p m) = m_mem m.
Proof.
  intros [Hwf Hok] Hu.
  destruct (fa_dealloc_spec (m_fa m) (phys_to_virt p) Hwf Hu) as [Hwf' Hused].
  unfold frame_used, dealloc_frame in *. cbn. split_and!; [|set_solver|done].
  split; [done|]. cbn. intros v. rewrite Hused. set_solver.
Qed.
End machine_props.
