(* ===== verification/Heap.v ===== *)
(** The kernel heap: contiguous pages of the bitmap allocator
    (src/vendor/bitmap-allocator, src/vendor/allocator/src/bitmap.rs), and the two-level
    global allocator over it (src/arceos/modules/axalloc/src/lib.rs, page.rs). The TLSF
    pool inside the byte allocator is a parameter. *)
From S2P Require Import Prelude.
From S2P Require Import Errno.
From S2P Require Import MemAddr Frames.

Inductive AllocError := InvalidParam | MemoryOverlap | AllocNoMemory | NotAllocated.

(** * Runs of free pages (bitmap-allocator) *)

(** [next]: the first free bit at or after [key]. *)
Definition next_free (l : list bool) (key : nat) : option nat := (fun i => (key + i)%nat) <$> first_set (drop key l).
Definition align_up_log2 (b align_log2 : nat) : nat := ((b + (2 ^ align_log2 - 1)) / 2 ^ align_log2 * 2 ^ align_log2)%nat.

(** The loop of [find_contiguous]. The offset grows with every pass, so the capacity is
    fuel enough. *)
Fixpoint find_loop (fuel : nat) (l : list bool) (size align_log2 b offset : nat) : option nat :=
  match fuel with
  | O => None
  | S fuel =>
      if (offset <? length l)%nat then
        match next_free l offset with
        | None => None
        | Some next =>
            if (next =? offset)%nat then
              if (S offset - b =? size)%nat then Some b else find_loop fuel l size align_log2 b (S offset)
            else
              let b := (((next - 1) / 2 ^ align_log2 + 1) * 2 ^ align_log2)%nat in
              find_loop fuel l size align_log2 b b
        end
      else None
  end.
Definition find_contiguous (l : list bool) (size align_log2 : nat) : option nat :=
  if (length l <? 2 ^ align_log2)%nat || negb (existsb id l) then None
  else match next_free l 0 with
       | None => None
       | Some start => let b := align_up_log2 start align_log2 in find_loop (S (length l)) l size align_log2 b b
       end.
(** [remove] and [insert] of a range. *)
Definition set_range (b size : nat) (v : bool) (l : list bool) : list bool :=
  take b l ++ replicate (min size (length l - b)) v ++ drop (b + size) l.
Definition alloc_contiguous (size align_log2 : nat) (l : list bool) : option (nat * list bool) :=
  (fun b => (b, set_range b size false l)) <$> find_contiguous l size align_log2.

(** [dealloc_contiguous]: the range is freed leaf by leaf (16 bits each); a leaf with a
    free bit in the range stops the loop. *)
Fixpoint dealloc_leaves (n b e : nat) (l : list bool) : bool * list bool :=
  match n with
  | O => (true, l)
  | S n =>
      let m := min e ((b / 16 + 1) * 16) in
      if (b <? e)%nat then
        if existsb id (take (m - b) (drop b l)) then (false, l)
        else dealloc_leaves n m e (set_range b (m - b) true l)
      else (true, l)
  end.
Definition dealloc_contiguous (b size : nat) (l : list bool) : bool * list bool :=
  if (length l <? b + size)%nat then (false, l) else dealloc_leaves (S (size / 16) + 1) b (b + size) l.

(** * The page allocator (allocator/src/bitmap.rs) *)

Definition MAX_ALIGN_1GB : Z := 0x40000000.
(** [align_pow2] in pages: [None] when it is not acceptable. *)
Definition page_align (align_pow2 : Z) : option nat :=
  if (MAX_ALIGN_1GB <? align_pow2) || negb (align_pow2 mod PAGE_SIZE_4K =? 0) then None
  else let a := align_pow2 / PAGE_SIZE_4K in
       if (0 <? a) && (2 ^ Z.log2 a =? a) then Some (Z.to_nat (Z.log2 a)) else None.
Definition pa_alloc_pages (num_pages align_pow2 : Z) (a : BitmapPageAllocator) : result (Z * BitmapPageAllocator) AllocError :=
  match page_align align_pow2 with
  | None => Err InvalidParam
  | Some align_log2 =>
      if num_pages =? 1 then
        match bpa_alloc a with Some (p, a') => Ok (p, a') | None => Err AllocNoMemory end
      else if 1 <? num_pages then
        match alloc_contiguous (Z.to_nat num_pages) align_log2 (inner a) with
        | Some (idx, l) =>
            Ok (Z.of_nat idx * PAGE_SIZE_4K +w base a, mkBPA (base a) (total_pages a) (used_pages a +w num_pages) l)
        | None => Err AllocNoMemory
        end
      else Err InvalidParam
  end.
Definition pa_dealloc_pages (pos num_pages : Z) (a : BitmapPageAllocator) : outcome BitmapPageAllocator :=
  if negb (pos mod PAGE_SIZE_4K =? 0) then Panic
  else if num_pages =? 1 then Ret (bpa_dealloc pos a)
  else if 1 <? num_pages then
    let '(ok, l) := dealloc_contiguous (Z.to_nat ((pos -w base a) / PAGE_SIZE_4K)) (Z.to_nat num_pages) (inner a) in
    Ret (mkBPA (base a) (total_pages a) (if ok then used_pages a -w num_pages else used_pages a) l)
  else Ret a.
Definition pa_available_pages (a : BitmapPageAllocator) : Z := total_pages a -w used_pages a.

(** * The byte allocator (allocator/src/tlsf.rs) *)

(** [rlsf::Tlsf]: [insert_free_block_ptr], [allocate] and [deallocate]. *)
Class Tlsf (T : Type) := {
  tlsf_new : T;
  tlsf_insert : Z -> Z -> T -> option T;
  tlsf_allocate : Z -> Z -> T -> option (Z * T);
  tlsf_deallocate : Z -> Z -> T -> T;
}.

Section heap.
Context {T : Type} `{Tlsf T}.

Record TlsfByteAllocator := mkTlsf { tl_inner : T; total_bytes : Z; used_bytes : Z }.
Definition tl_new : TlsfByteAllocator := mkTlsf tlsf_new 0 0.
Definition tl_init (start size : Z) (b : TlsfByteAllocator) : outcome TlsfByteAllocator :=
  match tlsf_insert start size (tl_inner b) with
  | Some t => Ret (mkTlsf t size (used_bytes b))
  | None => Panic
  end.
Definition tl_add_memory (start size : Z) (b : TlsfByteAllocator) : result TlsfByteAllocator AllocError :=
  match tlsf_insert start size (tl_inner b) with
  | Some t => Ok (mkTlsf t (total_bytes b +w size) (used_bytes b))
  | None => Err InvalidParam
  end.
Definition tl_alloc (size align : Z) (b : TlsfByteAllocator) : option (Z * TlsfByteAllocator) :=
  match tlsf_allocate size align (tl_inner b) with
  | Some (p, t) => Some (p, mkTlsf t (total_bytes b) (used_bytes b +w size))
  | None => None
  end.
Definition tl_dealloc (pos size align : Z) (b : TlsfByteAllocator) : TlsfByteAllocator :=
  mkTlsf (tlsf_deallocate pos align (tl_inner b)) (total_bytes b) (used_bytes b -w size).
Definition tl_available_bytes (b : TlsfByteAllocator) : Z := total_bytes b -w used_bytes b.

(** * The global allocator (axalloc) *)

Record GlobalAllocator := mkGA { balloc : TlsfByteAllocator; palloc : BitmapPageAllocator }.
Definition MIN_HEAP_SIZE : Z := 0x8000.
Definition set_palloc (p : BitmapPageAllocator) (g : GlobalAllocator) : GlobalAllocator := mkGA (balloc g) p.
Definition set_balloc (b : TlsfByteAllocator) (g : GlobalAllocator) : GlobalAllocator := mkGA b (palloc g).

Definition ga_alloc_pages (num_pages align_pow2 : Z) (g : GlobalAllocator) : result (Z * GlobalAllocator) AllocError :=
  match pa_alloc_pages num_pages align_pow2 (palloc g) with
  | Ok (p, a) => Ok (p, set_palloc a g)
  | Err e => Err e
  end.
Definition ga_dealloc_pages (pos num_pages : Z) (g : GlobalAllocator) : outcome GlobalAllocator :=
  match pa_dealloc_pages pos num_pages (palloc g) with Ret a => Ret (set_palloc a g) | Panic => Panic end.
Definition ga_add_memory (start size : Z) (g : GlobalAllocator) : result GlobalAllocator AllocError :=
  match tl_add_memory start size (balloc g) with Ok b => Ok (set_balloc b g) | Err e => Err e end.
Definition ga_dealloc (pos size align : Z) (g : GlobalAllocator) : GlobalAllocator :=
  set_balloc (tl_dealloc pos size align (balloc g)) g.

(** [init], with a bitmap of [capacity] pages. *)
Definition ga_init (capacity : nat) (start_vaddr size : Z) : outcome GlobalAllocator :=
  if negb (MIN_HEAP_SIZE <? size) then Panic
  else match ga_alloc_pages (MIN_HEAP_SIZE / PAGE_SIZE_4K) PAGE_SIZE_4K (mkGA tl_new (bpa_init capacity start_vaddr size)) with
       | Err _ => Panic
       | Ok (heap_ptr, g) =>
           match tl_init heap_ptr MIN_HEAP_SIZE (balloc g) with
           | Ret b => Ret (set_balloc b g)
           | Panic => Panic
           end
       end.

(** [usize::next_power_of_two]: it wraps to 0 above 2^63. *)
Definition next_power_of_two (x : Z) : Z := wrap (2 ^ Z.log2_up x).
Definition expand_size (old_size size : Z) : Z := Z.max (next_power_of_two (Z.max old_size size)) PAGE_SIZE_4K.

(** [alloc]: the loop, which takes at least a page in every pass that does not end it. *)
Fixpoint ga_alloc (fuel : nat) (size align : Z) (g : GlobalAllocator) : option (result Z AllocError * GlobalAllocator) :=
  match fuel with
  | O => None
  | S fuel =>
      match tl_alloc size align (balloc g) with
      | Some (p, b) => Some (Ok p, set_balloc b g)
      | None =>
          let expand := expand_size (total_bytes (balloc g)) size in
          match ga_alloc_pages (expand / PAGE_SIZE_4K) PAGE_SIZE_4K g with
          | Err e => Some (Err e, g)
          | Ok (heap_ptr, g1) =>
              match tl_add_memory heap_ptr expand (balloc g1) with
              | Err e => Some (Err e, g1)
              | Ok b => ga_alloc fuel size align (set_balloc b g1)
              end
          end
      end
  end.

(** * [GlobalPage] (page.rs) *)

Record GlobalPage := mkPage { start_vaddr : Z; num_pages : Z }.
Definition alloc_err_to_ax_err (e : AllocError) : AxError :=
  match e with InvalidParam | MemoryOverlap | NotAllocated => InvalidInput | AllocNoMemory => NoMemory end.
Definition gp_alloc_contiguous (num_pages align_pow2 : Z) (g : GlobalAllocator) : result (GlobalPage * GlobalAllocator) AxError :=
  match ga_alloc_pages num_pages align_pow2 g with
  | Ok (vaddr, g') => Ok (mkPage vaddr num_pages, g')
  | Err e => Err (alloc_err_to_ax_err e)
  end.
Definition gp_alloc (g : GlobalAllocator) : result (GlobalPage * GlobalAllocator) AxError := gp_alloc_contiguous 1 PAGE_SIZE_4K g.
Definition gp_size (p : GlobalPage) : Z := wrap (num_pages p * PAGE_SIZE_4K).
Definition gp_fill (byte : Z) (p : GlobalPage) (m : bytes) : bytes :=
  mem_write (start_vaddr p) (replicate (Z.to_nat (gp_size p)) byte) m.
Definition gp_alloc_zero (g : GlobalAllocator) (m : bytes) : result (GlobalPage * GlobalAllocator * bytes) AxError :=
  match gp_alloc g with Ok (p, g') => Ok (p, g', gp_fill 0 p m) | Err e => Err e end.
Definition gp_drop (p : GlobalPage) (g : GlobalAllocator) : outcome GlobalAllocator :=
  ga_dealloc_pages (start_vaddr p) (num_pages p) g.
End heap.
Arguments TlsfByteAllocator : clear implicits.
Arguments GlobalAllocator : clear implicits.

(** * Runs *)

(** [size] free pages from [b] on; a first page on the alignment. *)
Definition run (l : list bool) (b size : nat) : Prop := forall j, (b <= j < b + size)%nat -> l !! j = Some true.
Definition on_align (align_log2 b : nat) : Prop := (b mod 2 ^ align_log2 = 0)%nat.

Lemma first_set_None l : first_set l = None <-> forall j, l !! j <> Some true.
Proof.
  induction l as [|[] l IH]; cbn.
  - by split.
  - split; [done|]. intros H. by destruct (H 0%nat).
  - rewrite fmap_None, IH. split; intros H j; [destruct j; [done|apply H]|apply (H (S j))].
Qed.
Lemma next_free_Some l k n :
  next_free l k = Some n <-> (k <= n)%nat /\ l !! n = Some true /\ forall j, (k <= j < n)%nat -> l !! j <> Some true.
Proof.
  unfold next_free. split.
  - destruct (first_set (drop k l)) as [i|] eqn:E; [|done]. cbn. intros [= <-].
    apply first_set_Some in E as [Hi Hlt]. rewrite lookup_drop in Hi. split; [lia|]. split; [done|].
    intros j Hj. specialize (Hlt (j - k)%nat ltac:(lia)). rewrite lookup_drop in Hlt.
    replace (k + (j - k))%nat with j in Hlt by lia. congruence.
  - intros (Hk & Hn & Hlt). rewrite (proj2 (first_set_Some (drop k l) (n - k))); [cbn; f_equal; lia|].
    rewrite lookup_drop. replace (k + (n - k))%nat with n by lia. split; [done|]. intros j Hj. rewrite lookup_drop.
    apply lookup_lt_Some in Hn. destruct (lookup_lt_is_Some_2 l (k + j)%nat ltac:(lia)) as [[] Hb]; [|done].
    by destruct (Hlt (k + j)%nat ltac:(lia)).
Qed.
Lemma next_free_None l k : next_free l k = None <-> forall j, (k <= j)%nat -> l !! j <> Some true.
Proof.
  unfold next_free. rewrite fmap_None, first_set_None. split.
  - intros H j Hj. specialize (H (j - k)%nat). rewrite lookup_drop in H. by replace (k + (j - k))%nat with j in H by lia.
  - intros H j. rewrite lookup_drop. apply H. lia.
Qed.

(** The next aligned position after [n - 1]. *)
Lemma align_next a n : (0 < n)%nat ->
  let b := (((n - 1) / 2 ^ a + 1) * 2 ^ a)%nat in
  on_align a b /\ (n <= b)%nat /\ forall b', on_align a b' -> (n <= b')%nat -> (b <= b')%nat.
Proof.
  intros Hn b. unfold on_align, b. set (A := (2 ^ a)%nat) in *.
  assert (A <> 0)%nat as HA by (apply Nat.pow_nonzero; done).
  pose proof (Nat.div_mod_eq (n - 1) A) as Hd. pose proof (Nat.mod_upper_bound (n - 1) A HA) as Hm.
  split; [apply Nat.Div0.mod_mul|]. split; [nia|].
  intros b' Hb' Hle. apply Nat.Div0.mod_divides in Hb' as [q ->].
  assert ((n - 1) / A < q)%nat by (apply Nat.Div0.div_lt_upper_bound; lia).
  rewrite Nat.mul_comm. apply Nat.mul_le_mono_l. lia.
Qed.
Lemma align_up_ok a n :
  on_align a (align_up_log2 n a) /\ (n <= align_up_log2 n a)%nat /\
  forall b', on_align a b' -> (n <= b')%nat -> (align_up_log2 n a <= b')%nat.
Proof.
  unfold on_align, align_up_log2. set (A := (2 ^ a)%nat) in *.
  assert (A <> 0)%nat as HA by (apply Nat.pow_nonzero; done).
  pose proof (Nat.div_mod_eq (n + (A - 1)) A) as Hd. pose proof (Nat.mod_upper_bound (n + (A - 1)) A HA) as Hm.
  split; [apply Nat.Div0.mod_mul|]. split; [nia|].
  intros b' Hb' Hle. apply Nat.Div0.mod_divides in Hb' as [q ->].
  assert ((n + (A - 1)) / A < S q)%nat by (apply Nat.Div0.div_lt_upper_bound; rewrite Nat.mul_succ_r; lia).
  rewrite Nat.mul_comm. apply Nat.mul_le_mono_l. lia.
Qed.

(** A search result: the lowest aligned run, or none. *)
Definition lowest_run (l : list bool) (size a : nat) (r : option nat) : Prop :=
  match r with
  | Some b => on_align a b /\ run l b size /\ forall b', on_align a b' -> run l b' size -> (b <= b')%nat
  | None => forall b', on_align a b' -> ~ run l b' size
  end.

Lemma find_loop_lowest l size a fuel b offset :
  (0 < size)%nat -> on_align a b -> (b <= offset < b + size)%nat -> (length l < fuel + offset)%nat ->
  (forall j, (b <= j < offset)%nat -> l !! j = Some true) ->
  (forall b', on_align a b' -> run l b' size -> (b <= b')%nat) ->
  lowest_run l size a (find_loop fuel l size a b offset).
Proof.
  intros Hs. revert b offset. induction fuel as [|fuel IH]; intros b offset Hb Ho Hf Hfree Hlow; cbn [find_loop].
  { intros b' Hb' Hr. specialize (Hlow b' Hb' Hr). specialize (Hr (b' + size - 1)%nat ltac:(lia)).
    apply lookup_lt_Some in Hr. lia. }
  destruct (Nat.ltb_spec offset (length l)) as [Hlt|Hge].
  2: { intros b' Hb' Hr. specialize (Hlow b' Hb' Hr). specialize (Hr (b' + size - 1)%nat ltac:(lia)).
       apply lookup_lt_Some in Hr. lia. }
  destruct (next_free l offset) as [next|] eqn:En.
  2: { intros b' Hb' Hr. specialize (Hlow b' Hb' Hr).
       apply (proj1 (next_free_None _ _) En (b' + size - 1)%nat); [lia|]. apply Hr. lia. }
  apply next_free_Some in En as (N1 & N2 & N3). destruct (Nat.eqb_spec next offset) as [->|Hne].
  - assert (forall j, (b <= j < S offset)%nat -> l !! j = Some true) as Hfree'.
    { intros j Hj. destruct (decide (j = offset)) as [->|]; [done|]. apply Hfree. lia. }
    destruct (Nat.eqb_spec (S offset - b) size) as [He|He].
    + split; [done|]. split; [|done]. intros j Hj. apply Hfree'. lia.
    + apply IH; [done|lia|lia|done|done].
  - destruct (align_next a next ltac:(lia)) as (A1 & A2 & A3).
    apply IH; [done|lia|lia|lia|]. intros b' Hb' Hr. apply A3; [done|].
    specialize (Hlow b' Hb' Hr). destruct (Nat.le_gt_cases next b') as [|Hlt']; [done|]. exfalso.
    destruct (Nat.le_gt_cases b' offset) as [Hle|Hgt].
    + apply (N3 offset ltac:(lia)), Hr. lia.
    + apply (N3 b' ltac:(lia)), Hr. lia.
Qed.

Lemma find_contiguous_lowest l size a :
  (0 < size)%nat -> (2 ^ a <= length l)%nat -> lowest_run l size a (find_contiguous l size a).
Proof.
  intros Hs Ha. unfold find_contiguous. rewrite (proj2 (Nat.ltb_ge _ _) Ha). cbn [orb].
  destruct (existsb id l) eqn:Ex; cbn [negb].
  2: { intros b' _ Hr. specialize (Hr b' ltac:(lia)). apply list_elem_of_lookup_2 in Hr.
       rewrite <- not_true_iff_false, existsb_exists in Ex. apply Ex. exists true. split; [by apply list_elem_of_In|done]. }
  destruct (next_free l 0) as [start|] eqn:En.
  2: { intros b' _ Hr. apply (proj1 (next_free_None _ _) En b'); [lia|]. apply Hr. lia. }
  apply next_free_Some in En as (_ & N2 & N3). destruct (align_up_ok a start) as (A1 & A2 & A3).
  apply find_loop_lowest; [done|done|lia|lia|lia|]. intros b' Hb' Hr. apply A3; [done|].
  destruct (Nat.le_gt_cases start b') as [|Hlt]; [done|]. exfalso. apply (N3 b' ltac:(lia)), Hr. lia.
Qed.

(** * Ranges *)

Lemma length_set_range b size v l : (b + size <= length l)%nat -> length (set_range b size v l) = length l.
Proof. intros Hl. unfold set_range. rewrite !length_app, length_take, length_replicate, length_drop. lia. Qed.
Lemma lookup_set_range b size v l j : (b + size <= length l)%nat ->
  set_range b size v l !! j = if decide (b <= j < b + size)%nat then Some v else l !! j.
Proof.
  intros Hl. unfold set_range. replace (size `min` (length l - b))%nat with size by lia. destruct (decide _) as [Hj|Hj].
  - rewrite lookup_app_r by (rewrite length_take; lia). rewrite lookup_app_l by (rewrite length_take, length_replicate; lia).
    apply lookup_replicate. rewrite length_take. split; [done|lia].
  - destruct (decide (j < b)%nat) as [Hlt|Hge].
    + rewrite lookup_app_l by (rewrite length_take; lia). by rewrite lookup_take_lt.
    + rewrite lookup_app_r by (rewrite length_take; lia). rewrite lookup_app_r by (rewrite length_take, length_replicate; lia).
      rewrite lookup_drop, length_take, length_replicate. f_equal. lia.
Qed.

(** Freeing a range of used pages, leaf by leaf, frees all of them. *)
Lemma dealloc_leaves_spec n b e l :
  (b <= e <= length l)%nat -> (b < e -> e <= (b / 16 + n) * 16)%nat -> (forall j, (b <= j < e)%nat -> l !! j = Some false) ->
  dealloc_leaves n b e l = (true, set_range b (e - b) true l).
Proof.
  revert b l. induction n as [|n IH]; intros b l Hb Hn Hused; cbn [dealloc_leaves].
  { assert (b = e) as <- by (pose proof (Nat.div_mod_eq b 16); lia). rewrite Nat.sub_diag.
    unfold set_range. cbn. by rewrite Nat.add_0_r, take_drop. }
  set (m := min e ((b / 16 + 1) * 16)).
  assert (b < m \/ b = e)%nat as Hm by (unfold m; pose proof (Nat.div_mod_eq b 16); pose proof (Nat.mod_upper_bound b 16); lia).
  destruct (Nat.ltb_spec b e) as [Hlt|Hge].
  2: { replace (e - b)%nat with 0%nat by lia. unfold set_range. cbn. by rewrite Nat.add_0_r, take_drop. }
  destruct Hm as [Hm|Hm]; [|lia]. assert (m <= e)%nat by (unfold m; lia).
  replace (existsb id _) with false.
  2: { symmetry. apply not_true_iff_false. rewrite existsb_exists. intros (x & Hx%list_elem_of_In & Hid).
       apply list_elem_of_lookup in Hx as [i Hi]. apply lookup_take_Some in Hi as [Hi Hlt']. rewrite lookup_drop in Hi.
       rewrite Hused in Hi by lia. injection Hi as <-. done. }
  rewrite IH.
  - f_equal. apply list_eq. intros j. rewrite lookup_set_range by (rewrite length_set_range; lia).
    rewrite !lookup_set_range by lia. repeat destruct (decide _); try done; lia.
  - rewrite length_set_range by lia. lia.
  - unfold m in *. destruct (Nat.min_spec e ((b / 16 + 1) * 16)) as [[? ->]|[? ->]].
    + lia.
    + rewrite Nat.div_mul by lia. lia.
  - intros j Hj. rewrite lookup_set_range by lia. destruct (decide _); [lia|]. apply Hused. lia.
Qed.

Lemma page_align_ok align a : page_align align = Some a ->
  align = 2 ^ Z.of_nat a * PAGE_SIZE_4K /\ 2 ^ Z.of_nat a <= 262144.
Proof.
  unfold page_align, MAX_ALIGN_1GB. destruct (Z.ltb_spec 1073741824 align); [done|].
  destruct (Z.eqb_spec (align mod PAGE_SIZE_4K) 0) as [Hm|]; [|done]. cbn [orb negb].
  destruct (Z.ltb_spec 0 (align / PAGE_SIZE_4K)) as [Hpos|]; [|done]. cbn [andb].
  destruct (Z.eqb_spec (2 ^ Z.log2 (align / PAGE_SIZE_4K)) (align / PAGE_SIZE_4K)) as [He|]; [|done].
  intros [= <-]. pose proof (Z.log2_nonneg (align / PAGE_SIZE_4K)) as Hl.
  rewrite Z2Nat.id, He by done. lia.
Qed.

(** * The page allocator *)

(** The addresses of [n] pages from [p] on. *)
Definition pages_at (p : Z) (n : nat) : gset Z := list_to_set ((fun i => p + Z.of_nat i * PAGE_SIZE_4K) <$> seq 0 n).
Lemma elem_of_pages_at p n v : v ∈ pages_at p n <-> exists i, (i < n)%nat /\ v = p + Z.of_nat i * PAGE_SIZE_4K.
Proof.
  unfold pages_at. rewrite elem_of_list_to_set, list_elem_of_fmap. split.
  - intros (i & -> & Hi%elem_of_seq). exists i. split; [lia|done].
  - intros (i & Hi & ->). exists i. split; [done|]. apply elem_of_seq. lia.
Qed.

Lemma bpa_used_range a b n :
  bpa_wf a -> (0 < n)%nat -> run (inner a) b n ->
  let p := base a + Z.of_nat b * PAGE_SIZE_4K in
  let a' := mkBPA (base a) (total_pages a) (used_pages a +w Z.of_nat n) (set_range b n false (inner a)) in
  Z.of_nat b * PAGE_SIZE_4K +w base a = p /\ bpa_wf a' /\ (b + n <= length (inner a))%nat /\
  pages_at p n ## bpa_used a /\ bpa_used a' = pages_at p n ∪ bpa_used a.
Proof.
  intros Hwf Hn Hr p a'.
  assert (b + n <= length (inner a))%nat as Hlen.
  { specialize (Hr (b + n - 1)%nat ltac:(lia)). apply lookup_lt_Some in Hr. lia. }
  pose proof (Hwf b ltac:(lia)) as Hok. unfold frame_ok in Hok. split; [|split; [|split; [done|split]]].
  - rewrite wadd_small by lia. unfold p. lia.
  - intros i Hi. cbn in Hi |- *. rewrite length_set_range in Hi by done. by apply Hwf.
  - intros v Hv Hu. apply elem_of_pages_at in Hv as (i & Hi & ->). apply elem_of_bpa_used in Hu as (j & Hj & Heq).
    assert (j = b + i)%nat as -> by (unfold p in Heq; lia). rewrite Hr in Hj by lia. done.
  - apply set_eq. intros v. rewrite elem_of_union, elem_of_pages_at, !elem_of_bpa_used. cbn [inner base a']. split.
    + intros (j & Hj & ->). rewrite lookup_set_range in Hj by done. destruct (decide _) as [Hin|]; [left|right; by exists j].
      exists (j - b)%nat. unfold p. split; lia.
    + intros [(i & Hi & ->)|(j & Hj & ->)].
      * exists (b + i)%nat. rewrite lookup_set_range by done. rewrite decide_True by lia. split; [done|]. unfold p. lia.
      * exists j. rewrite lookup_set_range by done. rewrite decide_False; [done|]. intros Hin.
        rewrite Hr in Hj by done. done.
Qed.

Lemma pages_at_1 p : pages_at p 1 = {[p]}.
Proof. unfold pages_at. cbn. rewrite Z.add_0_r. by rewrite right_id_L by apply _. Qed.

(** What allocating pages does to the set of used pages. *)
Lemma pa_alloc_pages_used n align a p a' :
  bpa_wf a -> pa_alloc_pages n align a = Ok (p, a') ->
  0 < n /\ bpa_wf a' /\ pages_at p (Z.to_nat n) ## bpa_used a /\ bpa_used a' = pages_at p (Z.to_nat n) ∪ bpa_used a.
Proof.
  intros Hwf. unfold pa_alloc_pages. destruct (page_align align) as [k|] eqn:Ek; [|done].
  destruct (Z.eqb_spec n 1) as [->|Hn1].
  - destruct (bpa_alloc a) as [[q a1]|] eqn:Ea; [|done]. intros [= <- <-].
    destruct (@fa_alloc_spec _ _ BitmapPageAllocator_laws a q a1 Hwf Ea) as (W & Hn & Hu & _). cbn in Hn, Hu, W.
    change (Z.to_nat 1) with 1%nat. rewrite pages_at_1. split; [lia|]. split; [done|]. split; [|done]. set_solver.
  - destruct (Z.ltb_spec 1 n) as [Hn|]; [|done]. unfold alloc_contiguous.
    destruct (find_contiguous (inner a) (Z.to_nat n) k) as [b|] eqn:Ef; [|done]. cbn [fmap option_fmap option_map].
    intros [= <- <-]. destruct (page_align_ok _ _ Ek) as [_ Hk].
    assert (2 ^ k <= length (inner a))%nat as Hcap.
    { unfold find_contiguous in Ef. destruct (Nat.ltb_spec (length (inner a)) (2 ^ k)); [done|lia]. }
    pose proof (find_contiguous_lowest (inner a) (Z.to_nat n) k ltac:(lia) Hcap) as Hlow. rewrite Ef in Hlow.
    destruct Hlow as (_ & Hr & _).
    destruct (bpa_used_range a b (Z.to_nat n) Hwf ltac:(lia) Hr) as (-> & W & _ & D & U).
    rewrite Z2Nat.id in W, U by lia. split; [lia|done].
Qed.

(** Contiguous pages: the lowest aligned run of free pages is taken, if there is one, and
    exactly these pages become used; without one the allocator is out of memory. Giving
    the pages back restores the allocator. *)
Theorem alloc_pages_correct a n align k :
  bpa_wf a -> 1 < n -> page_align align = Some k -> (2 ^ k <= length (inner a))%nat ->
  match pa_alloc_pages n align a with
  | Ok (p, a') =>
      (exists b, p = base a + Z.of_nat b * PAGE_SIZE_4K /\ lowest_run (inner a) (Z.to_nat n) k (Some b)) /\
      bpa_wf a' /\ pages_at p (Z.to_nat n) ## bpa_used a /\ bpa_used a' = pages_at p (Z.to_nat n) ∪ bpa_used a /\
      (0 <= used_pages a -> used_pages a + n < USIZE -> pa_dealloc_pages p n a' = Ret a)
  | Err e => e = AllocNoMemory /\ lowest_run (inner a) (Z.to_nat n) k None
  end.
Proof.
  intros Hwf Hn Hk Hcap. unfold pa_alloc_pages. rewrite Hk.
  destruct (Z.eqb_spec n 1); [lia|]. rewrite (proj2 (Z.ltb_lt 1 n)) by lia. unfold alloc_contiguous.
  pose proof (find_contiguous_lowest (inner a) (Z.to_nat n) k ltac:(lia) Hcap) as Hlow.
  destruct (find_contiguous (inner a) (Z.to_nat n) k) as [b|]; cbn [fmap option_fmap option_map]; [|done].
  pose proof Hlow as (_ & Hr & _).
  destruct (bpa_used_range a b (Z.to_nat n) Hwf ltac:(lia) Hr) as (-> & W & Hlen & D & U). rewrite Z2Nat.id in W, U by lia.
  split; [by exists b|]. split; [done|]. split; [done|]. split; [done|]. intros Hu1 Hu2.
  pose proof (Hwf b ltac:(lia)) as Hok. pose proof (Hwf 0%nat ltac:(lia)) as Hok0. unfold frame_ok in Hok, Hok0.
  unfold pa_dealloc_pages. rewrite (proj2 (Z.eqb_eq _ 0)) by lia. cbn [negb].
  destruct (Z.eqb_spec n 1); [lia|]. rewrite (proj2 (Z.ltb_lt 1 n)) by lia. cbn [base inner used_pages total_pages].
  rewrite wsub_small by lia. replace (Z.to_nat ((base a + Z.of_nat b * PAGE_SIZE_4K - base a) / PAGE_SIZE_4K)) with b by lia.
  unfold dealloc_contiguous. rewrite length_set_range by done. rewrite (proj2 (Nat.ltb_ge _ _)) by lia.
  rewrite dealloc_leaves_spec.
  - rewrite wadd_small, wsub_small by lia. replace (used_pages a + n - n) with (used_pages a) by lia.
    replace (set_range b _ true _) with (inner a); [by destruct a|]. symmetry. apply list_eq. intros j.
    rewrite lookup_set_range by (rewrite length_set_range; lia). destruct (decide _) as [Hj|Hj]; [rewrite Hr; [done|lia]|].
    rewrite lookup_set_range by lia. rewrite decide_False by lia. done.
  - rewrite length_set_range by done. lia.
  - intros _. pose proof (Nat.div_mod_eq b 16). pose proof (Nat.mod_upper_bound b 16).
    pose proof (Nat.div_mod_eq (Z.to_nat n) 16). pose proof (Nat.mod_upper_bound (Z.to_nat n) 16). lia.
  - intros j Hj. rewrite lookup_set_range by done. by rewrite decide_True by lia.
Qed.

(** * The heap *)

Definition free_pages (l : list bool) : nat := sum_list (Nat.b2n <$> l).

Lemma free_pages_lt l l' j :
  length l = length l' -> (forall i, l' !! i = Some true -> l !! i = Some true) ->
  l !! j = Some true -> l' !! j = Some false -> (free_pages l' < free_pages l)%nat.
Proof.
  assert (forall l l' : list bool, length l = length l' -> (forall i, l' !! i = Some true -> l !! i = Some true) ->
    (free_pages l' <= free_pages l)%nat) as Hle.
  { clear. induction l as [|x l IH]; intros [|y l'] Hlen Hsub; try done. cbn in Hlen.
    specialize (IH l' ltac:(lia) (fun i => Hsub (S i))). unfold free_pages in *. cbn.
    destruct x, y; cbn in *; try lia. by specialize (Hsub 0%nat eq_refl). }
  revert l' j. induction l as [|x l IH]; intros [|y l'] j Hlen Hsub Hj Hj'; try done. cbn in Hlen.
  destruct j as [|j].
  - injection Hj as ->. injection Hj' as ->. specialize (Hle l l' ltac:(lia) (fun i => Hsub (S i))).
    unfold free_pages in *. cbn. lia.
  - specialize (IH l' j ltac:(lia) (fun i => Hsub (S i)) Hj Hj'). unfold free_pages in *. cbn.
    destruct x, y; cbn in *; try lia. by specialize (Hsub 0%nat eq_refl).
Qed.

Lemma pa_alloc_pages_fewer n align a p a' :
  pa_alloc_pages n align a = Ok (p, a') -> (free_pages (inner a') < free_pages (inner a))%nat.
Proof.
  unfold pa_alloc_pages. destruct (page_align align) as [k|] eqn:Ek; [|done]. destruct (Z.eqb_spec n 1) as [->|Hn1].
  - unfold bpa_alloc. destruct (first_set (inner a)) as [i|] eqn:Ei; [|done]. intros [= <- <-]. cbn [inner].
    apply first_set_Some in Ei as [Hi _]. pose proof (lookup_lt_Some _ _ _ Hi).
    apply (free_pages_lt _ _ i); [by rewrite length_insert| |done|by apply list_lookup_insert_eq].
    intros j Hj. destruct (decide (j = i)) as [->|]; [done|]. by rewrite list_lookup_insert_ne in Hj.
  - destruct (Z.ltb_spec 1 n) as [Hn|]; [|done]. unfold alloc_contiguous.
    destruct (find_contiguous (inner a) (Z.to_nat n) k) as [b|] eqn:Ef; [|done]. cbn [fmap option_fmap option_map].
    intros [= <- <-]. cbn [inner].
    assert (2 ^ k <= length (inner a))%nat as Hcap.
    { unfold find_contiguous in Ef. destruct (Nat.ltb_spec (length (inner a)) (2 ^ k)); [done|lia]. }
    pose proof (find_contiguous_lowest (inner a) (Z.to_nat n) k ltac:(lia) Hcap) as Hlow. rewrite Ef in Hlow.
    destruct Hlow as (_ & Hr & _). pose proof (lookup_lt_Some _ _ _ (Hr (b + Z.to_nat n - 1)%nat ltac:(lia))).
    apply (free_pages_lt _ _ b); [rewrite length_set_range; lia| |apply Hr; lia|].
    + intros j Hj. rewrite lookup_set_range in Hj by lia. destruct (decide _); [done|done].
    + rewrite lookup_set_range by lia. by rewrite decide_True by lia.
Qed.

Lemma expand_size_pages old size :
  0 <= old -> 0 <= size -> expand_size old size mod PAGE_SIZE_4K = 0 /\ 1 <= expand_size old size / PAGE_SIZE_4K.
Proof.
  intros Ho Hs. unfold expand_size, next_power_of_two. set (k := Z.log2_up _). assert (0 <= k) as Hk by apply Z.log2_up_nonneg.
  unfold wrap. destruct (Z.le_gt_cases k 11) as [Hle|Hgt].
  - assert (2 ^ k <= 2 ^ 11) by (apply Z.pow_le_mono_r; lia). change (2 ^ 11) with 2048 in *.
    assert (0 < 2 ^ k) by (apply Z.pow_pos_nonneg; lia). rewrite (Z.mod_small (2 ^ k)), Z.max_r by lia. split; done.
  - replace k with (12 + (k - 12)) by lia. rewrite Z.pow_add_r by lia. change (2 ^ 12) with 4096.
    set (q := 2 ^ (k - 12)). change USIZE with (4096 * 4503599627370496). rewrite Z.mul_mod_distr_l by lia.
    destruct (Z.le_gt_cases (4096 * (q mod 4503599627370496)) 4096); [rewrite Z.max_r by done; split; done|].
    rewrite Z.max_l by lia. lia.
Qed.

(** What the pool of rlsf promises: it manages the regions that were inserted, and a
    block it hands out lies in one of them. *)
Class TlsfLaws (T : Type) `{Tlsf T} := {
  regions : T -> list (Z * Z);
  law_tlsf_new : regions tlsf_new = [];
  law_tlsf_insert start size t t' : tlsf_insert start size t = Some t' -> regions t' = (start, size) :: regions t;
  law_tlsf_allocate size align t p t' : tlsf_allocate size align t = Some (p, t') ->
    regions t' = regions t /\ exists s n, (s, n) ∈ regions t /\ s <= p /\ p + size <= s + n;
  law_tlsf_deallocate pos align t : regions (tlsf_deallocate pos align t) = regions t;
}.

Section heap_props.
Context {T : Type} `{TlsfLaws T}.
Implicit Types g : GlobalAllocator T.

Definition region_pages (r : Z * Z) : gset Z := pages_at r.1 (Z.to_nat (r.2 / PAGE_SIZE_4K)).

(** The regions of the byte allocator are whole pages that the page allocator has marked
    as used, and no two of them share a page. *)
Record heap_inv g : Prop := {
  hi_wf : bpa_wf (palloc g);
  hi_total : 0 <= total_bytes (balloc g);
  hi_used : Forall (fun r => region_pages r ⊆ bpa_used (palloc g)) (regions (tl_inner (balloc g)));
  hi_disjoint : ForallOrdPairs (fun r r' => region_pages r ## region_pages r') (regions (tl_inner (balloc g)));
}.

Lemma ga_grow g size start a b :
  heap_inv g -> 0 <= size ->
  pa_alloc_pages (expand_size (total_bytes (balloc g)) size / PAGE_SIZE_4K) PAGE_SIZE_4K (palloc g) = Ok (start, a) ->
  tl_add_memory start (expand_size (total_bytes (balloc g)) size) (balloc g) = Ok b ->
  heap_inv (mkGA b a) /\ bpa_used (palloc g) ⊆ bpa_used a.
Proof.
  intros [I1 I2 I3 I4] Hs Hp Hadd. destruct (pa_alloc_pages_used _ _ _ _ _ I1 Hp) as (Hn & W & D & U).
  unfold tl_add_memory in Hadd. destruct (tlsf_insert _ _ _) as [t|] eqn:Ei; [|done]. injection Hadd as <-.
  apply law_tlsf_insert in Ei. split; [|rewrite U; set_solver]. split; cbn [palloc balloc total_bytes tl_inner].
  - done.
  - apply wrap_range.
  - rewrite Ei. constructor.
    + unfold region_pages. cbn [fst snd]. rewrite U. set_solver.
    + eapply Forall_impl; [done|]. intros r Hr. rewrite U. set_solver.
  - rewrite Ei. constructor; [|done]. rewrite Forall_forall in I3. apply List.Forall_forall. intros r Hr%list_elem_of_In.
    specialize (I3 r Hr). unfold region_pages at 1. cbn [fst snd]. set_solver.
Qed.

Lemma ga_alloc_spec fuel size align g r g' :
  heap_inv g -> 0 <= size -> ga_alloc fuel size align g = Some (r, g') ->
  heap_inv g' /\ bpa_used (palloc g) ⊆ bpa_used (palloc g') /\
  forall p, r = Ok p -> exists s n, (s, n) ∈ regions (tl_inner (balloc g')) /\ s <= p /\ p + size <= s + n.
Proof.
  intros Hinv Hs. revert g Hinv. induction fuel as [|fuel IH]; intros g Hinv; [done|]. cbn [ga_alloc].
  unfold tl_alloc. destruct (tlsf_allocate size align _) as [[p t]|] eqn:Ea.
  - intros [= <- <-]. apply law_tlsf_allocate in Ea as [Er Hin]. destruct Hinv as [I1 I2 I3 I4].
    split; [split; cbn; rewrite ?Er; done|]. split; [done|]. intros q [= <-]. cbn. by rewrite Er.
  - unfold ga_alloc_pages. destruct (pa_alloc_pages _ _ (palloc g)) as [[start a]|e] eqn:Ep.
    2: { intros [= <- <-]. split; [done|]. split; [done|done]. }
    cbn [set_palloc balloc]. destruct (tl_add_memory start _ (balloc g)) as [b|e] eqn:Eb.
    + destruct (ga_grow g size start a b Hinv Hs Ep Eb) as [Hinv1 Hsub]. intros Hrun.
      destruct (IH (mkGA b a) Hinv1 Hrun) as (H1 & H2 & H3). cbn [palloc] in H2. split; [done|]. split; [set_solver|done].
    + intros [= <- <-]. destruct Hinv as [I1 I2 I3 I4]. destruct (pa_alloc_pages_used _ _ _ _ _ I1 Ep) as (_ & W & _ & U).
      split; [|split; [cbn; rewrite U; set_solver|done]]. split; try done. cbn.
      eapply Forall_impl; [done|]. intros x Hx. cbn in Hx. rewrite U. set_solver.
Qed.

(** C40: Allocating on the heap ends: every pass of the loop that does not end it takes a
    page from the page allocator, so one more pass than there are free pages is enough. *)
Theorem heap_alloc_terminates size align g :
  exists r g', ga_alloc (S (free_pages (inner (palloc g)))) size align g = Some (r, g').
Proof.
  assert (forall n g, (free_pages (inner (palloc g)) < n)%nat -> exists r g', ga_alloc n size align g = Some (r, g')) as Hgen.
  { clear g. induction n as [|n IH]; intros g Hn; [lia|]. cbn [ga_alloc].
    destruct (tl_alloc size align (balloc g)) as [[p b]|]; [by eexists _, _|].
    unfold ga_alloc_pages. destruct (pa_alloc_pages _ _ (palloc g)) as [[start a]|e] eqn:Ep; [|by eexists _, _].
    destruct (tl_add_memory _ _ _) as [b|e]; [|by eexists _, _].
    apply IH. cbn. apply pa_alloc_pages_fewer in Ep. lia. }
  apply Hgen. lia.
Qed.

(** The heap owns its memory: it grows by whole pages that nobody else uses, keeps what it
    has, and a block it hands out lies in one of its regions; pages handed out to others
    afterwards are none of the heap's. *)
Theorem heap_owns_its_pages fuel size align g r g' :
  heap_inv g -> 0 <= size -> ga_alloc fuel size align g = Some (r, g') ->
  heap_inv g' /\ bpa_used (palloc g) ⊆ bpa_used (palloc g') /\
  (forall p, r = Ok p -> exists s n, (s, n) ∈ regions (tl_inner (balloc g')) /\ s <= p /\ p + size <= s + n) /\
  (forall n al p g2, ga_alloc_pages n al g' = Ok (p, g2) ->
     heap_inv g2 /\ Forall (fun x => region_pages x ## pages_at p (Z.to_nat n)) (regions (tl_inner (balloc g2)))).
Proof.
  intros Hinv Hs Hrun. destruct (ga_alloc_spec _ _ _ _ _ _ Hinv Hs Hrun) as (H1 & H2 & H3).
  split; [done|]. split; [done|]. split; [done|]. intros n al p g2. unfold ga_alloc_pages.
  destruct (pa_alloc_pages n al (palloc g')) as [[q a]|e] eqn:Ep; [|done]. intros [= <- <-].
  destruct H1 as [I1 I2 I3 I4]. destruct (pa_alloc_pages_used _ _ _ _ _ I1 Ep) as (_ & W & D & U). cbn [set_palloc balloc].
  split.
  - split; cbn; try done. eapply Forall_impl; [done|]. intros x Hx. cbn in Hx. rewrite U. set_solver.
  - eapply Forall_impl; [done|]. intros x Hx. cbn in Hx. set_solver.
Qed.
End heap_props.

(** A pool that hands out each region from its start. *)
Module HeapDemo.
Definition pool : Type := list (Z * Z * N).
Fixpoint take_block (size : Z) (l : pool) : option (Z * pool) :=
  match l with
  | [] => None
  | (s, n, used) :: l =>
      if Z.of_N used + size <=? n then Some (s + Z.of_N used, (s, n, used + Z.to_N size)%N :: l)
      else match take_block size l with Some (p, l') => Some (p, (s, n, used) :: l') | None => None end
  end.
#[export] Instance pool_tlsf : Tlsf pool := {
  tlsf_new := [];
  tlsf_insert start size l := Some ((start, size, 0%N) :: l);
  tlsf_allocate size align l := take_block size l;
  tlsf_deallocate pos align l := l;
}.
Lemma take_block_spec size (l : pool) p l' : take_block size l = Some (p, l') ->
  l'.*1 = l.*1 /\ exists s n, (s, n) ∈ l.*1 /\ s <= p /\ p + size <= s + n.
Proof.
  revert p l'. induction l as [|[[s n] used] l IH]; intros p l'; [done|]. cbn [take_block].
  destruct (Z.leb_spec (Z.of_N used + size) n) as [Hle|Hgt].
  - intros [= <- <-]. split; [done|]. exists s, n. split; [left|]. lia.
  - destruct (take_block size l) as [[q l1]|]; [|done]. intros [= <- <-].
    destruct (IH q l1 eq_refl) as (E & s' & n' & Hin & H1 & H2). cbn. split; [by rewrite E|].
    exists s', n'. split; [by right|done].
Qed.
#[export] Instance pool_laws : TlsfLaws pool.
Proof.
  refine {| regions := fun l : pool => l.*1 |}.
  - done.
  - by intros start size t t' [= <-].
  - intros size align t p t' Ht. by apply take_block_spec in Ht.
  - done.
Defined.
(** 64 pages of memory at the start of the platform's RAM, and an empty heap. *)
Definition pages : BitmapPageAllocator := bpa_init 64 (PHYS_VIRT_OFFSET + 2147483648) 262144.
Definition heap : GlobalAllocator pool := mkGA tl_new pages.
End HeapDemo.
Import HeapDemo.

Lemma demo_pages_wf : bpa_wf pages.
Proof.
  intros i Hi. change (length (inner pages)) with 64%nat in Hi.
  change (base pages) with (PHYS_VIRT_OFFSET + 2147483648). unfold frame_ok. lia.
Qed.

Lemma alloc_pages_correct_witness :
  match pa_alloc_pages 4 16384 pages with
  | Ok (p, a') => pa_dealloc_pages p 4 a' = Ret pages
  | Err e => False
  end.
Proof.
  pose proof (alloc_pages_correct pages 4 16384 2 demo_pages_wf ltac:(lia) eq_refl ltac:(apply Nat.leb_le; reflexivity)) as H.
  destruct (pa_alloc_pages 4 16384 pages) as [[p a']|e] eqn:E; [|vm_compute in E; discriminate E].
  destruct H as (_ & _ & _ & _ & H). apply H; vm_compute; congruence.
Defined.

(** A first block makes the empty heap grow by a page. *)
Lemma heap_owns_its_pages_witness :
  exists p g', ga_alloc 2 100 8 heap = Some (Ok p, g') /\
    exists s n, (s, n) ∈ regions (tl_inner (balloc g')) /\ s <= p /\ p + 100 <= s + n.
Proof.
  destruct (ga_alloc 2 100 8 heap) as [[[p|e] g']|] eqn:E; [|vm_compute in E; discriminate E..].
  exists p, g'. split; [reflexivity|].
  refine (proj1 (proj2 (proj2 (heap_owns_its_pages 2 100 8 heap (Ok p) g' _ ltac:(lia) E))) p eq_refl).
  split; [exact demo_pages_wf|vm_compute; congruence|constructor|constructor].
Defined.
