(* ===== verification/Paging.v ===== *)
(** Page tables: the RISC-V page table entries of vendor/page_table_entry
    (arch/riscv.rs) and the Sv39 instance of [PageTable64]
    (vendor/page_table_multiarch/src/bits64.rs) that axhal/src/paging.rs selects
    for riscv64.

    A table is identified by the path of indices that leads to it instead of by
    the frame it is stored in; the frames themselves are recorded, and allocated
    from the machine when a table is created. No caller in the kernel asks for
    huge pages ([allow_huge] is [false] everywhere in axmm), so an entry of an
    inner table is either unused or points to the next table. *)
From S2P Require Import Prelude MemAddr Frames.

(** * Mapping flags (page_table_entry/src/lib.rs) *)

Module MappingFlags.
Definition READ : Z := 1.
Definition WRITE : Z := 2.
Definition EXECUTE : Z := 4.
Definition USER : Z := 8.
Definition DEVICE : Z := 16.
Definition UNCACHED : Z := 32.
Definition empty : Z := 0.
(** [bitflags]'s [contains]. *)
Definition contains (self other : Z) : bool := Z.land self other =? other.
Definition is_empty (self : Z) : bool := self =? 0.
(** All the bits the type has. *)
Definition all : Z := 63.
End MappingFlags.
Import MappingFlags.

(** * RISC-V page table entries (page_table_entry/src/arch/riscv.rs) *)

Module PTEFlags.
Definition V : Z := 1.
Definition R : Z := 2.
Definition W : Z := 4.
Definition X : Z := 8.
Definition U : Z := 16.
Definition G : Z := 32.
Definition A : Z := 64.
Definition D : Z := 128.
Definition intersects (self other : Z) : bool := negb (Z.land self other =? 0).
(** [from_bits_truncate]. *)
Definition from_bits_truncate (bits : Z) : Z := Z.land bits 255.
End PTEFlags.

(** [impl From<PTEFlags> for MappingFlags]. *)
Definition to_mapping_flags (f : Z) : Z :=
  if negb (contains f PTEFlags.V) then empty else
  let ret := empty in
  let ret := if contains f PTEFlags.R then Z.lor ret READ else ret in
  let ret := if contains f PTEFlags.W then Z.lor ret WRITE else ret in
  let ret := if contains f PTEFlags.X then Z.lor ret EXECUTE else ret in
  let ret := if contains f PTEFlags.U then Z.lor ret USER else ret in
  ret.

(** [impl From<MappingFlags> for PTEFlags]. *)
Definition from_mapping_flags (f : Z) : Z :=
  if is_empty f then 0 else
  let ret := PTEFlags.V in
  let ret := if contains f READ then Z.lor ret PTEFlags.R else ret in
  let ret := if contains f WRITE then Z.lor ret PTEFlags.W else ret in
  let ret := if contains f EXECUTE then Z.lor ret PTEFlags.X else ret in
  let ret := if contains f USER then Z.lor ret PTEFlags.U else ret in
  ret.

Module Rv64PTE.
Definition PHYS_ADDR_MASK : Z := 2 ^ 54 - 2 ^ 10.
Definition new_page (paddr flags : Z) : Z :=
  let f := Z.lor (Z.lor (from_mapping_flags flags) PTEFlags.A) PTEFlags.D in
  Z.lor f (Z.land (Z.shiftr paddr 2) PHYS_ADDR_MASK).
Definition new_table (paddr : Z) : Z :=
  Z.lor PTEFlags.V (Z.land (Z.shiftr paddr 2) PHYS_ADDR_MASK).
Definition paddr (e : Z) : Z := wrap (Z.shiftl (Z.land e PHYS_ADDR_MASK) 2).
Definition flags (e : Z) : Z := to_mapping_flags (PTEFlags.from_bits_truncate e).
Definition set_paddr (e pa : Z) : Z :=
  Z.lor (Z.land e (not64 PHYS_ADDR_MASK)) (Z.land (Z.shiftr pa 2) PHYS_ADDR_MASK).
Definition set_flags (e flags : Z) : Z :=
  let f := Z.lor (Z.lor (from_mapping_flags flags) PTEFlags.A) PTEFlags.D in
  Z.lor (Z.land e PHYS_ADDR_MASK) f.
Definition is_unused (e : Z) : bool := e =? 0.
Definition is_present (e : Z) : bool := contains (PTEFlags.from_bits_truncate e) PTEFlags.V.
Definition is_huge (e : Z) : bool :=
  PTEFlags.intersects (PTEFlags.from_bits_truncate e) (Z.lor PTEFlags.R PTEFlags.X).
Definition clear : Z := 0.
End Rv64PTE.

(** * The page table (page_table_multiarch/src/bits64.rs) *)

Inductive PagingError : Type :=
| PE_NoMemory | NotAligned | NotMapped | AlreadyMapped | MappedToHugePage.

Definition ENTRY_COUNT : Z := 512.
Definition p3_index (vaddr : Z) : Z := Z.land (Z.shiftr vaddr (12 + 18)) (ENTRY_COUNT - 1).
Definition p2_index (vaddr : Z) : Z := Z.land (Z.shiftr vaddr (12 + 9)) (ENTRY_COUNT - 1).
Definition p1_index (vaddr : Z) : Z := Z.land (Z.shiftr vaddr 12) (ENTRY_COUNT - 1).

(** The index paths to a second-level table, a leaf table and a leaf entry. *)
Definition p2_path (vaddr : Z) : Z := p3_index vaddr.
Definition p1_path (vaddr : Z) : Z := p3_index vaddr * 512 + p2_index vaddr.
Definition vpn (vaddr : Z) : Z := p1_path vaddr * 512 + p1_index vaddr.

(** [PageTable64]: the root frame, the frames of the second-level tables by
    root index, the frames of the leaf tables by path, and the raw leaf entries. *)
Record PageTable := mkPT {
  root_paddr : Z;
  p2_tables : gmap Z Z;
  p1_tables : gmap Z Z;
  entries : gmap Z Z;
}.

(** The raw leaf entry of a virtual address in an existing table. *)
Definition raw_entry (pt : PageTable) (vaddr : Z) : Z := default 0 (entries pt !! vpn vaddr).
Definition set_entry (vaddr e : Z) (pt : PageTable) : PageTable :=
  mkPT (root_paddr pt) (p2_tables pt) (p1_tables pt) (<[vpn vaddr := e]> (entries pt)).

(** [get_entry] and [get_entry_mut]: the walk fails at the first unused table
    entry. *)
Definition get_entry (pt : PageTable) (vaddr : Z) : result Z PagingError :=
  match p2_tables pt !! p2_path vaddr with
  | None => Err NotMapped
  | Some _ =>
      match p1_tables pt !! p1_path vaddr with
      | None => Err NotMapped
      | Some _ => Ok (raw_entry pt vaddr)
      end
  end.

Section page_table.
Context {FA : Type} `{FrameAllocator FA}.

(** A page table together with the machine it allocates frames from. *)
Definition PtM (E A : Type) : Type := M (PageTable * Mach FA) E A.

(** [alloc_table]: a zeroed frame. *)
Definition alloc_table : PtM PagingError Z := fun '(pt, m) =>
  match alloc_frame true m with
  | Some (paddr, m') => Ret (Ok paddr, (pt, m'))
  | None => Ret (Err PE_NoMemory, (pt, m))
  end.

(** [PageTable64::try_new]. *)
Definition try_new (m : Mach FA) : result PageTable PagingError * Mach FA :=
  match alloc_frame true m with
  | Some (paddr, m') => (Ok (mkPT paddr ∅ ∅ ∅), m')
  | None => (Err PE_NoMemory, m)
  end.

Definition upd (f : PageTable -> PageTable) : PtM PagingError unit :=
  fun '(pt, m) => Ret (Ok tt, (f pt, m)).

(** [get_entry_mut_or_create] for 4K pages: create the missing tables. *)
Definition get_entry_mut_or_create (vaddr : Z) : PtM PagingError unit :=
  st ← get;
  _ ← match p2_tables (fst st) !! p2_path vaddr with
      | Some _ => mret tt
      | None =>
          p ← alloc_table;
          upd (fun pt => mkPT (root_paddr pt) (<[p2_path vaddr := p]> (p2_tables pt))
                           (p1_tables pt) (entries pt))
      end;
  st ← get;
  match p1_tables (fst st) !! p1_path vaddr with
  | Some _ => mret tt
  | None =>
      p ← alloc_table;
      upd (fun pt => mkPT (root_paddr pt) (p2_tables pt)
                       (<[p1_path vaddr := p]> (p1_tables pt)) (entries pt))
  end.

(** [map(vaddr, target, Size4K, flags)]. *)
Definition pt_map (vaddr target flags : Z) : PtM PagingError unit :=
  _ ← get_entry_mut_or_create vaddr;
  st ← get;
  _ ← ensure (Rv64PTE.is_unused (raw_entry (fst st) vaddr)) AlreadyMapped;
  upd (set_entry vaddr (Rv64PTE.new_page (align_down target PAGE_SIZE_4K) flags)).

(** [remap(vaddr, paddr, flags)]. *)
Definition pt_remap (vaddr paddr flags : Z) : PtM PagingError unit :=
  st ← get;
  e ← try_ (get_entry (fst st) vaddr);
  upd (set_entry vaddr (Rv64PTE.set_flags (Rv64PTE.set_paddr e paddr) flags)).

(** [protect(vaddr, flags)]. *)
Definition pt_protect (vaddr flags : Z) : PtM PagingError unit :=
  st ← get;
  e ← try_ (get_entry (fst st) vaddr);
  _ ← ensure (Rv64PTE.is_present e) NotMapped;
  upd (set_entry vaddr (Rv64PTE.set_flags e flags)).

(** [unmap(vaddr)]: the entry is cleared even when it was not present. *)
Definition pt_unmap (vaddr : Z) : PtM PagingError Z :=
  st ← get;
  e ← try_ (get_entry (fst st) vaddr);
  _ ← upd (set_entry vaddr Rv64PTE.clear);
  if Rv64PTE.is_present e then mret (Rv64PTE.paddr e) else throw NotMapped.

(** [query(vaddr)]: only an all-zero entry counts as not mapped. *)
Definition pt_query (pt : PageTable) (vaddr : Z) : result (Z * Z) PagingError :=
  match get_entry pt vaddr with
  | Err e => Err e
  | Ok e =>
      if Rv64PTE.is_unused e then Err NotMapped
      else Ok (Rv64PTE.paddr e + align_offset_4k vaddr, Rv64PTE.flags e)
  end.

(** The loop of [map_region] over [n] pages. *)
Fixpoint map_region_loop (n : nat) (vaddr : Z) (get_paddr : Z -> Z) (flags : Z)
  : PtM PagingError unit :=
  match n with
  | O => M_ret tt
  | S n' =>
      _ ← pt_map vaddr (get_paddr vaddr) flags;
      map_region_loop n' (vaddr +w PAGE_SIZE_4K) get_paddr flags
  end.

(** [map_region(vaddr, get_paddr, size, flags, false, false)]. *)
Definition map_region (vaddr : Z) (get_paddr : Z -> Z) (size flags : Z) : PtM PagingError unit :=
  if negb (is_aligned_4k vaddr) || negb (is_aligned_4k size) then throw NotAligned
  else map_region_loop (Z.to_nat (size / PAGE_SIZE_4K)) vaddr get_paddr flags.

(** The loop of [unmap_region]; it asserts alignment and that a page fits. *)
Fixpoint unmap_region_loop (fuel : nat) (vaddr size : Z) : PtM PagingError unit :=
  if size <=? 0 then M_ret tt else
  match fuel with
  | O => panic
  | S fuel' =>
      _ ← pt_unmap vaddr;
      _ ← assert_ (is_aligned_4k vaddr);
      _ ← assert_ (PAGE_SIZE_4K <=? size);
      unmap_region_loop fuel' (vaddr +w PAGE_SIZE_4K) (size - PAGE_SIZE_4K)
  end.

(** [unmap_region(vaddr, size, _)]. *)
Definition unmap_region (vaddr size : Z) : PtM PagingError unit :=
  unmap_region_loop (Z.to_nat (size / PAGE_SIZE_4K) + 1) vaddr size.

(** The loop of [protect_region]. *)
Fixpoint protect_region_loop (fuel : nat) (vaddr size flags : Z) : PtM PagingError unit :=
  if size <=? 0 then M_ret tt else
  match fuel with
  | O => panic
  | S fuel' =>
      _ ← pt_protect vaddr flags;
      _ ← assert_ (is_aligned_4k vaddr);
      _ ← assert_ (PAGE_SIZE_4K <=? size);
      protect_region_loop fuel' (vaddr +w PAGE_SIZE_4K) (size - PAGE_SIZE_4K) flags
  end.

(** [protect_region(vaddr, size, flags, _)]. *)
Definition protect_region (vaddr size flags : Z) : PtM PagingError unit :=
  protect_region_loop (Z.to_nat (size / PAGE_SIZE_4K) + 1) vaddr size flags.
End page_table.

(** [copy_from(other, start, size)]: the root entries of the range are copied, so
    the two tables share everything below them. *)
Definition copy_from (self other : PageTable) (start size : Z) : outcome PageTable :=
  if size =? 0 then Ret self else
  let start_idx := p3_index start in
  let end_idx := p3_index ((start +w size) -w 1) + 1 in
  if end_idx <? start_idx then Panic else
  let inside i := (start_idx <=? i) && (i <? end_idx) in
  let merge (f : Z -> Z) (a b : gmap Z Z) :=
    filter (fun kv => inside (f (fst kv)) = true) b ∪
    filter (fun kv => inside (f (fst kv)) = false) a in
  Ret (mkPT (root_paddr self)
         (merge id (p2_tables self) (p2_tables other))
         (merge (fun p => p / 512) (p1_tables self) (p1_tables other))
         (merge (fun p => p / 262144) (entries self) (entries other))).

(** [Drop for PageTable64]: every table reachable from the root is freed, then the
    root, whoever created it. *)
Definition pt_drop {FA} `{FrameAllocator FA} (pt : PageTable) (m : Mach FA) : Mach FA :=
  let tables := (map_to_list (p1_tables pt)).*2 ++ (map_to_list (p2_tables pt)).*2 in
  dealloc_frame (root_paddr pt) (foldl (fun m p => dealloc_frame p m) m tables).

(** * Properties of page table entries *)

Lemma land_low_high a m k :
  0 <= k -> 0 <= a < 2 ^ k -> Z.land a (Z.shiftl m k) = 0.
Proof.
  intros Hk Ha. apply Z.bits_inj'. intros n Hn.
  rewrite Z.land_spec, Z.bits_0, Z.shiftl_spec by lia.
  destruct (Z.ltb_spec n k).
  - rewrite (Z.testbit_neg_r _ (n - k)) by lia. apply andb_false_r.
  - rewrite <- (Z.mod_small a (2 ^ k)) by lia. by rewrite Z.mod_pow2_bits_high by lia.
Qed.

(** The flag byte written by [new_page] and [set_flags]. *)
Definition flag_bits (f : Z) : Z :=
  Z.lor (Z.lor (from_mapping_flags f) PTEFlags.A) PTEFlags.D.

Lemma flag_bits_range f : 0 <= flag_bits f < 256.
Proof.
  unfold flag_bits, from_mapping_flags.
  destruct (is_empty f), (contains f READ), (contains f WRITE), (contains f EXECUTE),
    (contains f USER); vm_compute; split; congruence.
Qed.

Lemma flag_bits_unused f : flag_bits f <> 0.
Proof.
  unfold flag_bits, from_mapping_flags.
  destruct (is_empty f), (contains f READ), (contains f WRITE), (contains f EXECUTE),
    (contains f USER); vm_compute; congruence.
Qed.

Lemma flag_bits_present f : contains (flag_bits f) PTEFlags.V = negb (f =? 0).
Proof.
  unfold flag_bits, from_mapping_flags, is_empty.
  destruct (f =? 0), (contains f READ), (contains f WRITE), (contains f EXECUTE),
    (contains f USER); reflexivity.
Qed.

Lemma flag_bits_roundtrip f : 0 < f < 16 -> to_mapping_flags (flag_bits f) = f.
Proof.
  intros Hf.
  pose proof (all_below_spec 16
    (fun f => (f =? 0) || (to_mapping_flags (flag_bits f) =? f))%bool f eq_refl ltac:(lia)) as H.
  cbv beta in H. bool_to_prop. destruct H as [H|H]; bool_to_prop; [lia|done].
Qed.

(** The address field of an entry: [k] is the frame number. *)
Definition addr_field (pa : Z) : Z := Z.land (Z.shiftr pa 2) Rv64PTE.PHYS_ADDR_MASK.

Lemma addr_field_spec pa :
  0 <= pa < 2 ^ 56 -> pa mod PAGE_SIZE_4K = 0 -> addr_field pa = Z.shiftl (pa / PAGE_SIZE_4K) 10.
Proof.
  intros Hpa Hal. unfold addr_field.
  change Rv64PTE.PHYS_ADDR_MASK with (Z.shiftl (Z.ones 44) 10).
  replace (Z.shiftr pa 2) with (Z.shiftl (pa / PAGE_SIZE_4K) 10).
  2: { rewrite Z.shiftl_mul_pow2, Z.shiftr_div_pow2 by lia.
       change (2 ^ 10) with 1024. change (2 ^ 2) with 4. lia. }
  rewrite <- Z.shiftl_land, Z.land_ones by lia. f_equal.
  apply Z.mod_small. change (2 ^ 44) with 17592186044416.
  change (2 ^ 56) with 72057594037927936 in Hpa. lia.
Qed.

Lemma addr_field_masked pa : Z.land (addr_field pa) Rv64PTE.PHYS_ADDR_MASK = addr_field pa.
Proof. unfold addr_field. by rewrite <- Z.land_assoc, Z.land_diag. Qed.

Lemma flag_bits_masked f : Z.land (flag_bits f) Rv64PTE.PHYS_ADDR_MASK = 0.
Proof.
  change Rv64PTE.PHYS_ADDR_MASK with (Z.shiftl (Z.ones 44) 10).
  apply land_low_high; [lia|]. pose proof (flag_bits_range f). change (2 ^ 10) with 1024. lia.
Qed.

Lemma addr_field_low pa : Z.land (addr_field pa) 255 = 0.
Proof.
  unfold addr_field. rewrite <- Z.land_assoc.
  change (Z.land Rv64PTE.PHYS_ADDR_MASK 255) with 0. apply Z.land_0_r.
Qed.

Lemma flag_bits_low f : Z.land (flag_bits f) 255 = flag_bits f.
Proof.
  change 255 with (Z.ones 8). rewrite Z.land_ones by lia.
  apply Z.mod_small. apply flag_bits_range.
Qed.

Lemma new_page_eq pa f : Rv64PTE.new_page pa f = Z.lor (flag_bits f) (addr_field pa).
Proof. reflexivity. Qed.

Lemma new_page_low pa f : PTEFlags.from_bits_truncate (Rv64PTE.new_page pa f) = flag_bits f.
Proof.
  rewrite new_page_eq. unfold PTEFlags.from_bits_truncate.
  by rewrite Z.land_lor_distr_l, flag_bits_low, addr_field_low, Z.lor_0_r.
Qed.

Lemma new_page_paddr pa f :
  0 <= pa < 2 ^ 56 -> pa mod PAGE_SIZE_4K = 0 -> Rv64PTE.paddr (Rv64PTE.new_page pa f) = pa.
Proof.
  intros Hpa Hal. unfold Rv64PTE.paddr.
  rewrite new_page_eq, Z.land_lor_distr_l, flag_bits_masked, addr_field_masked, Z.lor_0_l.
  rewrite addr_field_spec, Z.shiftl_shiftl, Z.shiftl_mul_pow2 by lia.
  change (2 ^ (10 + 2)) with PAGE_SIZE_4K. change (2 ^ 56) with 72057594037927936 in Hpa.
  rewrite wrap_small; lia.
Qed.

Lemma new_page_flags pa f : 0 < f < 16 -> Rv64PTE.flags (Rv64PTE.new_page pa f) = f.
Proof. intros. unfold Rv64PTE.flags. rewrite new_page_low. by apply flag_bits_roundtrip. Qed.

Lemma new_page_present pa f : Rv64PTE.is_present (Rv64PTE.new_page pa f) = negb (f =? 0).
Proof. unfold Rv64PTE.is_present. rewrite new_page_low. apply flag_bits_present. Qed.

(** An entry written by [new_page] is never the unused entry: even the empty
    placeholder of a lazy mapping carries the A and D bits. *)
Lemma new_page_used pa f : Rv64PTE.is_unused (Rv64PTE.new_page pa f) = false.
Proof.
  unfold Rv64PTE.is_unused. apply Z.eqb_neq. intros H.
  apply (f_equal PTEFlags.from_bits_truncate) in H. rewrite new_page_low in H.
  by apply (flag_bits_unused f).
Qed.

(** Rewriting the address and the flags of any entry gives a fresh entry: what
    [remap] stores does not depend on the entry it replaces. *)
Lemma set_flags_set_paddr e pa f :
  Rv64PTE.set_flags (Rv64PTE.set_paddr e pa) f = Rv64PTE.new_page pa f.
Proof.
  unfold Rv64PTE.set_flags, Rv64PTE.set_paddr. fold (flag_bits f) (addr_field pa).
  rewrite new_page_eq, Z.lor_comm. f_equal.
  rewrite Z.land_lor_distr_l, addr_field_masked, <- Z.land_assoc.
  change (Z.land (not64 Rv64PTE.PHYS_ADDR_MASK) Rv64PTE.PHYS_ADDR_MASK) with 0.
  by rewrite Z.land_0_r, Z.lor_0_l.
Qed.

Lemma new_table_present pa :
  Rv64PTE.is_present (Rv64PTE.new_table pa) = true /\ Rv64PTE.is_huge (Rv64PTE.new_table pa) = false.
Proof.
  unfold Rv64PTE.is_present, Rv64PTE.is_huge, PTEFlags.from_bits_truncate, Rv64PTE.new_table.
  fold (addr_field pa). rewrite Z.land_lor_distr_l, addr_field_low. split; reflexivity.
Qed.

(** * Properties of the page table operations *)

(** Both tables on the walk to [vaddr] exist. *)
Definition has_leaf (pt : PageTable) (vaddr : Z) : Prop :=
  is_Some (p2_tables pt !! p2_path vaddr) /\ is_Some (p1_tables pt !! p1_path vaddr).

(** The frame is used to store one of the tables. *)
Definition table_frame (pt : PageTable) (p : Z) : Prop :=
  p = root_paddr pt \/ (exists k, p2_tables pt !! k = Some p) \/ (exists k, p1_tables pt !! k = Some p).

(** The frame a virtual address is translated to. *)
Definition frame_at (pt : PageTable) (vaddr : Z) : option Z :=
  match get_entry pt vaddr with
  | Ok e => if Rv64PTE.is_present e then Some (Rv64PTE.paddr e) else None
  | Err _ => None
  end.

Lemma index_spec va k : 0 <= k -> Z.land (Z.shiftr va k) 511 = va / 2 ^ k mod 512.
Proof.
  intros Hk. change 511 with (Z.ones 9). rewrite Z.land_ones, Z.shiftr_div_pow2 by lia. done.
Qed.

Lemma p2_path_spec va : 0 <= va < 2 ^ 39 -> p2_path va = va / 1073741824.
Proof.
  intros H. unfold p2_path, p3_index. change (ENTRY_COUNT - 1) with 511. rewrite index_spec by lia.
  change (2 ^ (12 + 18)) with 1073741824. change (2 ^ 39) with 549755813888 in H. lia.
Qed.

Lemma p1_path_spec va : 0 <= va < 2 ^ 39 -> p1_path va = va / 2097152.
Proof.
  intros H. unfold p1_path. fold (p2_path va). rewrite p2_path_spec by done.
  unfold p2_index. change (ENTRY_COUNT - 1) with 511. rewrite index_spec by lia.
  change (2 ^ (12 + 9)) with 2097152. lia.
Qed.

(** In the 39-bit space the entry used for an address is that of its page. *)
Lemma vpn_spec va : 0 <= va < 2 ^ 39 -> vpn va = va / PAGE_SIZE_4K.
Proof.
  intros H. unfold vpn. rewrite p1_path_spec by done.
  unfold p1_index. change (ENTRY_COUNT - 1) with 511. rewrite index_spec by lia.
  change (2 ^ 12) with PAGE_SIZE_4K. lia.
Qed.

Lemma vpn_inj va va' :
  0 <= va < 2 ^ 39 -> 0 <= va' < 2 ^ 39 ->
  va mod PAGE_SIZE_4K = 0 -> va' mod PAGE_SIZE_4K = 0 -> vpn va = vpn va' -> va = va'.
Proof. intros H H' Hm Hm'. rewrite !vpn_spec by done. lia. Qed.

Lemma vpn_page va va' :
  0 <= va < 2 ^ 39 -> 0 <= va' < 2 ^ 39 -> va / PAGE_SIZE_4K = va' / PAGE_SIZE_4K ->
  vpn va = vpn va' /\ p1_path va = p1_path va' /\ p2_path va = p2_path va'.
Proof.
  intros H H' E. rewrite !vpn_spec, !p1_path_spec, !p2_path_spec by done.
  change (2 ^ 39) with 549755813888 in *. split_and!; lia.
Qed.

Lemma raw_set_entry_eq pt va va' e : vpn va = vpn va' -> raw_entry (set_entry va e pt) va' = e.
Proof. intros E. unfold raw_entry, set_entry. cbn. by rewrite E, lookup_insert_eq. Qed.

Lemma raw_set_entry_ne pt va va' e :
  vpn va <> vpn va' -> raw_entry (set_entry va e pt) va' = raw_entry pt va'.
Proof. intros E. unfold raw_entry, set_entry. cbn. by rewrite lookup_insert_ne. Qed.

Lemma has_leaf_set_entry pt va va' e : has_leaf (set_entry va e pt) va' <-> has_leaf pt va'.
Proof. done. Qed.

Lemma table_frame_set_entry pt va e p : table_frame (set_entry va e pt) p <-> table_frame pt p.
Proof. done. Qed.

Lemma get_entry_Ok pt va : has_leaf pt va -> get_entry pt va = Ok (raw_entry pt va).
Proof. intros [[? E2] [? E1]]. unfold get_entry. by rewrite E2, E1. Qed.

Lemma get_entry_inv pt va e : get_entry pt va = Ok e -> has_leaf pt va /\ e = raw_entry pt va.
Proof.
  unfold get_entry, has_leaf.
  destruct (p2_tables pt !! p2_path va), (p1_tables pt !! p1_path va); try done.
  intros [= <-]. split; [split; eauto|done].
Qed.

Lemma get_entry_Err pt va e : get_entry pt va = Err e -> e = NotMapped /\ ~ has_leaf pt va.
Proof.
  unfold get_entry, has_leaf.
  destruct (p2_tables pt !! p2_path va), (p1_tables pt !! p1_path va); try done;
    intros [= <-]; (split; [done|]); intros [[? ?] [? ?]]; done.
Qed.

Lemma frame_at_Some pt va p :
  frame_at pt va = Some p <->
  has_leaf pt va /\ Rv64PTE.is_present (raw_entry pt va) = true /\ p = Rv64PTE.paddr (raw_entry pt va).
Proof.
  unfold frame_at. destruct (get_entry pt va) as [e|e] eqn:E.
  - apply get_entry_inv in E as [Hl ->].
    destruct (Rv64PTE.is_present (raw_entry pt va)) eqn:P; naive_solver.
  - apply get_entry_Err in E as [_ Hl]. naive_solver.
Qed.

Lemma frame_at_set_ne pt va va' e :
  vpn va <> vpn va' -> frame_at (set_entry va e pt) va' = frame_at pt va'.
Proof.
  intros Hne. unfold frame_at, get_entry. rewrite raw_set_entry_ne by done. done.
Qed.

Lemma frame_at_set_eq pt va va' pa f :
  has_leaf pt va' -> vpn va = vpn va' -> 0 <= pa < 2 ^ 56 -> pa mod PAGE_SIZE_4K = 0 ->
  frame_at (set_entry va (Rv64PTE.new_page pa f) pt) va' = if f =? 0 then None else Some pa.
Proof.
  intros Hl E Hpa Hal. unfold frame_at. rewrite get_entry_Ok by done.
  rewrite raw_set_entry_eq, new_page_present, new_page_paddr by done. by destruct (f =? 0).
Qed.

Lemma frame_at_clear pt va va' :
  vpn va = vpn va' -> frame_at (set_entry va Rv64PTE.clear pt) va' = None.
Proof.
  intros E. unfold frame_at. destruct (get_entry _ _) as [e|] eqn:Ee; [|done].
  apply get_entry_inv in Ee as [_ ->]. by rewrite raw_set_entry_eq by done.
Qed.

Section pt_props.
Context {FA : Type} `{FrameAllocatorLaws FA}.
Implicit Types m : Mach FA.

(** Only tables were added, in frames that were free, and no other byte of a
    used frame changed. *)
Record pt_grow (pt : PageTable) m (pt' : PageTable) m' : Prop := {
  grow_root : root_paddr pt' = root_paddr pt;
  grow_entries : entries pt' = entries pt;
  grow_p2 : p2_tables pt ⊆ p2_tables pt';
  grow_p1 : p1_tables pt ⊆ p1_tables pt';
  grow_wf : mach_wf m';
  grow_used : forall q, frame_used m q -> frame_used m' q;
  grow_bytes : same_used_bytes m m';
  grow_new_used : forall q, pframe_ok q -> frame_used m' q -> frame_used m q \/ table_frame pt' q;
  grow_tables : forall p, table_frame pt' p ->
    table_frame pt p \/ (~ frame_used m p /\ frame_used m' p /\ pframe_ok p);
}.

Lemma same_used_bytes_trans m m1 m2 :
  (forall q, frame_used m q -> frame_used m1 q) ->
  same_used_bytes m m1 -> same_used_bytes m1 m2 -> same_used_bytes m m2.
Proof. intros Hu H1 H2 p i Hp Hi. rewrite H2; auto. Qed.

Lemma pt_grow_refl pt m : mach_wf m -> pt_grow pt m pt m.
Proof. intros Hwf. split; try done; auto. Qed.

Lemma table_frame_grow pt m pt' m' p : pt_grow pt m pt' m' -> table_frame pt p -> table_frame pt' p.
Proof.
  intros G [->|[[k Hk]|[k Hk]]]; unfold table_frame.
  - left. by rewrite (grow_root _ _ _ _ G).
  - right; left. exists k. eapply lookup_weaken; [done|]. apply (grow_p2 _ _ _ _ G).
  - right; right. exists k. eapply lookup_weaken; [done|]. apply (grow_p1 _ _ _ _ G).
Qed.

Lemma pt_grow_trans pt m pt1 m1 pt2 m2 :
  pt_grow pt m pt1 m1 -> pt_grow pt1 m1 pt2 m2 -> pt_grow pt m pt2 m2.
Proof.
  intros G1 G2. split.
  - by rewrite (grow_root _ _ _ _ G2), (grow_root _ _ _ _ G1).
  - by rewrite (grow_entries _ _ _ _ G2), (grow_entries _ _ _ _ G1).
  - etrans; [apply (grow_p2 _ _ _ _ G1)|apply (grow_p2 _ _ _ _ G2)].
  - etrans; [apply (grow_p1 _ _ _ _ G1)|apply (grow_p1 _ _ _ _ G2)].
  - apply (grow_wf _ _ _ _ G2).
  - intros q Hq. by apply (grow_used _ _ _ _ G2), (grow_used _ _ _ _ G1).
  - eapply same_used_bytes_trans; [apply (grow_used _ _ _ _ G1)|apply G1|apply G2].
  - intros q Hok Hq. apply (grow_new_used _ _ _ _ G2) in Hq as [Hq|Hq]; [|by right|done].
    apply (grow_new_used _ _ _ _ G1) in Hq as [Hq|Hq]; [by left| |done].
    right. by eapply table_frame_grow.
  - intros p Hp. apply (grow_tables _ _ _ _ G2) in Hp as [Hp|(Hn & Hu & Hok)].
    + apply (grow_tables _ _ _ _ G1) in Hp as [Hp|(Hn & Hu & Hok)]; [by left|right].
      split_and!; [done| |done]. by apply (grow_used _ _ _ _ G2).
    + right. split_and!; [|done|done]. intros Hq. by apply Hn, (grow_used _ _ _ _ G1).
Qed.

Lemma has_leaf_grow pt m pt' m' va : pt_grow pt m pt' m' -> has_leaf pt va -> has_leaf pt' va.
Proof.
  intros G [[x Hx] [y Hy]]. split; eexists; eapply lookup_weaken; try done;
    [apply (grow_p2 _ _ _ _ G)|apply (grow_p1 _ _ _ _ G)].
Qed.

Lemma raw_entry_grow pt m pt' m' va : pt_grow pt m pt' m' -> raw_entry pt' va = raw_entry pt va.
Proof. intros G. unfold raw_entry. by rewrite (grow_entries _ _ _ _ G). Qed.

(** A table frame obtained from the allocator extends the page table. *)
Lemma pt_grow_alloc pt m p m' pt' :
  mach_wf m -> alloc_frame true m = Some (p, m') ->
  root_paddr pt' = root_paddr pt -> entries pt' = entries pt ->
  p2_tables pt ⊆ p2_tables pt' -> p1_tables pt ⊆ p1_tables pt' ->
  table_frame pt' p -> (forall q, table_frame pt' q -> table_frame pt q \/ q = p) ->
  pt_grow pt m pt' m'.
Proof.
  intros Hwf Ha Hr He H2 H1 Hin Htf.
  destruct (alloc_frame_spec m p m' Hwf Ha) as (Hwf' & Hok & Hfresh & Hused & Hbytes & _).
  split; try done.
  - intros q Hq. apply Hused. by right.
  - intros q Hq Hu. apply Hused in Hu as [Hu|Hu]; [|by left].
    right. apply phys_to_virt_inj in Hu as ->; done.
  - intros q Hq. apply Htf in Hq as [Hq| ->]; [by left|right].
    split_and!; [done| |done]. apply Hused. by left.
Qed.

(** Creating the tables for [va] either succeeds or runs out of frames. *)
Lemma get_entry_mut_or_create_spec va pt m :
  mach_wf m ->
  exists r pt' m', get_entry_mut_or_create va (pt, m) = Ret (r, (pt', m')) /\
    pt_grow pt m pt' m' /\
    match r with
    | Ok _ => has_leaf pt' va
    | Err e => e = PE_NoMemory /\ fa_alloc (m_fa m') = None
    end.
Proof.
  intros Hwf.
  assert (Hp1 : forall pt1 m1, pt_grow pt m pt1 m1 -> is_Some (p2_tables pt1 !! p2_path va) ->
    exists r pt' m',
      match p1_tables pt1 !! p1_path va with
      | Some _ => mret tt
      | None =>
          p ← alloc_table;
          upd (fun pt => mkPT (root_paddr pt) (p2_tables pt)
                           (<[p1_path va := p]> (p1_tables pt)) (entries pt))
      end (pt1, m1) = Ret (r, (pt', m')) /\ pt_grow pt m pt' m' /\
      match r with
      | Ok _ => has_leaf pt' va
      | Err e => e = PE_NoMemory /\ fa_alloc (m_fa m') = None
      end).
  { intros pt1 m1 G1 H2. unfold_M. destruct (p1_tables pt1 !! p1_path va) as [q|] eqn:E1.
    - exists (Ok tt), pt1, m1. split_and!; [done..|by eexists].
    - unfold alloc_table. destruct (alloc_frame true m1) as [[p m2]|] eqn:Ea; cbn.
      + eexists (Ok tt), _, m2. split; [done|]. split.
        * eapply pt_grow_trans; [done|]. eapply pt_grow_alloc; cbn; try done.
          -- apply (grow_wf _ _ _ _ G1).
          -- by apply insert_subseteq.
          -- right; right. exists (p1_path va). cbn. by rewrite lookup_insert_eq.
          -- unfold table_frame; cbn. intros q [?|[?|[k Hk]]]; [auto..|].
             destruct (decide (k = p1_path va)) as [->|Hk'].
             ++ rewrite lookup_insert_eq in Hk. right. congruence.
             ++ rewrite lookup_insert_ne in Hk by done. left. eauto.
        * split; cbn; [done|]. rewrite lookup_insert_eq. by eexists.
      + exists (Err PE_NoMemory), pt1, m1. auto using alloc_frame_None. }
  unfold get_entry_mut_or_create. unfold_M. cbn.
  destruct (p2_tables pt !! p2_path va) as [q|] eqn:E2.
  - apply Hp1; [by apply pt_grow_refl|by eexists].
  - unfold alloc_table at 1. destruct (alloc_frame true m) as [[p m2]|] eqn:Ea; cbn.
    + apply (Hp1 (mkPT (root_paddr pt) (<[p2_path va := p]> (p2_tables pt)) (p1_tables pt)
                    (entries pt)) m2).
      * eapply pt_grow_alloc; cbn; try done.
        -- by apply insert_subseteq.
        -- right; left. exists (p2_path va). cbn. by rewrite lookup_insert_eq.
        -- unfold table_frame; cbn. intros q [?|[[k Hk]|?]]; [auto| |auto].
           destruct (decide (k = p2_path va)) as [->|Hk'].
           ++ rewrite lookup_insert_eq in Hk. right. congruence.
           ++ rewrite lookup_insert_ne in Hk by done. left. eauto.
      * cbn. rewrite lookup_insert_eq. by eexists.
    + exists (Err PE_NoMemory), pt, m. auto using pt_grow_refl, alloc_frame_None.
Qed.

(** [map] never panics; it fails only without memory or on an entry in use, and
    then changes no leaf entry. *)
Lemma pt_map_spec va target f pt m :
  mach_wf m ->
  exists (r : result unit PagingError) pt1 m1, pt_grow pt m pt1 m1 /\
    match r with
    | Ok _ =>
        pt_map va target f (pt, m)
        = Ret (Ok tt, (set_entry va (Rv64PTE.new_page (align_down target PAGE_SIZE_4K) f) pt1, m1)) /\
        has_leaf pt1 va /\ raw_entry pt va = 0
    | Err e =>
        pt_map va target f (pt, m) = Ret (Err e, (pt1, m1)) /\
        ((e = PE_NoMemory /\ fa_alloc (m_fa m1) = None) \/
         (e = AlreadyMapped /\ raw_entry pt va <> 0))
    end.
Proof.
  intros Hwf. destruct (get_entry_mut_or_create_spec va pt m Hwf) as (r & pt1 & m1 & E & G & Hr).
  unfold pt_map. unfold_M. rewrite E. destruct r as [[]|e]; cbn.
  - rewrite (raw_entry_grow _ _ _ _ va G). unfold Rv64PTE.is_unused.
    destruct (Z.eqb_spec (raw_entry pt va) 0) as [E0|E0].
    + by exists (Ok tt), pt1, m1.
    + exists (Err AlreadyMapped), pt1, m1. cbn. auto.
  - exists (Err e), pt1, m1. auto.
Qed.

(** The leaf entries in use have their tables. *)
Definition entries_ok (pt : PageTable) : Prop :=
  forall va, raw_entry pt va <> 0 -> has_leaf pt va.

Lemma frame_at_grow pt m pt' m' va :
  entries_ok pt -> pt_grow pt m pt' m' -> frame_at pt' va = frame_at pt va.
Proof.
  intros Hok G. apply option_eq. intros p. rewrite !frame_at_Some.
  rewrite (raw_entry_grow _ _ _ _ va G). split; intros (Hl & Hp & ->); split_and!; try done.
  - apply Hok. intros E. by rewrite E in Hp.
  - by eapply has_leaf_grow.
Qed.

Lemma entries_ok_grow pt m pt' m' : entries_ok pt -> pt_grow pt m pt' m' -> entries_ok pt'.
Proof.
  intros Hok G va. rewrite (raw_entry_grow _ _ _ _ va G). intros Hne.
  eapply has_leaf_grow; [done|]. by apply Hok.
Qed.

(** The walk only depends on the page number. *)
Lemma has_leaf_vpn pt va va' :
  0 <= va < 2 ^ 39 -> 0 <= va' < 2 ^ 39 -> vpn va = vpn va' -> has_leaf pt va <-> has_leaf pt va'.
Proof.
  intros H1 H2 E. rewrite !vpn_spec in E by done.
  destruct (vpn_page va va' H1 H2 E) as (_ & E1 & E2). unfold has_leaf. by rewrite E1, E2.
Qed.

Lemma pt_unmap_spec va pt m :
  pt_unmap va (pt, m) =
    match frame_at pt va with
    | Some p => Ret (Ok p, (set_entry va Rv64PTE.clear pt, m))
    | None => Ret (Err NotMapped,
                (if is_ok (get_entry pt va) then set_entry va Rv64PTE.clear pt else pt, m))
    end.
Proof.
  unfold pt_unmap, frame_at. unfold_M. cbn.
  destruct (get_entry pt va) as [e|e] eqn:E; cbn.
  - destruct (Rv64PTE.is_present e); done.
  - apply get_entry_Err in E as [-> _]. done.
Qed.

Lemma pt_remap_spec va pa f pt m :
  pt_remap va pa f (pt, m) =
    match get_entry pt va with
    | Ok _ => Ret (Ok tt, (set_entry va (Rv64PTE.new_page pa f) pt, m))
    | Err e => Ret (Err e, (pt, m))
    end.
Proof.
  unfold pt_remap. unfold_M. cbn. destruct (get_entry pt va) as [e|e]; cbn; [|done].
  by rewrite set_flags_set_paddr.
Qed.
End pt_props.
