(* ===== verification/MemorySet.v ===== *)
(** Memory areas and memory sets: vendor/memory_set (area.rs, set.rs,
    backend.rs). A [MemorySet] keeps the areas of an address space in a
    [BTreeMap] keyed by start address and drives a [MappingBackend] to change
    the page table. The map is modelled by its in-order list of bindings. *)
From stdpp Require Import sorting.
From S2P Require Import Prelude MemAddr.

(** * The backend interface (memory_set/src/backend.rs) *)

(** The trait [MappingBackend]: [B] is the backend value stored in an area, [PT]
    the page table. Each operation reports success as a boolean. *)
Class MappingBackend (B PT : Type) := {
  b_map : B -> Z -> Z -> Z -> PT -> outcome (bool * PT);
  b_unmap : B -> Z -> Z -> PT -> outcome (bool * PT);
}.

Inductive MappingError : Type := InvalidParam | ME_AlreadyExists | ME_BadState.

(** * Ordered maps *)

Section btree.
Context {V : Type}.
Implicit Types l : list (Z * V).

(** [insert], replacing the value of an existing key. *)
Fixpoint bt_insert (k : Z) (v : V) l : list (Z * V) :=
  match l with
  | [] => [(k, v)]
  | (k', v') :: l' =>
      if k <? k' then (k, v) :: l
      else if k =? k' then (k, v) :: l'
      else (k', v') :: bt_insert k v l'
  end.

(** [remove]. *)
Fixpoint bt_remove (k : Z) l : list (Z * V) :=
  match l with
  | [] => []
  | (k', v') :: l' => if k =? k' then l' else (k', v') :: bt_remove k l'
  end.

(** [get]. *)
Fixpoint bt_get (k : Z) l : option V :=
  match l with
  | [] => None
  | (k', v') :: l' => if k =? k' then Some v' else bt_get k l'
  end.

(** [range(..k).last()], [range(..=k).last()] and [range(k..).next()]. *)
Definition range_lt_last (k : Z) l : option (Z * V) := last (filter (fun kv => fst kv < k) l).
Definition range_le_last (k : Z) l : option (Z * V) := last (filter (fun kv => fst kv <= k) l).
Definition range_ge_first (k : Z) l : option (Z * V) := head (filter (fun kv => k <= fst kv) l).
End btree.

(** * Areas (memory_set/src/area.rs) *)

Record MemoryArea (B : Type) := mkArea {
  va_range : AddrRange;
  a_flags : Z;
  backend : B;
}.
Arguments mkArea {B} _ _ _.
Arguments va_range {B} _.
Arguments a_flags {B} _.
Arguments backend {B} _.

Definition a_start {B} (a : MemoryArea B) : Z := r_start (va_range a).
Definition a_end {B} (a : MemoryArea B) : Z := r_end (va_range a).
Definition a_size {B} (a : MemoryArea B) : Z := r_size (va_range a).
Definition with_range {B} (r : AddrRange) (a : MemoryArea B) : MemoryArea B :=
  mkArea r (a_flags a) (backend a).

Section memory_set.
Context {B PT : Type} `{MappingBackend B PT}.

Abbreviation Areas := (list (Z * MemoryArea B)).
(** The memory set and the page table it is applied to. *)
Definition SetM (A : Type) : Type := M (Areas * PT) MappingError A.

(** Run a backend operation on the page table. *)
Definition on_pt (f : PT -> outcome (bool * PT)) : SetM bool := fun '(l, pt) =>
  match f pt with
  | Ret (b, pt') => Ret (Ok b, (l, pt'))
  | Panic => Panic
  end.

Definition set_areas (f : Areas -> Areas) : SetM unit := fun '(l, pt) => Ret (Ok tt, (f l, pt)).
Definition get_areas : SetM Areas := fun '(l, pt) => Ret (Ok l, (l, pt)).

(** [MemoryArea::new]: panics when [start + size] overflows. *)
Definition area_new {S E} (start size flags : Z) (b : B) : M S E (MemoryArea B) :=
  r ← from_start_size start size; mret (mkArea r flags b).

(** [map_area], [unmap_area]. *)
Definition map_area (a : MemoryArea B) : SetM unit :=
  ok ← on_pt (b_map (backend a) (a_start a) (a_size a) (a_flags a));
  ensure ok ME_BadState.
Definition unmap_area (a : MemoryArea B) : SetM unit :=
  ok ← on_pt (b_unmap (backend a) (a_start a) (a_size a));
  ensure ok ME_BadState.

(** [shrink_left(new_size)] and [shrink_right(new_size)] return the new area. *)
Definition shrink_left (a : MemoryArea B) (new_size : Z) : SetM (MemoryArea B) :=
  _ ← assert_ ((0 <? new_size) && (new_size <? a_size a));
  let unmap_size := a_size a -w new_size in
  ok ← on_pt (b_unmap (backend a) (a_start a) unmap_size);
  _ ← ensure ok ME_BadState;
  mret (with_range (mkRange (a_start a +w unmap_size) (a_end a)) a).
Definition shrink_right (a : MemoryArea B) (new_size : Z) : SetM (MemoryArea B) :=
  _ ← assert_ ((0 <? new_size) && (new_size <? a_size a));
  let unmap_size := a_size a -w new_size in
  let unmap_start := a_start a +w new_size in
  ok ← on_pt (b_unmap (backend a) unmap_start unmap_size);
  _ ← ensure ok ME_BadState;
  mret (with_range (mkRange (a_start a) (a_end a -w unmap_size)) a).

(** [split(pos)]: the left part that replaces the area and the right part. The
    sum in [MemoryArea::new] is the old end, so it does not overflow. *)
Definition split (a : MemoryArea B) (pos : Z) : option (MemoryArea B * MemoryArea B) :=
  if (a_start a <? pos) && (pos <? a_end a) then
    Some (with_range (mkRange (a_start a) pos) a,
          with_range (mkRange pos (pos + (a_end a -w pos))) a)
  else None.

(** * The memory set (memory_set/src/set.rs) *)

(** [overlaps]: only the neighbours of [range.start] are examined. *)
Definition ms_overlaps (l : Areas) (range : AddrRange) : bool :=
  match range_lt_last (r_start range) l with
  | Some (_, before) => overlaps (va_range before) range
  | None => false
  end ||
  match range_ge_first (r_start range) l with
  | Some (_, after) => overlaps (va_range after) range
  | None => false
  end.

(** [find]. *)
Definition ms_find (l : Areas) (addr : Z) : option (MemoryArea B) :=
  match range_le_last addr l with
  | Some (_, a) => if r_contains (va_range a) addr then Some a else None
  | None => None
  end.

(** [last_end.checked_add(size).is_some_and(|end| end <= limit)]. *)
Definition fits (last_end size limit : Z) : bool :=
  match checked_add last_end size with
  | Some e => e <=? limit
  | None => false
  end.

(** The loop of [find_free_area]. *)
Fixpoint find_free_loop (l : Areas) (last_end size limit_end : Z) : option Z :=
  match l with
  | [] => if fits last_end size limit_end then Some last_end else None
  | (addr, area) :: l' =>
      if fits last_end size addr then Some last_end
      else find_free_loop l' (a_end area) size limit_end
  end.

(** [find_free_area(hint, size, limit)]. *)
Definition ms_find_free_area (l : Areas) (hint size : Z) (limit : AddrRange) : option Z :=
  find_free_loop l (Z.max hint (r_start limit)) size (r_end limit).

(** The closure of [retain] in [unmap], applied to the bindings in order. *)
Fixpoint unmap_contained (range : AddrRange) (l : Areas) (pt : PT) : outcome (Areas * PT) :=
  match l with
  | [] => Ret ([], pt)
  | (k, a) :: l' =>
      if contained_in (va_range a) range then
        match b_unmap (backend a) (a_start a) (a_size a) pt with
        | Ret (true, pt') => unmap_contained range l' pt'
        | _ => Panic
        end
      else
        match unmap_contained range l' pt with
        | Ret (l'', pt') => Ret ((k, a) :: l'', pt')
        | Panic => Panic
        end
  end.

(** [unmap], first part: remove the areas contained in the range. *)
Definition unmap_retain (range : AddrRange) : SetM unit := fun '(l, pt) =>
  match unmap_contained range l pt with
  | Ret st => Ret (Ok tt, st)
  | Panic => Panic
  end.

(** [unmap], second part: the area that starts before the range. *)
Definition unmap_before (start end_ : Z) : SetM unit :=
  l ← get_areas;
  match range_lt_last start l with
  | Some (before_start, before) =>
      if start <? a_end before then
        if a_end before <=? end_ then
          new_size ← unwrap (checked_sub start before_start);
          b' ← shrink_right before new_size;
          set_areas (bt_insert before_start b')
        else
          '(left_part, right_part) ← unwrap (split before end_);
          _ ← set_areas (bt_insert before_start left_part);
          new_size ← unwrap (checked_sub start before_start);
          b' ← shrink_right left_part new_size;
          _ ← set_areas (bt_insert before_start b');
          _ ← assert_ (a_start right_part =? end_);
          set_areas (bt_insert end_ right_part)
      else mret tt
  | None => mret tt
  end.

(** [unmap], third part: the first area that starts inside the range. *)
Definition unmap_after (start end_ : Z) : SetM unit :=
  l ← get_areas;
  match range_ge_first start l with
  | Some (after_start, after) =>
      if after_start <? end_ then
        _ ← set_areas (bt_remove after_start);
        new_size ← unwrap (checked_sub (a_end after) end_);
        new_area ← shrink_left after new_size;
        _ ← assert_ (a_start new_area =? end_);
        set_areas (bt_insert end_ new_area)
      else mret tt
  | None => mret tt
  end.

(** [unmap(start, size, page_table)]. *)
Definition ms_unmap (start size : Z) : SetM unit :=
  range ← ok_or (try_from_start_size start size) InvalidParam;
  if r_is_empty range then mret tt else
  _ ← unmap_retain range;
  _ ← unmap_before start (r_end range);
  unmap_after start (r_end range).

(** [map(area, page_table, unmap_overlap)]. *)
Definition ms_map (area : MemoryArea B) (unmap_overlap : bool) : SetM unit :=
  _ ← ensure (negb (r_is_empty (va_range area))) InvalidParam;
  l ← get_areas;
  _ ← (if ms_overlaps l (va_range area) then
         if unmap_overlap then ms_unmap (a_start area) (a_size area)
         else throw ME_AlreadyExists
       else mret tt);
  _ ← map_area area;
  l ← get_areas;
  _ ← assert_ (match bt_get (a_start area) l with None => true | Some _ => false end);
  set_areas (bt_insert (a_start area) area).

(** The loop of [clear]. *)
Fixpoint clear_loop (l : Areas) : SetM unit :=
  match l with
  | [] => M_ret tt
  | (_, a) :: l' => _ ← unmap_area a; clear_loop l'
  end.

(** [clear(page_table)]. *)
Definition ms_clear : SetM unit :=
  l ← get_areas;
  _ ← clear_loop l;
  set_areas (fun _ => []).
End memory_set.
Arguments shrink_left : simpl never.
Arguments shrink_right : simpl never.
Arguments split : simpl never.
Arguments unmap_before : simpl never.
Arguments unmap_after : simpl never.

(** * Invariant and reference definitions *)

Section ms_spec.
Context {B : Type}.
Implicit Types (l : list (Z * MemoryArea B)) (a : MemoryArea B).

(** A binding of the map: keyed by its start, not empty, and ending below the top
    of the address space. *)
Definition area_ok (ka : Z * MemoryArea B) : Prop :=
  fst ka = a_start (snd ka) /\ 0 <= fst ka < a_end (snd ka) /\ a_end (snd ka) < USIZE.

(** The first area ends where the second begins, or before. *)
Definition area_lt (x y : Z * MemoryArea B) : Prop := a_end (snd x) <= fst y.

(** The invariant of a memory set: sorted, non-empty, pairwise disjoint areas. *)
Definition ms_wf l : Prop := Forall area_ok l /\ StronglySorted area_lt l.

(** Reference definition of lookup: scan all areas. *)
Fixpoint area_at l (addr : Z) : option (MemoryArea B) :=
  match l with
  | [] => None
  | (_, a) :: l' => if r_contains (va_range a) addr then Some a else area_at l' addr
  end.

(** The abstract state of a memory set: the flags and the backend of each mapped
    address. *)
Definition view l (addr : Z) : option (Z * B) :=
  (fun a => (a_flags a, backend a)) <$> area_at l addr.

(** What removing [s, e) leaves of one area. *)
Definition cut_area (s e : Z) (ka : Z * MemoryArea B) : list (Z * MemoryArea B) :=
  let '(k, a) := ka in
  (if k <? s then [(k, with_range (mkRange k (Z.min (a_end a) s)) a)] else []) ++
  (if e <? a_end a then [(Z.max k e, with_range (mkRange (Z.max k e) (a_end a)) a)] else []).

(** Reference definition of [unmap] on the areas. *)
Definition spec_unmap (s e : Z) l : list (Z * MemoryArea B) := flat_map (cut_area s e) l.

(** The unmap requests: for each area, the part of it inside [s, e). *)
Definition is_inside (s e : Z) (ka : Z * MemoryArea B) : bool :=
  contained_in (va_range (snd ka)) (mkRange s e).
Definition piece (s e : Z) (ka : Z * MemoryArea B) : list (B * Z * Z) :=
  let '(k, a) := ka in
  if (Z.max k s <? Z.min (a_end a) e) then
    [(backend a, Z.max k s, Z.min (a_end a) e - Z.max k s)] else [].
(** The order in which [unmap] issues them: whole areas first. *)
Definition unmap_plan (s e : Z) l : list (B * Z * Z) :=
  flat_map (piece s e) (filter (fun ka => is_inside s e ka = true) l) ++
  flat_map (piece s e) (filter (fun ka => is_inside s e ka = false) l).
End ms_spec.

(** Run a list of unmap requests until one fails. *)
Fixpoint run_unmaps {B PT} `{MappingBackend B PT} (reqs : list (B * Z * Z)) (pt : PT)
  : outcome (bool * PT) :=
  match reqs with
  | [] => Ret (true, pt)
  | (b, start, size) :: reqs' =>
      match b_unmap b start size pt with
      | Ret (true, pt') => run_unmaps reqs' pt'
      | r => r
      end
  end.

(** * Properties of the ordered map *)

Section ms_props.
Context {B PT : Type} `{MappingBackend B PT}.
Implicit Types (l A D : list (Z * MemoryArea B)) (a : MemoryArea B) (pt : PT) (ka : Z * MemoryArea B).

Lemma ms_wf_app A D :
  ms_wf (A ++ D) <->
  ms_wf A /\ ms_wf D /\ (forall x y, x ∈ A -> y ∈ D -> area_lt x y).
Proof. unfold ms_wf. rewrite Forall_app, StronglySorted_app. naive_solver. Qed.

Lemma ms_wf_cons ka l :
  ms_wf (ka :: l) <-> area_ok ka /\ ms_wf l /\ (forall y, y ∈ l -> area_lt ka y).
Proof.
  change (ka :: l) with ([ka] ++ l). rewrite ms_wf_app. unfold ms_wf at 1.
  rewrite Forall_singleton. setoid_rewrite list_elem_of_singleton.
  split; intros; destruct_and!; split_and!; try naive_solver.
  repeat constructor.
Qed.

Lemma ms_wf_elem l ka : ms_wf l -> ka ∈ l -> area_ok ka.
Proof. intros [Hok _] Hin. by eapply Forall_forall in Hok. Qed.

Lemma area_at_Some l addr a :
  area_at l addr = Some a -> exists k, (k, a) ∈ l /\ a_start a <= addr < a_end a.
Proof.
  induction l as [|[k b] l IH]; cbn; [done|].
  destruct (r_contains (va_range b) addr) eqn:E.
  - intros [= ->]. exists k. split; [left|]. by apply r_contains_spec.
  - intros Ha. destruct (IH Ha) as (k' & ? & ?). exists k'. split; [by right|done].
Qed.

(** In a well-formed set an address belongs to at most one area. *)
Lemma area_at_elem l k a addr :
  ms_wf l -> (k, a) ∈ l -> a_start a <= addr < a_end a -> area_at l addr = Some a.
Proof.
  induction l as [|[k' b] l IH]; intros Hwf Hin Hr; [by apply elem_of_nil in Hin|].
  apply ms_wf_cons in Hwf as (Hok & Hwf & Hlt). cbn.
  apply elem_of_cons in Hin as [[= -> ->]|Hin].
  - by rewrite (proj2 (r_contains_spec (va_range b) addr)).
  - pose proof (Hlt _ Hin) as Hl. unfold area_lt in Hl. cbn in Hl.
    destruct (ms_wf_elem _ _ Hwf Hin) as (Hk & _). cbn in Hk.
    destruct (r_contains (va_range b) addr) eqn:E; [|by apply IH].
    apply r_contains_spec in E. unfold a_start, a_end in *. lia.
Qed.

Lemma area_at_None l addr :
  area_at l addr = None <-> forall k a, (k, a) ∈ l -> ~ (a_start a <= addr < a_end a).
Proof.
  induction l as [|[k b] l IH]; cbn.
  - split; [|done]. intros _ k a Hin. by apply elem_of_nil in Hin.
  - destruct (r_contains (va_range b) addr) eqn:E.
    + split; [done|]. intros Hn. apply r_contains_spec in E. exfalso.
      apply (Hn k b); [left|done].
    + rewrite IH. split.
      * intros Hn k' a Hin. apply elem_of_cons in Hin as [[= -> ->]|Hin]; [|by eapply Hn].
        intros Hr. apply r_contains_spec in Hr. congruence.
      * intros Hn k' a Hin. eapply Hn. by right.
Qed.

(** A well-formed set splits at any address into the areas that start below it
    and those that start at or above it. *)
Lemma ms_split l s :
  ms_wf l -> exists A D, l = A ++ D /\
    Forall (fun ka => fst ka < s) A /\ Forall (fun ka => s <= fst ka) D.
Proof.
  induction l as [|[k a] l IH]; intros Hwf; [by exists [], []|].
  apply ms_wf_cons in Hwf as (Hok & Hwf & Hlt). destruct (Z.ltb_spec k s).
  - destruct (IH Hwf) as (A & D & -> & HA & HD). exists ((k, a) :: A), D.
    split_and!; [done|by constructor|done].
  - exists [], ((k, a) :: l). split_and!; [done..|]. constructor; [done|].
    apply Forall_forall. intros y Hy. apply Hlt in Hy. unfold area_lt in Hy.
    destruct Hok as (_ & ? & _). cbn in *. lia.
Qed.

Lemma filter_all {X} (P : X -> Prop) `{forall x, Decision (P x)} (L : list X) :
  Forall P L -> filter P L = L.
Proof. induction 1; [done|]. rewrite filter_cons_True by done. by f_equal. Qed.

Lemma filter_none {X} (P : X -> Prop) `{forall x, Decision (P x)} (L : list X) :
  Forall (fun x => ~ P x) L -> filter P L = [].
Proof. induction 1; [done|]. by rewrite filter_cons_False. Qed.

Lemma range_lt_last_split A D s :
  Forall (fun ka => fst ka < s) A -> Forall (fun ka => s <= fst ka) D -> range_lt_last s (A ++ D) = last A.
Proof.
  intros HA HD. unfold range_lt_last. rewrite filter_app, (filter_all _ A), (filter_none _ D), app_nil_r;
    [done| |done].
  eapply Forall_impl; [exact HD|]. cbn. lia.
Qed.

Lemma range_ge_first_split A D s :
  Forall (fun ka => fst ka < s) A -> Forall (fun ka => s <= fst ka) D -> range_ge_first s (A ++ D) = head D.
Proof.
  intros HA HD. unfold range_ge_first. rewrite filter_app, (filter_none _ A), (filter_all _ D);
    [done|done|].
  eapply Forall_impl; [exact HA|]. cbn. lia.
Qed.

Lemma bt_insert_split A D s v :
  Forall (fun ka => fst ka < s) A -> Forall (fun ka => s < fst ka) D ->
  bt_insert s v (A ++ D) = A ++ (s, v) :: D.
Proof.
  intros HA HD'. induction HA as [|[k a] A' Hk _ IH]; cbn.
  - destruct D as [|[k a] D']; [done|]. cbn. apply Forall_cons_1 in HD' as [Hk _]. cbn in Hk.
    by destruct (Z.ltb_spec s k); [|lia].
  - cbn in Hk. destruct (Z.ltb_spec s k); [lia|]. destruct (Z.eqb_spec s k); [lia|]. by rewrite IH.
Qed.

Lemma bt_insert_replace A D s v w :
  Forall (fun ka => fst ka < s) A -> bt_insert s v (A ++ (s, w) :: D) = A ++ (s, v) :: D.
Proof.
  intros HA. induction HA as [|[k a] A' Hk _ IH]; cbn.
  - destruct (Z.ltb_spec s s); [lia|]. by rewrite Z.eqb_refl.
  - cbn in Hk. destruct (Z.ltb_spec s k); [lia|]. destruct (Z.eqb_spec s k); [lia|]. by rewrite IH.
Qed.

Lemma bt_remove_split A D s v :
  Forall (fun ka => fst ka < s) A -> bt_remove s (A ++ (s, v) :: D) = A ++ D.
Proof.
  intros HA. induction HA as [|[k a] A' Hk _ IH]; cbn.
  - by rewrite Z.eqb_refl.
  - cbn in Hk. destruct (Z.eqb_spec s k); [lia|]. by rewrite IH.
Qed.

Lemma bt_get_split_None A D s :
  Forall (fun ka => fst ka < s) A -> Forall (fun ka => s < fst ka) D -> bt_get s (A ++ D) = None.
Proof.
  intros HA HD'. induction HA as [|[k a] A' Hk _ IH]; cbn.
  - induction HD' as [|[k a] D' Hk _ IH]; cbn; [done|]. cbn in Hk.
    destruct (Z.eqb_spec s k); [lia|done].
  - cbn in Hk. destruct (Z.eqb_spec s k); [lia|done].
Qed.
Lemma ms_split_le l s :
  ms_wf l -> exists A D, l = A ++ D /\ range_le_last s l = last A /\
    Forall (fun ka => fst ka <= s) A /\ Forall (fun ka => s < fst ka) D.
Proof.
  intros Hwf. destruct (ms_split l (s + 1) Hwf) as (A & D & -> & HA & HD).
  assert (HA' : Forall (fun ka => fst ka <= s) A) by (eapply Forall_impl; [exact HA|]; cbn; lia).
  assert (HD' : Forall (fun ka => s < fst ka) D) by (eapply Forall_impl; [exact HD|]; cbn; lia).
  exists A, D. split_and!; [done| |done..].
  unfold range_le_last. rewrite filter_app, (filter_all _ A), (filter_none _ D), app_nil_r; [done| |done].
  eapply Forall_impl; [exact HD'|]. cbn. lia.
Qed.

(** Any area of [A] before its last one ends where the last one starts, or
    before. *)
Lemma ms_wf_last A k a x :
  ms_wf A -> last A = Some (k, a) -> x ∈ A -> x = (k, a) \/ a_end (snd x) <= k.
Proof.
  intros Hwf Hl Hx. apply last_Some in Hl as [A' ->].
  apply ms_wf_app in Hwf as (_ & _ & Hlt).
  apply elem_of_app in Hx as [Hx|Hx%list_elem_of_singleton]; [right|by left].
  apply (Hlt x (k, a)); [done|]. by apply list_elem_of_singleton.
Qed.

(** [find] by neighbour lookup agrees with scanning all the areas. *)
Lemma ms_find_area_at l addr : ms_wf l -> ms_find l addr = area_at l addr.
Proof.
  intros Hwf. unfold ms_find.
  destruct (ms_split_le l addr Hwf) as (A & D & -> & -> & HA & HD).
  apply ms_wf_app in Hwf as Hwf'. destruct Hwf' as (HwA & _ & _).
  symmetry. destruct (last A) as [[k a]|] eqn:El.
  - assert (Hin : (k, a) ∈ A) by (apply last_Some in El as [? ->]; set_solver).
    destruct (r_contains (va_range a) addr) eqn:E.
    + eapply area_at_elem; [done|by apply elem_of_app; left|by apply r_contains_spec].
    + apply area_at_None. intros k' b Hb Hr. apply elem_of_app in Hb as [Hb|Hb].
      * destruct (ms_wf_last A k a _ HwA El Hb) as [[= -> ->]|Hlt].
        -- apply r_contains_spec in Hr. congruence.
        -- cbn in Hlt. eapply Forall_forall in HA; [|exact Hin]. cbn in HA. lia.
      * eapply Forall_forall in HD; [|exact Hb]. cbn in HD.
        destruct (ms_wf_elem (A ++ D) (k', b) Hwf) as (Hk & _); [set_solver|]. cbn in Hk. lia.
  - apply last_None in El as ->. apply area_at_None. intros k' b Hb Hr.
    eapply Forall_forall in HD; [|exact Hb]. cbn in HD.
    destruct (ms_wf_elem _ _ Hwf Hb) as (Hk & _). cbn in Hk. lia.
Qed.

(** [overlaps] on the two neighbours agrees with testing every area. *)
Lemma ms_overlaps_existsb l r :
  ms_wf l -> ms_overlaps l r = existsb (fun ka => overlaps (va_range (snd ka)) r) l.
Proof.
  intros Hwf. apply eq_bool_prop_intro. rewrite !Is_true_true.
  destruct (ms_split l (r_start r) Hwf) as (A & D & -> & HA & HD).
  unfold ms_overlaps. rewrite range_lt_last_split, range_ge_first_split by done.
  apply ms_wf_app in Hwf as Hwf'. destruct Hwf' as (HwA & HwD & _).
  rewrite orb_true_iff, existsb_exists. setoid_rewrite <- list_elem_of_In. split.
  - intros [E|E].
    + destruct (last A) as [[k a]|] eqn:El; [|done]. exists (k, a). split; [|done].
      apply last_Some in El as [? ->]. set_solver.
    + destruct D as [|[k a] D']; [done|]. exists (k, a). split; [set_solver|done].
  - intros ([k a] & Hin & E). cbn in E. apply overlaps_spec in E as Ho.
    fold (a_start a) (a_end a) in Ho.
    apply elem_of_app in Hin as [Hin|Hin].
    + left. destruct (last A) as [[k' b]|] eqn:El.
      2: { apply last_None in El as ->. set_solver. }
      destruct (ms_wf_last A k' b _ HwA El Hin) as [[= <- <-]|Hlt]; [done|]. cbn in Hlt.
      apply last_Some in El as [A' ->]. apply Forall_app in HA as [_ HA].
      rewrite Forall_singleton in HA. cbn in HA. lia.
    + right. destruct D as [|[k' b] D']; [set_solver|]. cbn.
      apply elem_of_cons in Hin as [[= <- <-]|Hin]; [done|].
      apply ms_wf_cons in HwD as (Hok & HwD & Hlt). apply Hlt in Hin as Hl.
      unfold area_lt in Hl. cbn in Hl. destruct (ms_wf_elem _ _ HwD Hin) as (Hk & _).
      apply Forall_cons_1 in HD as [HD _]. destruct Hok as (Hk' & Hr' & _). cbn in *.
      apply overlaps_spec. fold (a_start b) (a_end b). lia.
Qed.

(** * [unmap] implements its reference definition *)

Lemma with_range_id a : with_range (mkRange (a_start a) (a_end a)) a = a.
Proof. by destruct a as [[] ? ?]. Qed.

Lemma a_size_ok ka : area_ok ka -> a_size (snd ka) = a_end (snd ka) - fst ka.
Proof.
  intros (-> & ? & ?). unfold a_size, r_size. apply wsub_small. unfold a_start, a_end in *. lia.
Qed.

Lemma cut_outside s e ka :
  area_ok ka -> s < e -> a_end (snd ka) <= s \/ e <= fst ka ->
  cut_area s e ka = [ka] /\ piece s e ka = [].
Proof.
  destruct ka as [k a]. intros (Hk & Hr & Hu) Hse Ho. cbn in *. split.
  - destruct Ho as [Ho|Ho].
    + destruct (Z.ltb_spec k s), (Z.ltb_spec e (a_end a)); try lia.
      rewrite Z.min_l by lia. rewrite Hk. by rewrite with_range_id.
    + destruct (Z.ltb_spec k s), (Z.ltb_spec e (a_end a)); try lia.
      rewrite Z.max_l by lia. rewrite Hk. by rewrite with_range_id.
  - destruct (Z.ltb_spec (Z.max k s) (Z.min (a_end a) e)); [lia|done].
Qed.

Lemma cut_all_outside s e l :
  Forall area_ok l -> s < e -> Forall (fun ka => a_end (snd ka) <= s \/ e <= fst ka) l ->
  flat_map (cut_area s e) l = l /\ flat_map (piece s e) l = [].
Proof.
  intros Hok Hse Ho. induction Ho as [|ka l Ho _ IH]; [done|].
  apply Forall_cons_1 in Hok as [Hok Hok']. destruct (IH Hok') as [IH1 IH2]. cbn.
  destruct (cut_outside s e ka Hok Hse Ho) as [-> ->]. by rewrite IH1, IH2.
Qed.

Lemma run_unmaps_app r1 r2 pt pt' :
  run_unmaps (r1 ++ r2) pt = Ret (true, pt') ->
  exists pt1, run_unmaps r1 pt = Ret (true, pt1) /\ run_unmaps r2 pt1 = Ret (true, pt').
Proof.
  revert pt. induction r1 as [|[[b st] sz] r1 IH]; intros pt; cbn; [by eauto|].
  destruct (b_unmap b st sz pt) as [[[] pt1]|]; [apply IH|done|done].
Qed.

Lemma unmap_contained_spec s e l pt pt' :
  Forall area_ok l -> s < e ->
  run_unmaps (flat_map (piece s e) (filter (fun ka => is_inside s e ka = true) l)) pt
    = Ret (true, pt') ->
  unmap_contained (mkRange s e) l pt
    = Ret (filter (fun ka => is_inside s e ka = false) l, pt').
Proof.
  intros Hok Hse. revert pt. induction Hok as [|[k a] l Hok _ IH]; intros pt; cbn [unmap_contained].
  - cbn. congruence.
  - change (contained_in (va_range a) (mkRange s e)) with (is_inside s e (k, a)).
    rewrite !filter_cons.
    destruct (is_inside s e (k, a)) eqn:E; cbn [decide decide_rel].
    + destruct (decide (true = true)); [|done]. destruct (decide (true = false)); [done|].
      intros Hrun. apply (run_unmaps_app (piece s e (k, a))) in Hrun as (pt1 & H1 & H2).
      apply contains_range_spec in E. cbn in E. fold (a_start a) (a_end a) in E.
      pose proof (a_size_ok _ Hok) as Hsz. destruct Hok as (Hk & Hr & _). cbn in *.
      destruct (Z.ltb_spec (Z.max k s) (Z.min (a_end a) e)); [|lia].
      rewrite Z.max_l, Z.min_l, <- Hsz, Hk in H1 by lia. cbn in H1.
      destruct (b_unmap _ _ _ _) as [[[] pt2]|]; try done. injection H1 as <-. by apply IH.
    + destruct (decide (false = true)); [done|]. destruct (decide (false = false)); [|done].
      intros Hrun. by rewrite (IH _ Hrun).
Qed.

Lemma run_one b st sz pt pt' :
  run_unmaps [(b, st, sz)] pt = Ret (true, pt') -> b_unmap b st sz pt = Ret (true, pt').
Proof. cbn. by destruct (b_unmap b st sz pt) as [[[] ?]|]. Qed.

(** Shrinking an area issues one request and changes one bound. *)
Lemma shrink_right_spec k a s l pt pt' :
  area_ok (k, a) -> k < s < a_end a ->
  b_unmap (backend a) s (a_end a - s) pt = Ret (true, pt') ->
  shrink_right a (s - k) (l, pt) = Ret (Ok (with_range (mkRange k s) a), (l, pt')).
Proof.
  intros Hok Hs Hb. pose proof (a_size_ok _ Hok) as Hsz. destruct Hok as (Hk & Hr & Hu).
  cbn in *. unfold shrink_right. unfold_M. rewrite Hsz.
  destruct (Z.ltb_spec 0 (s - k)), (Z.ltb_spec (s - k) (a_end a - k)); try lia.
  cbn. unfold on_pt. rewrite <- Hk.
  rewrite !(wsub_small (a_end a - k)), (wadd_small k) by lia.
  replace (k + (s - k)) with s by lia. replace (a_end a - k - (s - k)) with (a_end a - s) by lia.
  rewrite Hb, wsub_small by lia. do 4 f_equal. f_equal. lia.
Qed.

Lemma shrink_left_spec k a e l pt pt' :
  area_ok (k, a) -> k < e < a_end a ->
  b_unmap (backend a) k (e - k) pt = Ret (true, pt') ->
  shrink_left a (a_end a - e) (l, pt) = Ret (Ok (with_range (mkRange e (a_end a)) a), (l, pt')).
Proof.
  intros Hok He Hb. pose proof (a_size_ok _ Hok) as Hsz. destruct Hok as (Hk & Hr & Hu).
  cbn in *. unfold shrink_left. unfold_M. rewrite Hsz.
  destruct (Z.ltb_spec 0 (a_end a - e)), (Z.ltb_spec (a_end a - e) (a_end a - k)); try lia.
  cbn. unfold on_pt. rewrite <- Hk. rewrite !(wsub_small (a_end a - k)) by lia.
  replace (a_end a - k - (a_end a - e)) with (e - k) by lia.
  rewrite Hb, wadd_small by lia. do 4 f_equal. f_equal. lia.
Qed.

(** The part of [unmap] about the first area that starts at or above [s]. *)
Lemma unmap_after_spec s e A D pt pt' :
  s < e -> Forall (fun ka => fst ka < s) A -> Forall (fun ka => s <= fst ka) D -> ms_wf D ->
  Forall (fun ka => e < a_end (snd ka)) D ->
  run_unmaps (flat_map (piece s e) D) pt = Ret (true, pt') ->
  unmap_after s e (A ++ D, pt) = Ret (Ok tt, (A ++ flat_map (cut_area s e) D, pt')).
Proof.
  intros Hse HA HD Hwf Hend Hrun. unfold unmap_after. unfold_M. cbn.
  rewrite range_ge_first_split by done. destruct D as [|[k a] D']; cbn [head].
  { cbn in *. congruence. }
  apply ms_wf_cons in Hwf as (Hok & Hwf & Hlt).
  apply Forall_cons_1 in HD as [HDk HD'], Hend as [Hend Hend'].
  pose proof Hok as (Hk & Hr & Hu). cbn in HDk, Hend, Hk, Hr, Hu.
  destruct (cut_all_outside s e D') as [HcD HpD]; [apply Hwf|done| |].
  { apply Forall_forall. intros y Hy. right. apply Hlt in Hy. unfold area_lt in Hy. cbn in Hy. lia. }
  cbn [flat_map] in *. rewrite HcD. rewrite HpD, app_nil_r in Hrun.
  destruct (Z.ltb_spec k e) as [Hke|Hke].
  - cbn in Hrun |- *. destruct (Z.ltb_spec (Z.max k s) (Z.min (a_end a) e)); [|lia].
    rewrite Z.max_l, Z.min_r in Hrun by lia. apply run_one in Hrun.
    destruct (Z.ltb_spec k s), (Z.ltb_spec e (a_end a)); try lia. rewrite Z.max_r by lia.
    rewrite bt_remove_split by (eapply Forall_impl; [exact HA|]; cbn; lia).
    unfold checked_sub. destruct (Z.leb_spec e (a_end a)); [|lia].
    rewrite (shrink_left_spec k a e _ _ _ Hok ltac:(lia) Hrun). cbn. rewrite Z.eqb_refl. cbn.
    rewrite bt_insert_split; [done|eapply Forall_impl; [exact HA|]; cbn; lia|].
    apply Forall_forall. intros y Hy. apply Hlt in Hy. unfold area_lt in Hy. cbn in Hy. lia.
  - destruct (cut_outside s e (k, a) Hok Hse) as [-> Hp]; [cbn; lia|].
    rewrite Hp in Hrun. cbn in *. congruence.
Qed.

Lemma split_spec k a pos :
  area_ok (k, a) -> k < pos < a_end a ->
  split a pos = Some (with_range (mkRange k pos) a, with_range (mkRange pos (a_end a)) a).
Proof.
  intros (Hk & Hr & Hu) Hp. cbn in *. unfold split. rewrite <- Hk.
  destruct (Z.ltb_spec k pos), (Z.ltb_spec pos (a_end a)); try lia. cbn.
  rewrite wsub_small by lia. do 3 f_equal. f_equal. lia.
Qed.

(** The last area that starts below [s], in the three positions it can have
    relative to [s, e). *)
Lemma unmap_before_outside s e A k a D pt :
  Forall (fun ka => fst ka < s) (A ++ [(k, a)]) -> Forall (fun ka => s <= fst ka) D ->
  a_end a <= s ->
  unmap_before s e ((A ++ [(k, a)]) ++ D, pt) = Ret (Ok tt, ((A ++ [(k, a)]) ++ D, pt)).
Proof.
  intros HA HD Hs. unfold unmap_before. unfold_M. cbn.
  rewrite range_lt_last_split, last_snoc by done. by destruct (Z.ltb_spec s (a_end a)); [lia|].
Qed.

Lemma unmap_before_right s e A k a D pt pt' :
  Forall (fun ka => fst ka < s) (A ++ [(k, a)]) -> Forall (fun ka => s <= fst ka) D ->
  Forall (fun ka => fst ka < k) A -> area_ok (k, a) -> s < a_end a <= e ->
  b_unmap (backend a) s (a_end a - s) pt = Ret (true, pt') ->
  unmap_before s e ((A ++ [(k, a)]) ++ D, pt)
    = Ret (Ok tt, ((A ++ [(k, with_range (mkRange k s) a)]) ++ D, pt')).
Proof.
  intros HA HD HAk Hok Hs Hb. unfold unmap_before. unfold_M. cbn.
  rewrite range_lt_last_split, last_snoc by done.
  apply Forall_app in HA as [_ [Hks _]%Forall_cons_1]. cbn in Hks.
  destruct (Z.ltb_spec s (a_end a)), (Z.leb_spec (a_end a) e); try lia.
  unfold checked_sub. destruct (Z.leb_spec k s); [|lia].
  rewrite (shrink_right_spec k a s _ _ _ Hok ltac:(lia) Hb). cbn.
  rewrite <- !app_assoc. cbn [app]. by rewrite bt_insert_replace.
Qed.

Lemma unmap_before_middle s e A k a D pt pt' :
  Forall (fun ka => fst ka < s) (A ++ [(k, a)]) -> Forall (fun ka => s <= fst ka) D ->
  Forall (fun ka => fst ka < k) A -> Forall (fun ka => a_end a <= fst ka) D ->
  area_ok (k, a) -> s < e < a_end a ->
  b_unmap (backend a) s (e - s) pt = Ret (true, pt') ->
  unmap_before s e ((A ++ [(k, a)]) ++ D, pt)
    = Ret (Ok tt, ((A ++ [(k, with_range (mkRange k s) a)]) ++
                   (e, with_range (mkRange e (a_end a)) a) :: D, pt')).
Proof.
  intros HA HD HAk HDa Hok Hs Hb. pose proof Hok as (Hk & Hr & Hu). cbn in Hk, Hr, Hu.
  unfold unmap_before. unfold_M. cbn. rewrite range_lt_last_split, last_snoc by done.
  apply Forall_app in HA as [HA [Hks _]%Forall_cons_1]. cbn in Hks.
  destruct (Z.ltb_spec s (a_end a)), (Z.leb_spec (a_end a) e); try lia.
  rewrite (split_spec k a e Hok ltac:(lia)). cbn. rewrite <- !app_assoc. cbn [app].
  rewrite bt_insert_replace by done. unfold checked_sub. destruct (Z.leb_spec k s); [|lia].
  rewrite (shrink_right_spec k (with_range (mkRange k e) a) s _ _ pt');
    [|by split_and!; cbn; lia|cbn; lia|done].
  change (a_start (with_range (mkRange e (a_end a)) a)) with e. rewrite Z.eqb_refl.
  cbn. rewrite bt_insert_replace by done. rewrite (cons_middle _ A D), app_assoc.
  rewrite bt_insert_split; [by rewrite <- app_assoc| |].
  - apply Forall_app; split; [eapply Forall_impl; [exact HA|]; cbn; lia|].
    constructor; [cbn; lia|done].
  - eapply Forall_impl; [exact HDa|]. cbn. lia.
Qed.

(** After the first part of [unmap] no area is contained in [s, e), so the areas
    that start inside it end beyond it. *)
Lemma not_inside_end s e D :
  ms_wf D -> Forall (fun ka => is_inside s e ka = false) D ->
  Forall (fun ka => s <= fst ka) D -> Forall (fun ka => e < a_end (snd ka)) D.
Proof.
  intros Hwf Hin HD. apply Forall_forall. intros [k a] Hka.
  eapply Forall_forall in Hin, HD; [|done..].
  destruct (ms_wf_elem _ _ Hwf Hka) as (Hk & _). unfold is_inside, contained_in in Hin.
  apply not_true_iff_false in Hin. rewrite contains_range_spec in Hin. cbn in *.
  unfold a_start, a_end in *. lia.
Qed.

Lemma unmap_sides_overlap s e A k a D pt pt1 pt' :
  s < e -> Forall (fun ka => fst ka < s) A -> Forall (fun ka => s <= fst ka) D ->
  Forall (fun ka => fst ka < k) A -> Forall (fun ka => a_end a <= fst ka) D -> ms_wf D ->
  Forall (fun ka => e < a_end (snd ka)) D -> area_ok (k, a) -> k < s < a_end a ->
  run_unmaps (piece s e (k, a)) pt = Ret (true, pt1) ->
  run_unmaps (flat_map (piece s e) D) pt1 = Ret (true, pt') ->
  M_bind (fun _ => unmap_after s e) (unmap_before s e) ((A ++ [(k, a)]) ++ D, pt)
    = Ret (Ok tt, ((A ++ cut_area s e (k, a)) ++ flat_map (cut_area s e) D, pt')).
Proof.
  intros Hse HA HD HAk HDa HwD HeD Hok Hs H1 H2. pose proof Hok as (_ & Hr & Hu). cbn in Hr, Hu.
  assert (Hkeys : forall v : MemoryArea B, Forall (fun ka => fst ka < s) (A ++ [(k, v)])).
  { intros v. apply Forall_app. split; [done|]. constructor; [cbn; lia|done]. }
  cbn in H1. destruct (Z.ltb_spec (Z.max k s) (Z.min (a_end a) e)); [|lia].
  rewrite Z.max_r in H1 by lia. apply run_one in H1. cbn [cut_area].
  destruct (Z.ltb_spec k s); [|lia]. rewrite (Z.min_r (a_end a) s) by lia. unfold M_bind.
  destruct (Z.ltb_spec e (a_end a)) as [He|He].
  - rewrite Z.min_r in H1 by lia.
    rewrite (unmap_before_middle s e A k a D pt pt1) by (done || lia).
    destruct (cut_outside s e (e, with_range (mkRange e (a_end a)) a)) as [Hc Hp];
      [split_and!; cbn; lia|lia|cbn; lia|].
    rewrite (unmap_after_spec s e _ ((e, _) :: D) pt1 pt'); try done.
    + rewrite Z.max_r by lia. cbn [flat_map]. by rewrite Hc, <- !app_assoc.
    + constructor; [cbn; lia|done].
    + apply ms_wf_cons. split_and!; [split_and!; cbn; lia|done|].
      intros y Hy. eapply Forall_forall in HDa; [|exact Hy]. done.
    + by constructor.
    + cbn [flat_map]. by rewrite Hp.
  - rewrite Z.min_l in H1 by lia.
    rewrite (unmap_before_right s e A k a D pt pt1) by (done || lia).
    cbn [app]. by apply unmap_after_spec.
Qed.

Lemma unmap_sides_spec s e l pt pt' :
  s < e -> ms_wf l -> Forall (fun ka => is_inside s e ka = false) l ->
  run_unmaps (flat_map (piece s e) l) pt = Ret (true, pt') ->
  M_bind (fun _ => unmap_after s e) (unmap_before s e) (l, pt)
    = Ret (Ok tt, (flat_map (cut_area s e) l, pt')).
Proof.
  intros Hse Hwf Hin Hrun. destruct (ms_split l s Hwf) as (A & D & -> & HA & HD).
  apply ms_wf_app in Hwf as (HwA & HwD & Hlt). apply Forall_app in Hin as [_ HinD].
  pose proof (not_inside_end s e D HwD HinD HD) as HeD.
  rewrite flat_map_app in Hrun |- *. apply run_unmaps_app in Hrun as (pt1 & H1 & H2).
  destruct A as [|[k a] A _] using rev_ind.
  { unfold unmap_before, M_bind. unfold_M. cbn [get_areas]. rewrite range_lt_last_split by done.
    cbn. cbn in H1. injection H1 as <-. by apply (unmap_after_spec s e []). }
  apply ms_wf_app in HwA as (HwA & Hwk & HltA). apply ms_wf_cons in Hwk as (Hok & _ & _).
  assert (HAk : Forall (fun ka => a_end (snd ka) <= k) A).
  { apply Forall_forall. intros x Hx. apply (HltA x (k, a)); [done|set_solver]. }
  assert (HAk' : Forall (fun ka => fst ka < k) A).
  { apply Forall_forall. intros x Hx. pose proof (ms_wf_elem _ _ HwA Hx) as (_ & ? & _).
    eapply Forall_forall in HAk; [|exact Hx]. cbn in *. lia. }
  pose proof HA as [HA0 [Hks _]%Forall_cons_1]%Forall_app. cbn in Hks.
  destruct (cut_all_outside s e A) as [HcA HpA]; [apply HwA|done| |].
  { eapply Forall_impl; [exact HAk|]. cbn. lia. }
  rewrite flat_map_app in H1 |- *. rewrite HcA. rewrite HpA in H1.
  cbn [flat_map app] in H1 |- *. rewrite app_nil_r in H1 |- *.
  destruct (Z.leb_spec (a_end a) s) as [Hs|Hs].
  - unfold M_bind. rewrite unmap_before_outside by done.
    destruct (cut_outside s e (k, a) Hok Hse) as [-> Hp]; [cbn; lia|]. rewrite Hp in H1.
    cbn in H1. injection H1 as <-. by apply unmap_after_spec.
  - apply (unmap_sides_overlap s e A k a D pt pt1 pt'); try done.
    apply Forall_forall. intros y Hy. apply (Hlt (k, a) y); [set_solver|done].
Qed.

(** * [unmap] as a whole *)

Lemma ms_wf_filter (P : Z * MemoryArea B -> Prop) `{forall x, Decision (P x)} l :
  ms_wf l -> ms_wf (filter P l).
Proof.
  induction l as [|ka l IH]; [done|]. intros (Hok & Hwf & Hlt)%ms_wf_cons.
  rewrite filter_cons. destruct (decide (P ka)); [|by apply IH].
  apply ms_wf_cons. split_and!; [done|by apply IH|].
  intros y [_ Hy]%list_elem_of_filter. by apply Hlt.
Qed.

(** Cutting commutes with dropping the areas that vanish. *)
Lemma spec_unmap_filter s e l :
  Forall area_ok l -> s < e ->
  flat_map (cut_area s e) (filter (fun ka => is_inside s e ka = false) l) = spec_unmap s e l.
Proof.
  intros Hok Hse. unfold spec_unmap. induction Hok as [|[k a] l (Hk & Hr & Hu) _ IH]; [done|].
  rewrite filter_cons. destruct (decide (is_inside s e (k, a) = false)) as [E|E].
  - cbn [flat_map]. by rewrite IH.
  - apply not_false_iff_true, contains_range_spec in E. cbn in *. fold (a_end a) in E.
    unfold a_start in Hk. destruct (Z.ltb_spec k s), (Z.ltb_spec e (a_end a)); try lia. done.
Qed.

(** [ms_unmap] leaves the areas of the reference definition, whenever the backends
    honour their unmap requests. *)
Lemma ms_unmap_spec start size l pt pt' :
  ms_wf l -> 0 < size -> start + size < USIZE ->
  run_unmaps (unmap_plan start (start + size) l) pt = Ret (true, pt') ->
  ms_unmap start size (l, pt) = Ret (Ok tt, (spec_unmap start (start + size) l, pt')).
Proof.
  intros Hwf Hsz Hov Hrun. unfold ms_unmap, try_from_start_size, checked_add. unfold_M.
  destruct (Z.ltb_spec (start + size) USIZE); [|lia].
  unfold r_is_empty; cbn. destruct (Z.leb_spec (start + size) start); [lia|].
  unfold unmap_plan in Hrun. apply run_unmaps_app in Hrun as (pt1 & R1 & R2).
  apply unmap_contained_spec in R1; [|apply Hwf|lia]. unfold unmap_retain. rewrite R1.
  pose proof (unmap_sides_spec start (start + size) _ pt1 pt' ltac:(lia)
    (ms_wf_filter (fun ka => is_inside start (start + size) ka = false) l Hwf)) as Hside.
  unfold M_bind in Hside. rewrite Hside; [|by apply Forall_forall; intros y [? _]%list_elem_of_filter|done].
  rewrite spec_unmap_filter; [done|apply Hwf|lia].
Qed.

(** ** The reference definition preserves the invariant and removes exactly the
    addresses of the range *)

Lemma cut_elem s e ka x :
  area_ok ka -> s < e -> x ∈ cut_area s e ka ->
  area_ok x /\ fst ka <= fst x /\ a_end (snd x) <= a_end (snd ka) /\
  (a_end (snd x) <= s \/ e <= fst x) /\
  a_flags (snd x) = a_flags (snd ka) /\ backend (snd x) = backend (snd ka).
Proof.
  destruct ka as [k a]. intros (Hk & Hr & Hu) Hse. cbn in *. rewrite elem_of_app.
  unfold area_ok. destruct (Z.ltb_spec k s), (Z.ltb_spec e (a_end a));
    rewrite ?elem_of_nil, ?list_elem_of_singleton;
    (intros [Hx|Hx]; [|]); try done; rewrite Hx; unfold a_start, a_end in *; cbn in *; split_and!; reflexivity || lia.
Qed.

Lemma cut_wf s e ka : area_ok ka -> s < e -> ms_wf (cut_area s e ka).
Proof.
  intros Hok Hse. pose proof (fun x => cut_elem s e ka x Hok Hse) as Hc.
  destruct ka as [k a]. destruct Hok as (Hk & Hr & Hu). cbn [cut_area fst snd] in *.
  apply ms_wf_app. split_and!.
  - destruct (Z.ltb_spec k s); [|split; constructor].
    apply ms_wf_cons. split_and!; [|split; constructor|set_solver].
    apply Hc. set_solver.
  - destruct (Z.ltb_spec e (a_end a)); [|split; constructor].
    apply ms_wf_cons. split_and!; [|split; constructor|set_solver].
    apply Hc. set_solver.
  - intros x y Hx Hy. clear Hc.
    destruct (Z.ltb_spec k s); [|by apply elem_of_nil in Hx].
    destruct (Z.ltb_spec e (a_end a)); [|by apply elem_of_nil in Hy].
    apply list_elem_of_singleton in Hx as ->. apply list_elem_of_singleton in Hy as ->.
    unfold area_lt, a_end in *; cbn in *. lia.
Qed.

Lemma spec_unmap_wf s e l : s < e -> ms_wf l -> ms_wf (spec_unmap s e l).
Proof.
  intros Hse. induction l as [|ka l IH]; [done|]. intros (Hok & Hwf & Hlt)%ms_wf_cons.
  unfold spec_unmap. cbn [flat_map]. apply ms_wf_app. split_and!; [by apply cut_wf|by apply IH|].
  intros x y Hx Hy. apply list_elem_of_In, in_flat_map in Hy as (kb & Hb%list_elem_of_In & Hy%list_elem_of_In).
  apply cut_elem in Hx as (_ & _ & Hx & _); [|done|done].
  apply cut_elem in Hy as (_ & Hy & _); [|by eapply ms_wf_elem|done].
  apply Hlt in Hb. unfold area_lt in *. lia.
Qed.

Lemma area_at_app A D addr :
  area_at (A ++ D) addr = match area_at A addr with Some a => Some a | None => area_at D addr end.
Proof. induction A as [|[k a] A IH]; cbn; [done|]. by destruct (r_contains _ _). Qed.

Lemma view_app A D addr :
  view (A ++ D) addr = match view A addr with Some a => Some a | None => view D addr end.
Proof. unfold view. rewrite area_at_app. by destruct (area_at A addr). Qed.

Lemma view_cons k a l addr :
  view ((k, a) :: l) addr
  = if r_contains (va_range a) addr then Some (a_flags a, backend a) else view l addr.
Proof. unfold view. cbn. by destruct (r_contains _ _). Qed.

Lemma cut_view s e k a addr :
  area_ok (k, a) -> s < e ->
  view (cut_area s e (k, a)) addr
  = if r_contains (mkRange s e) addr then None else view [(k, a)] addr.
Proof.
  intros (Hk & Hr & Hu) Hse. cbn [fst snd] in *. rewrite view_cons. cbn [cut_area].
  destruct a as [[ks ke] f b]. unfold a_start, a_end in *. cbn in *. subst k.
  destruct (Z.ltb_spec ks s), (Z.ltb_spec e ke); cbn [app]; rewrite ?view_cons; cbn [va_range with_range];
    change (view (B:=B) [] addr) with (@None (Z * B));
    repeat match goal with
    | |- context [if r_contains ?r ?x then _ else _] =>
        let E := fresh in destruct (r_contains r x) eqn:E;
        [apply r_contains_spec in E | apply not_true_iff_false in E; rewrite r_contains_spec in E];
        cbn [r_start r_end] in E
    end; done || (exfalso; lia).
Qed.

Lemma spec_unmap_view s e l addr :
  s < e -> ms_wf l ->
  view (spec_unmap s e l) addr = if r_contains (mkRange s e) addr then None else view l addr.
Proof.
  intros Hse. induction l as [|[k a] l IH]; [by destruct (r_contains _ _)|].
  intros (Hok & Hwf & Hlt)%ms_wf_cons. unfold spec_unmap. cbn [flat_map].
  rewrite view_app, cut_view by done. fold (spec_unmap s e l). rewrite IH by done.
  change ((k, a) :: l) with ([(k, a)] ++ l). rewrite view_app.
  destruct (r_contains (mkRange s e) addr); [done|]. by destruct (view [(k, a)] addr).
Qed.

(** * [map] *)

Lemma ms_overlaps_false l r :
  ms_wf l -> ms_overlaps l r = false <->
  forall k a, (k, a) ∈ l -> r_end r <= k \/ a_end a <= r_start r.
Proof.
  intros Hwf. rewrite ms_overlaps_existsb by done. split.
  - intros E k a Hin. destruct (ms_wf_elem _ _ Hwf Hin) as (Hk & _). cbn in Hk.
    assert (Ho : overlaps (va_range a) r = false).
    { apply not_true_iff_false. intros Ho. apply not_true_iff_false in E. apply E, existsb_exists.
      exists (k, a). by rewrite <- list_elem_of_In. }
    apply not_true_iff_false in Ho. rewrite overlaps_spec in Ho. unfold a_start, a_end in *. lia.
  - intros Hn. apply not_true_iff_false. intros ([k a] & Hin & Ho)%existsb_exists.
    apply list_elem_of_In in Hin. destruct (ms_wf_elem _ _ Hwf Hin) as (Hk & _). cbn in Hk, Ho.
    apply overlaps_spec in Ho. specialize (Hn k a Hin). unfold a_start, a_end in *. lia.
Qed.

Lemma ms_insert_spec l k a addr :
  ms_wf l -> area_ok (k, a) -> ms_overlaps l (va_range a) = false ->
  bt_get k l = None /\ ms_wf (bt_insert k a l) /\
  view (bt_insert k a l) addr
    = (if r_contains (va_range a) addr then Some (a_flags a, backend a) else view l addr) /\
  (forall x, x ∈ bt_insert k a l <-> x = (k, a) \/ x ∈ l).
Proof.
  intros Hwf Hok Ho. pose proof (proj1 (ms_overlaps_false l _ Hwf) Ho) as Hdis.
  pose proof Hok as (Hk & Hr & Hu). cbn in Hk, Hr, Hu.
  destruct (ms_split l k Hwf) as (A & D & -> & HA & HD).
  assert (HD' : Forall (fun ka => a_end a <= fst ka) D).
  { apply Forall_forall. intros [k' b] Hy. eapply Forall_forall in HD; [|exact Hy]. cbn in *.
    destruct (Hdis k' b) as [?|?]; [set_solver|unfold a_end; lia|].
    destruct (ms_wf_elem _ _ Hwf (proj2 (elem_of_app A D (k', b)) (or_intror Hy))) as (_ & ? & _).
    cbn in *. unfold a_start in Hk. lia. }
  assert (HDk : Forall (fun ka => k < fst ka) D) by (eapply Forall_impl; [exact HD'|]; cbn; lia).
  rewrite bt_get_split_None, bt_insert_split by done. split_and!; [done|..].
  - apply ms_wf_app in Hwf as (HwA & HwD & Hlt). apply ms_wf_app. split_and!; [done|..].
    + apply ms_wf_cons. split_and!; [done..|]. intros y Hy. by eapply Forall_forall in HD'.
    + intros x y Hx Hy. apply elem_of_cons in Hy as [->|Hy]; [|by apply Hlt].
      destruct x as [k' b]. unfold area_lt; cbn. eapply Forall_forall in HA; [|exact Hx]. cbn in HA.
      destruct (Hdis k' b) as [?|?]; [set_solver|unfold a_end in *; lia|unfold a_start in *; lia].
  - rewrite !view_app, view_cons.
    destruct (r_contains (va_range a) addr) eqn:E; [|done].
    destruct (view A addr) as [v|] eqn:Ev; [|done]. exfalso.
    unfold view in Ev. destruct (area_at A addr) as [b|] eqn:Eb; [|done].
    apply area_at_Some in Eb as (k' & Hin & Hb). apply r_contains_spec in E.
    destruct (ms_wf_elem _ _ Hwf (proj2 (elem_of_app A D (k', b)) (or_introl Hin))) as (Hk' & _).
    cbn in Hk'. destruct (Hdis k' b) as [?|?]; [set_solver|lia|lia].
  - intros x. rewrite !elem_of_app, elem_of_cons. tauto.
Qed.

(** [map] of an area that overlaps nothing. *)
Lemma ms_map_ok l k a unmap_overlap pt pt' :
  ms_wf l -> area_ok (k, a) -> ms_overlaps l (va_range a) = false ->
  b_map (backend a) k (a_end a - k) (a_flags a) pt = Ret (true, pt') ->
  ms_map a unmap_overlap (l, pt) = Ret (Ok tt, (bt_insert k a l, pt')).
Proof.
  intros Hwf Hok Ho Hb. destruct (ms_insert_spec l k a 0 Hwf Hok Ho) as (Hget & _).
  pose proof (a_size_ok _ Hok) as Hsz. destruct Hok as (Hk & Hr & _). cbn in *.
  unfold ms_map. unfold_M. unfold r_is_empty. fold (a_end a) (a_start a). rewrite <- Hk.
  destruct (Z.leb_spec (a_end a) k); [lia|]. cbn. rewrite Ho. cbn.
  unfold map_area, on_pt. unfold_M. rewrite <- Hk, Hsz, Hb. cbn. by rewrite Hget.
Qed.

Lemma ms_map_fail l k a unmap_overlap pt pt' :
  ms_wf l -> area_ok (k, a) -> ms_overlaps l (va_range a) = false ->
  b_map (backend a) k (a_end a - k) (a_flags a) pt = Ret (false, pt') ->
  ms_map a unmap_overlap (l, pt) = Ret (Err ME_BadState, (l, pt')).
Proof.
  intros Hwf Hok Ho Hb.
  pose proof (a_size_ok _ Hok) as Hsz. destruct Hok as (Hk & Hr & _). cbn in *.
  unfold ms_map. unfold_M. unfold r_is_empty. fold (a_end a) (a_start a). rewrite <- Hk.
  destruct (Z.leb_spec (a_end a) k); [lia|]. cbn. rewrite Ho. cbn.
  unfold map_area, on_pt. unfold_M. by rewrite <- Hk, Hsz, Hb.
Qed.

(** * [find_free_area] *)

Lemma fits_spec x size lim : fits x size lim = true <-> x + size <= lim /\ x + size < USIZE.
Proof.
  unfold fits, checked_add. destruct (Z.ltb_spec (x + size) USIZE); [|split; [done|lia]].
  rewrite Z.leb_le. lia.
Qed.

Lemma find_free_loop_sound l last_end size lim r :
  ms_wf l -> Forall (fun ka => a_end (snd ka) <= lim) l -> 0 <= size ->
  find_free_loop l last_end size lim = Some r ->
  (r = last_end \/ exists ka, ka ∈ l /\ r = a_end (snd ka)) /\ r + size <= lim /\
  Forall (fun ka => r + size <= fst ka \/ a_end (snd ka) <= r) l.
Proof.
  intros Hwf Hlim Hsz. revert last_end. induction l as [|[k a] l IH]; intros last_end; cbn.
  - destruct (fits last_end size lim) eqn:F; [|done]. intros [= <-]. apply fits_spec in F.
    split_and!; [by left|lia|constructor].
  - apply ms_wf_cons in Hwf as (Hok & Hwf & Hlt). apply Forall_cons_1 in Hlim as [Hlk Hlim].
    destruct Hok as (_ & Hr & _). cbn in *.
    destruct (fits last_end size k) eqn:F.
    + intros [= <-]. apply fits_spec in F. split_and!; [by left|lia|].
      constructor; [cbn; lia|]. apply Forall_forall. intros y Hy. apply Hlt in Hy.
      unfold area_lt in Hy. cbn in Hy. lia.
    + intros E. apply IH in E as (Hor & Hle & Hall); [|done..]. split_and!; [|done|].
      * right. destruct Hor as [->|(ka & ? & ->)]; [exists (k, a)|exists ka]; set_solver.
      * constructor; [|done]. right. cbn. destruct Hor as [->|(ka & Hka & ->)]; [lia|].
        pose proof (Hlt _ Hka) as Hl. unfold area_lt in Hl. cbn in Hl.
        destruct (ms_wf_elem _ _ Hwf Hka) as (_ & ? & _). lia.
Qed.

Lemma find_free_loop_complete l last_end size lim x :
  ms_wf l -> lim < USIZE -> 0 < size -> last_end <= x -> x + size <= lim ->
  Forall (fun ka => x + size <= fst ka \/ a_end (snd ka) <= x) l ->
  is_Some (find_free_loop l last_end size lim).
Proof.
  intros Hwf Hlim Hsz. revert last_end. induction l as [|[k a] l IH]; intros last_end Hx Hxl Hall; cbn.
  - rewrite (proj2 (fits_spec last_end size lim)); [by eexists|lia].
  - apply ms_wf_cons in Hwf as ((_ & Hr & Hu) & Hwf & Hlt).
    apply Forall_cons_1 in Hall as [Hk Hall]. cbn in *.
    destruct (fits last_end size k) eqn:F; [by eexists|]. destruct Hk as [Hk|Hk].
    + apply not_true_iff_false in F. rewrite fits_spec in F. lia.
    + by apply IH.
Qed.

(** A set whose areas lie inside a range. *)
Definition inside_limit (limit : AddrRange) l : Prop :=
  Forall (fun ka => r_start limit <= fst ka /\ a_end (snd ka) <= r_end limit) l.

Lemma ms_find_free_sound l hint size limit r :
  ms_wf l -> 0 < size -> inside_limit limit l -> ms_find_free_area l hint size limit = Some r ->
  r_start limit <= r /\ r + size <= r_end limit /\ ms_overlaps l (mkRange r (r + size)) = false /\
  (r = Z.max hint (r_start limit) \/ exists ka, ka ∈ l /\ r = a_end (snd ka)).
Proof.
  intros Hwf Hsz Hall Hr. apply find_free_loop_sound in Hr as (Hor & Hle & Hdis); [|done| |lia].
  2: { eapply Forall_impl; [exact Hall|]. cbn. tauto. }
  split_and!; [|done| |done].
  - destruct Hor as [->|([k a] & Hin & ->)]; [lia|].
    pose proof (ms_wf_elem _ _ Hwf Hin) as (_ & ? & _). eapply Forall_forall in Hall; [|exact Hin].
    cbn in *. lia.
  - apply ms_overlaps_false; [done|]. intros k a Hin. eapply Forall_forall in Hdis; [|exact Hin].
    cbn in *. lia.
Qed.

Lemma ms_find_free_complete l hint size limit x :
  ms_wf l -> 0 < size -> r_end limit < USIZE ->
  hint <= x -> r_start limit <= x -> x + size <= r_end limit ->
  ms_overlaps l (mkRange x (x + size)) = false -> is_Some (ms_find_free_area l hint size limit).
Proof.
  intros Hwf Hsz Hlim Hh Hx Hxe Ho. eapply (find_free_loop_complete l _ size _ x); try done; [lia|].
  apply Forall_forall. intros [k a] Hin.
  apply (proj1 (ms_overlaps_false _ _ Hwf) Ho k a) in Hin. cbn in *. lia.
Qed.
End ms_props.
