(* ===== verification/AddrSpace.v ===== *)
(** Address spaces: arceos/modules/axmm (aspace.rs, backend/, lib.rs). An
    [AddrSpace] is a memory set, a page table and the range it manages; it is
    operated on together with the machine ([Mach]) that owns frames and bytes. *)
From S2P Require Import Prelude Errno MemAddr Frames Paging MemorySet.
Import MappingFlags.

(** * Mapping backends (backend/mod.rs, backend/alloc.rs, backend/linear.rs) *)

Inductive Backend : Type :=
| Linear (pa_va_offset : Z)
| Alloc (populate : bool).

(** The virtual memory address space. *)
Record AddrSpace := mkAS {
  as_range : AddrRange;
  as_areas : list (Z * MemoryArea Backend);
  as_pt : PageTable;
}.

Section addr_space.
Context {FA : Type} `{FrameAllocator FA}.

Abbreviation PtSt := (PageTable * Mach FA)%type.

(** [r.is_ok()] of a page table operation. *)
Definition to_bool {E A} (r : outcome (result A E * PtSt)) : outcome (bool * PtSt) :=
  match r with
  | Ret (x, st) => Ret (is_ok x, st)
  | Panic => Panic
  end.

(** The loop of a populated [map_alloc]; a page without a frame is skipped. *)
Fixpoint populate_loop (pages : list Z) (flags : Z) (st : PtSt) : outcome (bool * PtSt) :=
  match pages with
  | [] => Ret (true, st)
  | addr :: pages' =>
      match alloc_frame true (snd st) with
      | Some (frame, m') =>
          match pt_map addr frame flags (fst st, m') with
          | Ret (Ok _, st') => populate_loop pages' flags st'
          | Ret (Err _, st') => Ret (false, st')
          | Panic => Panic
          end
      | None => populate_loop pages' flags st
      end
  end.

(** [Backend::map_alloc]. *)
Definition backend_map_alloc (start size flags : Z) (populate : bool) (st : PtSt)
  : outcome (bool * PtSt) :=
  if populate then
    match PageIter4K start (start +w size) with
    | Some pages => populate_loop pages flags st
    | None => Panic
    end
  else to_bool (map_region start (fun _ => 0) size empty st).

(** The loop of [Backend::unmap_alloc]. *)
Fixpoint unmap_alloc_loop (pages : list Z) (st : PtSt) : outcome (bool * PtSt) :=
  match pages with
  | [] => Ret (true, st)
  | addr :: pages' =>
      match pt_unmap addr st with
      | Ret (Ok frame, (pt', m')) => unmap_alloc_loop pages' (pt', dealloc_frame frame m')
      | Ret (Err _, st') => unmap_alloc_loop pages' st'
      | Panic => Panic
      end
  end.

(** [Backend::unmap_alloc]. *)
Definition backend_unmap_alloc (start size : Z) (st : PtSt) : outcome (bool * PtSt) :=
  match PageIter4K start (start +w size) with
  | Some pages => unmap_alloc_loop pages st
  | None => Panic
  end.

(** [Backend::handle_page_fault_alloc]. *)
Definition handle_page_fault_alloc (vaddr orig_flags : Z) (populate : bool) (st : PtSt)
  : outcome (bool * PtSt) :=
  if populate then Ret (false, st) else
  match alloc_frame true (snd st) with
  | Some (frame, m') => to_bool (pt_remap vaddr frame orig_flags (fst st, m'))
  | None => Ret (false, st)
  end.

(** [Backend::map_linear], [Backend::unmap_linear]. *)
Definition backend_map_linear (start size flags pa_va_offset : Z) (st : PtSt)
  : outcome (bool * PtSt) :=
  to_bool (map_region start (fun va => va -w pa_va_offset) size flags st).
Definition backend_unmap_linear (start size : Z) (st : PtSt) : outcome (bool * PtSt) :=
  to_bool (unmap_region start size st).

(** [impl MappingBackend for Backend]. *)
Definition backend_map (b : Backend) (start size flags : Z) (st : PtSt) : outcome (bool * PtSt) :=
  match b with
  | Linear off => backend_map_linear start size flags off st
  | Alloc pop => backend_map_alloc start size flags pop st
  end.
Definition backend_unmap (b : Backend) (start size : Z) (st : PtSt) : outcome (bool * PtSt) :=
  match b with
  | Linear _ => backend_unmap_linear start size st
  | Alloc _ => backend_unmap_alloc start size st
  end.

#[export] Instance Backend_MappingBackend : MappingBackend Backend PtSt := {|
  b_map := backend_map;
  b_unmap := backend_unmap;
|}.

(** [Backend::handle_page_fault]. *)
Definition backend_handle_page_fault (b : Backend) (vaddr orig_flags : Z) (st : PtSt)
  : outcome (bool * PtSt) :=
  match b with
  | Linear _ => Ret (false, st)
  | Alloc pop => handle_page_fault_alloc vaddr orig_flags pop st
  end.

(** * Address space operations (aspace.rs) *)

(** Code that runs on an address space and the machine. *)
Definition AsM (E A : Type) : Type := M (AddrSpace * Mach FA) E A.

(** [mapping_err_to_ax_err] of axmm/src/lib.rs. *)
Definition mapping_err_to_ax_err (e : MappingError) : AxError :=
  match e with
  | InvalidParam => InvalidInput
  | ME_AlreadyExists => AlreadyExists
  | ME_BadState => BadState
  end.

(** Run a memory-set operation on the areas and the page table. *)
Definition on_areas {A} (f : SetM (B:=Backend) (PT:=PtSt) A) : AsM AxError A :=
  fun '(sp, m) =>
    match f (as_areas sp, (as_pt sp, m)) with
    | Ret (r, (l, (pt, m'))) =>
        Ret (res_map_err mapping_err_to_ax_err r, (mkAS (as_range sp) l pt, m'))
    | Panic => Panic
    end.

(** Run a page-table operation. *)
Definition on_page_table (f : PtSt -> outcome (bool * PtSt)) : AsM AxError bool :=
  fun '(sp, m) =>
    match f (as_pt sp, m) with
    | Ret (b, (pt, m')) => Ret (Ok b, (mkAS (as_range sp) (as_areas sp) pt, m'))
    | Panic => Panic
    end.

Definition get_space : AsM AxError AddrSpace := fun '(sp, m) => Ret (Ok sp, (sp, m)).

(** [contains_range]: panics when [start + size] overflows. *)
Definition as_contains_range (start size : Z) : AsM AxError bool :=
  sp ← get_space;
  r ← from_start_size start size;
  mret (contains_range (as_range sp) r).

(** [new_empty]. *)
Definition new_empty (base size : Z) (m : Mach FA) : outcome (result AddrSpace AxError * Mach FA) :=
  match try_from_start_size base size with
  | None => Panic
  | Some r =>
      match try_new m with
      | (Ok pt, m') => Ret (Ok (mkAS r [] pt), m')
      | (Err _, m') => Ret (Err NoMemory, m')
      end
  end.

(** [copy_mappings_from]. *)
Definition copy_mappings_from (other : AddrSpace) : AsM AxError unit := fun '(sp, m) =>
  if overlaps (as_range sp) (as_range other) then Ret (Err InvalidInput, (sp, m)) else
  match copy_from (as_pt sp) (as_pt other) (r_start (as_range other)) (r_size (as_range other)) with
  | Ret pt => Ret (Ok tt, (mkAS (as_range sp) (as_areas sp) pt, m))
  | Panic => Panic
  end.

(** [new_user_aspace] of axmm/src/lib.rs; [kernel] is the kernel address space. *)
Definition new_user_aspace (kernel : AddrSpace) (base size : Z) (m : Mach FA)
  : outcome (result AddrSpace AxError * Mach FA) :=
  match new_empty base size m with
  | Ret (Ok sp, m1) =>
      match copy_mappings_from kernel (sp, m1) with
      | Ret (Ok _, (sp', m2)) => Ret (Ok sp', m2)
      | Ret (Err e, (_, m2)) => Ret (Err e, m2)
      | Panic => Panic
      end
  | Ret (Err e, m1) => Ret (Err e, m1)
  | Panic => Panic
  end.

(** The checks shared by [map_alloc], [unmap] and [protect]. *)
Definition check_page_range (start size : Z) : AsM AxError unit :=
  inside ← as_contains_range start size;
  _ ← ensure inside InvalidInput;
  ensure (is_aligned_4k start && is_aligned_4k size) InvalidInput.

(** [map_linear]. *)
Definition map_linear (start_vaddr start_paddr size flags : Z) : AsM AxError unit :=
  inside ← as_contains_range start_vaddr size;
  _ ← ensure inside InvalidInput;
  _ ← ensure (is_aligned_4k start_vaddr && is_aligned_4k start_paddr && is_aligned_4k size) InvalidInput;
  let offset := start_vaddr -w start_paddr in
  area ← area_new start_vaddr size flags (Linear offset);
  on_areas (ms_map area false).

(** [map_alloc]. *)
Definition map_alloc (start size flags : Z) (populate : bool) : AsM AxError unit :=
  _ ← check_page_range start size;
  area ← area_new start size flags (Alloc populate);
  on_areas (ms_map area false).

(** [unmap]. *)
Definition as_unmap (start size : Z) : AsM AxError unit :=
  _ ← check_page_range start size;
  on_areas (ms_unmap start size).

(** [find_free_area]. *)
Definition as_find_free_area (sp : AddrSpace) (hint size : Z) (limit : AddrRange) : option Z :=
  ms_find_free_area (as_areas sp) hint size limit.

(** The [for i in 0..count] loop of [alloc_for_lazy]; its results are ignored. *)
Fixpoint lazy_loop (n : nat) (addr flags : Z) (st : PtSt) : outcome (bool * PtSt) :=
  match n with
  | O => Ret (true, st)
  | S n' =>
      match handle_page_fault_alloc addr flags false st with
      | Ret (_, st') => lazy_loop n' (addr +w PAGE_SIZE_4K) flags st'
      | Panic => Panic
      end
  end.

(** The number of pages of an area that [alloc_for_lazy] populates. *)
Definition lazy_count (area_end end_ start : Z) : Z :=
  align_up_4k (Z.min area_end end_ -w start) / PAGE_SIZE_4K.

(** The [while let] loop of [alloc_for_lazy]: every step moves [start] to the end
    of the area it found, so one step per area is enough fuel. *)
Fixpoint alloc_for_lazy_loop (fuel : nat) (start end_ : Z) : AsM AxError Z :=
  sp ← get_space;
  match ms_find (as_areas sp) start with
  | None => mret start
  | Some area =>
      match fuel with
      | O => panic
      | S fuel' =>
          _ ← match backend area with
              | Alloc false =>
                  on_page_table
                    (lazy_loop (Z.to_nat (lazy_count (a_end area) end_ start)) start (a_flags area))
              | _ => mret true
              end;
          _ ← assert_ (is_aligned_4k (a_end area));
          alloc_for_lazy_loop fuel' (a_end area) end_
      end
  end.

(** [alloc_for_lazy]. *)
Definition alloc_for_lazy (start size : Z) : AsM AxError unit :=
  let end_ := align_up_4k (start +w size) in
  let start := align_down_4k start in
  let size := end_ -w start in
  inside ← as_contains_range start size;
  _ ← ensure inside InvalidInput;
  sp ← get_space;
  start' ← alloc_for_lazy_loop (length (as_areas sp) + 1) start end_;
  ensure (negb (start' <? end_)) InvalidInput.

(** The assertions of [unmap_user_areas] on one area. *)
Definition user_area_ok (range : AddrRange) (a : MemoryArea Backend) : bool :=
  is_aligned_4k (a_start a) && (a_size a mod PAGE_SIZE_4K =? 0) &&
  contains (a_flags a) USER &&
  match try_from_start_size (a_start a) (a_size a) with
  | Some r => contains_range range r
  | None => false
  end.

(** [clear]. *)
Definition as_clear : AsM AxError unit := fun st =>
  match on_areas ms_clear st with
  | Ret (Ok _, st') => Ret (Ok tt, st')
  | _ => Panic
  end.

(** [unmap_user_areas]. *)
Definition unmap_user_areas : AsM AxError unit :=
  sp ← get_space;
  _ ← assert_ (forallb (fun ka => user_area_ok (as_range sp) (snd ka)) (as_areas sp));
  as_clear.

(** The loop of [process_area_data_with_page_table]: the chunks handed to [f] (kernel
    address, offset, length) and how it ends. *)
Fixpoint process_loop (pt : PageTable) (start size cnt : Z) (pages : list Z)
  : list (Z * Z * Z) * result unit AxError :=
  match pages with
  | [] => ([], Ok tt)
  | vaddr :: pages' =>
      match pt_query pt vaddr with
      | Err _ => ([], Err BadAddress)
      | Ok (paddr, _) =>
          let copy_size := Z.min (size -w cnt) PAGE_SIZE_4K in
          if copy_size =? 0 then ([], Ok tt) else
          let first := (vaddr =? align_down_4k start) && negb (align_offset_4k start =? 0) in
          let copy_size :=
            if first then Z.min copy_size (PAGE_SIZE_4K - align_offset_4k start) else copy_size in
          let paddr := if first then paddr +w align_offset_4k start else paddr in
          let '(chunks, r) := process_loop pt start size (cnt +w copy_size) pages' in
          ((phys_to_virt paddr, cnt, copy_size) :: chunks, r)
      end
  end.

(** [process_area_data_with_page_table]. *)
Definition process_area_data (pt : PageTable) (va_range : AddrRange) (start size : Z)
  : outcome (list (Z * Z * Z) * result unit AxError) :=
  match try_from_start_size start size with
  | None => Panic
  | Some r =>
      if negb (contains_range va_range r) then Ret ([], Err InvalidInput) else
      match PageIter4K (align_down_4k start) (align_up_4k (start +w size)) with
      | None => Panic
      | Some pages => Ret (process_loop pt start size 0 pages)
      end
  end.

(** The closures of [read] and [write] applied to the chunks in order. *)
Definition read_chunks (mem : bytes) (buf : list Z) (chunks : list (Z * Z * Z)) : list Z :=
  foldl (fun buf '(src, offset, n) =>
    take (Z.to_nat offset) buf ++ mem_read src (Z.to_nat n) mem ++ drop (Z.to_nat (offset + n)) buf)
    buf chunks.
Definition write_chunks (buf : list Z) (mem : bytes) (chunks : list (Z * Z * Z)) : bytes :=
  foldl (fun mem '(dst, offset, n) =>
    mem_write dst (take (Z.to_nat n) (drop (Z.to_nat offset) buf)) mem) mem chunks.

(** [read]: the buffer after the call and its result. *)
Definition as_read (start : Z) (buf : list Z) (sp : AddrSpace) (m : Mach FA)
  : outcome (list Z * result unit AxError) :=
  match process_area_data (as_pt sp) (as_range sp) start (Z.of_nat (length buf)) with
  | Ret (chunks, r) => Ret (read_chunks (m_mem m) buf chunks, r)
  | Panic => Panic
  end.

(** [write]. *)
Definition as_write (start : Z) (buf : list Z) (sp : AddrSpace) (m : Mach FA)
  : outcome (Mach FA * result unit AxError) :=
  match process_area_data (as_pt sp) (as_range sp) start (Z.of_nat (length buf)) with
  | Ret (chunks, r) => Ret (mkMach (m_fa m) (write_chunks buf (m_mem m) chunks), r)
  | Panic => Panic
  end.

(** [protect]: only the page table changes. *)
Definition as_protect (start size flags : Z) : AsM AxError unit :=
  _ ← check_page_range start size;
  ok ← on_page_table (fun st => to_bool (protect_region start size flags st));
  ensure ok BadState.

(** [handle_page_fault]. *)
Definition handle_page_fault (vaddr access_flags : Z) : AsM AxError bool :=
  sp ← get_space;
  if negb (r_contains (as_range sp) vaddr) then mret false else
  match ms_find (as_areas sp) vaddr with
  | Some area =>
      let orig_flags := a_flags area in
      if contains orig_flags access_flags then
        on_page_table (backend_handle_page_fault (backend area) vaddr orig_flags)
      else mret false
  | None => mret false
  end.

(** ** [clone_or_err] *)

(** [Vec::resize(len, 0)] of a buffer that only grows. *)
Definition resize (buf : list Z) (len : Z) : list Z :=
  take (Z.to_nat len) (buf ++ replicate (Z.to_nat len - length buf) 0).

Section clone.
(** The capacity a [Vec] of the given capacity has after growing to a length: the
    documentation only promises that the length fits. *)
Variable vec_grow : Z -> Z -> Z.

(** [new_pt] goes out of scope on the error paths. *)
Definition abort {A} (e : AxError) (st : PtSt) : outcome (result A AxError * Mach FA) :=
  Ret (Err e, pt_drop (fst st) (snd st)).

(** The copy of one area's bytes: read it (and whatever follows, up to the length
    of the buffer) from the old space, then write it to the new page table. *)
Definition clone_copy (self : AddrSpace) (area : MemoryArea Backend) (buf : list Z)
  (new_areas : list (Z * MemoryArea Backend)) (st : PtSt)
  : outcome (result (list Z * PtSt) AxError * PtSt) :=
  match as_read (a_start area) buf self (snd st) with
  | Panic => Panic
  | Ret (_, Err e) =>
      match ms_clear (new_areas, st) with
      | Ret (Ok _, (_, st')) => Ret (Err e, st')
      | _ => Panic
      end
  | Ret (buf', Ok _) =>
      match process_area_data (fst st) (as_range self) (a_start area) (a_size area) with
      | Panic => Panic
      | Ret (chunks, r) =>
          let st' := (fst st, mkMach (m_fa (snd st)) (write_chunks buf' (m_mem (snd st)) chunks)) in
          match r with
          | Ok _ => Ret (Ok (buf', st'), st')
          | Err e => Ret (Err e, st')
          end
      end
  end.

(** The loop over the areas of the old space. *)
Fixpoint clone_loop (self : AddrSpace) (areas : list (Z * MemoryArea Backend)) (cap : Z)
  (buf : list Z) (new_areas : list (Z * MemoryArea Backend)) (st : PtSt)
  : outcome (result AddrSpace AxError * Mach FA) :=
  match areas with
  | [] => Ret (Ok (mkAS (as_range self) new_areas (fst st)), snd st)
  | (_, area) :: areas' =>
      match try_from_start_size (a_start area) (a_size area) with
      | None => Panic
      | Some r =>
          match ms_map (mkArea r (a_flags area) (backend area)) false (new_areas, st) with
          | Panic => Panic
          | Ret (Err e, (_, st1)) => abort (mapping_err_to_ax_err e) st1
          | Ret (Ok _, (new_areas', st1)) =>
              let len := Z.max cap (a_size area) in
              let cap' := if len <=? cap then cap else vec_grow cap len in
              match clone_copy self area (resize buf len) new_areas' st1 with
              | Panic => Panic
              | Ret (Err e, st2) => abort e st2
              | Ret (Ok (buf', st2), _) => clone_loop self areas' cap' buf' new_areas' st2
              end
          end
      end
  end.

(** [clone_or_err]; [kernel] is the kernel address space. *)
Definition clone_or_err (kernel self : AddrSpace) (m : Mach FA)
  : outcome (result AddrSpace AxError * Mach FA) :=
  match try_new m with
  | (Err _, m1) => Ret (Err NoMemory, m1)
  | (Ok pt, m1) =>
      match copy_from pt (as_pt kernel) (r_start (as_range kernel)) (r_size (as_range kernel)) with
      | Panic => Panic
      | Ret pt1 => clone_loop self (as_areas self) PAGE_SIZE_4K (replicate 4096 0) [] (pt1, m1)
      end
  end.
End clone.
End addr_space.
