(* ===== verification/AddrSpaceInv.v ===== *)
(** Invariants of user address spaces: the ownership of frames by page tables, the
    evolution of a page table by the backends, and the invariant that ties the
    areas to the page table. *)
From S2P Require Import Prelude Errno MemAddr Frames Paging MemorySet AddrSpace.
Import MappingFlags.

(** A page of the user half of the Sv39 space. *)
Definition user_page (va : Z) : Prop := 0 <= va < 274877906944 /\ va mod PAGE_SIZE_4K = 0.

(** The frame [q] is mapped by one of the given pages. *)
Definition own (pages : list Z) (pt : PageTable) (q : Z) : Prop :=
  exists va, va ∈ pages /\ frame_at pt va = Some q.

Section inv.
Context {FA : Type} `{FrameAllocatorLaws FA}.
Implicit Types (pt : PageTable) (m : Mach FA).

(** The page table invariant: mapped user frames are in use, mapped once and not
    used for tables; table frames are in use. *)
Record pt_inv pt m : Prop := {
  pi_mach : mach_wf m;
  pi_entries : entries_ok pt;
  pi_frames : forall va p, user_page va -> frame_at pt va = Some p ->
    pframe_ok p /\ frame_used m p /\ ~ table_frame pt p;
  pi_inj : forall va va' p, user_page va -> user_page va' ->
    frame_at pt va = Some p -> frame_at pt va' = Some p -> va = va';
  pi_tables : forall p, table_frame pt p -> pframe_ok p /\ frame_used m p;
}.

(** What running backend operations on the given pages may do: the entries of
    other pages and every frame the pages do not own are left alone; the pages
    and the new tables only take frames that they owned or that were free. *)
Record evolve (pages : list Z) pt m pt' m' : Prop := {
  ev_inv : pt_inv pt' m';
  ev_entry : forall va, user_page va -> va ∉ pages -> raw_entry pt' va = raw_entry pt va;
  ev_foreign : forall q, pframe_ok q -> frame_used m q -> ~ own pages pt q -> frame_used m' q;
  ev_bytes : forall q i, pframe_ok q -> frame_used m q -> ~ own pages pt q ->
    0 <= i < PAGE_SIZE_4K -> m_mem m' (phys_to_virt q + i) = m_mem m (phys_to_virt q + i);
  ev_own : forall q, own pages pt' q -> own pages pt q \/ ~ frame_used m q;
  ev_table : forall q, table_frame pt' q ->
    table_frame pt q \/ own pages pt q \/ ~ frame_used m q;
}.

Lemma user_page_39 va : user_page va -> 0 <= va < 2 ^ 39.
Proof. intros [? _]. change (2 ^ 39) with 549755813888. lia. Qed.

Lemma user_vpn_inj va va' : user_page va -> user_page va' -> vpn va = vpn va' -> va = va'.
Proof. intros H1 H2. apply vpn_inj; auto using user_page_39; [apply H1|apply H2]. Qed.

Lemma pframe_56 p : pframe_ok p -> 0 <= p < 2 ^ 56 /\ p mod PAGE_SIZE_4K = 0.
Proof. intros (? & ? & ?). change (2 ^ 56) with 72057594037927936. lia. Qed.

Lemma frame_at_same pt pt' va :
  entries_ok pt -> entries_ok pt' -> raw_entry pt' va = raw_entry pt va ->
  frame_at pt' va = frame_at pt va.
Proof.
  intros Hok Hok' E. apply option_eq. intros p. rewrite !frame_at_Some, E.
  split; intros (Hl & Hp & ->); split_and!; try done; apply Hok || apply Hok';
    rewrite ?E; intros E0; by rewrite E0 in Hp.
Qed.

Lemma frame_at_empty pt va : raw_entry pt va = 0 -> frame_at pt va = None.
Proof.
  intros E. destruct (frame_at pt va) as [p|] eqn:Ef; [|done].
  apply frame_at_Some in Ef as (_ & Hp & _). by rewrite E in Hp.
Qed.

Lemma own_dec pages pt q : own pages pt q \/ ~ own pages pt q.
Proof.
  induction pages as [|va pages IH]; [right; intros (? & ?%elem_of_nil & _); done|].
  destruct (decide (frame_at pt va = Some q)) as [E|E].
  - left. exists va. split; [left|done].
  - destruct IH as [(va' & ? & ?)|IH]; [left; exists va'; split; [by right|done]|right].
    intros (va' & [->|Hin]%elem_of_cons & E'); [done|]. apply IH. by exists va'.
Qed.

Lemma own_mono pages pages' pt q : pages ⊆ pages' -> own pages pt q -> own pages' pt q.
Proof. intros Hs (va & Hva & E). exists va. auto. Qed.

Lemma evolve_refl pages pt m : pt_inv pt m -> evolve pages pt m pt m.
Proof. intros Hinv. split; try done; auto. Qed.

Lemma evolve_frame_at pages pt m pt' m' va :
  pt_inv pt m -> evolve pages pt m pt' m' -> user_page va -> va ∉ pages ->
  frame_at pt' va = frame_at pt va.
Proof.
  intros Hinv E Hu Hn. apply frame_at_same; [apply Hinv|apply E|by apply E].
Qed.

Lemma evolve_mono pages pages' pt m pt' m' :
  pt_inv pt m -> Forall user_page pages' -> pages ⊆ pages' ->
  evolve pages pt m pt' m' -> evolve pages' pt m pt' m'.
Proof.
  intros Hinv Hu Hs E. split.
  - apply E.
  - intros va Hva Hn. apply (ev_entry _ _ _ _ _ E); [done|]. intros ?. by apply Hn, Hs.
  - intros q Hq Hus Hno. apply (ev_foreign _ _ _ _ _ E); [done..|].
    intros Ho. by apply Hno, (own_mono pages).
  - intros q i Hq Hus Hno. apply (ev_bytes _ _ _ _ _ E); [done..|].
    intros Ho. by apply Hno, (own_mono pages).
  - intros q (va & Hva & Ef). destruct (decide (va ∈ pages)) as [Hin|Hn].
    + destruct (ev_own _ _ _ _ _ E q) as [?|?]; [by exists va|left; by eapply own_mono|by right].
    + left. exists va. split; [done|]. rewrite <- Ef. symmetry.
      eapply evolve_frame_at; try done. by eapply Forall_forall in Hu.
  - intros q Hq. apply (ev_table _ _ _ _ _ E) in Hq as [?|[?|?]]; [by left| |by right; right].
    right; left. by eapply own_mono.
Qed.

Lemma evolve_trans pages pt m pt1 m1 pt2 m2 :
  pt_inv pt m -> Forall user_page pages ->
  evolve pages pt m pt1 m1 -> evolve pages pt1 m1 pt2 m2 -> evolve pages pt m pt2 m2.
Proof.
  intros Hinv Hu E1 E2.
  assert (Hno : forall q, frame_used m q -> ~ own pages pt q -> ~ own pages pt1 q).
  { intros q Hq Hn Ho. by apply (ev_own _ _ _ _ _ E1) in Ho as [?|?]. }
  assert (Hnu : forall q, pframe_ok q -> ~ frame_used m1 q -> own pages pt q \/ ~ frame_used m q).
  { intros q Hok Hn. destruct (own_dec pages pt q); [by left|right].
    intros Hq. by apply Hn, (ev_foreign _ _ _ _ _ E1). }
  split.
  - apply E2.
  - intros va Hva Hn. rewrite (ev_entry _ _ _ _ _ E2), (ev_entry _ _ _ _ _ E1); done.
  - intros q Hok Hq Hn. apply (ev_foreign _ _ _ _ _ E2); [done|by apply (ev_foreign _ _ _ _ _ E1)|by apply Hno].
  - intros q i Hok Hq Hn Hi. rewrite (ev_bytes _ _ _ _ _ E2); [|done|by apply (ev_foreign _ _ _ _ _ E1)|by apply Hno|done].
    by apply (ev_bytes _ _ _ _ _ E1).
  - intros q Ho. assert (Hok : pframe_ok q).
    { destruct Ho as (va & Hva & Ef). eapply Forall_forall in Hu; [|exact Hva].
      by destruct (pi_frames _ _ (ev_inv _ _ _ _ _ E2) va q Hu Ef). }
    apply (ev_own _ _ _ _ _ E2) in Ho as [Ho|Ho]; [by apply (ev_own _ _ _ _ _ E1)|auto].
  - intros q Ht. assert (Hok : pframe_ok q) by apply (pi_tables _ _ (ev_inv _ _ _ _ _ E2) q Ht).
    apply (ev_table _ _ _ _ _ E2) in Ht as [Ht|[Ho|Hn]]; [by apply (ev_table _ _ _ _ _ E1)| |].
    + right. by apply (ev_own _ _ _ _ _ E1).
    + right. auto.
Qed.

Lemma evolve_nil pages pt m pt1 m1 pt2 m2 :
  pt_inv pt m -> Forall user_page pages ->
  evolve [] pt m pt1 m1 -> evolve [] pt1 m1 pt2 m2 -> evolve pages pt m pt2 m2.
Proof.
  intros Hinv Hu E1 E2. apply (evolve_mono []); [done|done|apply list_subseteq_nil|].
  by apply (evolve_trans [] pt m pt1 m1).
Qed.

(** ** Single steps *)

Lemma frame_at_set_user pt va va' e :
  user_page va -> user_page va' -> has_leaf pt va ->
  frame_at (set_entry va e pt) va' =
    if decide (va = va') then if Rv64PTE.is_present e then Some (Rv64PTE.paddr e) else None
    else frame_at pt va'.
Proof.
  intros Hu Hu' Hl. destruct (decide (va = va')) as [<-|Hne].
  - unfold frame_at. rewrite get_entry_Ok by done. by rewrite raw_set_entry_eq.
  - apply frame_at_set_ne. intros E. by apply Hne, user_vpn_inj.
Qed.

Lemma entries_ok_set pt va e :
  user_page va -> (e = 0 \/ has_leaf pt va) -> entries_ok pt -> entries_ok (set_entry va e pt).
Proof.
  intros Hu Hl Hok va'. unfold raw_entry, set_entry at 1. cbn.
  destruct (decide (vpn va = vpn va')) as [E|E].
  - rewrite E, lookup_insert_eq. cbn. intros He. destruct Hl as [->|[H2 H1]]; [done|].
    apply user_page_39 in Hu as Hu39. unfold has_leaf, set_entry; cbn.
    assert (E' : p1_path va = p1_path va' /\ p2_path va = p2_path va').
    { unfold vpn in E. unfold p1_path, p2_path, p1_index, p2_index, p3_index in *.
      change (ENTRY_COUNT - 1) with 511 in *. rewrite !index_spec in * by lia.
      generalize dependent (va / 2 ^ (12 + 18)); generalize dependent (va / 2 ^ (12 + 9));
        generalize dependent (va / 2 ^ 12); generalize dependent (va' / 2 ^ (12 + 18));
        generalize dependent (va' / 2 ^ (12 + 9)); generalize dependent (va' / 2 ^ 12).
      intros. lia. }
    destruct E' as [<- <-]. done.
  - rewrite lookup_insert_ne by done. apply Hok.
Qed.

(** Storing an entry keeps the invariant when it maps nothing, or a frame that is
    in use and belongs to nobody. *)
Lemma pt_inv_set pt m va e :
  pt_inv pt m -> user_page va -> (e = 0 \/ has_leaf pt va) ->
  (Rv64PTE.is_present e = true ->
   pframe_ok (Rv64PTE.paddr e) /\ frame_used m (Rv64PTE.paddr e) /\
   ~ table_frame pt (Rv64PTE.paddr e) /\
   forall va', user_page va' -> frame_at pt va' <> Some (Rv64PTE.paddr e)) ->
  pt_inv (set_entry va e pt) m.
Proof.
  intros Hinv Hu Hl Hp.
  assert (Hat : forall va' q, user_page va' -> frame_at (set_entry va e pt) va' = Some q ->
    (va' = va /\ Rv64PTE.is_present e = true /\ q = Rv64PTE.paddr e) \/
    (va' <> va /\ frame_at pt va' = Some q)).
  { intros va' q Hu' Hf. destruct (decide (va' = va)) as [->|Hne].
    - left. apply frame_at_Some in Hf as (_ & Hf). rewrite raw_set_entry_eq in Hf by done. tauto.
    - right. split; [done|]. rewrite frame_at_set_ne in Hf; [done|].
      intros E. apply Hne. symmetry. by apply user_vpn_inj. }
  split.
  - apply Hinv.
  - apply entries_ok_set; [done..|apply Hinv].
  - intros va' q Hu' Hf. rewrite table_frame_set_entry.
    apply Hat in Hf as [(-> & Hpr & ->)|[_ Hf]]; [|by eapply pi_frames|done].
    destruct (Hp Hpr) as (? & ? & ? & _). done.
  - intros va1 va2 q Hu1 Hu2 H1 H2. apply Hat in H1, H2; [|done..].
    destruct H1 as [(-> & Hpr & ->)|[_ H1]], H2 as [(-> & Hpr' & Eq)|[_ H2]].
    + done.
    + destruct (Hp Hpr) as (_ & _ & _ & Hn). by apply Hn in H2.
    + subst q. destruct (Hp Hpr') as (_ & _ & _ & Hn). by apply Hn in H1.
    + by eapply pi_inj.
  - intros q. rewrite table_frame_set_entry. apply Hinv.
Qed.

Lemma evolve_grow pt m pt1 m1 :
  pt_inv pt m -> pt_grow pt m pt1 m1 -> evolve [] pt m pt1 m1.
Proof.
  intros Hinv G.
  assert (Hat : forall va, frame_at pt1 va = frame_at pt va)
    by (intros va; eapply frame_at_grow; [apply Hinv|done]).
  split.
  - split.
    + apply G.
    + eapply entries_ok_grow; [apply Hinv|done].
    + intros va p Hu. rewrite Hat. intros Hf.
      destruct (pi_frames _ _ Hinv va p Hu Hf) as (Hok & Hus & Hnt).
      split_and!; [done|by apply (grow_used _ _ _ _ G)|].
      intros Ht. by apply (grow_tables _ _ _ _ G) in Ht as [?|(? & _)].
    + intros va va' p Hu Hu'. rewrite !Hat. by apply Hinv.
    + intros p Ht. apply (grow_tables _ _ _ _ G) in Ht as [Ht|(_ & ? & ?)]; [|done].
      apply (pi_tables _ _ Hinv) in Ht as [? ?]. split; [done|]. by apply (grow_used _ _ _ _ G).
  - intros va _ _. by eapply raw_entry_grow.
  - intros q _ Hq _. by apply (grow_used _ _ _ _ G).
  - intros q i _ Hq _ Hi. by apply (grow_bytes _ _ _ _ G).
  - intros q (va & ?%elem_of_nil & _). done.
  - intros q Hq. apply (grow_tables _ _ _ _ G) in Hq as [?|(? & _)]; auto.
Qed.

Lemma evolve_alloc pt m p m1 :
  pt_inv pt m -> alloc_frame true m = Some (p, m1) ->
  evolve [] pt m pt m1 /\ pframe_ok p /\ ~ frame_used m p /\ frame_used m1 p /\
  ~ table_frame pt p /\ (forall va, user_page va -> frame_at pt va <> Some p) /\
  (forall i, 0 <= i < PAGE_SIZE_4K -> m_mem m1 (phys_to_virt p + i) = 0).
Proof.
  intros Hinv Ha.
  destruct (alloc_frame_spec m p m1 (pi_mach _ _ Hinv) Ha) as (Hwf & Hok & Hn & Hus & Hb & Hz).
  assert (Hmono : forall q, frame_used m q -> frame_used m1 q) by (intros q Hq; apply Hus; by right).
  split_and!; try done.
  - split; auto.
    + split; try apply Hinv; try done.
      * intros va q Hu Hf. destruct (pi_frames _ _ Hinv va q Hu Hf) as (? & ? & ?). auto.
      * intros q Hq. apply (pi_tables _ _ Hinv) in Hq as [? ?]. auto.
  - apply Hus. by left.
  - intros Ht. by apply (pi_tables _ _ Hinv) in Ht as [_ ?].
  - intros va Hu Hf. by apply (pi_frames _ _ Hinv) in Hf as (_ & ? & _).
Qed.

(** A frame that was just allocated is mapped at [va]. *)
Lemma evolve_set_fresh pt m va p f :
  pt_inv pt m -> user_page va -> has_leaf pt va -> f <> 0 ->
  pframe_ok p -> frame_used m p -> ~ table_frame pt p ->
  (forall va', user_page va' -> frame_at pt va' <> Some p) ->
  pt_inv (set_entry va (Rv64PTE.new_page p f) pt) m /\
  frame_at (set_entry va (Rv64PTE.new_page p f) pt) va = Some p.
Proof.
  intros Hinv Hu Hl Hf Hok Hus Hnt Hno. destruct (pframe_56 p Hok) as [H1 H2]. split.
  - apply pt_inv_set; [done|done|by right|]. intros _. by rewrite new_page_paddr.
  - rewrite frame_at_set_eq by done. by destruct (Z.eqb_spec f 0).
Qed.

Lemma evolve_update va e pt m pt1 m1 :
  evolve [va] pt m pt1 m1 -> user_page va -> pt_inv (set_entry va e pt1) m1 ->
  (forall q, frame_at (set_entry va e pt1) va = Some q -> own [va] pt q \/ ~ frame_used m q) ->
  evolve [va] pt m (set_entry va e pt1) m1.
Proof.
  intros E Hu Hinv Hq. split; try apply E.
  - done.
  - intros va' Hu' Hn. rewrite <- (ev_entry _ _ _ _ _ E) by done. apply raw_set_entry_ne.
    intros Ev. apply Hn. apply user_vpn_inj in Ev as ->; [left|done|done].
  - intros q (va' & ->%list_elem_of_singleton & Hf). by apply Hq.
Qed.

(** Allocate a frame, create the tables and map the frame: the step shared by
    populated mappings and page faults. *)
Lemma map_fresh_step va f pt m p m1 pt1 m2 :
  pt_inv pt m -> user_page va -> f <> 0 -> alloc_frame true m = Some (p, m1) ->
  pt_grow pt m1 pt1 m2 -> has_leaf pt1 va ->
  evolve [va] pt m (set_entry va (Rv64PTE.new_page p f) pt1) m2 /\
  frame_at (set_entry va (Rv64PTE.new_page p f) pt1) va = Some p /\
  pframe_ok p /\ ~ frame_used m p /\
  (forall i, 0 <= i < PAGE_SIZE_4K -> m_mem m2 (phys_to_virt p + i) = 0).
Proof.
  intros Hinv Hu Hf Ha G Hl.
  destruct (evolve_alloc pt m p m1 Hinv Ha) as (E1 & Hok & Hn & Hus & Hnt & Hno & Hz).
  pose proof (evolve_grow pt m1 pt1 m2 (ev_inv _ _ _ _ _ E1) G) as E2.
  assert (Hups : Forall user_page [va]) by (by constructor).
  assert (E : evolve [va] pt m pt1 m2) by (by eapply evolve_nil).
  assert (Hat : forall va', frame_at pt1 va' = frame_at pt va')
    by (intros va'; eapply frame_at_grow; [apply Hinv|done]).
  destruct (evolve_set_fresh pt1 m2 va p f) as [Hinv' Hva]; try done.
  - apply E.
  - by apply (grow_used _ _ _ _ G).
  - intros Ht. by apply (grow_tables _ _ _ _ G) in Ht as [?|(? & _)].
  - intros va' Hu'. rewrite Hat. by apply Hno.
  - split_and!; try done.
    + apply evolve_update; [done..|]. intros q. rewrite Hva. intros [= <-]. by right.
    + intros i Hi. rewrite (grow_bytes _ _ _ _ G p i Hus Hi). auto.
Qed.

(** Clearing the entry of [va] and giving its frame back. *)
Lemma unmap_step va p pt m :
  pt_inv pt m -> user_page va -> frame_at pt va = Some p ->
  evolve [va] pt m (set_entry va Rv64PTE.clear pt) (dealloc_frame p m) /\
  (forall q, pframe_ok q -> frame_used (dealloc_frame p m) q <-> frame_used m q /\ q <> p).
Proof.
  intros Hinv Hu Hf. destruct (pi_frames _ _ Hinv va p Hu Hf) as (Hok & Hus & Hnt).
  destruct (dealloc_frame_spec m p (pi_mach _ _ Hinv) Hus) as (Hwf & Hused & Hmem).
  assert (Hiff : forall q, pframe_ok q -> frame_used (dealloc_frame p m) q <-> frame_used m q /\ q <> p).
  { intros q Hq. rewrite Hused. split; intros [? Hne]; (split; [done|]); intros E; apply Hne.
    - by rewrite E.
    - by apply phys_to_virt_inj. }
  split; [|done].
  assert (Hat : forall va', user_page va' -> frame_at (set_entry va Rv64PTE.clear pt) va' =
            if decide (va = va') then None else frame_at pt va').
  { intros va' Hu'. destruct (decide (va = va')) as [<-|Hne]; [by apply frame_at_clear|].
    apply frame_at_set_ne. intros E. by apply Hne, user_vpn_inj. }
  split.
  - split.
    + done.
    + apply entries_ok_set; [done|by left|apply Hinv].
    + intros va' q Hu'. rewrite Hat by done. destruct (decide (va = va')) as [|Hne]; [done|].
      intros Hf'. destruct (pi_frames _ _ Hinv va' q Hu' Hf') as (Hok' & Hus' & ?).
      split_and!; [done| |done]. apply Hiff; [done|]. split; [done|]. intros ->.
      by apply Hne, (pi_inj _ _ Hinv va va' p).
    + intros va1 va2 q Hu1 Hu2. rewrite !Hat by done.
      destruct (decide (va = va1)), (decide (va = va2)); try done. by apply Hinv.
    + intros q Ht. apply (pi_tables _ _ Hinv) in Ht as Hq. destruct Hq as [Hq1 Hq2].
      split; [done|]. apply Hiff; [done|]. split; [done|]. by intros ->.
  - intros va' Hu' Hn. apply raw_set_entry_ne. intros E. apply Hn.
    apply user_vpn_inj in E as ->; [left|done|done].
  - intros q Hq Hqu Hno. apply Hiff; [done|]. split; [done|]. intros ->. apply Hno.
    exists va. split; [left|done].
  - intros q i _ _ _ _. by rewrite Hmem.
  - intros q (va' & ->%list_elem_of_singleton & Hf'). rewrite Hat in Hf' by done.
    by destruct (decide (va = va)).
  - intros q. rewrite table_frame_set_entry. by left.
Qed.

Lemma unmap_none_step va pt m :
  pt_inv pt m -> user_page va -> frame_at pt va = None ->
  evolve [va] pt m (if is_ok (get_entry pt va) then set_entry va Rv64PTE.clear pt else pt) m.
Proof.
  intros Hinv Hu Hf. destruct (is_ok _); [|by apply evolve_refl].
  apply evolve_update; [by apply evolve_refl|done| |].
  - apply pt_inv_set; [done|done|by left|done].
  - intros q. by rewrite frame_at_clear.
Qed.

(** The placeholder entry of a lazy mapping. *)
Lemma placeholder_step va pt m pt1 m1 :
  pt_inv pt m -> user_page va -> pt_grow pt m pt1 m1 -> has_leaf pt1 va ->
  evolve [va] pt m (set_entry va (Rv64PTE.new_page 0 0) pt1) m1.
Proof.
  intros Hinv Hu G Hl. pose proof (evolve_grow pt m pt1 m1 Hinv G) as E.
  apply evolve_update; [|done| |].
  - eapply evolve_mono; [done|by constructor| |done]. set_solver.
  - apply pt_inv_set; [apply E|done|by right|]. by rewrite new_page_present.
  - intros q Hq. rewrite frame_at_set_eq in Hq by done. done.
Qed.

(** ** The loops of the backends *)

(** What the page [va] holds after a fresh frame was mapped there. *)
Definition fresh_page pt m (va f : Z) : Prop :=
  exists p, raw_entry pt va = Rv64PTE.new_page p f /\ frame_at pt va = Some p /\
    forall i, 0 <= i < PAGE_SIZE_4K -> m_mem m (phys_to_virt p + i) = 0.

Lemma fresh_page_evolve pages va f pt m pt' m' :
  pt_inv pt m -> Forall user_page pages -> user_page va -> va ∉ pages ->
  evolve pages pt m pt' m' -> fresh_page pt m va f -> fresh_page pt' m' va f.
Proof.
  intros Hinv Hus Hu Hn E (p & Hr & Hf & Hz).
  destruct (pi_frames _ _ Hinv va p Hu Hf) as (Hok & Hup & _). exists p. split_and!.
  - by rewrite (ev_entry _ _ _ _ _ E).
  - by rewrite (evolve_frame_at pages pt m pt' m').
  - intros i Hi. rewrite (ev_bytes _ _ _ _ _ E); auto.
    intros (va' & Hin & Hf'). eapply Forall_forall in Hus; [|exact Hin].
    by rewrite (pi_inj _ _ Hinv va va' p) in Hn.
Qed.

Lemma populate_exhausted pages f pt m :
  fa_alloc (m_fa m) = None -> populate_loop pages f (pt, m) = Ret (true, (pt, m)).
Proof.
  intros Ha. assert (Hal : alloc_frame true m = None) by (unfold alloc_frame; by rewrite Ha).
  induction pages as [|va pages IH]; cbn; [done|]. by rewrite Hal.
Qed.

(** Sequencing the steps of a loop over pages. *)
Lemma evolve_cons va pages pt m pt1 m1 pt2 m2 :
  pt_inv pt m -> Forall user_page (va :: pages) ->
  evolve [va] pt m pt1 m1 -> evolve pages pt1 m1 pt2 m2 -> evolve (va :: pages) pt m pt2 m2.
Proof.
  intros Hinv Hu E1 E2. eapply evolve_trans; [done|done|..];
    (eapply evolve_mono; [| |  |eassumption]); try done; try set_solver. apply E1.
Qed.

Lemma populate_loop_spec pages f pt m :
  pt_inv pt m -> Forall user_page pages -> NoDup pages ->
  Forall (fun va => raw_entry pt va = 0) pages -> f <> 0 ->
  exists b pt' m', populate_loop pages f (pt, m) = Ret (b, (pt', m')) /\
    evolve pages pt m pt' m' /\
    (b = true -> Forall (fun va => fresh_page pt' m' va f \/
                     (raw_entry pt' va = 0 /\ fa_alloc (m_fa m') = None)) pages) /\
    (b = false -> fa_alloc (m_fa m') = None).
Proof.
  intros Hinv Hu Hnd Hz Hf. revert pt m Hinv Hz.
  induction Hu as [|va pages Hva Hu IH]; intros pt m Hinv Hz; cbn.
  { exists true, pt, m. split_and!; [done|by apply evolve_refl|constructor|done]. }
  apply NoDup_cons in Hnd as [Hnin Hnd]. pose proof Hz as [Hz0 Hz']%Forall_cons_1.
  destruct (alloc_frame true m) as [[p m1]|] eqn:Ha.
  2: { apply alloc_frame_None in Ha. rewrite populate_exhausted by done. exists true, pt, m.
       split_and!; [done|by apply evolve_refl| |done]. intros _. eapply Forall_impl; [exact Hz|]. auto. }
  destruct (evolve_alloc pt m p m1 Hinv Ha) as (E1 & Hok & _).
  destruct (pframe_56 p Hok) as [Hp56 Hpal].
  destruct (pt_map_spec va p f pt m1 (pi_mach _ _ (ev_inv _ _ _ _ _ E1)))
    as (r & pt1 & m2 & G & Hr).
  destruct r as [[]|e]; destruct Hr as (-> & Hr).
  - destruct Hr as [Hl _].
    assert (align_down p PAGE_SIZE_4K = p) as ->.
    { apply (align_down_4k_id p); [|done]. change (2 ^ 56) with 72057594037927936 in Hp56.
      unfold is_usize. lia. }
    destruct (map_fresh_step va f pt m p m1 pt1 m2) as (E & Hfr & _ & _ & Hzero); try done.
    destruct (IH Hnd _ m2 (ev_inv _ _ _ _ _ E)) as (b & pt3 & m3 & -> & E3 & Hb & Hb').
    { apply Forall_forall. intros va' Hin. rewrite (ev_entry _ _ _ _ _ E).
      - by eapply Forall_forall in Hz'.
      - by eapply Forall_forall in Hu.
      - intros ->%list_elem_of_singleton. done. }
    exists b, pt3, m3. split_and!; [done|by eapply evolve_cons; [|constructor|..]| |done].
    intros Hbt. constructor; [left|by apply Hb].
    eapply fresh_page_evolve; [apply E|exact Hu|done|done|exact E3|].
    exists p. split_and!; [by apply raw_set_entry_eq|done|done].
  - exists false, pt1, m2. split_and!; [done| |done|by destruct Hr as [[_ ?]|[_ ?]]].
    pose proof (evolve_grow pt m1 pt1 m2 (ev_inv _ _ _ _ _ E1) G) as E2.
    eapply evolve_nil; [done|by constructor|done|done].
Qed.

Lemma unmap_alloc_loop_spec pages pt m :
  pt_inv pt m -> Forall user_page pages -> NoDup pages ->
  exists pt' m', unmap_alloc_loop pages (pt, m) = Ret (true, (pt', m')) /\
    evolve pages pt m pt' m' /\ Forall (fun va => raw_entry pt' va = 0) pages /\
    (forall q, pframe_ok q -> frame_used m' q <-> frame_used m q /\ ~ own pages pt q).
Proof.
  intros Hinv Hu Hnd. revert pt m Hinv.
  induction Hu as [|va pages Hva Hu IH]; intros pt m Hinv; cbn.
  { exists pt, m. split_and!; [done|by apply evolve_refl|constructor|]. intros q _. split; [|tauto].
    intros ?. split; [done|]. by intros (? & ?%elem_of_nil & _). }
  apply NoDup_cons in Hnd as [Hnin Hnd]. rewrite pt_unmap_spec.
  assert (Hstep : exists pt1 m1,
    match frame_at pt va with
    | Some p => (set_entry va Rv64PTE.clear pt, dealloc_frame p m)
    | None => (if is_ok (get_entry pt va) then set_entry va Rv64PTE.clear pt else pt, m)
    end = (pt1, m1) /\ evolve [va] pt m pt1 m1 /\ raw_entry pt1 va = 0 /\
    (forall q, pframe_ok q -> frame_used m1 q <-> frame_used m q /\ frame_at pt va <> Some q)).
  { destruct (frame_at pt va) as [p|] eqn:Ef.
    - destruct (unmap_step va p pt m Hinv Hva Ef) as [E Hiff]. eexists _, _. split_and!; [done|done| |].
      + by apply raw_set_entry_eq.
      + intros q Hq. rewrite (Hiff q Hq). naive_solver.
    - eexists _, _. split_and!; [done|by apply unmap_none_step| |naive_solver].
      destruct (get_entry pt va) as [e|e] eqn:Eg; cbn; [by apply raw_set_entry_eq|].
      apply get_entry_Err in Eg as [_ Hl]. destruct (decide (raw_entry pt va = 0)) as [|Hne]; [done|].
      by apply (pi_entries _ _ Hinv) in Hne. }
  destruct Hstep as (pt1 & m1 & Heq & E & Hz & Hiff).
  destruct (IH Hnd pt1 m1 (ev_inv _ _ _ _ _ E)) as (pt2 & m2 & Hrun & E2 & Hz2 & Hiff2).
  exists pt2, m2. split_and!.
  - destruct (frame_at pt va); injection Heq as -> ->; done.
  - eapply evolve_cons; [done|by constructor|done|done].
  - constructor; [|done]. by rewrite (ev_entry _ _ _ _ _ E2).
  - intros q Hq. rewrite (Hiff2 q Hq), (Hiff q Hq).
    assert (Hown : own (va :: pages) pt q <-> frame_at pt va = Some q \/ own pages pt1 q).
    { assert (Hs : forall va', va' ∈ pages -> frame_at pt1 va' = frame_at pt va').
      { intros va' Hin. eapply evolve_frame_at; [done|done|by eapply Forall_forall in Hu|].
        intros ->%list_elem_of_singleton. done. }
      unfold own. setoid_rewrite elem_of_cons. split.
      - intros (va' & [->|Hin] & Hf); [by left|right; exists va'; by rewrite Hs].
      - intros [Hf|(va' & Hin & Hf)]; [exists va; auto|exists va'; rewrite Hs in Hf; auto]. }
    rewrite Hown. tauto.
Qed.

Lemma map_lazy_loop_spec n start pt m :
  pt_inv pt m -> Forall user_page (pages_from start n) ->
  Forall (fun va => raw_entry pt va = 0) (pages_from start n) ->
  exists r pt' m',
    map_region_loop n start (fun _ => 0) empty (pt, m) = Ret (r, (pt', m')) /\
    evolve (pages_from start n) pt m pt' m' /\
    match r with
    | Ok _ => Forall (fun va => raw_entry pt' va = Rv64PTE.new_page 0 0) (pages_from start n)
    | Err _ => fa_alloc (m_fa m') = None
    end.
Proof.
  revert start pt m. induction n as [|n IH]; intros start pt m Hinv Hu Hz.
  { exists (Ok tt), pt, m. split_and!; [done|by apply evolve_refl|constructor]. }
  pose proof (NoDup_pages_from start (S n)) as [Hnin _]%NoDup_cons.
  cbn [pages_from] in *. pose proof Hu as [Hva Hu']%Forall_cons_1.
  pose proof Hz as [Hz0 Hz']%Forall_cons_1. cbn [map_region_loop]. unfold_M.
  destruct (pt_map_spec start 0 empty pt m (pi_mach _ _ Hinv)) as (r & pt1 & m1 & G & Hr).
  destruct r as [[]|e]; destruct Hr as (-> & Hr).
  - destruct Hr as [Hl _]. change (align_down 0 PAGE_SIZE_4K) with 0. cbn [fst snd].
    change (Rv64PTE.new_page 0 empty) with (Rv64PTE.new_page 0 0).
    pose proof (placeholder_step start pt m pt1 m1 Hinv Hva G Hl) as E.
    assert (start +w PAGE_SIZE_4K = start + PAGE_SIZE_4K) as ->
      by (apply wadd_small; destruct Hva as [? _]; lia).
    destruct (IH (start + PAGE_SIZE_4K) _ m1 (ev_inv _ _ _ _ _ E) Hu')
      as (r & pt2 & m2 & -> & E2 & Hr).
    { apply Forall_forall. intros va' Hin. rewrite (ev_entry _ _ _ _ _ E).
      - by eapply Forall_forall in Hz'.
      - by eapply Forall_forall in Hu'.
      - intros ->%list_elem_of_singleton. done. }
    exists r, pt2, m2. split_and!; [done|by eapply evolve_cons|].
    destruct r; [|done]. constructor; [|done].
    rewrite (ev_entry _ _ _ _ _ E2) by done. by apply raw_set_entry_eq.
  - exists (Err e), pt1, m1. split_and!; [done| |by destruct Hr as [[_ ?]|[_ ?]]].
    eapply evolve_nil; [done|done|by apply evolve_grow|].
    by apply evolve_refl, (ev_inv [] pt m), evolve_grow.
Qed.

(** Any address of a page selects the entry of the page. *)
Lemma page_of va :
  0 <= va < 274877906944 ->
  user_page (align_down_4k va) /\ align_down_4k va <= va < align_down_4k va + PAGE_SIZE_4K /\
  (forall pt e, set_entry va e pt = set_entry (align_down_4k va) e pt) /\
  (forall pt, get_entry pt va = get_entry pt (align_down_4k va)).
Proof.
  intros Hva. assert (Hus : is_usize va) by (unfold is_usize; lia).
  pose proof (align_down_4k_le va Hus) as Hle. pose proof (align_down_4k_mod va Hus) as Hm.
  pose proof (align_down_4k_spec va Hus) as Hs.
  assert (Hup : user_page (align_down_4k va)) by (split; [lia|done]).
  destruct (vpn_page va (align_down_4k va)) as (E0 & E1 & E2).
  { change (2 ^ 39) with 549755813888. lia. }
  { by apply user_page_39. }
  { lia. }
  split_and!; [done|lia|lia|..].
  - intros pt e. unfold set_entry. by rewrite E0.
  - intros pt. unfold get_entry, raw_entry. by rewrite E0, E1, E2.
Qed.

(** A page fault in a lazy mapping whose tables exist maps a fresh zeroed frame,
    unless the allocator is exhausted. *)
Lemma page_fault_step va f pt m :
  pt_inv pt m -> 0 <= va < 274877906944 -> has_leaf pt (align_down_4k va) -> f <> 0 ->
  exists b pt' m', handle_page_fault_alloc va f false (pt, m) = Ret (b, (pt', m')) /\
    evolve [align_down_4k va] pt m pt' m' /\
    (b = true -> fresh_page pt' m' (align_down_4k va) f) /\
    (b = false -> fa_alloc (m_fa m) = None /\ pt' = pt /\ m' = m).
Proof.
  intros Hinv Hva Hl Hf. destruct (page_of va Hva) as (Hu & _ & Hset & Hget).
  unfold handle_page_fault_alloc. cbn. destruct (alloc_frame true m) as [[p m1]|] eqn:Ha.
  - rewrite pt_remap_spec, Hget, get_entry_Ok by done. cbn. rewrite Hset.
    pose proof (evolve_alloc pt m p m1 Hinv Ha) as (E1 & _).
    destruct (map_fresh_step (align_down_4k va) f pt m p m1 pt m1) as (E & Hfr & _ & _ & Hz);
      try done.
    { by apply pt_grow_refl, (pi_mach pt), (ev_inv [] pt m). }
    eexists true, _, m1. split_and!; [done|done| |done]. intros _. exists p.
    split_and!; [by apply raw_set_entry_eq|done|done].
  - exists false, pt, m. split_and!; [done|by apply evolve_refl|done|].
    intros _. by apply alloc_frame_None in Ha.
Qed.
End inv.
