(* ===== verification/AddrSpaceCorrect.v ===== *)
(** Correctness of the address space operations: the invariant of user address
    spaces and the behaviour of [map_alloc], [unmap], [handle_page_fault],
    [read] and [write] on it. *)
From S2P Require Import Prelude Errno MemAddr Frames Paging MemorySet AddrSpace AddrSpaceInv.
Import MappingFlags.

Section correct.
Context {FA : Type} `{FrameAllocatorLaws FA}.
Implicit Types (pt : PageTable) (m : Mach FA) (sp : AddrSpace) (a : MemoryArea Backend).

(** An area of a user address space. *)
Definition user_area (range : AddrRange) (ka : Z * MemoryArea Backend) : Prop :=
  r_start range <= fst ka /\ a_end (snd ka) <= r_end range /\
  fst ka mod PAGE_SIZE_4K = 0 /\ a_end (snd ka) mod PAGE_SIZE_4K = 0 /\
  0 < a_flags (snd ka) < 16 /\ exists pop, backend (snd ka) = Alloc pop.

(** The invariant of a user address space. *)
Record as_inv sp m : Prop := {
  ai_pt : pt_inv (as_pt sp) m;
  ai_wf : ms_wf (as_areas sp);
  ai_range : 0 <= r_start (as_range sp) /\ r_end (as_range sp) <= 274877906944;
  ai_areas : Forall (user_area (as_range sp)) (as_areas sp);
  ai_unmapped : forall va, user_page va -> view (as_areas sp) va = None ->
    raw_entry (as_pt sp) va = 0;
  ai_lazy : forall va f, user_page va -> view (as_areas sp) va = Some (f, Alloc false) ->
    raw_entry (as_pt sp) va <> 0;
}.

(** The pages of the range [start, start + size). *)
Definition range_pages (start size : Z) : list Z := pages_from start (Z.to_nat (size / PAGE_SIZE_4K)).

Lemma elem_of_range_pages start size va :
  0 <= size -> start mod PAGE_SIZE_4K = 0 -> size mod PAGE_SIZE_4K = 0 ->
  va ∈ range_pages start size <-> start <= va < start + size /\ va mod PAGE_SIZE_4K = 0.
Proof.
  intros Hsz Hs Hm. unfold range_pages. rewrite elem_of_pages_from. split.
  - intros (i & Hi & ->). lia.
  - intros [Hr Hva]. exists (Z.to_nat ((va - start) / PAGE_SIZE_4K)). lia.
Qed.

Lemma range_pages_user start size :
  0 <= start -> 0 <= size -> start + size <= 274877906944 ->
  start mod PAGE_SIZE_4K = 0 -> size mod PAGE_SIZE_4K = 0 ->
  Forall user_page (range_pages start size).
Proof.
  intros H1 H2 H3 H4 H5. apply Forall_forall. intros va Hva.
  apply elem_of_range_pages in Hva; [|done..]. split; lia.
Qed.

(** The page iterator of the backends visits the pages of the range. *)
Lemma PageIter4K_range start size :
  0 <= start -> 0 <= size -> start + size <= 274877906944 ->
  start mod PAGE_SIZE_4K = 0 -> size mod PAGE_SIZE_4K = 0 ->
  PageIter4K start (start +w size) = Some (range_pages start size).
Proof.
  intros. rewrite wadd_small by lia. rewrite PageIter4K_aligned by lia.
  unfold range_pages. do 3 f_equal. lia.
Qed.

(** Mapping a range whose entries are unused. *)
Lemma backend_map_spec pop start size f pt m :
  pt_inv pt m -> 0 <= start -> 0 <= size -> start + size <= 274877906944 ->
  start mod PAGE_SIZE_4K = 0 -> size mod PAGE_SIZE_4K = 0 -> f <> 0 ->
  Forall (fun va => raw_entry pt va = 0) (range_pages start size) ->
  exists b pt' m', backend_map (Alloc pop) start size f (pt, m) = Ret (b, (pt', m')) /\
    evolve (range_pages start size) pt m pt' m' /\
    (b = true -> Forall (fun va =>
       if pop then fresh_page pt' m' va f \/ (raw_entry pt' va = 0 /\ fa_alloc (m_fa m') = None)
       else raw_entry pt' va = Rv64PTE.new_page 0 0) (range_pages start size)) /\
    (b = false -> fa_alloc (m_fa m') = None).
Proof.
  intros Hinv H1 H2 H3 H4 H5 Hf Hz.
  pose proof (range_pages_user start size H1 H2 H3 H4 H5) as Hu.
  destruct pop; unfold backend_map, backend_map_alloc.
  - rewrite PageIter4K_range by done. apply populate_loop_spec; try done. apply NoDup_pages_from.
  - unfold map_region. apply is_aligned_4k_spec in H4, H5. rewrite H4, H5. cbn.
    destruct (map_lazy_loop_spec _ start pt m Hinv Hu Hz) as (r & pt' & m' & -> & E & Hr).
    exists (is_ok r), pt', m'. split_and!; [done|done|..]; by destruct r.
Qed.

(** Unmapping a range always succeeds. *)
Lemma backend_unmap_spec pop start size pt m :
  pt_inv pt m -> 0 <= start -> 0 <= size -> start + size <= 274877906944 ->
  start mod PAGE_SIZE_4K = 0 -> size mod PAGE_SIZE_4K = 0 ->
  exists pt' m', backend_unmap (Alloc pop) start size (pt, m) = Ret (true, (pt', m')) /\
    evolve (range_pages start size) pt m pt' m' /\
    Forall (fun va => raw_entry pt' va = 0) (range_pages start size) /\
    (forall q, pframe_ok q -> frame_used m' q <-> frame_used m q /\ ~ own (range_pages start size) pt q).
Proof.
  intros Hinv H1 H2 H3 H4 H5. unfold backend_unmap, backend_unmap_alloc.
  rewrite PageIter4K_range by done. apply unmap_alloc_loop_spec; [done| |apply NoDup_pages_from].
  by apply range_pages_user.
Qed.

(** The argument checks: the call proceeds, or the state is unchanged. *)
Lemma check_page_range_spec start size sp m :
  start + size < USIZE ->
  check_page_range start size (sp, m) =
    Ret (if contains_range (as_range sp) (mkRange start (start + size)) &&
            (is_aligned_4k start && is_aligned_4k size)
         then Ok tt else Err InvalidInput, (sp, m)).
Proof.
  intros Hov. unfold check_page_range, as_contains_range, from_start_size, checked_add. unfold_M.
  cbn. destruct (Z.ltb_spec (start + size) USIZE); [|lia].
  destruct (contains_range _ _); [|done]. cbn. by destruct (is_aligned_4k start && is_aligned_4k size)%bool.
Qed.

(** An argument range that overflows the address space panics the kernel. *)
Lemma check_page_range_overflow start size sp m :
  USIZE <= start + size -> check_page_range start size (sp, m) = Panic.
Proof.
  intros Hov. unfold check_page_range, as_contains_range, from_start_size, checked_add. unfold_M.
  cbn. by destruct (Z.ltb_spec (start + size) USIZE); [lia|].
Qed.

Lemma view_None l va :
  view l va = None <-> forall k a, (k, a) ∈ l -> ~ (a_start a <= va < a_end a).
Proof. unfold view. rewrite <- area_at_None. by destruct (area_at l va). Qed.

(** The areas after a mapping. *)
Lemma as_inv_map sp m start size f pop pt' m' :
  as_inv sp m -> 0 < size -> start mod PAGE_SIZE_4K = 0 -> size mod PAGE_SIZE_4K = 0 -> 0 < f < 16 ->
  r_start (as_range sp) <= start -> start + size <= r_end (as_range sp) ->
  ms_overlaps (as_areas sp) (mkRange start (start + size)) = false ->
  evolve (range_pages start size) (as_pt sp) m pt' m' ->
  (pop = false -> Forall (fun va => raw_entry pt' va <> 0) (range_pages start size)) ->
  as_inv (mkAS (as_range sp)
            (bt_insert start (mkArea (mkRange start (start + size)) f (Alloc pop)) (as_areas sp)) pt') m'.
Proof.
  intros [Hpt Hwf Hr Hall Hun Hlz] Hsz Hs Hz Hf Hlo Hhi Ho E Hnz.
  set (ar := mkArea (mkRange start (start + size)) f (Alloc pop)).
  assert (Hok : area_ok (start, ar)) by (split_and!; cbn; lia).
  pose proof (fun addr => ms_insert_spec (as_areas sp) start ar addr Hwf Hok Ho) as Hins.
  assert (Hv : forall va, user_page va ->
    view (bt_insert start ar (as_areas sp)) va =
    if decide (va ∈ range_pages start size) then Some (f, Alloc pop) else view (as_areas sp) va).
  { intros va Hu. destruct (Hins va) as (_ & _ & -> & _).
    destruct (r_contains (va_range ar) va) eqn:Ec.
    - apply r_contains_spec in Ec. destruct (decide _) as [|Hn]; [done|]. exfalso. apply Hn.
      apply elem_of_range_pages; [lia|done|done|]. split; [done|apply Hu].
    - destruct (decide _) as [Hin|]; [|done]. apply elem_of_range_pages in Hin; [|lia|done|done].
      apply not_true_iff_false in Ec. rewrite r_contains_spec in Ec. cbn in Ec. lia. }
  split; cbn [as_range as_areas as_pt].
  - apply E.
  - by destruct (Hins 0) as (_ & ? & _).
  - done.
  - apply Forall_forall. intros x Hx. destruct (Hins 0) as (_ & _ & _ & Hin).
    apply Hin in Hx as [->|Hx]; [|by eapply Forall_forall in Hall].
    unfold user_area, a_end; cbn. split_and!; try lia. by exists pop.
  - intros va Hu. rewrite Hv by done. destruct (decide _); [done|]. intros Hvn.
    rewrite (ev_entry _ _ _ _ _ E) by done. by apply Hun.
  - intros va f' Hu. rewrite Hv by done. destruct (decide _) as [Hin|Hn].
    + intros [= _ ->]. specialize (Hnz eq_refl). by eapply Forall_forall in Hnz.
    + intros Hvn. rewrite (ev_entry _ _ _ _ _ E) by done. by eapply Hlz.
Qed.

Lemma range_unmapped sp m start size :
  as_inv sp m -> 0 <= start -> 0 < size -> start mod PAGE_SIZE_4K = 0 -> size mod PAGE_SIZE_4K = 0 ->
  start + size <= 274877906944 ->
  ms_overlaps (as_areas sp) (mkRange start (start + size)) = false ->
  Forall (fun va => raw_entry (as_pt sp) va = 0) (range_pages start size).
Proof.
  intros Hinv H0s Hsz Hs Hz Hhi Ho. apply Forall_forall. intros va Hva.
  apply elem_of_range_pages in Hva as [Hr Hm]; [|lia|done|done].
  apply (ai_unmapped _ _ Hinv); [split; lia|]. apply view_None. intros k a Hin Ha.
  pose proof (proj1 (ms_overlaps_false _ _ (ai_wf _ _ Hinv)) Ho k a Hin) as Hd. cbn in Hd.
  destruct (ms_wf_elem _ _ (ai_wf _ _ Hinv) Hin) as (Hk & _). cbn in Hk. lia.
Qed.

(** [map_alloc] on a free, aligned range inside the space. *)
Lemma map_alloc_spec sp m start size f pop :
  as_inv sp m -> 0 < size -> start mod PAGE_SIZE_4K = 0 -> size mod PAGE_SIZE_4K = 0 -> 0 < f < 16 ->
  r_start (as_range sp) <= start -> start + size <= r_end (as_range sp) ->
  ms_overlaps (as_areas sp) (mkRange start (start + size)) = false ->
  exists r sp' m', map_alloc start size f pop (sp, m) = Ret (r, (sp', m')) /\
    evolve (range_pages start size) (as_pt sp) m (as_pt sp') m' /\
    match r with
    | Ok _ =>
        as_inv sp' m' /\ as_range sp' = as_range sp /\
        as_areas sp' = bt_insert start (mkArea (mkRange start (start + size)) f (Alloc pop)) (as_areas sp) /\
        Forall (fun va =>
          if pop then fresh_page (as_pt sp') m' va f \/
                      (raw_entry (as_pt sp') va = 0 /\ fa_alloc (m_fa m') = None)
          else raw_entry (as_pt sp') va = Rv64PTE.new_page 0 0) (range_pages start size)
    | Err e => e = BadState /\ fa_alloc (m_fa m') = None
    end.
Proof.
  intros Hinv Hsz Hs Hz Hf Hlo Hhi Ho. destruct (ai_range _ _ Hinv) as [Hr1 Hr2].
  unfold map_alloc. unfold_M. rewrite check_page_range_spec by lia.
  rewrite (proj2 (contains_range_spec _ _)) by (cbn; lia).
  rewrite (proj2 (is_aligned_4k_spec start)), (proj2 (is_aligned_4k_spec size)) by done. cbn.
  unfold area_new, from_start_size, checked_add. unfold_M.
  destruct (Z.ltb_spec (start + size) USIZE); [|lia].
  pose proof (range_unmapped sp m start size Hinv ltac:(lia) Hsz Hs Hz ltac:(lia) Ho) as Hun.
  destruct (backend_map_spec pop start size f (as_pt sp) m) as (b & pt' & m' & Hb & E & Ht & Hfl);
    try done; try lia; [apply Hinv|].
  set (ar := mkArea (mkRange start (start + size)) f (Alloc pop)).
  assert (Hok : area_ok (start, ar)) by (split_and!; cbn; lia).
  assert (Hb' : b_map (backend ar) start (a_end ar - start) (a_flags ar) (as_pt sp, m) = Ret (b, (pt', m'))).
  { cbn. replace (start + size - start) with size by lia. exact Hb. }
  unfold on_areas. destruct b.
  - rewrite (ms_map_ok _ start ar false _ _ (ai_wf _ _ Hinv) Hok Ho Hb'). cbn.
    eexists (Ok tt), _, m'. split; [done|]. split; [done|]. cbn. specialize (Ht eq_refl).
    split_and!; [|done|done|done]. apply (as_inv_map sp m); try done.
    intros ->. eapply Forall_impl; [exact Ht|]. cbn. intros va ->. discriminate.
  - rewrite (ms_map_fail _ start ar false _ _ (ai_wf _ _ Hinv) Hok Ho Hb'). cbn.
    eexists (Err BadState), _, m'. split; [done|]. split; [done|]. split; [done|by apply Hfl].
Qed.

(** ** Unmapping *)

(** An unmap request of an allocation backend on whole user pages. *)
Definition req_ok (r : Backend * Z * Z) : Prop :=
  let '(b, start, size) := r in
  (exists pop, b = Alloc pop) /\ 0 <= start /\ 0 <= size /\ start + size <= 274877906944 /\
  start mod PAGE_SIZE_4K = 0 /\ size mod PAGE_SIZE_4K = 0.

Definition req_pages (reqs : list (Backend * Z * Z)) : list Z :=
  flat_map (fun '(_, start, size) => range_pages start size) reqs.

Lemma req_pages_user reqs : Forall req_ok reqs -> Forall user_page (req_pages reqs).
Proof.
  induction 1 as [|[[b st] sz] reqs ((pop & ->) & ? & ? & ? & ? & ?) _ IH]; [constructor|].
  cbn. apply Forall_app. split; [by apply range_pages_user|done].
Qed.

Lemma run_unmaps_ok reqs pt m :
  pt_inv pt m -> Forall req_ok reqs ->
  exists pt' m', run_unmaps reqs (pt, m) = Ret (true, (pt', m')) /\
    evolve (req_pages reqs) pt m pt' m' /\
    Forall (fun va => raw_entry pt' va = 0) (req_pages reqs) /\
    (forall q, pframe_ok q -> frame_used m' q <-> frame_used m q /\ ~ own (req_pages reqs) pt q).
Proof.
  intros Hinv Hok. revert pt m Hinv.
  induction Hok as [|[[b st] sz] reqs Hreq Hok IH]; intros pt m Hinv.
  { exists pt, m. split_and!; [done|by apply evolve_refl|constructor|]. intros q _.
    split; [|tauto]. intros ?. split; [done|]. by intros (? & ?%elem_of_nil & _). }
  destruct Hreq as ((pop & ->) & H1 & H2 & H3 & H4 & H5). cbn [run_unmaps req_pages flat_map].
  destruct (backend_unmap_spec pop st sz pt m Hinv H1 H2 H3 H4 H5) as (pt1 & m1 & Hb & E1 & Hz1 & Hu1).
  destruct (IH pt1 m1 (ev_inv _ _ _ _ _ E1)) as (pt2 & m2 & Hrun & E2 & Hz2 & Hu2).
  exists pt2, m2. cbn [b_unmap Backend_MappingBackend]. rewrite Hb. fold (req_pages reqs).
  set (P := range_pages st sz) in *. set (Q := req_pages reqs) in *.
  assert (HP : Forall user_page P) by (by apply range_pages_user).
  assert (HQ : Forall user_page Q) by (by apply req_pages_user).
  assert (HPQ : Forall user_page (P ++ Q)) by (by apply Forall_app).
  split_and!; [done| | |].
  - eapply evolve_trans; [done|done|..].
    + eapply (evolve_mono P); [done|done| |done]. apply list_subseteq_app_l; done.
    + eapply (evolve_mono Q); [apply E1|done| |done]. apply list_subseteq_app_r; done.
  - apply Forall_app; split; [|done]. apply Forall_forall. intros va Hva.
    destruct (decide (va ∈ Q)) as [Hin|Hn]; [by eapply Forall_forall in Hz2|].
    rewrite (ev_entry _ _ _ _ _ E2); [by eapply Forall_forall in Hz1|by eapply Forall_forall in HP|done].
  - intros q Hq. rewrite (Hu2 q Hq), (Hu1 q Hq).
    assert (Hown : own (P ++ Q) pt q <-> own P pt q \/ own Q pt1 q); [|tauto].
    unfold own. setoid_rewrite elem_of_app. split.
    + intros (va & Hin & Hf). destruct (decide (va ∈ P)) as [HinP|HnP]; [left; by exists va|].
      destruct Hin as [|Hin]; [done|]. right. exists va. split; [done|].
      rewrite (evolve_frame_at P pt m pt1 m1); try done. by eapply Forall_forall in HQ.
    + intros [(va & Hin & Hf)|(va & Hin & Hf)]; [exists va; auto|].
      destruct (decide (va ∈ P)) as [HinP|HnP].
      * eapply Forall_forall in Hz1; [|exact HinP]. by rewrite frame_at_empty in Hf.
      * exists va. split; [auto|]. rewrite <- Hf. symmetry.
        eapply evolve_frame_at; try done. by eapply Forall_forall in HQ.
Qed.

(** The requests of [unmap] cover exactly the mapped pages of the range. *)
Lemma piece_req range s e ka r :
  user_area range ka -> area_ok ka -> 0 <= r_start range -> r_end range <= 274877906944 ->
  s mod PAGE_SIZE_4K = 0 -> e mod PAGE_SIZE_4K = 0 -> r ∈ piece s e ka -> req_ok r.
Proof.
  destruct ka as [k a]. intros (H1 & H2 & H3 & H4 & _ & Hb) (Hk & Hr & Hu) Hlo Hhi Hs He.
  cbn in *. destruct (Z.ltb_spec (Z.max k s) (Z.min (a_end a) e)); [|intros ?%elem_of_nil; done].
  intros ->%list_elem_of_singleton. split_and!; [done|..]; lia.
Qed.

Lemma elem_of_plan s e (l : list (Z * MemoryArea Backend)) r :
  r ∈ unmap_plan s e l <-> exists ka, ka ∈ l /\ r ∈ piece s e ka.
Proof.
  unfold unmap_plan. rewrite elem_of_app, !list_elem_of_In, !in_flat_map.
  setoid_rewrite <- list_elem_of_In. setoid_rewrite list_elem_of_filter. split.
  - intros [(x & [_ ?] & ?)|(x & [_ ?] & ?)]; eauto.
  - intros (x & Hx & Hr). destruct (is_inside s e x) eqn:E; [left|right]; eauto.
Qed.

Lemma plan_pages sp m s e va :
  as_inv sp m -> s mod PAGE_SIZE_4K = 0 -> e mod PAGE_SIZE_4K = 0 ->
  va ∈ req_pages (unmap_plan s e (as_areas sp)) <->
  user_page va /\ s <= va < e /\ view (as_areas sp) va <> None.
Proof.
  intros Hinv Hs He. destruct (ai_range _ _ Hinv) as [Hlo Hhi].
  unfold req_pages. rewrite list_elem_of_In, in_flat_map. setoid_rewrite <- list_elem_of_In.
  setoid_rewrite elem_of_plan. split.
  - intros (r & (ka & Hka & Hr) & Hva). pose proof (ms_wf_elem _ _ (ai_wf _ _ Hinv) Hka) as Hok.
    pose proof (proj1 (Forall_forall _ _) (ai_areas _ _ Hinv) _ Hka) as Hua.
    pose proof (piece_req _ _ _ _ _ Hua Hok Hlo Hhi Hs He Hr) as Hreq. destruct ka as [k a].
    destruct Hok as (Hk & Hkr & _). cbn in Hr, Hk, Hkr.
    destruct (Z.ltb_spec (Z.max k s) (Z.min (a_end a) e)); [|by apply elem_of_nil in Hr].
    apply list_elem_of_singleton in Hr as ->. destruct Hreq as (_ & ? & ? & ? & ? & ?).
    apply elem_of_range_pages in Hva; [|done..]. split_and!; [split; lia|lia|lia|].
    rewrite view_None. intros Hn. apply (Hn k a Hka). lia.
  - intros (Hu & Hr & Hv). unfold view in Hv.
    destruct (area_at (as_areas sp) va) as [a|] eqn:Ea; [|done].
    apply area_at_Some in Ea as (k & Hka & Ha).
    pose proof (ms_wf_elem _ _ (ai_wf _ _ Hinv) Hka) as Hok.
    pose proof (proj1 (Forall_forall _ _) (ai_areas _ _ Hinv) _ Hka) as Hua.
    destruct Hok as (Hk & Hkr & _). destruct Hua as (_ & _ & Hk4 & Ha4 & _). cbn in *.
    exists (backend a, Z.max k s, Z.min (a_end a) e - Z.max k s). split.
    + exists (k, a). split; [done|]. cbn.
      destruct (Z.ltb_spec (Z.max k s) (Z.min (a_end a) e)); [left|lia].
    + apply elem_of_range_pages; [lia|lia|lia|]. split; [lia|apply Hu].
Qed.

Lemma cut_user_area range s e ka x :
  user_area range ka -> area_ok ka -> s < e ->
  s mod PAGE_SIZE_4K = 0 -> e mod PAGE_SIZE_4K = 0 -> x ∈ cut_area s e ka -> user_area range x.
Proof.
  intros Hu Hok Hse Hs He Hx. destruct (cut_elem s e ka x Hok Hse Hx) as (_ & Hlo & Hhi & _ & Hf & Hb).
  destruct ka as [k a], Hu as (H1 & H2 & H3 & H4 & H5 & H6). unfold user_area. rewrite Hf, Hb. cbn in *.
  split_and!; try lia; try done; rewrite elem_of_app in Hx;
    destruct (Z.ltb_spec k s), (Z.ltb_spec e (a_end a));
    rewrite ?elem_of_nil, ?list_elem_of_singleton in Hx;
    destruct Hx as [Hx|Hx]; try done; rewrite Hx; unfold a_end in *; cbn; lia.
Qed.

Lemma as_inv_unmap sp m s e pt' m' :
  as_inv sp m -> s < e -> s mod PAGE_SIZE_4K = 0 -> e mod PAGE_SIZE_4K = 0 ->
  evolve (req_pages (unmap_plan s e (as_areas sp))) (as_pt sp) m pt' m' ->
  Forall (fun va => raw_entry pt' va = 0) (req_pages (unmap_plan s e (as_areas sp))) ->
  as_inv (mkAS (as_range sp) (spec_unmap s e (as_areas sp)) pt') m'.
Proof.
  intros Hinv Hse Hs He E Hz. pose proof (ai_wf _ _ Hinv) as Hwf.
  pose proof (fun va => plan_pages sp m s e va Hinv Hs He) as Hpl.
  split; cbn [as_range as_areas as_pt].
  - apply E.
  - by apply spec_unmap_wf.
  - apply Hinv.
  - apply Forall_forall. intros x Hx. unfold spec_unmap in Hx.
    apply list_elem_of_In, in_flat_map in Hx as (ka & Hka%list_elem_of_In & Hx%list_elem_of_In).
    pose proof (proj1 (Forall_forall _ _) (ai_areas _ _ Hinv) _ Hka) as Hua.
    by apply (cut_user_area _ s e ka x Hua (ms_wf_elem _ _ Hwf Hka)).
  - intros va Hu Hv. rewrite spec_unmap_view in Hv by done.
    destruct (decide (va ∈ req_pages (unmap_plan s e (as_areas sp)))) as [Hin|Hn];
      [by eapply Forall_forall in Hz|].
    rewrite (ev_entry _ _ _ _ _ E) by done. apply (ai_unmapped _ _ Hinv); [done|].
    destruct (r_contains (mkRange s e) va) eqn:Ec; [|done]. apply r_contains_spec in Ec. cbn in Ec.
    destruct (view (as_areas sp) va) eqn:Ev; [|done]. exfalso. apply Hn, Hpl. rewrite Ev. done.
  - intros va f Hu Hv. rewrite spec_unmap_view in Hv by done.
    destruct (r_contains (mkRange s e) va) eqn:Ec; [done|].
    rewrite (ev_entry _ _ _ _ _ E); [by eapply (ai_lazy _ _ Hinv)|done|].
    intros Hin. apply Hpl in Hin as (_ & Hr & _). apply not_true_iff_false in Ec.
    rewrite r_contains_spec in Ec. cbn in Ec. lia.
Qed.

Lemma as_unmap_run sp m start size :
  as_inv sp m -> 0 < size -> start mod PAGE_SIZE_4K = 0 -> size mod PAGE_SIZE_4K = 0 ->
  r_start (as_range sp) <= start -> start + size <= r_end (as_range sp) ->
  let pages := req_pages (unmap_plan start (start + size) (as_areas sp)) in
  exists pt' m',
    as_unmap start size (sp, m) =
      Ret (Ok tt, (mkAS (as_range sp) (spec_unmap start (start + size) (as_areas sp)) pt', m')) /\
    as_inv (mkAS (as_range sp) (spec_unmap start (start + size) (as_areas sp)) pt') m' /\
    evolve pages (as_pt sp) m pt' m' /\
    (forall q, pframe_ok q -> frame_used m' q <-> frame_used m q /\ ~ own pages (as_pt sp) q).
Proof.
  intros Hinv Hsz Hs Hz Hlo Hhi pages. destruct (ai_range _ _ Hinv) as [Hr1 Hr2].
  unfold as_unmap. unfold_M. rewrite check_page_range_spec by lia.
  rewrite (proj2 (contains_range_spec _ _)) by (cbn; lia).
  rewrite (proj2 (is_aligned_4k_spec start)), (proj2 (is_aligned_4k_spec size)) by done.
  assert (He : (start + size) mod PAGE_SIZE_4K = 0) by lia.
  destruct (run_unmaps_ok (unmap_plan start (start + size) (as_areas sp)) (as_pt sp) m)
    as (pt' & m' & Hrun & E & Hz' & Hu).
  { apply Hinv. }
  { apply Forall_forall. intros r (ka & Hka & Hr)%elem_of_plan.
    pose proof (proj1 (Forall_forall _ _) (ai_areas _ _ Hinv) _ Hka) as Hua.
    by apply (piece_req _ _ _ _ _ Hua (ms_wf_elem _ _ (ai_wf _ _ Hinv) Hka) Hr1 Hr2 Hs He). }
  exists pt', m'. split_and!; [|apply (as_inv_unmap sp m); try done; lia|done|done].
  cbn [andb]. unfold on_areas.
  rewrite (ms_unmap_spec start size _ _ _ (ai_wf _ _ Hinv) Hsz ltac:(lia) Hrun). done.
Qed.

(** ** Page faults *)

(** The bounds of user areas are page aligned, so a page belongs to the area of
    any of its addresses. *)
Lemma view_page sp m va :
  as_inv sp m -> 0 <= va < 274877906944 ->
  view (as_areas sp) (align_down_4k va) = view (as_areas sp) va.
Proof.
  intros Hinv Hva. destruct (page_of va Hva) as ((Hpr & Hpm) & Hle & _).
  assert (Hiff : forall k a, (k, a) ∈ as_areas sp ->
    a_start a <= align_down_4k va < a_end a <-> a_start a <= va < a_end a).
  { intros k a Hin. destruct (ms_wf_elem _ _ (ai_wf _ _ Hinv) Hin) as (Hk & _). cbn in Hk.
    pose proof (proj1 (Forall_forall _ _) (ai_areas _ _ Hinv) _ Hin) as (_ & _ & Hk4 & He4 & _).
    cbn in *. lia. }
  unfold view. destruct (area_at (as_areas sp) va) as [a|] eqn:Ea.
  - apply area_at_Some in Ea as (k & Hin & Hr). apply (Hiff k a Hin) in Hr.
    by rewrite (area_at_elem _ k a _ (ai_wf _ _ Hinv) Hin Hr).
  - rewrite (proj2 (area_at_None _ _)); [done|]. intros k a Hin Hr. apply (Hiff k a Hin) in Hr.
    by rewrite (area_at_elem _ k a _ (ai_wf _ _ Hinv) Hin Hr) in Ea.
Qed.

(** Changing the entries of lazily mapped pages keeps the invariant. *)
Lemma as_inv_evolve sp m pages pt' m' :
  as_inv sp m -> evolve pages (as_pt sp) m pt' m' ->
  Forall (fun va => view (as_areas sp) va <> None /\ raw_entry pt' va <> 0) pages ->
  as_inv (mkAS (as_range sp) (as_areas sp) pt') m'.
Proof.
  intros Hinv E Hp. split; cbn [as_range as_areas as_pt]; try apply Hinv; [apply E|..].
  - intros va Hu Hv. destruct (decide (va ∈ pages)) as [Hin|Hn].
    + eapply Forall_forall in Hp; [|exact Hin]. by destruct Hp.
    + rewrite (ev_entry _ _ _ _ _ E) by done. by apply Hinv.
  - intros va f Hu Hv. destruct (decide (va ∈ pages)) as [Hin|Hn].
    + eapply Forall_forall in Hp; [|exact Hin]. by destruct Hp.
    + rewrite (ev_entry _ _ _ _ _ E) by done. by eapply (ai_lazy _ _ Hinv).
Qed.

Lemma lazy_page sp m va f :
  as_inv sp m -> 0 <= va < 274877906944 -> view (as_areas sp) va = Some (f, Alloc false) ->
  has_leaf (as_pt sp) (align_down_4k va) /\ 0 < f < 16.
Proof.
  intros Hinv Hva Hv. destruct (page_of va Hva) as (Hu & _). split.
  - apply (pi_entries _ _ (ai_pt _ _ Hinv)). apply (ai_lazy _ _ Hinv _ f Hu).
    by rewrite (view_page sp m va Hinv Hva).
  - unfold view in Hv. destruct (area_at (as_areas sp) va) as [a|] eqn:Ea; [|done].
    injection Hv as <- _. apply area_at_Some in Ea as (k & Hin & _).
    by pose proof (proj1 (Forall_forall _ _) (ai_areas _ _ Hinv) _ Hin) as (_ & _ & _ & _ & ? & _).
Qed.

(** The fault handler of the address space, by the kind of area at the address. *)
Lemma handle_page_fault_spec sp m va access :
  as_inv sp m ->
  exists b pt' m',
    handle_page_fault va access (sp, m) = Ret (Ok b, (mkAS (as_range sp) (as_areas sp) pt', m')) /\
    as_inv (mkAS (as_range sp) (as_areas sp) pt') m' /\
    match view (as_areas sp) va with
    | Some (f, Alloc false) =>
        if contains f access then
          evolve [align_down_4k va] (as_pt sp) m pt' m' /\
          (b = true -> fresh_page pt' m' (align_down_4k va) f) /\
          (b = false -> fa_alloc (m_fa m) = None /\ pt' = as_pt sp /\ m' = m)
        else b = false /\ pt' = as_pt sp /\ m' = m
    | _ => b = false /\ pt' = as_pt sp /\ m' = m
    end.
Proof.
  intros Hinv. destruct (ai_range _ _ Hinv) as [Hr1 Hr2].
  assert (Hsame : as_inv (mkAS (as_range sp) (as_areas sp) (as_pt sp)) m) by (by destruct sp).
  assert (Heta : forall b, @Ret (result bool AxError * (AddrSpace * Mach FA)) (Ok b, (sp, m))
    = Ret (Ok b, (mkAS (as_range sp) (as_areas sp) (as_pt sp), m))) by (by destruct sp).
  unfold handle_page_fault. unfold_M. cbn [get_space].
  rewrite (ms_find_area_at _ _ (ai_wf _ _ Hinv)). unfold view.
  destruct (area_at (as_areas sp) va) as [a|] eqn:Ea.
  2: { exists false, (as_pt sp), m. destruct (r_contains (as_range sp) va); cbn; by rewrite Heta. }
  pose proof Ea as (k & Hin & Hr)%area_at_Some.
  pose proof (proj1 (Forall_forall _ _) (ai_areas _ _ Hinv) _ Hin) as (Hlo & Hhi & _ & _ & _ & pop & Hb).
  destruct (ms_wf_elem _ _ (ai_wf _ _ Hinv) Hin) as (Hk & _). cbn in Hk, Hlo, Hhi, Hb.
  rewrite (proj2 (r_contains_spec (as_range sp) va)) by lia. cbn. rewrite Hb.
  destruct (contains (a_flags a) access) eqn:Ec.
  2: { exists false, (as_pt sp), m. destruct pop; by rewrite Heta. }
  destruct pop; cbn.
  { exists false, (as_pt sp), m. done. }
  assert (Hv : view (as_areas sp) va = Some (a_flags a, Alloc false)) by (unfold view; rewrite Ea; cbn; by rewrite Hb).
  destruct (lazy_page sp m va _ Hinv ltac:(lia) Hv) as [Hl Hf].
  destruct (page_fault_step va (a_flags a) (as_pt sp) m (ai_pt _ _ Hinv) ltac:(lia) Hl ltac:(lia))
    as (b & pt' & m' & Hrun & E & Ht & Hfl).
  unfold handle_page_fault_alloc in Hrun. cbn in Hrun. rewrite Hrun.
  exists b, pt', m'. split_and!; try done. apply (as_inv_evolve sp m [align_down_4k va]); [done..|].
  constructor; [|done]. rewrite (view_page sp m va Hinv ltac:(lia)), Hv. split; [done|].
  destruct b.
  - destruct (Ht eq_refl) as (p & -> & _). apply Z.eqb_neq, new_page_used.
  - destruct (Hfl eq_refl) as (_ & -> & _). apply (ai_lazy _ _ Hinv _ (a_flags a)).
    + by destruct (page_of va ltac:(lia)).
    + by rewrite (view_page sp m va Hinv ltac:(lia)).
Qed.

(** ** New address spaces *)

Lemma new_empty_inv base size m sp m' :
  mach_wf m -> 0 <= base -> base + size <= 274877906944 ->
  new_empty base size m = Ret (Ok sp, m') ->
  as_inv sp m' /\ as_areas sp = [] /\ as_range sp = mkRange base (base + size) /\
  (forall va, frame_at (as_pt sp) va = None).
Proof.
  intros Hwf Hb Hs. unfold new_empty, try_from_start_size, checked_add.
  destruct (Z.ltb_spec (base + size) USIZE); [|lia]. unfold try_new.
  destruct (alloc_frame true m) as [[p m1]|] eqn:Ha; [|done]. intros [= <- <-].
  destruct (alloc_frame_spec m p m1 Hwf Ha) as (Hwf' & Hok & _ & Hus & _).
  assert (Hno : forall va, frame_at (mkPT p ∅ ∅ ∅) va = None) by done.
  split_and!; try done. split; cbn; try done.
  - split; try done.
    intros q [->|[[k Hk]|[k Hk]]]; [|cbn [p1_tables p2_tables] in Hk; by apply lookup_empty_Some in Hk..].
    split; [done|]. apply Hus. by left.
  - split; constructor.
Qed.

Lemma as_inv_inside sp m : as_inv sp m -> inside_limit (as_range sp) (as_areas sp).
Proof.
  intros Hinv. eapply Forall_impl; [apply (ai_areas _ _ Hinv)|]. intros ka (? & ? & _). done.
Qed.

(** A free area found from an aligned hint is aligned. *)
Lemma find_free_aligned sp m hint size r :
  as_inv sp m -> 0 < size -> hint mod PAGE_SIZE_4K = 0 -> r_start (as_range sp) mod PAGE_SIZE_4K = 0 ->
  as_find_free_area sp hint size (as_range sp) = Some r ->
  r mod PAGE_SIZE_4K = 0 /\ r_start (as_range sp) <= r /\ r + size <= r_end (as_range sp) /\
  ms_overlaps (as_areas sp) (mkRange r (r + size)) = false.
Proof.
  intros Hinv Hsz Hh Hb Hr.
  destruct (ms_find_free_sound _ _ _ _ _ (ai_wf _ _ Hinv) Hsz (as_inv_inside sp m Hinv) Hr)
    as (? & ? & ? & Hor).
  split_and!; try done. destruct Hor as [->|(ka & Hin & ->)].
  - destruct (Z.max_spec hint (r_start (as_range sp))) as [[_ ->]|[_ ->]]; done.
  - by pose proof (proj1 (Forall_forall _ _) (ai_areas _ _ Hinv) _ Hin) as (_ & _ & _ & ? & _).
Qed.
End correct.
