(* ===== verification/UserMem.v ===== *)
(** User memory through the page table: what [AddrSpace::read] and
    [AddrSpace::write] (axmm/src/aspace.rs) do to the bytes of user pages, by way
    of the chunks that [process_area_data] produces. *)
From S2P Require Import Prelude Errno MemAddr Frames Paging MemorySet AddrSpace.
From S2P Require Import AddrSpaceInv AddrSpaceCorrect.

(** The kernel address of a user byte. *)
Definition kaddr (pt : PageTable) (va : Z) : option Z :=
  (fun p => phys_to_virt p + va mod PAGE_SIZE_4K) <$> frame_at pt va.

(** The byte a user address holds. *)
Definition user_byte {FA} (pt : PageTable) (m : Mach FA) (va : Z) : option Z :=
  (fun k => m_mem m k) <$> kaddr pt va.

(** Every byte of [start, start + size) is mapped. *)
Definition all_mapped (pt : PageTable) (start size : Z) : Prop :=
  forall va, start <= va < start + size -> is_Some (frame_at pt va).

(** The chunks cover the bytes from offset [off] to [size] in order, each inside
    one page. *)
Inductive covers (pt : PageTable) (start size : Z) : Z -> list (Z * Z * Z) -> Prop :=
| covers_nil : covers pt start size size []
| covers_cons off n p chunks :
    0 < n -> off + n <= size -> (start + off) mod PAGE_SIZE_4K + n <= PAGE_SIZE_4K ->
    frame_at pt (start + off) = Some p ->
    covers pt start size (off + n) chunks ->
    covers pt start size off
      ((phys_to_virt p + (start + off) mod PAGE_SIZE_4K, off, n) :: chunks).

Section user_mem.
Context {FA : Type} `{FrameAllocatorLaws FA}.
Implicit Types (pt : PageTable) (m : Mach FA).

(** The table walk for an address is that of its page. *)
Lemma frame_at_page pt va :
  0 <= va < 274877906944 -> frame_at pt va = frame_at pt (align_down_4k va).
Proof. intros Hva. destruct (page_of va Hva) as (_ & _ & _ & Hg). unfold frame_at. by rewrite Hg. Qed.

Lemma frame_at_same_page pt va va' :
  0 <= va < 274877906944 -> 0 <= va' < 274877906944 ->
  va / PAGE_SIZE_4K = va' / PAGE_SIZE_4K -> frame_at pt va = frame_at pt va'.
Proof.
  intros H1 H2 E. rewrite (frame_at_page pt va), (frame_at_page pt va') by done.
  by rewrite !align_down_4k_spec, E by (unfold is_usize; lia).
Qed.

Lemma frame_at_ok pt m va p :
  pt_inv pt m -> 0 <= va < 274877906944 -> frame_at pt va = Some p ->
  pframe_ok p /\ frame_used m p /\ ~ table_frame pt p.
Proof.
  intros Hinv Hva. rewrite frame_at_page by done. apply (pi_frames _ _ Hinv).
  by destruct (page_of va Hva).
Qed.

(** Distinct user addresses have distinct kernel addresses. *)
Lemma kaddr_inj pt m va va' k :
  pt_inv pt m -> 0 <= va < 274877906944 -> 0 <= va' < 274877906944 ->
  kaddr pt va = Some k -> kaddr pt va' = Some k -> va = va'.
Proof.
  intros Hinv Hva Hva'. unfold kaddr.
  destruct (frame_at pt va) as [p|] eqn:E; [|done].
  destruct (frame_at pt va') as [p'|] eqn:E'; [|done]. cbn. intros [= <-] [= Hk].
  destruct (frame_at_ok pt m va p Hinv Hva E) as (Hp & _).
  destruct (frame_at_ok pt m va' p' Hinv Hva' E') as (Hp' & _).
  destruct (decide (p = p')) as [<-|Hne].
  - rewrite frame_at_page in E, E' by done.
    destruct (page_of va Hva) as (Hu & _), (page_of va' Hva') as (Hu' & _).
    pose proof (pi_inj _ _ Hinv _ _ p Hu Hu' E E') as Heq.
    rewrite !align_down_4k_spec in Heq by (unfold is_usize; lia). lia.
  - exfalso. by eapply (frames_disjoint p' p (va' mod PAGE_SIZE_4K) (va mod PAGE_SIZE_4K)); try lia.
Qed.

Lemma kaddr_chunk pt start off n p i :
  0 <= start + off -> start + off + n <= 274877906944 ->
  frame_at pt (start + off) = Some p -> (start + off) mod PAGE_SIZE_4K + n <= PAGE_SIZE_4K ->
  0 <= i < n -> kaddr pt (start + off + i) = Some (phys_to_virt p + (start + off) mod PAGE_SIZE_4K + i).
Proof.
  intros H1 H2 Hf Hn Hi. unfold kaddr.
  rewrite (frame_at_same_page pt (start + off + i) (start + off)) by lia. rewrite Hf. cbn. f_equal. lia.
Qed.

(** [write] stores each byte of the buffer at its user address and nothing else. *)
Lemma write_chunks_spec pt m buf start off chunks mem :
  pt_inv pt m -> covers pt start (Z.of_nat (length buf)) off chunks ->
  0 <= start -> 0 <= off -> start + Z.of_nat (length buf) <= 274877906944 ->
  (forall va k, start + off <= va < start + Z.of_nat (length buf) -> kaddr pt va = Some k ->
     write_chunks buf mem chunks k = default 0 (buf !! Z.to_nat (va - start))) /\
  (forall k, (forall va, start + off <= va < start + Z.of_nat (length buf) -> kaddr pt va <> Some k) ->
     write_chunks buf mem chunks k = mem k).
Proof.
  intros Hinv Hc Hs Ho Hend. revert mem. set (size := Z.of_nat (length buf)) in *.
  induction Hc as [|off n p chunks Hn Hle Hpg Hf Hc IH]; intros mem.
  { split; [lia|]. done. }
  unfold write_chunks. cbn [foldl]. fold (write_chunks buf
    (mem_write (phys_to_virt p + (start + off) mod PAGE_SIZE_4K)
       (take (Z.to_nat n) (drop (Z.to_nat off) buf)) mem) chunks).
  set (dst := phys_to_virt p + (start + off) mod PAGE_SIZE_4K) in *.
  set (data := take (Z.to_nat n) (drop (Z.to_nat off) buf)).
  assert (Hlen : Z.of_nat (length data) = n).
  { unfold data. rewrite length_take, length_drop. lia. }
  destruct (IH ltac:(lia) (mem_write dst data mem)) as [IH1 IH2].
  assert (Hk : forall i, 0 <= i < n -> kaddr pt (start + off + i) = Some (dst + i))
    by (intros i Hi; apply kaddr_chunk with (n := n); lia || done).
  split.
  - intros va k Hva Hkv. destruct (Z.ltb_spec va (start + off + n)) as [Hlt|Hge].
    2: { apply IH1; [lia|done]. }
    specialize (Hk (va - (start + off)) ltac:(lia)).
    replace (start + off + (va - (start + off))) with va in Hk by lia.
    rewrite Hkv in Hk. injection Hk as ->. rewrite IH2.
    + rewrite mem_write_in by lia. unfold data. rewrite lookup_take_lt, lookup_drop by lia.
      do 2 f_equal. lia.
    + intros va' Hva' Hk'. assert (va = va') by (eapply (kaddr_inj pt m); lia || done). lia.
  - intros k Hno. rewrite IH2.
    + apply mem_write_out. intros Hin. apply (Hno (start + off + (k - dst))); [lia|].
      rewrite Hk by lia. f_equal. lia.
    + intros va Hva. apply Hno. lia.
Qed.

(** [read] fills the buffer from the user addresses, from offset [off] on. *)
Lemma read_chunks_spec pt mem buf start off chunks :
  covers pt start (Z.of_nat (length buf)) off chunks ->
  0 <= start -> 0 <= off -> start + Z.of_nat (length buf) <= 274877906944 ->
  length (read_chunks mem buf chunks) = length buf /\
  (forall i k, off <= i < Z.of_nat (length buf) -> kaddr pt (start + i) = Some k ->
     read_chunks mem buf chunks !! Z.to_nat i = Some (mem k)) /\
  (forall i, 0 <= i < off -> read_chunks mem buf chunks !! Z.to_nat i = buf !! Z.to_nat i).
Proof.
  intros Hc. remember (Z.of_nat (length buf)) as size eqn:Hsize. revert buf Hsize.
  induction Hc as [|off n p chunks Hn Hle Hpg Hf Hc IH]; intros buf Hsize Hs Ho Hend.
  { split_and!; [done|lia|done]. }
  unfold read_chunks. cbn [foldl].
  set (src := phys_to_virt p + (start + off) mod PAGE_SIZE_4K) in *.
  set (buf' := take (Z.to_nat off) buf ++ mem_read src (Z.to_nat n) mem ++ drop (Z.to_nat (off + n)) buf).
  fold (read_chunks mem buf' chunks).
  assert (Hlen : length buf' = length buf).
  { unfold buf'. rewrite !length_app, length_take, length_drop, mem_read_length. lia. }
  destruct (IH buf' ltac:(lia) Hs ltac:(lia) Hend) as (IHl & IH1 & IH2).
  split_and!; [congruence|..].
  - intros i k Hi Hk. destruct (Z.ltb_spec i (off + n)) as [Hlt|Hge]; [|apply IH1; [lia|done]].
    rewrite IH2 by lia. unfold buf'.
    rewrite lookup_app_r by (rewrite length_take; lia). rewrite length_take.
    rewrite lookup_app_l by (rewrite mem_read_length; lia). rewrite mem_read_lookup by lia.
    assert (Hk' : kaddr pt (start + off + (i - off)) = Some (src + (i - off)))
      by (apply kaddr_chunk with (n := n); lia || done).
    replace (start + off + (i - off)) with (start + i) in Hk' by lia.
    rewrite Hk in Hk'. injection Hk' as ->. do 2 f_equal. lia.
  - intros i Hi. rewrite IH2 by lia. unfold buf'.
    rewrite lookup_app_l by (rewrite length_take; lia). by rewrite lookup_take_lt by lia.
Qed.

(** A mapped page answers a query. *)
Lemma pt_query_frame pt va p :
  frame_at pt va = Some p -> va mod PAGE_SIZE_4K = 0 ->
  exists f, pt_query pt va = Ok (p, f).
Proof.
  intros (Hl & Hp & ->)%frame_at_Some Hal. unfold pt_query. rewrite get_entry_Ok by done.
  unfold Rv64PTE.is_unused. destruct (Z.eqb_spec (raw_entry pt va) 0) as [E|E].
  - by rewrite E in Hp.
  - rewrite align_offset_4k_spec, Hal, Z.add_0_r. by eexists.
Qed.

(** The loop of [process_area_data] on mapped pages produces covering chunks: at a
    page [vaddr] that holds the next byte to process. *)
Lemma process_loop_spec pt m start size n vaddr cnt :
  pt_inv pt m -> 0 <= start -> 0 < size -> start + size <= 274877906944 ->
  all_mapped pt start size -> 0 <= cnt <= size -> vaddr mod PAGE_SIZE_4K = 0 ->
  (cnt = 0 /\ vaddr = start / PAGE_SIZE_4K * PAGE_SIZE_4K \/ 0 < cnt /\ vaddr = start + cnt \/ cnt = size) ->
  (cnt < size -> Z.of_nat n = (start + size + 4095) / PAGE_SIZE_4K - vaddr / PAGE_SIZE_4K) ->
  (cnt = size -> n = O) ->
  exists chunks, process_loop pt start size cnt (pages_from vaddr n) = (chunks, Ok tt) /\
    covers pt start size cnt chunks.
Proof.
  intros Hinv Hs Hsz Hend Hmap. revert vaddr cnt.
  induction n as [|n IH]; intros vaddr cnt Hcnt Hal Hpos Hn Hdone.
  { exists []. split; [done|]. replace cnt with size; [constructor|].
    destruct (Z.eq_dec cnt size); [done|]. specialize (Hn ltac:(lia)). lia. }
  assert (Hlt : cnt < size) by (destruct (Z.eq_dec cnt size) as [->|]; [specialize (Hdone eq_refl)|]; lia).
  specialize (Hn Hlt).
  assert (Hpg : vaddr / PAGE_SIZE_4K = (start + cnt) / PAGE_SIZE_4K) by lia.
  destruct (Hmap (start + cnt) ltac:(lia)) as [p Hp].
  assert (Hpv : frame_at pt vaddr = Some p) by (rewrite (frame_at_same_page pt vaddr (start + cnt)); lia || done).
  destruct (pt_query_frame pt vaddr p Hpv Hal) as [f Hq]. cbn [pages_from process_loop]. rewrite Hq.
  destruct (frame_at_ok pt m (start + cnt) p Hinv ltac:(lia) Hp) as ((Hp1 & Hp2 & Hp3) & _).
  rewrite wsub_small by lia. rewrite align_offset_4k_spec, align_down_4k_spec by (unfold is_usize; lia).
  destruct (Z.eqb_spec (Z.min (size - cnt) PAGE_SIZE_4K) 0); [lia|].
  set (first := ((vaddr =? start / PAGE_SIZE_4K * PAGE_SIZE_4K) && negb (start mod PAGE_SIZE_4K =? 0))%bool).
  set (cs := if first then Z.min (Z.min (size - cnt) PAGE_SIZE_4K) (PAGE_SIZE_4K - start mod PAGE_SIZE_4K)
             else Z.min (size - cnt) PAGE_SIZE_4K).
  assert (Hcs : cs = Z.min (size - cnt) (PAGE_SIZE_4K - (start + cnt) mod PAGE_SIZE_4K) /\
    phys_to_virt (if first then p +w start mod PAGE_SIZE_4K else p)
      = phys_to_virt p + (start + cnt) mod PAGE_SIZE_4K).
  { unfold cs, first. rewrite wadd_small by lia.
    destruct (Z.eqb_spec vaddr (start / PAGE_SIZE_4K * PAGE_SIZE_4K)),
      (Z.eqb_spec (start mod PAGE_SIZE_4K) 0); cbn; rewrite !phys_to_virt_ok by lia; split; lia. }
  destruct Hcs as [Hcs ->]. rewrite wadd_small by lia.
  destruct (IH (vaddr + PAGE_SIZE_4K) (cnt + cs)) as (chunks & -> & Hc); try lia.
  eexists. split; [done|]. constructor; try done; lia.
Qed.

Lemma process_area_data_spec pt m range start size :
  pt_inv pt m -> 0 <= start -> 0 < size -> start + size <= 274877906944 ->
  r_start range <= start -> start + size <= r_end range -> all_mapped pt start size ->
  exists chunks, process_area_data pt range start size = Ret (chunks, Ok tt) /\
    covers pt start size 0 chunks.
Proof.
  intros Hinv Hs Hsz Hend Hlo Hhi Hmap. unfold process_area_data, try_from_start_size, checked_add.
  destruct (Z.ltb_spec (start + size) USIZE); [|lia].
  rewrite (proj2 (contains_range_spec _ _)) by (cbn; lia). cbn [negb].
  rewrite wadd_small, align_up_4k_spec, align_down_4k_spec by (unfold is_usize; lia).
  rewrite PageIter4K_aligned by (apply Z.mod_mul; lia).
  destruct (process_loop_spec pt m start size
    (Z.to_nat (((start + size + 4095) / PAGE_SIZE_4K * PAGE_SIZE_4K - start / PAGE_SIZE_4K * PAGE_SIZE_4K) / PAGE_SIZE_4K))
    (start / PAGE_SIZE_4K * PAGE_SIZE_4K) 0) as (chunks & -> & Hc); try done; try lia.
  by exists chunks.
Qed.

(** ** [read] and [write] *)

Lemma as_inv_bytes sp m mem : as_inv sp m -> as_inv sp (mkMach (m_fa m) mem).
Proof.
  intros [Hpt ? ? ? ? ?]. split; try done. destruct Hpt. split; done.
Qed.

Lemma as_write_spec sp m start buf :
  as_inv sp m -> (0 < length buf)%nat ->
  r_start (as_range sp) <= start -> start + Z.of_nat (length buf) <= r_end (as_range sp) ->
  all_mapped (as_pt sp) start (Z.of_nat (length buf)) ->
  exists m', as_write start buf sp m = Ret (m', Ok tt) /\ as_inv sp m' /\
    (forall va, 0 <= va < 274877906944 ->
       user_byte (as_pt sp) m' va =
         if (start <=? va) && (va <? start + Z.of_nat (length buf))
         then Some (default 0 (buf !! Z.to_nat (va - start))) else user_byte (as_pt sp) m va) /\
    (forall q i, pframe_ok q -> 0 <= i < PAGE_SIZE_4K ->
       (forall va, start <= va < start + Z.of_nat (length buf) -> frame_at (as_pt sp) va <> Some q) ->
       m_mem m' (phys_to_virt q + i) = m_mem m (phys_to_virt q + i)).
Proof.
  intros Hinv Hlen Hlo Hhi Hmap. destruct (ai_range _ _ Hinv) as [Hr1 Hr2].
  pose proof (ai_pt _ _ Hinv) as Hpt.
  destruct (process_area_data_spec (as_pt sp) m (as_range sp) start (Z.of_nat (length buf)))
    as (chunks & Hrun & Hc); try done; try lia.
  destruct (write_chunks_spec (as_pt sp) m buf start 0 chunks (m_mem m)) as [W1 W2]; try done; try lia.
  unfold as_write. rewrite Hrun. eexists. split; [done|]. split; [by apply as_inv_bytes|]. split.
  - intros va Hva. unfold user_byte. destruct (kaddr (as_pt sp) va) as [k|] eqn:Ek; cbn.
    + destruct (Z.leb_spec start va), (Z.ltb_spec va (start + Z.of_nat (length buf))); cbn.
      1: { f_equal. apply (W1 va k); [lia|done]. }
      all: f_equal; apply W2; intros va' Hva' Hk';
        assert (va = va') by (apply (kaddr_inj (as_pt sp) m va va' k); lia || done); lia.
    + destruct (Z.leb_spec start va), (Z.ltb_spec va (start + Z.of_nat (length buf))); cbn; try done.
      destruct (Hmap va ltac:(lia)) as [p Hp]. unfold kaddr in Ek. by rewrite Hp in Ek.
  - intros q i Hq Hi Hno. apply W2. intros va Hva Hk. unfold kaddr in Hk.
    destruct (frame_at (as_pt sp) va) as [p|] eqn:Ef; [|done]. injection Hk as Hk.
    destruct (frame_at_ok _ m va p Hpt ltac:(lia) Ef) as (Hp & _).
    apply (frames_disjoint p q (va mod PAGE_SIZE_4K) i); try done; try lia.
    intros ->. apply (Hno va); [lia|done].
Qed.

Lemma as_read_spec sp m start buf :
  as_inv sp m -> (0 < length buf)%nat ->
  r_start (as_range sp) <= start -> start + Z.of_nat (length buf) <= r_end (as_range sp) ->
  all_mapped (as_pt sp) start (Z.of_nat (length buf)) ->
  exists buf', as_read start buf sp m = Ret (buf', Ok tt) /\ length buf' = length buf /\
    forall i, (i < length buf)%nat -> buf' !! i = user_byte (as_pt sp) m (start + Z.of_nat i).
Proof.
  intros Hinv Hlen Hlo Hhi Hmap. destruct (ai_range _ _ Hinv) as [Hr1 Hr2].
  pose proof (ai_pt _ _ Hinv) as Hpt.
  destruct (process_area_data_spec (as_pt sp) m (as_range sp) start (Z.of_nat (length buf)))
    as (chunks & Hrun & Hc); try done; try lia.
  destruct (read_chunks_spec (as_pt sp) (m_mem m) buf start 0 chunks) as (R1 & R2 & _); try done; try lia.
  unfold as_read. rewrite Hrun. eexists. split; [done|]. split; [done|]. intros i Hi.
  destruct (Hmap (start + Z.of_nat i) ltac:(lia)) as [p Hp].
  unfold user_byte. destruct (kaddr (as_pt sp) (start + Z.of_nat i)) as [k|] eqn:Ek.
  - cbn. rewrite <- (R2 (Z.of_nat i) k ltac:(lia) Ek). f_equal. lia.
  - unfold kaddr in Ek. by rewrite Hp in Ek.
Qed.
End user_mem.
