(* ===== verification/MemTheorems.v ===== *)
(** The theorems about user memory: memory sets, address spaces, page faults, and
    reads and writes through the page table, each with a concrete run. *)
From S2P Require Import Prelude Errno MemAddr Frames Paging MemorySet AddrSpace.
From S2P Require Import AddrSpaceInv AddrSpaceCorrect UserMem.
Import MappingFlags.

(** * Concrete address spaces used by the examples *)

Module Demo.
(** 64 free pages at the start of the memory of the qemu-virt machine. *)
Definition fa : BitmapPageAllocator := mkBPA 18446743800979128320 64 0 (replicate 64 true).
Definition m0 : Mach BitmapPageAllocator := mkMach fa (fun _ => 0).

(** The state after a run that returned. *)
Definition state_of {A S} (dflt : S) (r : outcome (A * S)) : S :=
  match r with Ret (_, s) => s | Panic => dflt end.

(** The user address space of a new process, without the kernel half. *)
Definition empty_run := new_empty 4096 274877902848 m0.
Definition space0 : AddrSpace :=
  match empty_run with Ret (Ok sp, _) => sp | _ => mkAS (mkRange 0 0) [] (mkPT 0 ∅ ∅ ∅) end.
Definition m1 : Mach BitmapPageAllocator := state_of m0 empty_run.

(** Two lazily mapped pages at 0x10000, readable and writable. *)
Definition lazy_run := map_alloc 65536 8192 11 false (space0, m1).
Definition lazy_st := state_of (space0, m1) lazy_run.
(** The same pages after both were touched. *)
Definition fault1_st := state_of lazy_st (handle_page_fault 65536 3 lazy_st).
Definition fault2_st := state_of fault1_st (handle_page_fault 70000 3 fault1_st).
End Demo.

Lemma demo_mach_wf : mach_wf Demo.m0.
Proof.
  split.
  - intros i Hi. assert (i < 64)%nat by exact Hi. unfold frame_ok.
    change (base (m_fa Demo.m0)) with 18446743800979128320. lia.
  - intros v Hv. cbn in Hv. apply elem_of_bpa_used in Hv as (i & Hi & _).
    change (inner Demo.fa) with (replicate 64 true) in Hi. by apply lookup_replicate in Hi as [? _].
Qed.

Lemma demo_inv0 : as_inv Demo.space0 Demo.m1.
Proof. apply (new_empty_inv 4096 274877902848 Demo.m0); [apply demo_mach_wf|lia|lia|reflexivity]. Qed.

Lemma demo_lazy_inv : as_inv (fst Demo.lazy_st) (snd Demo.lazy_st).
Proof.
  destruct (map_alloc_spec Demo.space0 Demo.m1 65536 8192 11 false demo_inv0
    eq_refl eq_refl eq_refl ltac:(lia) ltac:(vm_compute; congruence) ltac:(vm_compute; congruence) eq_refl)
    as (r & sp' & m' & Hrun & _ & Hr).
  unfold Demo.lazy_st. change (map_alloc 65536 8192 11 false (Demo.space0, Demo.m1)) with Demo.lazy_run in Hrun.
  rewrite Hrun. cbn. destruct r as [[]|e]; [apply Hr|].
  assert (Hok : match Demo.lazy_run with Ret (Ok _, _) => true | _ => false end = true)
    by (vm_compute; reflexivity).
  by rewrite Hrun in Hok.
Qed.

Lemma demo_fault_inv st va :
  as_inv (fst st) (snd st) ->
  as_inv (fst (Demo.state_of st (handle_page_fault va 3 st)))
    (snd (Demo.state_of st (handle_page_fault va 3 st))) /\
  as_range (fst (Demo.state_of st (handle_page_fault va 3 st))) = as_range (fst st).
Proof.
  destruct st as [sp m]. intros Hinv.
  destruct (handle_page_fault_spec sp m va 3 Hinv) as (b & pt' & m' & -> & Hinv' & _). done.
Qed.

Lemma demo_fault2_inv : as_inv (fst Demo.fault2_st) (snd Demo.fault2_st).
Proof. apply demo_fault_inv, demo_fault_inv, demo_lazy_inv. Qed.

(** Both demo pages are mapped after the two faults. *)
Lemma demo_all_mapped start size :
  65536 <= start -> start + size <= 73728 -> all_mapped (as_pt (fst Demo.fault2_st)) start size.
Proof.
  intros Hs He va Hva. rewrite frame_at_page by lia.
  rewrite align_down_4k_spec by (unfold is_usize; lia).
  assert (Hp : va / PAGE_SIZE_4K * PAGE_SIZE_4K = 65536 \/ va / PAGE_SIZE_4K * PAGE_SIZE_4K = 69632) by lia.
  destruct Hp as [-> | ->].
  - exists 2147495936. vm_compute. reflexivity.
  - exists 2147500032. vm_compute. reflexivity.
Qed.

(** * Memory sets *)

Section set_theorems.
Context {B PT : Type} `{MappingBackend B PT}.
Implicit Types (l : list (Z * MemoryArea B)) (pt : PT).

(** [MemorySet::find], which looks only at the last area that starts at or
    below the address, returns the area that a scan of all areas finds. *)
Theorem ms_find_correct l addr : ms_wf l -> ms_find l addr = area_at l addr.
Proof. apply ms_find_area_at. Qed.

(** [MemorySet::unmap] implements removal of an address range: on a
    well-formed set it returns [Ok] and leaves a well-formed set in which exactly
    the addresses of [start, start + size) are no longer mapped, every other
    address keeping its flags and backend. The backends must honour the unmap
    requests, which are the parts of the areas inside the range. *)
Theorem ms_unmap_correct l pt pt' start size :
  ms_wf l -> 0 < size -> start + size < USIZE ->
  run_unmaps (unmap_plan start (start + size) l) pt = Ret (true, pt') ->
  exists l', ms_unmap start size (l, pt) = Ret (Ok tt, (l', pt')) /\ ms_wf l' /\
    forall addr, view l' addr =
      if r_contains (mkRange start (start + size)) addr then None else view l addr.
Proof.
  intros Hwf Hsz Hov Hrun. exists (spec_unmap start (start + size) l). split_and!.
  - by apply ms_unmap_spec.
  - apply spec_unmap_wf; [lia|done].
  - intros addr. apply spec_unmap_view; [lia|done].
Qed.

(** [MemorySet::find_free_area] is sound and complete for a set inside the
    limit: a returned range is inside the limit and disjoint from every area, and
    when there is a free range at or above the hint some range is returned. *)
Theorem find_free_area_correct l hint size limit :
  ms_wf l -> 0 < size -> r_end limit < USIZE -> inside_limit limit l ->
  (forall r, ms_find_free_area l hint size limit = Some r ->
     r_start limit <= r /\ r + size <= r_end limit /\
     ms_overlaps l (mkRange r (r + size)) = false) /\
  (forall x, hint <= x -> r_start limit <= x -> x + size <= r_end limit ->
     ms_overlaps l (mkRange x (x + size)) = false ->
     is_Some (ms_find_free_area l hint size limit)).
Proof.
  intros Hwf Hsz Hlim Hall. split.
  - intros r Hr. destruct (ms_find_free_sound l hint size limit r) as (? & ? & ? & _); done.
  - intros x. by apply ms_find_free_complete.
Qed.
End set_theorems.

(** The areas of the lazy demo space form a well-formed set. *)
Lemma ms_find_correct_witness :
  ms_wf (as_areas (fst Demo.lazy_st)) /\
  ms_find (as_areas (fst Demo.lazy_st)) 70000 = area_at (as_areas (fst Demo.lazy_st)) 70000.
Proof. split; [apply demo_lazy_inv|apply (ms_find_correct _ 70000), demo_lazy_inv]. Defined.

Lemma ms_unmap_correct_witness :
  exists l', ms_unmap 69632 4096 (as_areas (fst Demo.lazy_st), (as_pt (fst Demo.lazy_st), snd Demo.lazy_st))
    = Ret (Ok tt, (l', Demo.state_of (as_pt (fst Demo.lazy_st), snd Demo.lazy_st)
        (run_unmaps (unmap_plan 69632 73728 (as_areas (fst Demo.lazy_st)))
           (as_pt (fst Demo.lazy_st), snd Demo.lazy_st)))) /\ ms_wf l' /\
    forall addr, view l' addr =
      if r_contains (mkRange 69632 73728) addr then None else view (as_areas (fst Demo.lazy_st)) addr.
Proof.
  apply (ms_unmap_correct _ _ _ 69632 4096); [apply demo_lazy_inv|lia|lia|reflexivity].
Defined.

Lemma find_free_area_correct_witness :
  4096 <= 73728 /\ 73728 + 4096 <= 274877906944 /\
  ms_overlaps (as_areas (fst Demo.lazy_st)) (mkRange 73728 (73728 + 4096)) = false.
Proof.
  apply (find_free_area_correct (as_areas (fst Demo.lazy_st)) 65536 4096 (mkRange 4096 274877906944));
    [apply demo_lazy_inv|lia|cbn; lia| |vm_compute; reflexivity].
  eapply Forall_impl; [apply (ai_areas _ _ demo_lazy_inv)|]. intros ka (H1 & H2 & _). exact (conj H1 H2).
Defined.

(** * Address spaces *)

Section space_theorems.
Context {FA : Type} `{FrameAllocatorLaws FA}.
Implicit Types (sp : AddrSpace) (m : Mach FA).

(** The frames in use that none of [pages] maps stay in use, with their bytes. *)
Definition frames_kept (pages : list Z) (pt : PageTable) m m' : Prop :=
  forall q i, pframe_ok q -> frame_used m q -> ~ own pages pt q -> 0 <= i < PAGE_SIZE_4K ->
    frame_used m' q /\ m_mem m' (phys_to_virt q + i) = m_mem m (phys_to_virt q + i).

Lemma evolve_kept pages pt m pt' m' : evolve pages pt m pt' m' -> frames_kept pages pt m m'.
Proof. intros E q i Hq Hu Hn Hi. split; [by eapply ev_foreign|by eapply ev_bytes]. Qed.

Lemma fresh_user_byte pt m va f :
  0 <= va < 274877906944 -> fresh_page pt m (align_down_4k va) f -> user_byte pt m va = Some 0.
Proof.
  intros Hva (p & _ & Hf & Hz). unfold user_byte, kaddr. rewrite frame_at_page, Hf by done. cbn.
  f_equal. apply Hz. lia.
Qed.

(** C6: [AddrSpace::map_alloc] of a free page-aligned range inside the space never
    panics. On [Ok] the space satisfies its invariant, exactly the addresses of
    the range are added to it with the given flags, and a populated mapping reads
    as zeros unless the allocator ran out of frames. It fails only when the
    allocator is exhausted. Every frame in use before keeps its bytes. *)
Theorem map_alloc_correct sp m start size f pop :
  as_inv sp m -> 0 < size -> start mod PAGE_SIZE_4K = 0 -> size mod PAGE_SIZE_4K = 0 -> 0 < f < 16 ->
  r_start (as_range sp) <= start -> start + size <= r_end (as_range sp) ->
  ms_overlaps (as_areas sp) (mkRange start (start + size)) = false ->
  exists r sp' m', map_alloc start size f pop (sp, m) = Ret (r, (sp', m')) /\
    frames_kept [] (as_pt sp) m m' /\
    match r with
    | Ok _ => as_inv sp' m' /\
        (forall addr, view (as_areas sp') addr =
           if r_contains (mkRange start (start + size)) addr then Some (f, Alloc pop)
           else view (as_areas sp) addr) /\
        (pop = true -> forall va, start <= va < start + size ->
           user_byte (as_pt sp') m' va = Some 0 \/ fa_alloc (m_fa m') = None)
    | Err e => e = BadState /\ fa_alloc (m_fa m') = None
    end.
Proof.
  intros Hinv Hsz Hs Hz Hf Hlo Hhi Ho. destruct (ai_range _ _ Hinv) as [Hr1 Hr2].
  destruct (map_alloc_spec sp m start size f pop Hinv Hsz Hs Hz Hf Hlo Hhi Ho)
    as (r & sp' & m' & Hrun & E & Hr).
  exists r, sp', m'. split; [done|]. split.
  - intros q i Hq Hu _ Hi. apply (evolve_kept _ _ _ _ _ E q i Hq Hu); [|done].
    intros (va & Hva & Hf'). eapply Forall_forall in Hva; [|by apply (range_unmapped sp m); lia || done].
    by rewrite frame_at_empty in Hf'.
  - destruct r as [[]|e]; [|done]. destruct Hr as (Hinv' & _ & Hareas & Hpages). split_and!; [done|..].
    + intros addr. rewrite Hareas. apply ms_insert_spec; [apply Hinv| |done]. split_and!; cbn; lia.
    + intros -> va Hva. destruct (page_of va ltac:(lia)) as (Hu & Hle & _).
      eapply (proj1 (Forall_forall _ _)) with (x := align_down_4k va) in Hpages as [Hfr|[_ Hex]].
      * left. eapply fresh_user_byte; [lia|done].
      * by right.
      * apply elem_of_range_pages; [lia|done|done|]. destruct Hu as [_ Hm]. split; [lia|done].
Qed.

(** C3: [AddrSpace::unmap] of a page-aligned range inside the space returns [Ok],
    keeps the invariant, removes exactly the addresses of the range, and gives
    back exactly the frames that pages of the range mapped: no frame is leaked,
    freed twice, or taken from another mapping. *)
Theorem unmap_correct sp m start size :
  as_inv sp m -> 0 < size -> start mod PAGE_SIZE_4K = 0 -> size mod PAGE_SIZE_4K = 0 ->
  r_start (as_range sp) <= start -> start + size <= r_end (as_range sp) ->
  exists sp' m', as_unmap start size (sp, m) = Ret (Ok tt, (sp', m')) /\ as_inv sp' m' /\
    (forall addr, view (as_areas sp') addr =
       if r_contains (mkRange start (start + size)) addr then None else view (as_areas sp) addr) /\
    (forall va, start <= va < start + size -> user_byte (as_pt sp') m' va = None) /\
    (forall q, pframe_ok q -> frame_used m' q <->
       frame_used m q /\ ~ exists va, start <= va < start + size /\ frame_at (as_pt sp) va = Some q).
Proof.
  intros Hinv Hsz Hs Hz Hlo Hhi. destruct (ai_range _ _ Hinv) as [Hr1 Hr2].
  destruct (as_unmap_run sp m start size Hinv Hsz Hs Hz Hlo Hhi) as (pt' & m' & Hrun & Hinv' & E & Hu).
  eexists _, m'. split; [exact Hrun|]. split; [done|]. cbn [as_areas as_pt].
  assert (Hv : forall addr, view (spec_unmap start (start + size) (as_areas sp)) addr =
    if r_contains (mkRange start (start + size)) addr then None else view (as_areas sp) addr)
    by (intros addr; apply spec_unmap_view; [lia|apply Hinv]).
  split_and!; [exact Hv|..].
  - intros va Hva. destruct (page_of va ltac:(lia)) as (Hup & Hle & _). pose proof Hup as [_ Hm].
    assert (Hz0 : raw_entry pt' (align_down_4k va) = 0).
    { apply (ai_unmapped _ _ Hinv' _ Hup). cbn [as_areas]. rewrite Hv.
      rewrite (proj2 (r_contains_spec _ _)); [done|]. cbn. lia. }
    unfold user_byte, kaddr. by rewrite frame_at_page, frame_at_empty by lia || done.
  - intros q Hq. rewrite (Hu q Hq). apply and_iff_compat_l, not_iff_compat. unfold own.
    setoid_rewrite (plan_pages sp m start (start + size) _ Hinv Hs ltac:(lia)). split.
    + intros (va & (_ & Hr & _) & Hf). eauto.
    + intros (va & Hr & Hf). exists (align_down_4k va).
      destruct (page_of va ltac:(lia)) as (Hup & Hle & _). pose proof Hup as [_ Hm].
      rewrite frame_at_page in Hf by lia. split; [|done]. split_and!; [done|lia|lia|].
      intros Hn. apply (ai_unmapped _ _ Hinv _ Hup) in Hn. by rewrite frame_at_empty in Hf.
Qed.

End space_theorems.

Lemma map_alloc_correct_witness :
  exists r sp' m', map_alloc 65536 8192 11 true (Demo.space0, Demo.m1) = Ret (r, (sp', m')) /\
    frames_kept [] (as_pt Demo.space0) Demo.m1 m' /\
    match r with
    | Ok _ => as_inv sp' m' /\
        (forall addr, view (as_areas sp') addr =
           if r_contains (mkRange 65536 73728) addr then Some (11, Alloc true)
           else view (as_areas Demo.space0) addr) /\
        (true = true -> forall va, 65536 <= va < 73728 ->
           user_byte (as_pt sp') m' va = Some 0 \/ fa_alloc (m_fa m') = None)
    | Err e => e = BadState /\ fa_alloc (m_fa m') = None
    end.
Proof.
  apply (map_alloc_correct Demo.space0 Demo.m1 65536 8192 11 true); try reflexivity; try lia.
  - apply demo_inv0.
  - vm_compute; congruence.
  - vm_compute; congruence.
Defined.

Lemma unmap_correct_witness :
  exists sp' m', as_unmap 69632 4096 Demo.fault2_st = Ret (Ok tt, (sp', m')) /\ as_inv sp' m' /\
    (forall va, 69632 <= va < 73728 -> user_byte (as_pt sp') m' va = None).
Proof.
  destruct (unmap_correct (fst Demo.fault2_st) (snd Demo.fault2_st) 69632 4096 demo_fault2_inv
    ltac:(lia) eq_refl eq_refl ltac:(vm_compute; congruence) ltac:(vm_compute; congruence))
    as (sp' & m' & Hrun & Hinv & _ & Hb & _).
  exists sp', m'. split; [|split; [exact Hinv|exact Hb]]. rewrite <- Hrun. f_equal.
Defined.


(** * Reading and writing user memory *)

Section rw_theorems.
Context {FA : Type} `{FrameAllocatorLaws FA}.
Implicit Types (sp : AddrSpace) (m : Mach FA).


(** [AddrSpace::write] to mapped user addresses changes exactly the user bytes
    of the written range: every other user address keeps its byte, every frame
    that the range does not map keeps its contents, and the invariant is kept. *)
Theorem write_isolated sp m start buf :
  as_inv sp m -> (0 < length buf)%nat ->
  r_start (as_range sp) <= start -> start + Z.of_nat (length buf) <= r_end (as_range sp) ->
  all_mapped (as_pt sp) start (Z.of_nat (length buf)) ->
  exists m', as_write start buf sp m = Ret (m', Ok tt) /\ as_inv sp m' /\
    (forall va, 0 <= va < 274877906944 -> ~ (start <= va < start + Z.of_nat (length buf)) ->
       user_byte (as_pt sp) m' va = user_byte (as_pt sp) m va) /\
    (forall q i, pframe_ok q -> 0 <= i < PAGE_SIZE_4K ->
       (forall va, start <= va < start + Z.of_nat (length buf) -> frame_at (as_pt sp) va <> Some q) ->
       m_mem m' (phys_to_virt q + i) = m_mem m (phys_to_virt q + i)).
Proof.
  intros Hinv Hlen Hlo Hhi Hmap.
  destruct (as_write_spec sp m start buf) as (m' & Hw & Hinv' & Hb & Hfr); try done.
  exists m'. split_and!; [done|done| |done]. intros va Hva Hout. rewrite Hb by done.
  destruct (Z.leb_spec start va), (Z.ltb_spec va (start + Z.of_nat (length buf))); cbn; done || lia.
Qed.
End rw_theorems.


Lemma write_isolated_witness :
  exists m', as_write 69630 [1; 2; 3; 4] (fst Demo.fault2_st) (snd Demo.fault2_st) = Ret (m', Ok tt) /\
    user_byte (as_pt (fst Demo.fault2_st)) m' 69634
      = user_byte (as_pt (fst Demo.fault2_st)) (snd Demo.fault2_st) 69634.
Proof.
  destruct (write_isolated _ _ 69630 [1; 2; 3; 4] demo_fault2_inv ltac:(cbn; lia)
    ltac:(vm_compute; congruence) ltac:(vm_compute; congruence)
    (demo_all_mapped 69630 4 ltac:(lia) ltac:(lia))) as (m' & Hw & _ & Hb & _).
  exists m'. split; [exact Hw|]. apply Hb; cbn; lia.
Defined.

(** * Behaviours that differ from the intent *)

(** [alloc_for_lazy] gives every page of its range a fresh zeroed frame even
    when the page is already mapped, so data written there before is lost: a byte 7
    written at 0x10000 reads back as 7, and as 0 after the buffer
    [0x10040, 0x10050) was prepared with [alloc_for_lazy]. *)
Theorem alloc_for_lazy_loses_data :
  match as_write 65536 [7] (fst Demo.fault2_st) (snd Demo.fault2_st) with
  | Ret (m', Ok _) =>
      match as_read 65536 [0] (fst Demo.fault2_st) m', alloc_for_lazy 65600 16 (fst Demo.fault2_st, m') with
      | Ret (before, Ok _), Ret (Ok _, (sp', m'')) =>
          match as_read 65536 [0] sp' m'' with
          | Ret (after, Ok _) => (before, after)
          | _ => ([], [])
          end
      | _, _ => ([], [])
      end
  | _ => ([], [])
  end = ([7], [0]).
Proof. vm_compute. reflexivity. Qed.

(** When the area after the one that holds the end of the buffer is adjacent to
    it, [alloc_for_lazy] continues there with a page count that underflows: for a
    second lazy area it runs its allocation loop more than 2^51 times. *)
Theorem lazy_count_underflow area_end end_ start :
  0 <= end_ < start -> start < area_end -> area_end <= 274877906944 ->
  end_ mod PAGE_SIZE_4K = 0 -> start mod PAGE_SIZE_4K = 0 ->
  2 ^ 51 < lazy_count area_end end_ start.
Proof.
  intros H1 H2 H3 H4 H5. unfold lazy_count. rewrite Z.min_r by lia.
  assert (Hw : end_ -w start = USIZE - (start - end_)).
  { unfold wsub, wrap. rewrite <- (Z.mod_add (end_ - start) 1) by lia. rewrite Z.mod_small; lia. }
  rewrite Hw, align_up_4k_spec, Z.div_mul by lia. change (2 ^ 51) with 2251799813685248. lia.
Qed.

Lemma lazy_count_underflow_witness : 2 ^ 51 < lazy_count 81920 65536 73728.
Proof. apply (lazy_count_underflow 81920 65536 73728); lia || reflexivity. Defined.

(** A user-supplied range that overflows the address space is not rejected:
    [unmap], [map_alloc] and [protect] all panic the kernel on it. *)
Theorem range_overflow_panics {FA} `{FrameAllocator FA} (sp : AddrSpace) (m : Mach FA) start size f pop :
  USIZE <= start + size ->
  as_unmap start size (sp, m) = Panic /\ map_alloc start size f pop (sp, m) = Panic /\
  as_protect start size f (sp, m) = Panic.
Proof.
  intros Hov. unfold as_unmap, map_alloc, as_protect. unfold_M.
  rewrite (check_page_range_overflow (FA:=FA) start size sp m Hov). done.
Qed.

Lemma range_overflow_panics_witness :
  as_unmap (USIZE - 4096) 4096 (Demo.space0, Demo.m1) = Panic /\
  map_alloc (USIZE - 4096) 4096 3 false (Demo.space0, Demo.m1) = Panic /\
  as_protect (USIZE - 4096) 4096 3 (Demo.space0, Demo.m1) = Panic.
Proof. apply (range_overflow_panics Demo.space0 Demo.m1 (USIZE - 4096) 4096 3 false). lia. Defined.
