(* ===== verification/KernelMem.v ===== *)
(** The kernel's own memory: the physical memory regions of a platform
    (src/arceos/modules/axhal/src/mem.rs, platform/riscv64_qemu_virt/mem.rs), the start of
    the global allocator on the free ones ([init_allocator] of axruntime/src/lib.rs), the
    kernel address space (axmm/src/lib.rs) and the areas of thread-local storage
    (axhal/src/tls.rs). The addresses that the linker script and the configuration give are
    parameters. *)
From Stdlib Require Import Sorted.
From S2P Require Import Prelude.
From S2P Require Import Errno.
From S2P Require Import MemAddr Frames Heap Paging AddrSpace MemTheorems.
Import MappingFlags.

(** * Memory regions (mem.rs) *)

Module MemRegionFlags.
Definition READ : Z := Z.shiftl 1 0.
Definition WRITE : Z := Z.shiftl 1 1.
Definition EXECUTE : Z := Z.shiftl 1 2.
Definition DEVICE : Z := Z.shiftl 1 4.
Definition UNCACHED : Z := Z.shiftl 1 5.
Definition RESERVED : Z := Z.shiftl 1 6.
Definition FREE : Z := Z.shiftl 1 7.
End MemRegionFlags.

Record MemRegion := mkRegion { r_paddr : Z; r_bytes : Z; r_flags : Z; r_name : string }.

(** The symbols of linker.lds.S that mem.rs and tls.rs use. *)
Record Symbols := mkSymbols {
  _stext : Z; _etext : Z; _srodata : Z; _erodata : Z; _sdata : Z; _edata : Z;
  boot_stack : Z; boot_stack_top : Z; _sbss : Z; _ebss : Z; _ekernel : Z;
  _stdata : Z; _etbss : Z;
}.

(** What axconfig gives: the physical memory and the device windows. *)
Record PlatConfig := mkConfig {
  PHYS_MEMORY_BASE : Z;
  PHYS_MEMORY_SIZE : Z;
  MMIO_REGIONS : list (Z * Z);
}.

Section regions.
Variable ld : Symbols.
Variable plat : PlatConfig.

Definition image_region (s e flags : Z) (name : string) : MemRegion :=
  mkRegion (virt_to_phys s) (e -w s) (Z.lor MemRegionFlags.RESERVED flags) name.

Definition kernel_image_regions : list MemRegion :=
  let rx := Z.lor MemRegionFlags.READ MemRegionFlags.EXECUTE in
  let rw := Z.lor MemRegionFlags.READ MemRegionFlags.WRITE in
  [ image_region (_stext ld) (_etext ld) rx ".text";
    image_region (_srodata ld) (_erodata ld) MemRegionFlags.READ ".rodata";
    image_region (_sdata ld) (_edata ld) rw ".data .tdata .tbss .percpu";
    image_region (boot_stack ld) (boot_stack_top ld) rw "boot stack";
    image_region (_sbss ld) (_ebss ld) rw ".bss" ].

Definition default_mmio_regions : list MemRegion :=
  (fun '(base, size) =>
     mkRegion base size
       (Z.lor (Z.lor MemRegionFlags.RESERVED MemRegionFlags.DEVICE) (Z.lor MemRegionFlags.READ MemRegionFlags.WRITE))
       "mmio") <$> MMIO_REGIONS plat.

Definition default_free_regions : list MemRegion :=
  let start := align_up_4k (virt_to_phys (_ekernel ld)) in
  let end_ := align_down_4k (PHYS_MEMORY_BASE plat +w PHYS_MEMORY_SIZE plat) in
  [mkRegion start (end_ -w start) (Z.lor MemRegionFlags.FREE (Z.lor MemRegionFlags.READ MemRegionFlags.WRITE)) "free memory"].

(** [platform_regions] of riscv64_qemu_virt. *)
Definition platform_regions : list MemRegion := default_free_regions ++ default_mmio_regions.

Definition memory_regions : list MemRegion := kernel_image_regions ++ platform_regions.

Definition clear_bss (m : bytes) : bytes := mem_write (_sbss ld) (replicate (Z.to_nat (_ebss ld -w _sbss ld)) 0) m.
End regions.

(** * The start of the global allocator (axruntime) *)

Section init_allocator.
Context {T : Type} `{Tlsf T}.

Definition is_free (r : MemRegion) : bool := contains (r_flags r) MemRegionFlags.FREE.

(** The first loop: size and address of the largest free region. *)
Definition max_region (rs : list MemRegion) : Z * Z :=
  foldl (fun '(size, pa) r => if is_free r && (size <? r_bytes r) then (r_bytes r, r_paddr r) else (size, pa)) (0, 0) rs.

(** The third loop: the other free regions. *)
Fixpoint add_regions (rs : list MemRegion) (max_paddr : Z) (g : GlobalAllocator T) : outcome (GlobalAllocator T) :=
  match rs with
  | [] => Ret g
  | r :: rs =>
      if is_free r && negb (r_paddr r =? max_paddr) then
        match ga_add_memory (phys_to_virt (r_paddr r)) (r_bytes r) g with
        | Ok g => add_regions rs max_paddr g
        | Err _ => Panic
        end
      else add_regions rs max_paddr g
  end.

(** [init_allocator]; without a free region the allocator stays as it was created. *)
Definition init_allocator (capacity : nat) (rs : list MemRegion) (g0 : GlobalAllocator T) : outcome (GlobalAllocator T) :=
  let max_paddr := snd (max_region rs) in
  match List.find (fun r => is_free r && (r_paddr r =? max_paddr)) rs with
  | Some r =>
      match ga_init capacity (phys_to_virt (r_paddr r)) (r_bytes r) with
      | Ret g => add_regions rs max_paddr g
      | Panic => Panic
      end
  | None => add_regions rs max_paddr g0
  end.
End init_allocator.

(** * The kernel address space (axmm) *)

(** [impl From<MemRegionFlags> for MappingFlags] of axhal/src/paging.rs. *)
Definition mapping_flags (f : Z) : Z :=
  let ret := empty in
  let ret := if contains f MemRegionFlags.READ then Z.lor ret READ else ret in
  let ret := if contains f MemRegionFlags.WRITE then Z.lor ret WRITE else ret in
  let ret := if contains f MemRegionFlags.EXECUTE then Z.lor ret EXECUTE else ret in
  let ret := if contains f MemRegionFlags.DEVICE then Z.lor ret DEVICE else ret in
  if contains f MemRegionFlags.UNCACHED then Z.lor ret UNCACHED else ret.

Section kernel_aspace.
Context {FA : Type} `{FrameAllocator FA}.

(** The loop of [new_kernel_aspace]. *)
Fixpoint map_regions (rs : list MemRegion) : AsM (FA:=FA) AxError unit :=
  match rs with
  | [] => mret tt
  | r :: rs =>
      _ ← map_linear (phys_to_virt (r_paddr r)) (r_paddr r) (r_bytes r) (mapping_flags (r_flags r));
      map_regions rs
  end.

Definition new_kernel_aspace (base size : Z) (rs : list MemRegion) (m : Mach FA)
  : outcome (result AddrSpace AxError * Mach FA) :=
  match new_empty base size m with
  | Ret (Ok sp, m1) =>
      match map_regions rs (sp, m1) with
      | Ret (Ok _, (sp', m2)) => Ret (Ok sp', m2)
      | Ret (Err e, (_, m2)) => Ret (Err e, m2)
      | Panic => Panic
      end
  | Ret (Err e, m1) => Ret (Err e, m1)
  | Panic => Panic
  end.
End kernel_aspace.

(** * Thread-local storage (tls.rs) *)

Inductive Arch := X86_64 | AArch64 | RiscV64 | LoongArch64.

Definition TLS_ALIGN : Z := 0x10.
Definition TCB_SIZE (a : Arch) : Z := match a with X86_64 => 8 | _ => 0 end.
Definition GAP_ABOVE_TP (a : Arch) : Z := match a with AArch64 => 16 | _ => 0 end.

(** [TlsArea]: the base and the layout of the allocation. *)
Record TlsArea := mkTls { ta_base : Z; ta_size : Z; ta_align : Z }.

Section tls.
Variable arch : Arch.
Variable ld : Symbols.

Definition static_tls_size : Z := align_up (_etbss ld -w _stdata ld) TLS_ALIGN.
Definition static_tls_offset : Z :=
  match arch with X86_64 => 0 | _ => TCB_SIZE arch +w GAP_ABOVE_TP arch end.
Definition tp_offset : Z := match arch with X86_64 => static_tls_size | _ => TCB_SIZE arch end.
Definition tls_area_size : Z :=
  match arch with
  | X86_64 => static_tls_size +w TCB_SIZE arch
  | _ => (TCB_SIZE arch +w GAP_ABOVE_TP arch) +w static_tls_size
  end.
Definition tls_ptr (t : TlsArea) : Z := ta_base t +w tp_offset.

(** [init_tcb]: the self pointer. *)
Definition init_tcb (area : Z) (m : bytes) : bytes :=
  match arch with
  | X86_64 => let tp_addr := area +w tp_offset in mem_write tp_addr (le_put 8 tp_addr) m
  | _ => m
  end.

(** [Layout::from_size_align] for a power of two: the size, rounded up, fits an [isize]. *)
Definition from_size_align (size align : Z) : option (Z * Z) :=
  if size <=? 9223372036854775808 - align then Some (size, align) else None.

Context {T : Type} `{Tlsf T}.

(** [alloc_zeroed] of the global allocator: [handle_alloc_error] panics. *)
Definition alloc_zeroed (fuel : nat) (size align : Z) (g : GlobalAllocator T) (m : bytes)
  : option (outcome (Z * GlobalAllocator T * bytes)) :=
  match ga_alloc fuel size align g with
  | Some (Ok p, g) => Some (Ret (p, g, mem_zero p (Z.to_nat size) m))
  | Some (Err _, _) => Some Panic
  | None => None
  end.

(** [TlsArea::alloc]. *)
Definition tls_alloc (fuel : nat) (g : GlobalAllocator T) (m : bytes)
  : option (outcome (TlsArea * GlobalAllocator T * bytes)) :=
  match from_size_align tls_area_size TLS_ALIGN with
  | None => Some Panic
  | Some (size, align) =>
      match alloc_zeroed fuel size align g m with
      | None => None
      | Some Panic => Some Panic
      | Some (Ret (area_base, g, m)) =>
          let tls_load_size := _etbss ld -w _stdata ld in
          let m := mem_write (area_base +w static_tls_offset) (mem_read (_stdata ld) (Z.to_nat tls_load_size) m) m in
          let m := init_tcb area_base m in
          if area_base =? 0 then Some Panic else Some (Ret (mkTls area_base size align, g, m))
      end
  end.

(** [Drop for TlsArea]. *)
Definition tls_drop (t : TlsArea) (g : GlobalAllocator T) : GlobalAllocator T :=
  ga_dealloc (ta_base t) (ta_size t) (ta_align t) g.
End tls.

(** * What the TLS area holds *)

Lemma wadd_wsub_16 a : 0 <= a <= USIZE - 16 -> (a +w 16) -w 1 = a + 15.
Proof. intros Ha. unfold wsub, wadd, wrap. rewrite Zminus_mod_idemp_l, Z.mod_small by lia. lia. Qed.

Lemma align_up_16 a : 0 <= a <= USIZE - 16 -> a <= align_up a TLS_ALIGN < a + 16 /\ align_up a TLS_ALIGN mod 16 = 0.
Proof.
  intros Ha. unfold align_up, TLS_ALIGN. change (16 -w 1) with (2 ^ 4 - 1).
  rewrite wadd_wsub_16 by done. rewrite land_high_mask by (unfold is_usize; lia). change (2 ^ 4) with 16. lia.
Qed.

Section tls_props.
Variables (arch : Arch) (ld : Symbols).
(** The TLS image of the linker script, smaller than the largest allocation. *)
Hypothesis Hld : 0 <= _stdata ld <= _etbss ld /\ _etbss ld < USIZE /\ _etbss ld - _stdata ld <= 2 ^ 62.

Lemma tls_sizes :
  let n := _etbss ld - _stdata ld in
  _etbss ld -w _stdata ld = n /\
  n <= static_tls_size ld < n + 16 /\ static_tls_size ld mod 16 = 0 /\
  tls_area_size arch ld = TCB_SIZE arch + GAP_ABOVE_TP arch + static_tls_size ld /\
  0 <= static_tls_offset arch /\ static_tls_offset arch mod 16 = 0 /\
  static_tls_offset arch + static_tls_size ld <= tls_area_size arch ld /\
  0 <= tp_offset arch ld <= tls_area_size arch ld.
Proof.
  intros n. unfold n. change (2 ^ 62) with 4611686018427387904 in Hld.
  pose proof (align_up_16 (_etbss ld - _stdata ld) ltac:(lia)) as [H1 H2].
  assert (_etbss ld -w _stdata ld = _etbss ld - _stdata ld) as E by (apply wsub_small; lia).
  unfold tls_area_size, static_tls_offset, tp_offset, static_tls_size. rewrite E.
  set (k := align_up _ _) in *. unfold TCB_SIZE, GAP_ABOVE_TP.
  destruct arch; rewrite ?wadd_small by (rewrite ?wadd_small; lia); lia.
Qed.

Lemma tls_places :
  tp_offset arch ld mod 16 = 0 /\
  (arch = X86_64 -> static_tls_offset arch = 0 /\ tp_offset arch ld = static_tls_size ld) /\
  (arch <> X86_64 -> static_tls_offset arch = tp_offset arch ld + GAP_ABOVE_TP arch).
Proof. pose proof tls_sizes as (_ & _ & S & _). unfold tp_offset, static_tls_offset. by destruct arch. Qed.

Lemma tls_size_bound : 0 <= tls_area_size arch ld <= 9223372036854775808 - TLS_ALIGN.
Proof.
  pose proof tls_sizes as (_ & S1 & _ & S3 & _). change (2 ^ 62) with 4611686018427387904 in Hld. unfold TLS_ALIGN.
  destruct arch; cbn [TCB_SIZE GAP_ABOVE_TP] in S3; lia.
Qed.

(** The self pointer of x86_64 fits the TCB behind the static block. *)
Lemma init_tcb_out p m a :
  0 <= p -> p + tls_area_size arch ld < USIZE ->
  ~ (arch = X86_64 /\ p + static_tls_size ld <= a < p + tls_area_size arch ld) -> init_tcb arch ld p m a = m a.
Proof.
  intros Hp Hs Ha. destruct tls_sizes as (_ & H1 & _ & H2 & _).
  unfold init_tcb, tp_offset. destruct arch; try done. cbn [TCB_SIZE GAP_ABOVE_TP] in *.
  rewrite wadd_small by lia. apply mem_write_out. rewrite length_le_put.
  intros Hin. apply Ha. split; [done|]. rewrite H2. lia.
Qed.

Lemma init_tcb_self p m :
  arch = X86_64 -> 0 <= p -> p + tls_area_size arch ld < USIZE ->
  le_get (mem_read (p + static_tls_size ld) 8 (init_tcb arch ld p m)) = p + static_tls_size ld.
Proof.
  intros Ha Hp Hs. pose proof tls_sizes as (_ & H1 & _ & H2 & _). destruct arch; try done. cbn [TCB_SIZE GAP_ABOVE_TP] in *.
  unfold init_tcb, tp_offset. rewrite wadd_small by lia. set (a := p + static_tls_size ld) in *.
  rewrite <- (length_le_put 8 a) at 1. rewrite mem_read_write. rewrite le_get_put. apply (wrap_small a). lia.
Qed.

Context {T : Type} `{Tlsf T}.

(** C33: The area of a thread stays inside its allocation, whatever the architecture: only the
    allocation is written; it holds the TLS image at its place, the self pointer of
    x86_64 behind it, and zeros elsewhere; the thread pointer lies in it, aligned like
    the allocation, and the image is where the ABI looks for it — below the thread
    pointer on x86_64, behind the gap above it elsewhere. *)
Theorem tls_area_bounds fuel (g g1 : GlobalAllocator T) m p :
  let size := tls_area_size arch ld in
  let n := _etbss ld - _stdata ld in
  ga_alloc fuel size TLS_ALIGN g = Some (Ok p, g1) -> 0 < p -> p + size < USIZE ->
  p + size <= _stdata ld \/ _etbss ld <= p ->
  exists m', let t := mkTls p size TLS_ALIGN in let image := p + static_tls_offset arch in
  tls_alloc arch ld fuel g m = Some (Ret (t, g1, m')) /\
  (forall a, ~ (p <= a < p + size) -> m' a = m a) /\
  (forall i, 0 <= i < n -> m' (image + i) = m (_stdata ld + i)) /\
  (forall a, p <= a < p + size -> ~ (image <= a < image + n) ->
     ~ (arch = X86_64 /\ tls_ptr arch ld t <= a) -> m' a = 0) /\
  (arch = X86_64 -> le_get (mem_read (tls_ptr arch ld t) 8 m') = tls_ptr arch ld t) /\
  p <= tls_ptr arch ld t <= p + size /\ (p mod 16 = 0 -> tls_ptr arch ld t mod 16 = 0) /\
  match arch with
  | X86_64 => tls_ptr arch ld t = image + align_up n TLS_ALIGN
  | _ => image = tls_ptr arch ld t + GAP_ABOVE_TP arch
  end.
Proof.
  intros size n Ha Hp Hs Hd. pose proof tls_sizes as (E & S1 & S2 & S3 & O1 & O2 & O3 & TP).
  pose proof tls_places as (P1 & P2 & P3). fold n in E, S1. fold size in S3, O3, TP.
  set (image := p + static_tls_offset arch).
  set (m1 := mem_write image (mem_read (_stdata ld) (Z.to_nat n) (mem_zero p (Z.to_nat size) m)) (mem_zero p (Z.to_nat size) m)).
  assert (forall a, ~ (image <= a < image + n) -> m1 a = mem_zero p (Z.to_nat size) m a) as Hout.
  { intros a Hi. apply mem_write_out. rewrite mem_read_length. lia. }
  assert (forall i, 0 <= i < n -> m1 (image + i) = m (_stdata ld + i)) as Himg.
  { intros i Hi. unfold m1. rewrite mem_write_in by (rewrite mem_read_length; lia).
    replace (Z.to_nat (image + i - image)) with (Z.to_nat i) by lia. rewrite mem_read_lookup by lia. cbn [default].
    rewrite Z2Nat.id by lia. apply mem_zero_out. lia. }
  assert (tls_ptr arch ld (mkTls p size TLS_ALIGN) = p + tp_offset arch ld) as Ht by (apply wadd_small; cbn; lia).
  exists (init_tcb arch ld p m1). cbn zeta. rewrite Ht. split; [|split; [|split; [|split; [|split; [|split; [|split]]]]]].
  - unfold tls_alloc, from_size_align, alloc_zeroed. fold size. rewrite (proj2 (Z.leb_le _ _)), Ha, E.
    + rewrite wadd_small by lia. fold image. fold m1. by rewrite (proj2 (Z.eqb_neq p 0)) by lia.
    + apply tls_size_bound.
  - intros a Hn. rewrite init_tcb_out by (fold size; lia). rewrite Hout by (unfold image; lia). apply mem_zero_out. lia.
  - intros i Hi. rewrite init_tcb_out; [by apply Himg|lia|done|]. intros [[]%P2 ?]. unfold image in *. lia.
  - intros a H1 H2 H3. rewrite init_tcb_out; [|lia|done|].
    + rewrite Hout by done. apply mem_zero_in. lia.
    + intros [Hx ?]. apply H3. split; [done|]. destruct (P2 Hx). lia.
  - intros Hx. destruct (P2 Hx) as [_ ->]. by apply init_tcb_self; [|lia|].
  - lia.
  - lia.
  - unfold image. rewrite <- E. fold (static_tls_size ld). destruct arch eqn:Ea; [destruct P2; [done|lia]|rewrite P3; [lia|done]..].
Qed.
End tls_props.

(** * The memory of the platform *)

Definition aligned (a : Z) : Prop := a mod PAGE_SIZE_4K = 0.
Definition apart (r r' : MemRegion) : Prop :=
  r_paddr r + r_bytes r <= r_paddr r' \/ r_paddr r' + r_bytes r' <= r_paddr r.
Definition whole_pages (r : MemRegion) : Prop := 0 <= r_bytes r /\ aligned (r_paddr r) /\ aligned (r_bytes r).

(** The order and the alignment that linker.lds.S gives, in the linear mapping. *)
Record image_ok (ld : Symbols) : Prop := {
  io_order : StronglySorted Z.le
    [PHYS_VIRT_OFFSET; _stext ld; _etext ld; _srodata ld; _erodata ld; _sdata ld; _edata ld;
     boot_stack ld; boot_stack_top ld; _sbss ld; _ebss ld; _ekernel ld; USIZE - 2 ^ 37];
  io_aligned : Forall aligned
    [_stext ld; _etext ld; _srodata ld; _erodata ld; _sdata ld; _edata ld;
     boot_stack ld; boot_stack_top ld; _sbss ld; _ebss ld; _ekernel ld];
}.

(** The image lies in the physical memory, and the device windows are whole pages outside
    of it that do not overlap. *)
Definition mem_end (plat : PlatConfig) : Z := PHYS_MEMORY_BASE plat + PHYS_MEMORY_SIZE plat.
Definition window_ok (plat : PlatConfig) (w : Z * Z) : Prop :=
  0 <= w.2 /\ aligned w.1 /\ aligned w.2 /\ (w.1 + w.2 <= PHYS_MEMORY_BASE plat \/ mem_end plat <= w.1).
Record plat_ok (ld : Symbols) (plat : PlatConfig) : Prop := {
  po_image : image_ok ld;
  po_base : 2 ^ 30 <= PHYS_MEMORY_BASE plat <= _stext ld - PHYS_VIRT_OFFSET;
  po_end : _ekernel ld - PHYS_VIRT_OFFSET <= mem_end plat <= 2 ^ 37;
  po_aligned : aligned (mem_end plat);
  po_windows : Forall (window_ok plat) (MMIO_REGIONS plat);
  po_apart : ForallOrdPairs (fun w w' : Z * Z => w.1 + w.2 <= w'.1 \/ w'.1 + w'.2 <= w.1) (MMIO_REGIONS plat);
}.

Lemma ForallOrdPairs_app {A} (R : A -> A -> Prop) l1 l2 :
  ForallOrdPairs R l1 -> ForallOrdPairs R l2 -> (forall x y, x ∈ l1 -> y ∈ l2 -> R x y) -> ForallOrdPairs R (l1 ++ l2).
Proof.
  intros H1 H2 H12. induction H1 as [|x l Hx _ IH]; [done|]. cbn. constructor.
  - apply List.Forall_app. split; [done|]. apply List.Forall_forall. intros y Hy%list_elem_of_In. apply H12; [left|done].
  - apply IH. intros a b Ha. apply H12. by right.
Qed.

Lemma filter_nil_mmio (rs : list MemRegion) (P : MemRegion -> Prop) :
  Forall (fun r => is_free r = false /\ P r) rs -> filter (fun r => is_free r = true) rs = [].
Proof.
  induction 1 as [|r rs [Hr _] _ IH]; [done|]. rewrite filter_cons_False; [done|by rewrite Hr].
Qed.

Section boot.
Variables (ld : Symbols) (plat : PlatConfig).
Hypothesis Hok : plat_ok ld plat.

Lemma sorted_le (x y : Z) l : StronglySorted Z.le (x :: y :: l) -> x <= y /\ StronglySorted Z.le (y :: l).
Proof. intros [Hs Hf]%StronglySorted_inv. inversion Hf; subst. by split. Qed.

Lemma image_order :
  PHYS_VIRT_OFFSET <= _stext ld <= _etext ld /\ _etext ld <= _srodata ld <= _erodata ld /\
  _erodata ld <= _sdata ld <= _edata ld /\ _edata ld <= boot_stack ld <= boot_stack_top ld /\
  boot_stack_top ld <= _sbss ld <= _ebss ld /\ _ebss ld <= _ekernel ld <= USIZE - 2 ^ 37.
Proof.
  destruct Hok as [[Hs _] _ _ _ _ _]. repeat (apply sorted_le in Hs as [? Hs]). done.
Qed.

Lemma image_region_ok s e f name :
  PHYS_VIRT_OFFSET <= s <= e -> e < USIZE ->
  image_region s e f name = mkRegion (s - PHYS_VIRT_OFFSET) (e - s) (Z.lor MemRegionFlags.RESERVED f) name.
Proof. intros H1 H2. unfold image_region, virt_to_phys. by rewrite !wsub_small by lia. Qed.

(** The regions of the memory itself: the image, from its start on, and the rest. *)
Definition ram_regions : list MemRegion := kernel_image_regions ld ++ default_free_regions ld plat.
Definition in_ram (r : MemRegion) : Prop := PHYS_MEMORY_BASE plat <= r_paddr r /\ r_paddr r + r_bytes r <= mem_end plat.

Lemma free_region :
  let start := _ekernel ld - PHYS_VIRT_OFFSET in
  default_free_regions ld plat =
    [mkRegion start (mem_end plat - start) (Z.lor MemRegionFlags.FREE (Z.lor MemRegionFlags.READ MemRegionFlags.WRITE)) "free memory"].
Proof.
  intros start. pose proof image_order as Ho. destruct Hok as [[_ Ha] Hb He Hm _ _]. unfold aligned in *. repeat (apply Forall_cons in Ha as [? Ha]).
  change (2 ^ 30) with 1073741824 in *. change (2 ^ 37) with 137438953472 in *. unfold default_free_regions, virt_to_phys.
  rewrite (wsub_small (_ekernel ld)) by lia. rewrite align_up_4k_id by (fold start; lia). unfold mem_end in *. rewrite wadd_small by lia.
  rewrite align_down_4k_id by (unfold is_usize; lia). rewrite wsub_small by (fold start; lia). done.
Qed.

Lemma ram_regions_ok :
  ForallOrdPairs apart ram_regions /\ Forall whole_pages ram_regions /\ Forall in_ram ram_regions.
Proof.
  pose proof image_order as Ho. destruct Hok as [[_ Ha] Hb He Hm _ _]. unfold aligned in *. repeat (apply Forall_cons in Ha as [? Ha]).
  change (2 ^ 37) with 137438953472 in *.
  unfold ram_regions. rewrite free_region. unfold kernel_image_regions. rewrite !image_region_ok by lia. cbn [app].
  unfold apart, whole_pages, in_ram, aligned. split; [|split].
  - repeat constructor; cbn [r_paddr r_bytes]; lia.
  - repeat (apply Forall_cons; split; [cbn [r_paddr r_bytes]; lia|]). done.
  - repeat (apply Forall_cons; split; [cbn [r_paddr r_bytes]; lia|]). done.
Qed.

Lemma mmio_regions_ok :
  let rs := default_mmio_regions plat in
  ForallOrdPairs apart rs /\ Forall whole_pages rs /\ Forall (fun r => is_free r = false /\ forall x, in_ram x -> apart x r) rs.
Proof.
  intros rs. unfold rs, default_mmio_regions. destruct Hok as [_ _ _ _ Hw Hp]. split; [|split].
  - induction Hp as [|w ws Hd _ IH]; cbn [fmap list_fmap]; constructor.
    + apply List.Forall_map. eapply List.Forall_impl; [|exact Hd]. by intros [] ?; destruct w.
    + apply IH. by apply Forall_cons in Hw as [_ Hw].
  - apply Forall_fmap. eapply Forall_impl; [exact Hw|]. intros [b n] (? & ? & ? & ?). by repeat split.
  - apply Forall_fmap. eapply Forall_impl; [exact Hw|]. intros [b n] (? & ? & ? & Hd). split; [done|].
    intros x [Hx1 Hx2]. unfold apart. cbn in *. lia.
Qed.

Lemma only_free_region :
  let start := _ekernel ld - PHYS_VIRT_OFFSET in
  exists f name, filter (fun r => is_free r = true) (memory_regions ld plat) = [mkRegion start (mem_end plat - start) f name].
Proof.
  intros start. destruct mmio_regions_ok as (_ & _ & Hm). unfold memory_regions, platform_regions.
  rewrite free_region, !filter_app, (filter_nil_mmio _ _ Hm). by eexists _, _.
Qed.

(** The memory regions of the platform do not overlap and are made of whole pages; no
    region is both writable and executable; and the only free one runs from the end of
    the kernel image to the end of the physical memory. *)
Theorem memory_regions_correct :
  let rs := memory_regions ld plat in
  ForallOrdPairs apart rs /\ Forall whole_pages rs /\
  Forall (fun r => contains (r_flags r) (Z.lor MemRegionFlags.WRITE MemRegionFlags.EXECUTE) = false) rs /\
  exists r, filter (fun r => is_free r = true) rs = [r] /\
    phys_to_virt (r_paddr r) = _ekernel ld /\ r_paddr r + r_bytes r = mem_end plat.
Proof.
  intros rs. unfold rs, memory_regions, platform_regions. rewrite app_assoc. fold ram_regions.
  destruct ram_regions_ok as (Hr1 & Hr2 & Hr3). destruct mmio_regions_ok as (Hm1 & Hm2 & Hm3). split; [|split; [|split]].
  - apply ForallOrdPairs_app; [done|done|]. intros x y Hx Hy. rewrite Forall_forall in Hr3, Hm3.
    apply Hm3; [done|]. by apply Hr3.
  - by apply Forall_app.
  - apply Forall_app. split; [|apply Forall_fmap, Forall_true; by intros []]. unfold ram_regions. rewrite free_region.
    by repeat (apply Forall_cons; split; [reflexivity|]).
  - unfold ram_regions. rewrite <- app_assoc. destruct only_free_region as (f & name & Hf). eexists. split; [exact Hf|].
    pose proof image_order. cbn [r_paddr r_bytes]. unfold phys_to_virt. rewrite wadd_small by lia. lia.
Qed.
End boot.

(** * The heap stays in the free memory *)

Section heap_in.
Context {T : Type} `{TlsfLaws T}.
Implicit Types g : GlobalAllocator T.
Variables lo hi : Z.

(** A page between [lo] and [hi]. *)
Definition page_in (v : Z) : Prop := lo <= v /\ v + PAGE_SIZE_4K <= hi.

(** Only pages between [lo] and [hi] are free, and the regions of the byte allocator lie
    between them. *)
Record heap_in g : Prop := {
  hn_inv : heap_inv g;
  hn_free : forall i, inner (palloc g) !! i = Some true -> page_in (base (palloc g) + Z.of_nat i * PAGE_SIZE_4K);
  hn_regions : forall s n, (s, n) ∈ regions (tl_inner (balloc g)) -> lo <= s /\ s + n <= hi;
}.

(** The operations of the allocator that hand out memory, and giving a block back. *)
Inductive heap_step : GlobalAllocator T -> GlobalAllocator T -> Prop :=
| step_alloc fuel size align g r g' : 0 <= size -> ga_alloc fuel size align g = Some (r, g') -> heap_step g g'
| step_pages n align g p g' : ga_alloc_pages n align g = Ok (p, g') -> heap_step g g'
| step_dealloc pos size align g : heap_step g (ga_dealloc pos size align g).

Definition free_in (a : BitmapPageAllocator) : Prop :=
  forall i, inner a !! i = Some true -> page_in (base a + Z.of_nat i * PAGE_SIZE_4K).

Lemma pa_alloc_pages_shape n align a p a' :
  pa_alloc_pages n align a = Ok (p, a') -> bpa_wf a -> base a' = base a /\ length (inner a') = length (inner a).
Proof.
  intros Ha Hwf. destruct (pa_alloc_pages_used _ _ _ _ _ Hwf Ha) as (Hn & _). revert Ha.
  unfold pa_alloc_pages, bpa_alloc. destruct (page_align align) as [k|] eqn:Ek; [|done]. destruct (n =? 1).
  - destruct (first_set (inner a)); [|done]. intros [= _ <-]. cbn. by rewrite length_insert.
  - destruct (1 <? n); [|done]. unfold alloc_contiguous.
    destruct (find_contiguous (inner a) (Z.to_nat n) k) as [b|] eqn:Ef; [|done]. cbn [fmap option_fmap option_map]. intros [= _ <-].
    assert (2 ^ k <= length (inner a))%nat as Hcap.
    { unfold find_contiguous in Ef. destruct (Nat.ltb_spec (length (inner a)) (2 ^ k)); [done|lia]. }
    pose proof (find_contiguous_lowest (inner a) (Z.to_nat n) k ltac:(lia) Hcap) as Hlow. rewrite Ef in Hlow. destruct Hlow as (_ & Hr & _).
    destruct (bpa_used_range a b (Z.to_nat n) Hwf ltac:(lia) Hr) as (_ & _ & Hlen & _). cbn. by rewrite length_set_range.
Qed.

Lemma used_bit a i : inner a !! i = Some false -> base a + Z.of_nat i * PAGE_SIZE_4K ∈ bpa_used a.
Proof. intros Hi. apply elem_of_bpa_used. by exists i. Qed.

Lemma pa_alloc_pages_in n align a p a' :
  bpa_wf a -> free_in a -> pa_alloc_pages n align a = Ok (p, a') ->
  free_in a' /\ lo <= p /\ p + n * PAGE_SIZE_4K <= hi.
Proof.
  intros Hwf Hf Ha. destruct (pa_alloc_pages_used _ _ _ _ _ Hwf Ha) as (Hn & _ & D & U).
  destruct (pa_alloc_pages_shape _ _ _ _ _ Ha Hwf) as [Eb El].
  assert (forall v, v ∈ pages_at p (Z.to_nat n) -> page_in v) as Hin.
  { intros v Hv. assert (v ∈ bpa_used a') as (j & Hj & ->)%elem_of_bpa_used by (rewrite U; set_solver).
    rewrite Eb in *. apply Hf. apply lookup_lt_Some in Hj. rewrite El in Hj.
    destruct (lookup_lt_is_Some_2 (inner a) j Hj) as [[] E]; [done|]. destruct (D _ Hv (used_bit a j E)). }
  split.
  - intros i Hi. rewrite Eb. apply Hf. pose proof (lookup_lt_Some _ _ _ Hi) as Hlt. rewrite El in Hlt.
    destruct (lookup_lt_is_Some_2 (inner a) i Hlt) as [[] E]; [done|].
    assert (base a + Z.of_nat i * PAGE_SIZE_4K ∈ bpa_used a') as (j & Hj & Heq)%elem_of_bpa_used by (rewrite U; pose proof (used_bit a i E); set_solver).
    rewrite Eb in Heq. assert (j = i) as -> by lia. congruence.
  - destruct (Hin p) as [H1 _]; [apply elem_of_pages_at; exists 0%nat; lia|].
    destruct (Hin (p + (n - 1) * PAGE_SIZE_4K)) as [_ H2]; [apply elem_of_pages_at; exists (Z.to_nat (n - 1)); lia|]. lia.
Qed.

Lemma ga_alloc_pages_in n align g p g' :
  heap_in g -> ga_alloc_pages n align g = Ok (p, g') -> heap_in g' /\ lo <= p /\ p + n * PAGE_SIZE_4K <= hi.
Proof.
  intros [[I1 I2 I3 I4] Hf Hr]. unfold ga_alloc_pages. destruct (pa_alloc_pages n align (palloc g)) as [[q a]|e] eqn:Ep; [|done].
  intros [= <- <-]. destruct (pa_alloc_pages_in _ _ _ _ _ I1 Hf Ep) as [Hf' Hb]. destruct (pa_alloc_pages_used _ _ _ _ _ I1 Ep) as (_ & W & _ & U).
  split; [|done]. split; [split|..]; cbn; try done. eapply Forall_impl; [exact I3|]. intros x Hx. cbn in Hx. rewrite U. set_solver.
Qed.

Lemma ga_grow_in g size start g1 b :
  let n := expand_size (total_bytes (balloc g)) size in
  heap_in g -> 0 <= size -> ga_alloc_pages (n / PAGE_SIZE_4K) PAGE_SIZE_4K g = Ok (start, g1) ->
  tl_add_memory start n (balloc g1) = Ok b -> heap_in (set_balloc b g1).
Proof.
  intros n Hg Hs Ep Hadd. destruct (ga_alloc_pages_in _ _ _ _ _ Hg Ep) as ([_ Hf _] & Hb1 & Hb2). revert Ep Hf.
  unfold ga_alloc_pages. destruct (pa_alloc_pages _ _ (palloc g)) as [[q a]|e] eqn:Ep; [|done]. intros [= -> <-] Hf.
  destruct (ga_grow g size start a b (hn_inv _ Hg) Hs Ep Hadd) as [Hinv _]. split; [done|done|].
  cbn. unfold tl_add_memory in Hadd. destruct (tlsf_insert _ _ _) as [t|] eqn:Ei; [|done]. injection Hadd as <-.
  apply law_tlsf_insert in Ei. cbn in Ei |- *. rewrite Ei. intros s k [[= -> ->]|Hin]%elem_of_cons; [|by apply Hg].
  destruct (expand_size_pages (total_bytes (balloc g)) size) as [Hd _]; [apply Hg|done|]. fold n in Hd |- *. lia.
Qed.

Lemma ga_alloc_in fuel size align g r g' :
  heap_in g -> 0 <= size -> ga_alloc fuel size align g = Some (r, g') ->
  heap_in g' /\ forall p, r = Ok p -> lo <= p /\ p + size <= hi.
Proof.
  intros Hg Hs Ha. assert (heap_in g') as Hg'.
  { revert g Hg Ha. induction fuel as [|fuel IH]; intros g Hg; [done|].
    pose proof (ga_alloc_spec 1 size align g r g' (hn_inv _ Hg) Hs) as Hstep. cbn [ga_alloc] in *.
    destruct (tl_alloc size align (balloc g)) as [[p b]|] eqn:Ea.
    - intros Heq. split; [by apply Hstep|..]; injection Heq as <- <-; [apply Hg|].
      unfold tl_alloc in Ea. destruct (tlsf_allocate size align _) as [[q t]|] eqn:Et; [|done]. injection Ea as <- <-.
      apply law_tlsf_allocate in Et as [Et _]. cbn. rewrite Et. apply Hg.
    - destruct (ga_alloc_pages _ _ g) as [[start g1]|e] eqn:Ep; [|by intros [= <- <-]].
      destruct (ga_alloc_pages_in _ _ _ _ _ Hg Ep) as (Hg1 & _).
      destruct (tl_add_memory start _ (balloc g1)) as [b|e] eqn:Eb; [|by intros [= <- <-]].
      apply IH. exact (ga_grow_in g size start g1 b Hg Hs Ep Eb). }
  split; [done|]. intros p ->. destruct (ga_alloc_spec _ _ _ _ _ _ (hn_inv _ Hg) Hs Ha) as (_ & _ & Hp).
  destruct (Hp p eq_refl) as (s & n & Hin & ? & ?). destruct (hn_regions _ Hg' _ _ Hin). lia.
Qed.

Lemma heap_step_in g g' : heap_in g -> heap_step g g' -> heap_in g'.
Proof.
  intros Hg Hs. destruct Hs as [fuel size align g r g' Hs Ha|n align g p g' Ha|pos size align g].
  - by destruct (ga_alloc_in _ _ _ _ _ _ Hg Hs Ha).
  - by destruct (ga_alloc_pages_in _ _ _ _ _ Hg Ha).
  - destruct Hg as [[I1 I2 I3 I4] Hf Hr]. split; [split|..]; cbn; rewrite ?law_tlsf_deallocate; done.
Qed.
End heap_in.

(** * The start of the heap *)

Lemma single_free rs r :
  filter (fun r => is_free r = true) rs = [r] ->
  exists l1 l2, rs = l1 ++ r :: l2 /\ is_free r = true /\ Forall (fun r => is_free r = false) (l1 ++ l2).
Proof.
  assert (forall l, filter (fun r => is_free r = true) l = [] -> Forall (fun r => is_free r = false) l) as Hnil.
  { induction l as [|x l IH]; [constructor|]. cbn [filter list_filter]. destruct (decide _) as [|Hx]; [done|].
    intros Hl. constructor; [by destruct (is_free x)|by apply IH]. }
  induction rs as [|x rs IH]; [done|]. cbn [filter list_filter]. destruct (decide _) as [Hx|Hx].
  - intros [= -> Hl]. exists [], rs. by split; [|split; [|apply Hnil]].
  - intros Hl. destruct (IH Hl) as (l1 & l2 & -> & Hr & Hf). exists (x :: l1), l2. split; [done|]. split; [done|].
    constructor; [by destruct (is_free x)|done].
Qed.

Section boot_heap.
Context {T : Type} `{TlsfLaws T}.

Lemma max_region_busy l acc :
  Forall (fun r => is_free r = false) l ->
  foldl (fun '(size, pa) r => if is_free r && (size <? r_bytes r) then (r_bytes r, r_paddr r) else (size, pa)) acc l = acc.
Proof. intros Hl. revert acc. induction Hl as [|x l Hx _ IH]; intros [z q]; [done|]. cbn [foldl]. rewrite Hx. apply IH. Qed.

Lemma add_regions_busy l pa (g : GlobalAllocator T) :
  Forall (fun r => is_free r = false \/ r_paddr r = pa) l -> add_regions l pa g = Ret g.
Proof.
  induction 1 as [|x l Hx _ IH]; [done|]. cbn [add_regions].
  destruct Hx as [->| ->]; [done|]. by rewrite Z.eqb_refl, andb_false_r.
Qed.

(** With one free region the allocator starts on that one. *)
Lemma init_allocator_single capacity rs r (g0 : GlobalAllocator T) :
  filter (fun r => is_free r = true) rs = [r] -> 0 < r_bytes r ->
  init_allocator capacity rs g0 = ga_init capacity (phys_to_virt (r_paddr r)) (r_bytes r).
Proof.
  intros (l1 & l2 & -> & Hr & [H1 H2]%Forall_app)%single_free Hpos. unfold init_allocator.
  assert (snd (max_region (l1 ++ r :: l2)) = r_paddr r) as ->.
  { unfold max_region. rewrite foldl_app, (max_region_busy l1) by done. cbn [foldl]. rewrite Hr, (proj2 (Z.ltb_lt 0 _)) by done.
    cbn [andb]. by rewrite max_region_busy. }
  assert (List.find (fun r' => is_free r' && (r_paddr r' =? r_paddr r)) (l1 ++ r :: l2) = Some r) as ->.
  { clear H2. induction H1 as [|x l Hx _ IH]; cbn [List.find app]; [by rewrite Hr, Z.eqb_refl|by rewrite Hx]. }
  destruct (ga_init _ _ _) as [g|]; [|done]. apply add_regions_busy. apply Forall_app.
  split; [|constructor; [by right|]]; (eapply Forall_impl; [eassumption|]); intros x Hx; by left.
Qed.

(** The bitmap of [init] on whole pages: exactly the pages of the region are free. *)
Lemma bpa_init_spec capacity start size :
  PHYS_VIRT_OFFSET + 2 ^ 30 <= start -> 0 <= size -> start + size <= PHYS_VIRT_OFFSET + 2 ^ 37 ->
  aligned start -> aligned size -> Z.of_nat capacity <= 2 ^ 24 ->
  let a := bpa_init capacity start size in let first := (start mod 2 ^ 30) / PAGE_SIZE_4K in
  bpa_wf a /\ base a + first * PAGE_SIZE_4K = start /\ length (inner a) = capacity /\
  forall i, inner a !! i = Some true <-> (i < capacity)%nat /\ first <= Z.of_nat i < first + size / PAGE_SIZE_4K.
Proof.
  intros H1 H2 H3 H4 H5 Hc a first. unfold aligned in *. change (2 ^ 30) with 1073741824 in *.
  change (2 ^ 37) with 137438953472 in *. change (2 ^ 24) with 16777216 in *. unfold a, bpa_init. rewrite (wadd_small start) by lia.
  change (align_down ?x PAGE_SIZE_4K) with (align_down_4k x). change (align_up ?x PAGE_SIZE_4K) with (align_up_4k x).
  rewrite align_down_4k_id, align_up_4k_id by (unfold is_usize; lia).
  assert (align_down start 1073741824 = start - start mod 1073741824) as ->.
  { unfold align_down. change (1073741824 -w 1) with (2 ^ 30 - 1). rewrite land_high_mask by (unfold is_usize; lia). change (2 ^ 30) with 1073741824. lia. }
  rewrite (wsub_small (start + size)), (wsub_small start) by lia.
  replace (start + size - start) with size by lia. replace (start - (start - start mod 1073741824)) with (start mod 1073741824) by lia.
  fold first. cbn [base inner]. split; [|split; [|split]].
  - intros i Hi. cbn [inner base] in *. rewrite length_fmap, length_seq in Hi. unfold frame_ok. lia.
  - lia.
  - by rewrite length_fmap, length_seq.
  - intros i. rewrite list_lookup_fmap. destruct (decide (i < capacity)%nat) as [Hi|Hi].
    + rewrite lookup_seq_lt by done. cbn. split; [intros [= [?%Z.leb_le ?%Z.ltb_lt]%andb_prop]; lia|].
      intros [_ [? ?]]. by rewrite (proj2 (Z.leb_le _ _)), (proj2 (Z.ltb_lt _ _)) by lia.
    + rewrite lookup_seq_ge by lia. cbn. split; [done|lia].
Qed.

(** [init] succeeds on a region of more than 32 KB that the bitmap reaches, when the pool
    takes a block of that size. *)
Lemma ga_init_in capacity start size :
  PHYS_VIRT_OFFSET + 2 ^ 30 <= start -> MIN_HEAP_SIZE < size -> start + size <= PHYS_VIRT_OFFSET + 2 ^ 37 ->
  aligned start -> aligned size -> Z.of_nat capacity <= 2 ^ 24 -> (start mod 2 ^ 30) / PAGE_SIZE_4K + 8 <= Z.of_nat capacity ->
  (forall s, tlsf_insert (T:=T) s MIN_HEAP_SIZE tlsf_new <> None) ->
  exists g, ga_init capacity start size = Ret g /\ heap_in start (start + size) g.
Proof.
  intros H1 H2 H3 H4 H5 Hc Hr Htl. unfold MIN_HEAP_SIZE in H2.
  destruct (bpa_init_spec capacity start size H1 ltac:(lia) H3 H4 H5 Hc) as (Hwf & Hb & Hl & Hi). unfold ga_init.
  set (a := bpa_init capacity start size) in *. set (first := (start mod 2 ^ 30) / PAGE_SIZE_4K) in *.
  rewrite (proj2 (Z.ltb_lt MIN_HEAP_SIZE size)) by (unfold MIN_HEAP_SIZE; lia). cbn [negb].
  change (MIN_HEAP_SIZE / PAGE_SIZE_4K) with 8.
  assert (0 <= first) as Hf0 by (apply Z.div_pos; [apply Z.mod_pos_bound; lia|lia]).
  assert (free_in start (start + size) a) as Hfree.
  { intros i Hf%Hi. unfold page_in. unfold aligned in *. lia. }
  pose proof (alloc_pages_correct a 8 PAGE_SIZE_4K 0 Hwf ltac:(lia) eq_refl ltac:(change (2 ^ 0)%nat with 1%nat; lia)) as Hal.
  unfold ga_alloc_pages. cbn [palloc]. destruct (pa_alloc_pages 8 PAGE_SIZE_4K a) as [[p a']|e] eqn:Ep.
  2: { destruct Hal as [_ Hno]. destruct (Hno (Z.to_nat first)); [apply Nat.mod_1_r|].
       intros j Hj. apply Hi. unfold aligned in *. lia. }
  cbn [set_palloc balloc]. unfold tl_init. cbn [tl_inner tl_new]. destruct (tlsf_insert p MIN_HEAP_SIZE tlsf_new) as [t|] eqn:Et.
  2: { by apply Htl in Et. }
  eexists. split; [done|]. destruct (pa_alloc_pages_in _ _ _ _ _ _ _ Hwf Hfree Ep) as (Hf' & Hp1 & Hp2).
  destruct Hal as (_ & W & _ & U & _). apply law_tlsf_insert in Et. rewrite law_tlsf_new in Et. split; cbn.
  - split; cbn; [done|done|..]; rewrite Et; repeat constructor. rewrite U. unfold region_pages. cbn. set_solver.
  - done.
  - rewrite Et. intros s n [= -> ->]%list_elem_of_singleton. unfold MIN_HEAP_SIZE. lia.
Qed.

End boot_heap.

(** * The machine of qemu *)

Module BootDemo.
(** A small kernel image at the address of riscv64-qemu-virt.toml, with 100 bytes of
    thread-local data. *)
Definition at_ (off : Z) : Z := PHYS_VIRT_OFFSET + 0x80200000 + off.
Definition ld : Symbols :=
  mkSymbols (at_ 0) (at_ 0x3000) (at_ 0x3000) (at_ 0x5000) (at_ 0x5000) (at_ 0x8000)
    (at_ 0x8000) (at_ 0xc000) (at_ 0xc000) (at_ 0xe000) (at_ 0xe000) (at_ 0x7000) (at_ 0x7064).
(** The memory and some of the windows of riscv64-qemu-virt.toml. *)
Definition plat : PlatConfig :=
  mkConfig 0x80000000 0x8000000 [(0x101000, 0x1000); (0xc000000, 0x210000); (0x10000000, 0x1000); (0x10001000, 0x8000)].
(** The same with 16 pages of memory behind the image. *)
Definition small : PlatConfig := mkConfig 0x80000000 0x21e000 [(0x10000000, 0x1000)].
End BootDemo.
Import BootDemo HeapDemo.

Lemma demo_plat_ok : plat_ok ld plat.
Proof.
  split.
  - split; cbn.
    + repeat apply SSorted_cons; try apply SSorted_nil; repeat (apply List.Forall_cons); try apply List.Forall_nil; vm_compute; discriminate.
    + repeat (apply Forall_cons; split; [vm_compute; reflexivity|]). apply Forall_nil_2.
  - vm_compute. split; discriminate.
  - vm_compute. split; discriminate.
  - vm_compute. reflexivity.
  - cbn [MMIO_REGIONS plat]. repeat (apply Forall_cons; split; [unfold window_ok, aligned; cbn; lia|]). apply Forall_nil_2.
  - cbn [MMIO_REGIONS plat]. repeat constructor; cbn; lia.
Qed.

Lemma memory_regions_correct_witness :
  exists r, filter (fun r => is_free r = true) (memory_regions ld plat) = [r] /\ phys_to_virt (r_paddr r) = _ekernel ld.
Proof. destruct (memory_regions_correct ld plat demo_plat_ok) as (_ & _ & _ & r & H1 & H2 & _). by exists r. Defined.


Lemma tls_area_bounds_witness :
  exists m', tls_alloc X86_64 ld 2 heap (fun a => a) = Some (Ret (mkTls 18446743800979128320 120 16, snd (default (Err InvalidParam, heap) (ga_alloc 2 120 16 heap)), m')) /\
    m' (18446743800979128320 + 7) = _stdata ld + 7.
Proof.
  destruct (ga_alloc 2 120 16 heap) as [[[p|e] g1]|] eqn:E; [|vm_compute in E; discriminate E..].
  assert (p = 18446743800979128320) as -> by (vm_compute in E; congruence).
  destruct (tls_area_bounds X86_64 ld ltac:(by vm_compute) 2 heap g1 (fun a => a) 18446743800979128320 E) as (m' & H1 & _ & H2 & _);
    [lia|vm_compute; done|left; vm_compute; discriminate|].
  exists m'. split; [exact H1|]. exact (H2 7 ltac:(vm_compute; split; [discriminate|done])).
Defined.

(** The kernel space of a small machine: code is executable and not writable, data the
    reverse, and a device window is mapped as such. *)
Example kernel_space_demo :
  match new_kernel_aspace 18446743798831644672 274877902848 (memory_regions ld small) Demo.m0 with
  | Ret (Ok sp, _) =>
      pt_query (as_pt sp) (at_ 0x1008) = Ok (0x80201008, Z.lor READ EXECUTE) /\
      pt_query (as_pt sp) (at_ 0x3000) = Ok (0x80203000, READ) /\
      pt_query (as_pt sp) (at_ 0xd000) = Ok (0x8020d000, Z.lor READ WRITE) /\
      pt_query (as_pt sp) (phys_to_virt 0x10000000) = Ok (0x10000000, Z.lor READ WRITE)
  | _ => False
  end.
Proof. vm_compute. repeat split. Qed.
