(* ===== verification/Dma.v ===== *)
(** The allocator of coherent memory for devices (src/arceos/modules/axdma/src/lib.rs,
    dma.rs): its own byte pool, fed with pages of the global allocator whose mapping in
    the kernel space is made uncached. *)
From S2P Require Import Prelude Errno MemAddr Frames Heap Paging MemorySet AddrSpace.
From S2P Require Import MemTheorems KernelMem.
Import MappingFlags.

Record DMAInfo := mkDMA { cpu_addr : Z; bus_addr : Z }.

Section dma.
Context {T : Type} `{Tlsf T}.
(** [axconfig::plat::PHYS_BUS_OFFSET]. *)
Variable PHYS_BUS_OFFSET : Z.

Definition phys_to_bus (paddr : Z) : Z := paddr +w PHYS_BUS_OFFSET.
Definition virt_to_bus (addr : Z) : Z := phys_to_bus (virt_to_phys addr).
Definition layout_pages (size : Z) : Z := align_up_4k size / PAGE_SIZE_4K.

(** The pool, the byte allocator of the kernel heap, the kernel space and the machine,
    which holds the page allocator. *)
Record DmaSt := mkDma {
  d_pool : TlsfByteAllocator T;
  d_heap : TlsfByteAllocator T;
  d_space : AddrSpace;
  d_mach : Mach BitmapPageAllocator;
}.
Definition dma_ga (st : DmaSt) : GlobalAllocator T := mkGA (d_heap st) (m_fa (d_mach st)).
Definition set_ga (g : GlobalAllocator T) (st : DmaSt) : DmaSt :=
  mkDma (d_pool st) (balloc g) (d_space st) (mkMach (palloc g) (m_mem (d_mach st))).
Definition set_pool (b : TlsfByteAllocator T) (st : DmaSt) : DmaSt := mkDma b (d_heap st) (d_space st) (d_mach st).

Definition DmaM (A : Type) : Type := M DmaSt AllocError A.

(** [global_allocator().alloc_pages]. *)
Definition dma_pages (num_pages align : Z) : DmaM Z := fun st =>
  match ga_alloc_pages num_pages align (dma_ga st) with
  | Ok (p, g) => Ret (Ok p, set_ga g st)
  | Err e => Ret (Err e, st)
  end.

(** [update_flags]. *)
Definition update_flags (vaddr num_pages flags : Z) : DmaM unit := fun st =>
  match as_protect vaddr (wrap (num_pages * PAGE_SIZE_4K)) flags (d_space st, d_mach st) with
  | Ret (r, (sp, m)) =>
      Ret (match r with Ok _ => Ok tt | Err _ => Err AllocNoMemory end, mkDma (d_pool st) (d_heap st) sp m)
  | Panic => Panic
  end.

(** [self.alloc.alloc] and [self.alloc.add_memory]. *)
Definition pool_alloc (size align : Z) : DmaM (option Z) := fun st =>
  match tl_alloc size align (d_pool st) with
  | Some (p, b) => Ret (Ok (Some p), set_pool b st)
  | None => Ret (Ok None, st)
  end.
Definition pool_add (start size : Z) : DmaM unit := fun st =>
  match tl_add_memory start size (d_pool st) with
  | Ok b => Ret (Ok tt, set_pool b st)
  | Err e => Ret (Err e, st)
  end.

Definition COHERENT : Z := Z.lor (Z.lor READ WRITE) UNCACHED.

(** The part of [alloc_coherent_bytes] that grows the pool. *)
Definition expand_pool : DmaM unit := fun st =>
  let num_pages := Z.min 4 (pa_available_pages (m_fa (d_mach st))) in
  (vaddr ← dma_pages num_pages PAGE_SIZE_4K;
   _ ← update_flags vaddr num_pages COHERENT;
   pool_add vaddr (num_pages * PAGE_SIZE_4K)) st.

(** [alloc_coherent_bytes]: the second pass of its loop is the last one. *)
Definition alloc_coherent_bytes (size align : Z) : DmaM DMAInfo :=
  r ← pool_alloc size align;
  match r with
  | Some p => mret (mkDMA p (virt_to_bus p))
  | None =>
      _ ← expand_pool;
      r ← pool_alloc size align;
      match r with
      | Some p => mret (mkDMA p (virt_to_bus p))
      | None => throw AllocNoMemory
      end
  end.

Definition alloc_coherent_pages (size align : Z) : DmaM DMAInfo :=
  let num_pages := layout_pages size in
  vaddr ← dma_pages num_pages (Z.max PAGE_SIZE_4K align);
  _ ← update_flags vaddr num_pages COHERENT;
  mret (mkDMA vaddr (virt_to_bus vaddr)).

Definition alloc_coherent (size align : Z) : DmaM DMAInfo :=
  if PAGE_SIZE_4K <=? size then alloc_coherent_pages size align else alloc_coherent_bytes size align.

(** [dealloc_coherent]: the pages are given back before their mapping is restored, and an
    error of the latter is ignored. *)
Definition dealloc_coherent (dma : DMAInfo) (size align : Z) (st : DmaSt) : outcome DmaSt :=
  if PAGE_SIZE_4K <=? size then
    match ga_dealloc_pages (cpu_addr dma) (layout_pages size) (dma_ga st) with
    | Ret g =>
        match update_flags (cpu_addr dma) (layout_pages size) (Z.lor READ WRITE) (set_ga g st) with
        | Ret (_, st') => Ret st'
        | Panic => Panic
        end
    | Panic => Panic
    end
  else Ret (set_pool (tl_dealloc (cpu_addr dma) size align (d_pool st)) st).
End dma.

(** * What the allocator hands out *)

Section dma_props.
Context {T : Type} `{TlsfLaws T}.
Variable bus_offset : Z.
Abbreviation St := (DmaSt (T:=T)).

Lemma protect_loop_mach {FA} `{FrameAllocator FA} fuel va size flags pt (m : Mach FA) r pt' m' :
  protect_region_loop fuel va size flags (pt, m) = Ret (r, (pt', m')) -> m' = m.
Proof.
  revert va size pt. induction fuel as [|fuel IH]; intros va size pt; cbn [protect_region_loop]; destruct (size <=? 0); unfold_M; try (intros; by simplify_eq).
  unfold pt_protect, upd. unfold_M. cbn [fst]. destruct (get_entry pt va) as [e|e]; cbn; [|(intros; by simplify_eq)].
  destruct (Rv64PTE.is_present e); cbn; [|(intros; by simplify_eq)]. destruct (is_aligned_4k va); cbn; [|(intros; by simplify_eq)].
  destruct (PAGE_SIZE_4K <=? size); cbn; [|(intros; by simplify_eq)]. apply IH.
Qed.

Lemma as_protect_mach {FA} `{FrameAllocator FA} start size flags sp (m : Mach FA) r sp' m' :
  as_protect start size flags (sp, m) = Ret (r, (sp', m')) -> m' = m.
Proof.
  unfold as_protect, check_page_range, as_contains_range, on_page_table, to_bool, protect_region, get_space, from_start_size. unfold_M. cbn.
  destruct (checked_add start size); cbn; [|(intros; by simplify_eq)]. destruct (contains_range _ _); cbn; [|(intros; by simplify_eq)].
  destruct (is_aligned_4k start && is_aligned_4k size); cbn; [|(intros; by simplify_eq)].
  destruct (protect_region_loop _ start size flags (as_pt sp, m)) as [[x [pt m1]]|] eqn:E; [|(intros; by simplify_eq)]. apply protect_loop_mach in E. subst m1.
  destruct (is_ok x); cbn; (intros; by simplify_eq).
Qed.

Lemma update_flags_spec va n flags (st : St) r st' :
  update_flags va n flags st = Ret (r, st') -> exists sp, st' = mkDma (d_pool st) (d_heap st) sp (d_mach st).
Proof.
  unfold update_flags. destruct (as_protect _ _ _ _) as [[x [sp m]]|] eqn:E; [|done]. intros [= _ <-]. exists sp. f_equal.
  by eapply as_protect_mach.
Qed.

(** The pool and the heap are both made of whole pages that the page allocator has marked
    as used, and share none. *)
Record dma_inv (st : St) : Prop := {
  di_heap : heap_inv (dma_ga st);
  di_pool : heap_inv (mkGA (d_pool st) (m_fa (d_mach st)));
  di_whole : Forall (fun r => r.2 mod PAGE_SIZE_4K = 0) (regions (tl_inner (d_pool st)));
  di_apart : forall r r', r ∈ regions (tl_inner (d_pool st)) -> r' ∈ regions (tl_inner (d_heap st)) -> region_pages r ## region_pages r';
}.

Definition used (st : St) : gset Z := bpa_used (m_fa (d_mach st)).

(** What every operation keeps: the invariant, the heap, the bytes, and the pages in use. *)
Record dma_grows (st st' : St) : Prop := {
  dg_inv : dma_inv st';
  dg_heap : d_heap st' = d_heap st;
  dg_mem : m_mem (d_mach st') = m_mem (d_mach st);
  dg_used : used st ⊆ used st';
}.

Lemma dma_grows_refl st : dma_inv st -> dma_grows st st.
Proof. by split. Qed.
Lemma dma_grows_trans st1 st2 st3 : dma_grows st1 st2 -> dma_grows st2 st3 -> dma_grows st1 st3.
Proof. intros [A1 A2 A3 A4] [B1 B2 B3 B4]. split; [done|congruence|congruence|set_solver]. Qed.

(** The regions of the pool and of the heap lie in the pages in use. *)
Lemma dma_regions_used st r :
  dma_inv st -> r ∈ regions (tl_inner (d_pool st)) \/ r ∈ regions (tl_inner (d_heap st)) -> region_pages r ⊆ used st.
Proof.
  intros [Hh Hp _ _] [Hr|Hr]; [exact (proj1 (Forall_forall _ _) (hi_used _ Hp) r Hr)|exact (proj1 (Forall_forall _ _) (hi_used _ Hh) r Hr)].
Qed.

Lemma heap_inv_used (b : TlsfByteAllocator T) a a' :
  heap_inv (mkGA b a) -> bpa_wf a' -> bpa_used a ⊆ bpa_used a' -> heap_inv (mkGA b a').
Proof. intros [H1 H2 H3 H4] W U. split; [done|done| |done]. eapply Forall_impl; [exact H3|]. intros x Hx. cbn in *. set_solver. Qed.

Lemma dma_pages_spec n align st r st' :
  dma_inv st -> dma_pages n align st = Ret (r, st') ->
  dma_grows st st' /\ d_pool st' = d_pool st /\
  forall p, r = Ok p -> 0 < n /\ pages_at p (Z.to_nat n) ## used st /\ pages_at p (Z.to_nat n) ⊆ used st'.
Proof.
  intros Hinv. unfold dma_pages, ga_alloc_pages. destruct (pa_alloc_pages n align (palloc (dma_ga st))) as [[q a]|e] eqn:Ep.
  2: { intros [= <- <-]. split; [by apply dma_grows_refl|]. done. }
  intros [= <- <-]. pose proof Hinv as [Hh Hp Hw Ha]. destruct (pa_alloc_pages_used _ _ _ _ _ (hi_wf _ Hh) Ep) as (Hn & W & D & U).
  assert (used st ⊆ bpa_used a) as Hsub by (cbn in U; unfold used; rewrite U; set_solver).
  split; [split; [split|..]|split]; cbn; try done.
  - by eapply heap_inv_used.
  - by eapply heap_inv_used.
  - intros p [= <-]. cbn in U, D. split; [done|]. split; [done|]. unfold used. cbn. rewrite U. set_solver.
Qed.

Lemma pool_add_spec start n st r st' :
  dma_inv st -> 0 < n -> pages_at start (Z.to_nat n) ⊆ used st ->
  (forall x, x ∈ regions (tl_inner (d_pool st)) \/ x ∈ regions (tl_inner (d_heap st)) -> pages_at start (Z.to_nat n) ## region_pages x) ->
  pool_add start (n * PAGE_SIZE_4K) st = Ret (r, st') -> dma_grows st st'.
Proof.
  intros Hinv Hn Hu Hd. pose proof Hinv as [Hh Hp Hw Ha]. unfold pool_add, tl_add_memory.
  destruct (tlsf_insert start (n * PAGE_SIZE_4K) (tl_inner (d_pool st))) as [t|] eqn:Ei; intros [= <- <-]; [|by apply dma_grows_refl].
  apply law_tlsf_insert in Ei. assert (region_pages (start, n * PAGE_SIZE_4K) = pages_at start (Z.to_nat n)) as Er
    by (unfold region_pages; cbn [fst snd]; by rewrite Z.div_mul).
  destruct Hp as [P1 P2 P3 P4]. cbn [balloc palloc] in *. split; [split|done|done|done]; cbn; try done.
  - split; cbn; [done|apply wrap_range|..]; rewrite Ei; constructor; try done; [by rewrite Er|].
    apply List.Forall_forall. intros x Hx%list_elem_of_In. rewrite Er. apply Hd. by left.
  - rewrite Ei. constructor; [cbn; by apply Z.mod_mul|done].
  - rewrite Ei. intros x y [->|Hx]%elem_of_cons Hy; [|by apply Ha]. rewrite Er. apply Hd. by right.
Qed.

Lemma update_flags_grows va n flags st r st' :
  dma_inv st -> update_flags va n flags st = Ret (r, st') -> dma_grows st st' /\ d_pool st' = d_pool st /\ d_mach st' = d_mach st.
Proof. intros [Hh Hp Hw Ha] Hr. apply update_flags_spec in Hr as [sp ->]. split; [|done]. split; [|done..]. by split. Qed.

Lemma expand_pool_grows st r st' : dma_inv st -> expand_pool st = Ret (r, st') -> dma_grows st st'.
Proof.
  intros Hinv. unfold expand_pool. unfold_M. set (n := Z.min 4 _).
  destruct (dma_pages n PAGE_SIZE_4K st) as [[r1 st1]|] eqn:E1; [|done].
  destruct (dma_pages_spec _ _ _ _ _ Hinv E1) as (G1 & P1 & Hpg). destruct r1 as [va|e]; [|by intros [= _ <-]].
  destruct (Hpg va eq_refl) as (Hn & Hd & Hu). destruct (update_flags va n COHERENT st1) as [[r2 st2]|] eqn:E2; [|done].
  destruct (update_flags_grows _ _ _ _ _ _ (dg_inv _ _ G1) E2) as (G2 & P2 & M2).
  assert (dma_grows st st2) as G by by eapply dma_grows_trans. destruct r2 as [[]|e]; [|by intros [= _ <-]].
  intros Hadd. eapply dma_grows_trans; [exact G|]. eapply pool_add_spec; [apply G2|exact Hn| |..|exact Hadd].
  - unfold used in *. by rewrite M2.
  - intros x Hx. rewrite P2, P1, (dg_heap _ _ G) in Hx. pose proof (dma_regions_used st x Hinv Hx). set_solver.
Qed.

(** Memory that a device may use: in use, none of the heap's, and not in use before
    unless it belongs to the pool. *)
Definition device_byte (st st' : St) (a : Z) : Prop :=
  exists v, v <= a < v + PAGE_SIZE_4K /\ v ∈ used st' /\
    (forall r, r ∈ regions (tl_inner (d_heap st')) -> v ∉ region_pages r) /\
    (v ∉ used st \/ exists r, r ∈ regions (tl_inner (d_pool st')) /\ v ∈ region_pages r).

Lemma pool_alloc_spec size align st r st' :
  dma_inv st -> pool_alloc size align st = Ret (r, st') ->
  dma_grows st st' /\ forall p, r = Ok (Some p) -> forall i, 0 <= i < size -> device_byte st st' (p + i).
Proof.
  intros Hinv. unfold pool_alloc, tl_alloc. destruct (tlsf_allocate size align _) as [[q t]|] eqn:Et; intros [= <- <-].
  2: { split; [by apply dma_grows_refl|done]. }
  apply law_tlsf_allocate in Et as [Er (s & n & Hin & Hs & Hn)]. pose proof Hinv as [Hh Hp Hw Ha].
  split; [split; [split|done|done|done]; cbn; rewrite ?Er; try done|].
  - destruct Hp as [P1 P2 P3 P4]. cbn in *. split; cbn; rewrite ?Er; done.
  - intros p [= <-] i Hi. pose proof (proj1 (Forall_forall _ _) Hw _ Hin) as Hm. cbn [snd] in Hm.
    set (v := s + (q + i - s) / PAGE_SIZE_4K * PAGE_SIZE_4K).
    assert (v ∈ region_pages (s, n)) as Hv.
    { unfold region_pages. cbn [fst snd]. apply elem_of_pages_at. exists (Z.to_nat ((q + i - s) / PAGE_SIZE_4K)). unfold v. lia. }
    exists v. split; [unfold v; lia|]. split; [apply (dma_regions_used st (s, n) Hinv (or_introl Hin)), Hv|]. split.
    + intros x Hx Hvx. exact (Ha (s, n) x Hin Hx v Hv Hvx).
    + right. exists (s, n). cbn. by rewrite Er.
Qed.

Lemma layout_pages_enough size i : 0 <= i < size -> size <= USIZE - PAGE_SIZE_4K -> (Z.to_nat (i / PAGE_SIZE_4K) < Z.to_nat (layout_pages size))%nat.
Proof. intros Hi Hs. unfold layout_pages. rewrite align_up_4k_spec, Z.div_mul by lia. lia. Qed.

Lemma device_byte_before st st1 st' a : used st ⊆ used st1 -> device_byte st1 st' a -> device_byte st st' a.
Proof. intros Hu (v & H1 & H2 & H3 & H4). exists v. split; [done|]. split; [done|]. split; [done|]. set_solver. Qed.

End dma_props.

(** * The machine of qemu *)

Module DmaDemo.
Import HeapDemo BootDemo.
(** The free pages of the small machine, and the kernel space of its regions. *)
Definition m0 : Mach BitmapPageAllocator := mkMach (bpa_init 1024 (at_ 0xe000) 0x10000) (fun _ => 0).
Definition booted := new_kernel_aspace 18446743798831644672 274877902848 (memory_regions ld small) m0.
Definition sp0 : AddrSpace := match booted with Ret (Ok sp, _) => sp | _ => Demo.space0 end.
Definition mB : Mach BitmapPageAllocator := match booted with Ret (_, m) => m | Panic => m0 end.
Definition st0 : DmaSt := mkDma tl_new (tl_new (T:=pool)) sp0 mB.
(** A kernel space that does not map the pages. *)
Definition unmapped : DmaSt := mkDma tl_new (tl_new (T:=pool)) Demo.space0 m0.
End DmaDemo.
Import HeapDemo DmaDemo.

Lemma demo_dma_wf (m : Mach BitmapPageAllocator) :
  base (m_fa m) = base (m_fa m0) -> length (inner (m_fa m)) = 1024%nat -> bpa_wf (m_fa m).
Proof.
  intros Hb Hl i Hi. rewrite Hb. change (base (m_fa m0)) with (PHYS_VIRT_OFFSET + 2147483648). rewrite Hl in Hi. unfold frame_ok. lia.
Qed.

Lemma dma_inv_empty {T} `{TlsfLaws T} sp m : bpa_wf (m_fa m) -> dma_inv (mkDma tl_new (tl_new (T:=T)) sp m).
Proof.
  intros W. split; cbn [d_pool d_heap tl_inner tl_new].
  1,2: split; cbn; [done|done|rewrite law_tlsf_new; constructor..].
  - rewrite law_tlsf_new. constructor.
  - intros r r' Hr. rewrite law_tlsf_new in Hr. by apply not_elem_of_nil in Hr.
Qed.

Lemma demo_dma_inv : dma_inv st0.
Proof. apply dma_inv_empty. apply demo_dma_wf; vm_compute; reflexivity. Qed.

Definition info_of (r : outcome (result DMAInfo AllocError * DmaSt (T:=pool))) : option DMAInfo :=
  match r with Ret (Ok d, _) => Some d | _ => None end.

Lemma demo_info : info_of (alloc_coherent 0 100 8 st0) = Some (mkDMA 18446743800981303296 2149658624).
Proof. vm_compute. reflexivity. Qed.


(** Pages whose mapping cannot be changed are lost: the call fails, and they stay in use
    without belonging to the pool, the heap or the caller. *)
Example alloc_coherent_leaks :
  match alloc_coherent 0 8192 8 unmapped with
  | Ret (Err AllocNoMemory, st') =>
      (regions (tl_inner (d_pool st')), regions (tl_inner (d_heap st')),
       pa_available_pages (m_fa (d_mach unmapped)), pa_available_pages (m_fa (d_mach st'))) = ([], [], 16, 14)
  | _ => False
  end.
Proof. vm_compute. reflexivity. Qed.
