(* ===== verification/Mmap.v ===== *)
(** Memory system calls: src/src/syscall_imp/mm/mmap.rs ([sys_mmap],
    [sys_munmap]) and mm/brk.rs ([sys_brk]). *)
From S2P Require Import Prelude Errno MemAddr Frames Paging MemorySet AddrSpace.
From S2P Require Import AddrSpaceInv AddrSpaceCorrect UserMem MemTheorems.
Import MappingFlags.

(** * Flags *)

Definition PROT_READ : Z := 1.
Definition PROT_WRITE : Z := 2.
Definition PROT_EXEC : Z := 4.
(** [MmapProt::from_bits_truncate]. *)
Definition MmapProt_truncate (prot : Z) : Z := Z.land prot 7.

(** [impl From<MmapProt> for MappingFlags]. *)
Definition prot_to_flags (prot : Z) : Z :=
  let flags := USER in
  let flags := if contains prot PROT_READ then Z.lor flags READ else flags in
  let flags := if contains prot PROT_WRITE then Z.lor flags WRITE else flags in
  if contains prot PROT_EXEC then Z.lor flags EXECUTE else flags.

Definition MAP_SHARED : Z := 1.
Definition MAP_PRIVATE : Z := 2.
Definition MAP_FIXED : Z := 16.
Definition MAP_ANONYMOUS : Z := 32.
Definition MAP_NORESERVE : Z := 16384.
Definition MAP_STACK : Z := 131072.
(** [MmapFlags::from_bits_truncate]. *)
Definition MmapFlags_truncate (flags : Z) : Z :=
  Z.land flags (Z.lor MAP_SHARED (Z.lor MAP_PRIVATE (Z.lor MAP_FIXED
    (Z.lor MAP_ANONYMOUS (Z.lor MAP_NORESERVE MAP_STACK))))).

(** * [sys_mmap] *)

(** What [sys_mmap] uses of an open file: the size its [stat] reports, whether it
    is a regular [File] (the [downcast]), and the bytes [read_at] delivers for an
    offset and a length. *)
Record MapFile := mkMapFile {
  f_stat : result Z LinuxError;
  f_regular : bool;
  f_read_at : Z -> Z -> result (list Z) AxError;
}.

(** The first part of [sys_mmap]: the address and length after rounding. *)
Definition mmap_align (addr length : Z) : Z * Z :=
  if addr =? 0 then (addr, align_up_4k length)
  else
    let start := addr in
    let end_ := start +w length in
    (align_down_4k start, align_up_4k end_ -w start).

Section mmap.
Context {FA : Type} `{FrameAllocator FA}.
(** [get_file_like(fd)] of the file descriptor table. *)
Variable get_file : Z -> result MapFile LinuxError.

(** Run an address-space operation inside a [LinuxResult] body. *)
Definition lift_ax {A} (f : AsM (FA:=FA) AxError A) : AsM LinuxError A := map_err ax_to_linux f.

(** [aspace.write(start, buf)?]. *)
Definition write_user (start : Z) (buf : list Z) : AsM (FA:=FA) AxError unit := fun '(sp, m) =>
  match as_write start buf sp m with
  | Ret (m', r) => Ret (r, (sp, m'))
  | Panic => Panic
  end.

(** Copy the file into the new mapping. *)
Definition mmap_load (start_addr length fd offset : Z) : AsM (FA:=FA) LinuxError unit :=
  file ← try_ (get_file fd);
  file_size ← try_ (f_stat file);
  _ ← ensure (f_regular file) EBADF;
  _ ← ensure (negb ((offset <? 0) || (file_size <=? offset))) EINVAL;
  let length := Z.min length (file_size -w offset) in
  data ← try_ (ax_result (f_read_at file offset length));
  lift_ax (write_user start_addr (resize data length)).

(** The body of [sys_mmap]. *)
Definition sys_mmap_body (addr length prot flags fd offset : Z) : AsM (FA:=FA) LinuxError Z :=
  let permission_flags := MmapProt_truncate prot in
  let map_flags := MmapFlags_truncate flags in
  let '(addr, aligned_length) := mmap_align addr length in
  sp ← lift_ax get_space;
  let limit := as_range sp in
  start_addr ←
    (if contains map_flags MAP_FIXED then mret addr
     else
       match as_find_free_area sp addr aligned_length limit with
       | Some a => mret a
       | None => ok_or (as_find_free_area sp (r_start limit) aligned_length limit) ENOMEM
       end);
  let populate := if fd =? -1 then false else negb (contains map_flags MAP_ANONYMOUS) in
  _ ← lift_ax (map_alloc start_addr aligned_length (prot_to_flags permission_flags) populate);
  _ ← (if populate then mmap_load start_addr length fd offset else mret tt);
  mret start_addr.

(** [sys_mmap]; the result is a [usize]. *)
Definition sys_mmap (addr length prot flags fd offset : Z) (st : AddrSpace * Mach FA)
  : outcome (Z * (AddrSpace * Mach FA)) :=
  syscall_run wrap (sys_mmap_body addr length prot flags fd offset) st.

(** [sys_munmap]; the result is an [i32]. *)
Definition sys_munmap_body (addr length : Z) : AsM (FA:=FA) LinuxError Z :=
  let length := align_up_4k length in
  _ ← lift_ax (as_unmap addr length);
  mret 0.
Definition sys_munmap (addr length : Z) (st : AddrSpace * Mach FA)
  : outcome (Z * (AddrSpace * Mach FA)) :=
  syscall_run as_i32 (sys_munmap_body addr length) st.
End mmap.

(** * [sys_brk] *)

Definition MAX_HEAP_SIZE : Z := 131072.

(** The heap bounds of a task: [heap_bottom] and [heap_top] of [TaskExt]. *)
Record Heap := mkHeap { heap_bottom : Z; heap_top : Z }.

(** [sys_brk]: the program break and the heap afterwards. *)
Definition sys_brk (addr : Z) (h : Heap) : Z * Heap :=
  if negb (addr =? 0) && (heap_bottom h <=? addr) && (addr <=? heap_bottom h +w MAX_HEAP_SIZE)
  then (as_i64 addr, mkHeap (heap_bottom h) addr)
  else (as_i64 (heap_top h), h).

(** * Properties *)

Lemma prot_to_flags_ok prot : 0 < prot_to_flags prot < 16.
Proof.
  unfold prot_to_flags.
  destruct (contains prot PROT_READ), (contains prot PROT_WRITE), (contains prot PROT_EXEC);
    vm_compute; split; congruence.
Qed.

Lemma mmap_align_aligned addr length :
  0 <= addr <= 274877906944 -> addr mod PAGE_SIZE_4K = 0 -> 0 < length <= 274877906944 ->
  mmap_align addr length = (addr, (length + 4095) / PAGE_SIZE_4K * PAGE_SIZE_4K).
Proof.
  intros Ha Hm Hl. unfold mmap_align. destruct (Z.eqb_spec addr 0) as [->|].
  - by rewrite align_up_4k_spec by lia.
  - rewrite wadd_small, align_up_4k_spec, align_down_4k_id by (unfold is_usize; lia).
    f_equal. rewrite wsub_small; lia.
Qed.

Section mmap_props.
Context {FA : Type} `{FrameAllocatorLaws FA}.
Variable get_file : Z -> result MapFile LinuxError.
Implicit Types (sp : AddrSpace) (m : Mach FA).

(** The rounded length of a mapping. *)
Definition page_len (length : Z) : Z := (length + 4095) / PAGE_SIZE_4K * PAGE_SIZE_4K.

(** The search of [sys_mmap] for a free range, from an aligned hint. *)
Lemma mmap_search sp m addr len :
  as_inv sp m -> r_start (as_range sp) mod PAGE_SIZE_4K = 0 -> 0 < len -> addr mod PAGE_SIZE_4K = 0 ->
  match as_find_free_area sp addr len (as_range sp) with
  | Some a => Some a
  | None => as_find_free_area sp (r_start (as_range sp)) len (as_range sp)
  end = None /\
  (forall x, r_start (as_range sp) <= x -> x + len <= r_end (as_range sp) ->
     ms_overlaps (as_areas sp) (mkRange x (x + len)) = true) \/
  exists a,
  match as_find_free_area sp addr len (as_range sp) with
  | Some a => Some a
  | None => as_find_free_area sp (r_start (as_range sp)) len (as_range sp)
  end = Some a /\
  a mod PAGE_SIZE_4K = 0 /\ r_start (as_range sp) <= a /\ a + len <= r_end (as_range sp) /\
  ms_overlaps (as_areas sp) (mkRange a (a + len)) = false.
Proof.
  intros Hinv Hb Hlen Ha. destruct (ai_range _ _ Hinv) as [Hr1 Hr2].
  destruct (as_find_free_area sp addr len (as_range sp)) as [a|] eqn:E1.
  { right. exists a. split; [done|]. by apply (find_free_aligned sp m addr). }
  destruct (as_find_free_area sp (r_start (as_range sp)) len (as_range sp)) as [a|] eqn:E2.
  { right. exists a. split; [done|]. by apply (find_free_aligned sp m (r_start (as_range sp))). }
  left. split; [done|]. intros x Hx Hxe. apply not_false_iff_true. intros Ho.
  destruct (ms_find_free_complete (as_areas sp) (r_start (as_range sp)) len (as_range sp) x) as [a Hs];
    try done; try lia; [apply Hinv|].
  unfold as_find_free_area in E2. congruence.
Qed.

Lemma map_alloc_view sp m start size f pop addr :
  as_inv sp m -> 0 < size -> r_start (as_range sp) <= start -> start + size <= r_end (as_range sp) ->
  ms_overlaps (as_areas sp) (mkRange start (start + size)) = false ->
  view (bt_insert start (mkArea (mkRange start (start + size)) f (Alloc pop)) (as_areas sp)) addr
  = if r_contains (mkRange start (start + size)) addr then Some (f, Alloc pop)
    else view (as_areas sp) addr.
Proof.
  intros Hinv Hsz Hlo Hhi Ho. destruct (ai_range _ _ Hinv) as [Hr1 Hr2].
  apply ms_insert_spec; [apply Hinv| |done]. split_and!; cbn; lia.
Qed.

(** An anonymous [sys_mmap] with an aligned hint returns the page-aligned start
    of a range that was free; exactly that range is added, lazily and with the
    requested protection. It answers [ENOMEM] only when no free range of the rounded
    length exists in the address space, without any effect, and [EFAULT] only when
    the frames for page tables ran out. *)
Theorem mmap_anonymous_correct sp m addr length prot flags fd offset :
  as_inv sp m -> r_start (as_range sp) mod PAGE_SIZE_4K = 0 ->
  0 < length <= 274877906944 -> 0 <= addr <= 274877906944 -> addr mod PAGE_SIZE_4K = 0 ->
  contains (MmapFlags_truncate flags) MAP_FIXED = false ->
  ((fd =? -1) || contains (MmapFlags_truncate flags) MAP_ANONYMOUS)%bool = true ->
  exists r sp' m',
    sys_mmap_body get_file addr length prot flags fd offset (sp, m) = Ret (r, (sp', m')) /\
    match r with
    | Ok a => a mod PAGE_SIZE_4K = 0 /\ as_inv sp' m' /\
        ms_overlaps (as_areas sp) (mkRange a (a + page_len length)) = false /\
        (forall va, view (as_areas sp') va =
           if r_contains (mkRange a (a + page_len length)) va
           then Some (prot_to_flags (MmapProt_truncate prot), Alloc false) else view (as_areas sp) va)
    | Err e =>
        (e = ENOMEM /\ sp' = sp /\ m' = m /\
         forall x, r_start (as_range sp) <= x -> x + page_len length <= r_end (as_range sp) ->
           ms_overlaps (as_areas sp) (mkRange x (x + page_len length)) = true) \/
        (e = EFAULT /\ fa_alloc (m_fa m') = None)
    end.
Proof.
  intros Hinv Hb Hl Ha Ham Hfix Hanon. unfold sys_mmap_body.
  rewrite mmap_align_aligned by done. fold (page_len length).
  assert (Hlen : 0 < page_len length) by (unfold page_len; lia).
  unfold lift_ax. unfold_M. cbn [get_space]. rewrite Hfix.
  replace (if fd =? -1 then false else negb (contains (MmapFlags_truncate flags) MAP_ANONYMOUS)) with false
    by (destruct (fd =? -1); [done|]; cbn in Hanon; by rewrite Hanon).
  destruct (mmap_search sp m addr (page_len length) Hinv Hb Hlen Ham) as [[Es Hno]|(a & Es & Ham' & Hlo & Hhi & Ho)].
  - exists (Err ENOMEM), sp, m. split; [|left; done].
    destruct (as_find_free_area sp addr _ _); [done|]. by rewrite Es.
  - destruct (map_alloc_spec sp m a (page_len length) (prot_to_flags (MmapProt_truncate prot)) false Hinv)
      as (r & sp' & m' & Hrun & _ & Hr); try done; [unfold page_len; apply Z.mod_mul; lia|apply prot_to_flags_ok|].
    exists (match r with Ok _ => Ok a | Err e => Err (ax_to_linux e) end), sp', m'. split.
    + destruct (as_find_free_area sp addr _ _) as [a'|]; [injection Es as ->|rewrite Es];
        rewrite Hrun; by destruct r.
    + destruct r as [[]|e]; [|right; by destruct Hr as [-> ?]].
      destruct Hr as (Hinv' & _ & Hareas & _). split_and!; try done.
      intros va. rewrite Hareas. by apply (map_alloc_view sp m).
Qed.

Lemma resize_lookup data n i :
  (i < Z.to_nat n)%nat -> (length data <= Z.to_nat n)%nat ->
  resize data n !! i = Some (default 0 (data !! i)).
Proof.
  intros Hi Hd. unfold resize. rewrite lookup_take_lt by done.
  destruct (decide (i < length data)%nat) as [Hlt|Hge].
  - rewrite lookup_app_l by done. by destruct (lookup_lt_is_Some_2 data i Hlt) as [x ->].
  - rewrite lookup_app_r, lookup_replicate_2 by lia. by rewrite lookup_ge_None_2 by lia.
Qed.

Lemma resize_length data n : (length data <= Z.to_nat n)%nat -> length (resize data n) = Z.to_nat n.
Proof. intros Hd. unfold resize. rewrite length_take, length_app, length_replicate. lia. Qed.

(** A write below the top of the address space returns, whatever is mapped. *)
Lemma as_write_total sp m start buf :
  0 <= start -> start + Z.of_nat (length buf) <= 274877906944 ->
  exists m' r, as_write start buf sp m = Ret (m', r) /\ m_fa m' = m_fa m.
Proof.
  intros Hs He. unfold as_write, process_area_data, try_from_start_size, checked_add.
  destruct (Z.ltb_spec (start + Z.of_nat (length buf)) USIZE); [|lia].
  destruct (contains_range _ _); cbn [negb]; [|by eexists _, _].
  rewrite wadd_small, align_up_4k_spec, align_down_4k_spec by (unfold is_usize; lia).
  rewrite PageIter4K_aligned by (apply Z.mod_mul; lia).
  destruct (process_loop _ _ _ _ _) as [chunks r]. by eexists _, _.
Qed.

(** [mmap_load] on a readable file is a write of the padded data. *)
Lemma mmap_load_eq sp m a length fd offset file fsz data :
  get_file fd = Ok file -> f_stat file = Ok fsz -> f_regular file = true ->
  0 <= offset < fsz -> fsz < 2 ^ 63 ->
  f_read_at file offset (Z.min length (fsz - offset)) = Ok data ->
  mmap_load get_file a length fd offset (sp, m) =
    match as_write a (resize data (Z.min length (fsz - offset))) sp m with
    | Ret (m', r) => Ret (ax_result r, (sp, m'))
    | Panic => Panic
    end.
Proof.
  intros Hget Hst Hreg Ho Hf Hrd. change (2 ^ 63) with 9223372036854775808 in Hf.
  unfold mmap_load, lift_ax, write_user, ax_result. unfold_M. rewrite Hget, Hst, Hreg.
  destruct (Z.ltb_spec offset 0), (Z.leb_spec fsz offset); try lia. cbn.
  rewrite wsub_small, Hrd by lia. cbn. by destruct (as_write _ _ _ _) as [[? [?|?]]|].
Qed.

(** Loading a file into a populated mapping whose pages all have frames. *)
Lemma mmap_load_spec sp m a length fd offset file fsz data :
  as_inv sp m -> 0 < length ->
  get_file fd = Ok file -> f_stat file = Ok fsz -> f_regular file = true ->
  0 <= offset < fsz -> fsz < 2 ^ 63 ->
  let n := Z.min length (fsz - offset) in
  f_read_at file offset n = Ok data -> (List.length data <= Z.to_nat n)%nat ->
  r_start (as_range sp) <= a -> a + n <= r_end (as_range sp) -> all_mapped (as_pt sp) a n ->
  exists m', mmap_load get_file a length fd offset (sp, m) = Ret (Ok tt, (sp, m')) /\
    m_fa m' = m_fa m /\
    forall i, (i < Z.to_nat n)%nat ->
      user_byte (as_pt sp) m' (a + Z.of_nat i) = Some (default 0 (data !! i)).
Proof.
  intros Hinv Hl Hget Hst Hreg Ho Hf n Hrd Hd Hlo Hhi Hmap. destruct (ai_range _ _ Hinv) as [Hr1 Hr2].
  assert (Hn : 0 < n) by lia.
  pose proof (resize_length data n Hd) as Hrl.
  destruct (as_write_spec sp m a (resize data n)) as (m' & Hw & _ & Hb & _);
    rewrite ?Hrl, ?Z2Nat.id by lia; try done; [lia|].
  assert (Hfa : m_fa m' = m_fa m).
  { unfold as_write in Hw. destruct (process_area_data _ _ _ _) as [[? ?]|]; [|done]. by injection Hw as <- _. }
  exists m'. split_and!; [|done|].
  - rewrite (mmap_load_eq sp m a length fd offset file fsz data); try done. fold n. by rewrite Hw.
  - intros i Hi. rewrite Hb by lia. rewrite Hrl, Z2Nat.id by lia.
    rewrite (proj2 (Z.leb_le _ _)), (proj2 (Z.ltb_lt _ _)) by lia. cbn.
    replace (Z.to_nat (a + Z.of_nat i - a)) with i by lia. by rewrite resize_lookup.
Qed.

(** C27: A file [sys_mmap] with an aligned hint places the bytes of the file at the
    address it returns, zero-filled after a short read, for the smaller of the
    length and the rest of the file; otherwise it answers [ENOMEM] without effect
    or the machine is out of frames. *)
Theorem mmap_file_correct sp m addr length prot flags fd offset file fsz data :
  as_inv sp m -> r_start (as_range sp) mod PAGE_SIZE_4K = 0 ->
  0 < length <= 274877906944 -> 0 <= addr <= 274877906944 -> addr mod PAGE_SIZE_4K = 0 ->
  contains (MmapFlags_truncate flags) MAP_FIXED = false ->
  fd <> -1 -> contains (MmapFlags_truncate flags) MAP_ANONYMOUS = false ->
  get_file fd = Ok file -> f_stat file = Ok fsz -> f_regular file = true ->
  0 <= offset < fsz -> fsz < 2 ^ 63 ->
  f_read_at file offset (Z.min length (fsz - offset)) = Ok data ->
  (List.length data <= Z.to_nat (Z.min length (fsz - offset)))%nat ->
  exists r sp' m',
    sys_mmap_body get_file addr length prot flags fd offset (sp, m) = Ret (r, (sp', m')) /\
    (fa_alloc (m_fa m') = None \/ (r = Err ENOMEM /\ sp' = sp /\ m' = m) \/
     exists a, r = Ok a /\ a mod PAGE_SIZE_4K = 0 /\
       forall i, (i < Z.to_nat (Z.min length (fsz - offset)))%nat ->
         user_byte (as_pt sp') m' (a + Z.of_nat i) = Some (default 0 (data !! i))).
Proof.
  intros Hinv Hb Hl Ha Ham Hfix Hfd Hanon Hget Hst Hreg Ho Hf Hrd Hd. unfold sys_mmap_body.
  rewrite mmap_align_aligned by done. fold (page_len length).
  assert (Hlen : 0 < page_len length /\ length <= page_len length) by (unfold page_len; lia).
  destruct (ai_range _ _ Hinv) as [Hr1 Hr2].
  unfold lift_ax. unfold_M. cbn [get_space]. rewrite Hfix, Hanon.
  destruct (Z.eqb_spec fd (-1)) as [|_]; [done|]. cbn [negb].
  destruct (mmap_search sp m addr (page_len length) Hinv Hb ltac:(lia) Ham) as [[Es _]|(a & Es & Ham' & Hlo & Hhi & Ho')].
  { exists (Err ENOMEM), sp, m. split; [|right; left; done].
    destruct (as_find_free_area sp addr _ _); [done|]. by rewrite Es. }
  destruct (map_alloc_spec sp m a (page_len length) (prot_to_flags (MmapProt_truncate prot)) true Hinv)
    as (r & sp' & m' & Hrun & _ & Hr); try done; try lia; [unfold page_len; apply Z.mod_mul; lia|apply prot_to_flags_ok|].
  destruct r as [[]|e].
  2: { exists (Err (ax_to_linux e)), sp', m'. split; [|left; by destruct Hr].
       destruct (as_find_free_area sp addr _ _) as [a'|]; [injection Es as ->|rewrite Es]; by rewrite Hrun. }
  destruct Hr as (Hinv' & Hrange & _ & Hpages).
  assert (Hcase : fa_alloc (m_fa m') = None \/ all_mapped (as_pt sp') a (Z.min length (fsz - offset))).
  { destruct (fa_alloc (m_fa m')) as [x|] eqn:Efa; [right|by left]. intros va Hva.
    rewrite frame_at_page by lia. destruct (page_of va ltac:(lia)) as (Hu & Hle & _).
    eapply (proj1 (Forall_forall _ _)) with (x := align_down_4k va) in Hpages as [(p & _ & -> & _)|[_ ?]];
      [by eexists|done|].
    apply elem_of_range_pages; [lia|done|unfold page_len; apply Z.mod_mul; lia|].
    destruct Hu as [? ?]. split; [lia|done]. }
  destruct Hcase as [Hex|Hmap].
  - destruct (as_write_total sp' m' a (resize data (Z.min length (fsz - offset)))) as (m2 & r2 & Hw & Hfa);
      [lia|rewrite resize_length by done; lia|].
    exists (match ax_result r2 with Ok _ => Ok a | Err e => Err e end), sp', m2. split.
    + destruct (as_find_free_area sp addr _ _) as [a'|]; [injection Es as ->|rewrite Es];
        rewrite Hrun, (mmap_load_eq sp' m' a length fd offset file fsz data), Hw by done;
        by destruct r2.
    + left. by rewrite Hfa.
  - destruct (mmap_load_spec sp' m' a length fd offset file fsz data) as (m2 & Hload & _ & Hbytes);
      rewrite ?Hrange; try done; try lia.
    exists (Ok a), sp', m2. split.
    + destruct (as_find_free_area sp addr _ _) as [a'|]; [injection Es as ->|rewrite Es]; by rewrite Hrun, Hload.
    + right; right. by exists a.
Qed.

(** A rejected mapping request leaves the state alone. *)
Lemma map_alloc_misaligned sp m start size f pop :
  start + size < USIZE -> size mod PAGE_SIZE_4K <> 0 ->
  map_alloc start size f pop (sp, m) = Ret (Err InvalidInput, (sp, m)).
Proof.
  intros Hov Hm. unfold map_alloc. unfold_M. rewrite check_page_range_spec by done.
  assert (is_aligned_4k size = false) as ->
    by (apply not_true_iff_false; by rewrite is_aligned_4k_spec).
  by rewrite !andb_false_r.
Qed.

(** An address that is not page aligned is never accepted, not even as a hint:
    the length is computed from the unrounded start, so the request is refused with
    [EINVAL] (or [ENOMEM]) and nothing is mapped. *)
Theorem mmap_unaligned_rejected sp m addr length prot flags fd offset :
  r_end (as_range sp) < USIZE -> 0 < addr -> 0 < length -> addr + length <= 274877906944 ->
  addr mod PAGE_SIZE_4K <> 0 ->
  exists e, sys_mmap_body get_file addr length prot flags fd offset (sp, m) = Ret (Err e, (sp, m)) /\
    (e = EINVAL \/ e = ENOMEM).
Proof.
  intros Hend Ha Hl Hov Hm. unfold sys_mmap_body, mmap_align.
  destruct (Z.eqb_spec addr 0); [lia|].
  rewrite wadd_small, align_up_4k_spec, align_down_4k_spec by (unfold is_usize; lia).
  rewrite wsub_small by lia.
  set (len := (addr + length + 4095) / PAGE_SIZE_4K * PAGE_SIZE_4K - addr).
  assert (Hlm : len mod PAGE_SIZE_4K <> 0) by lia. unfold lift_ax. unfold_M. cbn [get_space].
  assert (Hgo : forall hint a, as_find_free_area sp hint len (as_range sp) = Some a -> a + len < USIZE).
  { intros hint a Hs. unfold as_find_free_area, ms_find_free_area in Hs.
    generalize dependent (Z.max hint (r_start (as_range sp))).
    induction (as_areas sp) as [|[k ar] l IH]; intros z; cbn; [|destruct (fits _ _ k) eqn:F; [|apply IH]];
      [destruct (fits _ _ _) eqn:F; [|done]|]; intros [= <-]; apply fits_spec in F; lia. }
  destruct (contains (MmapFlags_truncate flags) MAP_FIXED).
  - rewrite map_alloc_misaligned by lia. exists EINVAL. auto.
  - destruct (as_find_free_area sp _ len (as_range sp)) as [a|] eqn:E1.
    + rewrite map_alloc_misaligned; [exists EINVAL; auto|by eapply Hgo|done].
    + destruct (as_find_free_area sp (r_start (as_range sp)) len (as_range sp)) as [a|] eqn:E2.
      * rewrite map_alloc_misaligned; [exists EINVAL; auto|by eapply Hgo|done].
      * exists ENOMEM. auto.
Qed.

(** [MAP_FIXED] on a range that overlaps an existing area is refused with
    [EEXIST] and changes nothing: the old mapping is not replaced. *)
Theorem mmap_fixed_overlap_rejected sp m addr length prot flags fd offset :
  as_inv sp m -> 0 < length <= 274877906944 -> 0 < addr <= 274877906944 -> addr mod PAGE_SIZE_4K = 0 ->
  contains (MmapFlags_truncate flags) MAP_FIXED = true ->
  r_start (as_range sp) <= addr -> addr + page_len length <= r_end (as_range sp) ->
  ms_overlaps (as_areas sp) (mkRange addr (addr + page_len length)) = true ->
  sys_mmap_body get_file addr length prot flags fd offset (sp, m) = Ret (Err EEXIST, (sp, m)).
Proof.
  intros Hinv Hl Ha Ham Hfix Hlo Hhi Ho. destruct (ai_range _ _ Hinv) as [Hr1 Hr2].
  unfold sys_mmap_body. rewrite mmap_align_aligned by lia. fold (page_len length).
  assert (Hpl : 0 < page_len length /\ page_len length mod PAGE_SIZE_4K = 0)
    by (unfold page_len; split; [lia|apply Z.mod_mul; lia]).
  unfold lift_ax, map_alloc. unfold_M. cbn [get_space]. rewrite Hfix.
  rewrite check_page_range_spec by lia.
  rewrite (proj2 (contains_range_spec _ _)) by (cbn; lia).
  rewrite (proj2 (is_aligned_4k_spec addr)), (proj2 (is_aligned_4k_spec (page_len length))) by lia. cbn [andb].
  unfold area_new, from_start_size, checked_add. unfold_M.
  destruct (Z.ltb_spec (addr + page_len length) USIZE); [|lia].
  unfold on_areas, ms_map. unfold_M. unfold r_is_empty; cbn [r_start r_end va_range].
  destruct (Z.leb_spec (addr + page_len length) addr); [lia|]. cbn [negb get_areas].
  rewrite Ho. cbn. by destruct sp.
Qed.
End mmap_props.

(** [sys_munmap] of a page-aligned address inside the address space returns 0,
    removes exactly the pages of the rounded range and keeps the invariant; a
    misaligned or outside range is refused with [EINVAL] and no effect. *)
Theorem munmap_correct {FA} `{FrameAllocatorLaws FA} (sp : AddrSpace) (m : Mach FA) addr length :
  as_inv sp m -> 0 < length <= 274877906944 -> 0 <= addr <= 274877906944 ->
  exists z sp' m', sys_munmap addr length (sp, m) = Ret (z, (sp', m')) /\ as_inv sp' m' /\
    if contains_range (as_range sp) (mkRange addr (addr + page_len length)) && is_aligned_4k addr
    then z = 0 /\
      (forall va, view (as_areas sp') va =
         if r_contains (mkRange addr (addr + page_len length)) va then None else view (as_areas sp) va)
    else z = -22 /\ sp' = sp /\ m' = m.
Proof.
  intros Hinv Hl Ha. unfold sys_munmap, syscall_run, sys_munmap_body, lift_ax. unfold_M.
  rewrite align_up_4k_spec by lia. fold (page_len length).
  assert (Hpl : 0 < page_len length /\ page_len length mod PAGE_SIZE_4K = 0 /\ page_len length < 274877911040)
    by (unfold page_len; split_and!; [lia|apply Z.mod_mul; lia|lia]).
  destruct (_ && is_aligned_4k addr)%bool eqn:E.
  - apply andb_true_iff in E as [[Hlo Hhi]%contains_range_spec Hal%is_aligned_4k_spec]. cbn in Hlo, Hhi.
    destruct (as_unmap_run sp m addr (page_len length)) as (pt' & m' & -> & Hinv' & _); try done; try lia.
    eexists 0, _, m'. split; [done|]. split; [done|]. split; [done|]. intros va.
    apply spec_unmap_view; [lia|apply Hinv].
  - exists (-22), sp, m. split; [|done]. unfold as_unmap. unfold_M. rewrite check_page_range_spec by lia.
    rewrite (proj2 (is_aligned_4k_spec (page_len length))) by lia. rewrite andb_true_r, E. done.
Qed.

(** [sys_brk] moves the break exactly to addresses of
    [heap_bottom, heap_bottom + MAX_HEAP_SIZE], returns the current break in every
    other case, and keeps the break inside that window. *)
Theorem brk_correct addr h :
  0 <= heap_bottom h -> heap_bottom h + MAX_HEAP_SIZE < 2 ^ 63 -> 0 <= addr < USIZE ->
  heap_bottom h <= heap_top h <= heap_bottom h + MAX_HEAP_SIZE ->
  exists h', sys_brk addr h = (heap_top h', h') /\ heap_bottom h' = heap_bottom h /\
    heap_bottom h' <= heap_top h' <= heap_bottom h' + MAX_HEAP_SIZE /\
    (heap_top h' = addr <->
       addr = heap_top h \/ (addr <> 0 /\ heap_bottom h <= addr <= heap_bottom h + MAX_HEAP_SIZE)).
Proof.
  change (2 ^ 63) with 9223372036854775808. change MAX_HEAP_SIZE with 131072.
  intros Hb Hmax Ha Ht. unfold sys_brk. change MAX_HEAP_SIZE with 131072. rewrite wadd_small by lia.
  destruct (negb (addr =? 0) && (heap_bottom h <=? addr) && (addr <=? heap_bottom h + 131072))%bool eqn:E;
    [exists (mkHeap (heap_bottom h) addr)|exists h]; bool_to_prop; rewrite as_i64_small by lia; cbn.
  - split_and!; reflexivity || lia.
  - split_and!; reflexivity || lia.
Qed.

(** * Concrete runs *)

Module MmapDemo.
Definition no_files : Z -> result MapFile LinuxError := fun _ => Err EBADF.
(** A file of 6 bytes behind descriptor 3. *)
Definition file : MapFile :=
  mkMapFile (Ok 6) true (fun off n => Ok (take (Z.to_nat n) (drop (Z.to_nat off) [10; 11; 12; 13; 14; 15]))).
Definition files (fd : Z) : result MapFile LinuxError := if fd =? 3 then Ok file else Err EBADF.
End MmapDemo.

Lemma mmap_anonymous_correct_witness :
  exists r sp' m',
    sys_mmap_body MmapDemo.no_files 0 5000 3 34 (-1) 0 (fst Demo.lazy_st, snd Demo.lazy_st)
      = Ret (r, (sp', m')) /\
    match r with
    | Ok a => a mod PAGE_SIZE_4K = 0 /\ as_inv sp' m'
    | Err e => e = ENOMEM \/ fa_alloc (m_fa m') = None
    end.
Proof.
  destruct (mmap_anonymous_correct MmapDemo.no_files (fst Demo.lazy_st) (snd Demo.lazy_st) 0 5000 3 34 (-1) 0
    demo_lazy_inv ltac:(vm_compute; reflexivity) ltac:(lia) ltac:(lia) eq_refl eq_refl eq_refl)
    as (r & sp' & m' & Hrun & Hr).
  exists r, sp', m'. split; [exact Hrun|]. destruct r as [a|e].
  - destruct Hr as (H1 & H2 & _). exact (conj H1 H2).
  - destruct Hr as [(H1 & _)|(_ & H1)]; [left; exact H1|right; exact H1].
Defined.

Lemma mmap_file_correct_witness :
  exists r sp' m',
    sys_mmap_body MmapDemo.files 0 5000 3 2 3 2 (Demo.space0, Demo.m1) = Ret (r, (sp', m')) /\
    (fa_alloc (m_fa m') = None \/ (r = Err ENOMEM /\ sp' = Demo.space0 /\ m' = Demo.m1) \/
     exists a, r = Ok a /\ a mod PAGE_SIZE_4K = 0 /\
       forall i, (i < 4)%nat ->
         user_byte (as_pt sp') m' (a + Z.of_nat i) = Some (default 0 ([12; 13; 14; 15] !! i))).
Proof.
  apply (mmap_file_correct MmapDemo.files Demo.space0 Demo.m1 0 5000 3 2 3 2 MmapDemo.file 6);
    try reflexivity; try lia.
  - apply demo_inv0.
Defined.

Lemma mmap_unaligned_rejected_witness :
  exists e, sys_mmap_body MmapDemo.no_files 65537 4096 3 50 (-1) 0 (Demo.space0, Demo.m1)
      = Ret (Err e, (Demo.space0, Demo.m1)) /\ (e = EINVAL \/ e = ENOMEM).
Proof.
  apply (mmap_unaligned_rejected MmapDemo.no_files Demo.space0 Demo.m1 65537 4096 3 50 (-1) 0);
    try lia; vm_compute; reflexivity || discriminate.
Defined.

Lemma mmap_fixed_overlap_rejected_witness :
  sys_mmap_body MmapDemo.no_files 69632 4096 3 50 (-1) 0 (fst Demo.lazy_st, snd Demo.lazy_st)
    = Ret (Err EEXIST, (fst Demo.lazy_st, snd Demo.lazy_st)).
Proof.
  apply (mmap_fixed_overlap_rejected MmapDemo.no_files (fst Demo.lazy_st) (snd Demo.lazy_st)
    69632 4096 3 50 (-1) 0 demo_lazy_inv); try lia; vm_compute; reflexivity || discriminate.
Defined.

Lemma munmap_correct_witness :
  exists z sp' m', sys_munmap 69632 100 (fst Demo.lazy_st, snd Demo.lazy_st) = Ret (z, (sp', m')) /\
    as_inv sp' m'.
Proof.
  destruct (munmap_correct (fst Demo.lazy_st) (snd Demo.lazy_st) 69632 100 demo_lazy_inv
    ltac:(lia) ltac:(lia)) as (z & sp' & m' & Hrun & Hinv & _).
  exists z, sp', m'. exact (conj Hrun Hinv).
Defined.

Lemma brk_correct_witness :
  exists h', sys_brk 65636 (mkHeap 65536 65536) = (heap_top h', h') /\ heap_bottom h' = 65536 /\
    heap_bottom h' <= heap_top h' <= heap_bottom h' + MAX_HEAP_SIZE /\
    (heap_top h' = 65636 <->
       65636 = 65536 \/ (65636 <> 0 /\ 65536 <= 65636 <= 65536 + MAX_HEAP_SIZE)).
Proof. apply (brk_correct 65636 (mkHeap 65536 65536)); vm_compute; repeat split; discriminate. Defined.
