(* ===== verification/FdTable.v ===== *)
(** File descriptors: the table [FlattenObjects] (vendor/flatten_objects) behind
    [FD_TABLE], and the descriptor operations of
    arceos/api/arceos_posix_api/src/imp/fd_ops.rs with [sys_pipe] of imp/pipe.rs. *)
From S2P Require Import Prelude Errno.

(** * [FlattenObjects] *)

Definition CAP : nat := 1024.

(** [FlattenObjects]: slot [i] holds a value exactly when bit [i] of [id_bitmap] is
    set. *)
Record FlattenObjects (T : Type) := mkFO { objects : list (option T); count : Z }.
Arguments mkFO {T} _ _.
Arguments objects {T} _.
Arguments count {T} _.

Section flatten_objects.
Context {T : Type}.
Implicit Types (t : FlattenObjects T) (id : Z).

Definition fo_new : FlattenObjects T := mkFO (replicate CAP None) 0.

(** [is_assigned] and [get]; an identifier is a [usize]. *)
Definition fo_get t id : option T :=
  if id <? Z.of_nat CAP then default None (objects t !! Z.to_nat id) else None.
Definition is_assigned t id : bool :=
  match fo_get t id with Some _ => true | None => false end.

(** [id_bitmap.first_false_index()]. *)
Fixpoint first_false (l : list (option T)) : option nat :=
  match l with
  | [] => None
  | None :: _ => Some O
  | Some _ :: l' => S <$> first_false l'
  end.

Definition fo_set t (id : nat) (v : T) : FlattenObjects T :=
  mkFO (<[id := Some v]> (objects t)) (count t +w 1).

(** [add]: the lowest free identifier. *)
Definition fo_add t (v : T) : result (Z * FlattenObjects T) unit :=
  match first_false (objects t) with
  | Some id => if (id <? CAP)%nat then Ok (Z.of_nat id, fo_set t id v) else Err tt
  | None => Err tt
  end.

(** [add_at]. *)
Definition fo_add_at t id (v : T) : result (Z * FlattenObjects T) unit :=
  if (Z.of_nat CAP <=? id) || is_assigned t id then Err tt
  else Ok (id, fo_set t (Z.to_nat id) v).

(** [remove]. *)
Definition fo_remove t id : option (T * FlattenObjects T) :=
  match fo_get t id with
  | Some v => Some (v, mkFO (<[Z.to_nat id := None]> (objects t)) (count t -w 1))
  | None => None
  end.

(** * Descriptor operations (fd_ops.rs) *)

(** Code that runs on the descriptor table of the current namespace. *)
Definition FdM (A : Type) : Type := M (FlattenObjects T) LinuxError A.

(** [fd as usize] of a [c_int]. *)
Definition fd_usize (fd : Z) : Z := wrap fd.

(** The loop of [copy_inner]: descriptors [i..i + n), each of which must be open. *)
Fixpoint copy_loop t (i n : nat) (new : FlattenObjects T) : outcome (FlattenObjects T) :=
  match n with
  | O => Ret new
  | S n' =>
      match fo_get t (Z.of_nat i) with
      | None => Panic
      | Some f =>
          copy_loop t (S i) n'
            (match fo_add_at new (Z.of_nat i) f with Ok (_, new') => new' | Err _ => new end)
      end
  end.

(** [FD_TABLE::copy_inner]. *)
Definition copy_inner t : outcome (FlattenObjects T) := copy_loop t 0 (Z.to_nat (count t)) fo_new.

(** [get_file_like], [add_file_like], [close_file_like]. *)
Definition get_file_like (fd : Z) : FdM T := fun t =>
  match fo_get t (fd_usize fd) with
  | Some f => Ret (Ok f, t)
  | None => Ret (Err EBADF, t)
  end.
Definition add_file_like (f : T) : FdM Z := fun t =>
  match fo_add t f with
  | Ok (id, t') => Ret (Ok (as_i32 id), t')
  | Err _ => Ret (Err EMFILE, t)
  end.
Definition close_file_like (fd : Z) : FdM unit := fun t =>
  match fo_remove t (fd_usize fd) with
  | Some (_, t') => Ret (Ok tt, t')
  | None => Ret (Err EBADF, t)
  end.

(** [sys_close]. *)
Definition sys_close (fd : Z) (t : FlattenObjects T) : outcome (Z * FlattenObjects T) :=
  if (0 <=? fd) && (fd <=? 2) then Ret (0, t)
  else syscall_run as_i32 (_ ← close_file_like fd; mret 0) t.

(** [dup_fd] and [sys_dup]. *)
Definition dup_fd (old_fd : Z) : FdM Z := f ← get_file_like old_fd; add_file_like f.
Definition sys_dup (old_fd : Z) : FlattenObjects T -> outcome (Z * FlattenObjects T) :=
  syscall_run as_i32 (dup_fd old_fd).

Definition F_DUPFD : Z := 0.
Definition F_GETFD : Z := 1.
Definition F_SETFL : Z := 4.
Definition F_DUPFD_CLOEXEC : Z := 1030.
Definition O_NONBLOCK : Z := 2048.

(** [FileLike::set_nonblocking] of the object behind a descriptor. *)
Variable set_nonblocking : T -> bool -> result unit LinuxError.

(** [sys_fcntl]. *)
Definition sys_fcntl_body (fd cmd arg : Z) : FdM Z :=
  let cmd := as_u32 cmd in
  if cmd =? F_DUPFD then dup_fd fd
  else if cmd =? F_DUPFD_CLOEXEC then dup_fd fd
  else if cmd =? F_SETFL then
    if (fd =? 0) || (fd =? 1) || (fd =? 2) then mret 0
    else
      f ← get_file_like fd;
      _ ← try_ (set_nonblocking f (0 <? Z.land arg O_NONBLOCK));
      mret 0
  else mret 0.
Definition sys_fcntl (fd cmd arg : Z) : FlattenObjects T -> outcome (Z * FlattenObjects T) :=
  syscall_run as_i32 (sys_fcntl_body fd cmd arg).

(** [sys_dup2]. *)
Definition sys_dup2_body (old_fd new_fd : Z) : FdM Z := fun t =>
  if old_fd =? new_fd then
    match sys_fcntl old_fd F_GETFD 0 t with
    | Ret (r, t') => Ret (Ok (if 0 <=? r then old_fd else r), t')
    | Panic => Panic
    end
  else if Z.of_nat CAP <=? fd_usize new_fd then Ret (Err EBADF, t)
  else
    match get_file_like old_fd t with
    | Ret (Ok f, t1) =>
        match fo_add_at t1 (fd_usize new_fd) f with
        | Ok (_, t2) => Ret (Ok new_fd, t2)
        | Err _ => Ret (Err EMFILE, t1)
        end
    | Ret (Err e, t1) => Ret (Err e, t1)
    | Panic => Panic
    end.
Definition sys_dup2 (old_fd new_fd : Z) : FlattenObjects T -> outcome (Z * FlattenObjects T) :=
  syscall_run as_i32 (sys_dup2_body old_fd new_fd).

(** [sys_pipe] on the two ends of a new pipe: the descriptors stored in [fds] and
    the result. The first descriptor is closed again when the second cannot be
    added. *)
Definition sys_pipe_body (read_end write_end : T) : FdM (Z * Z) := fun t =>
  match add_file_like read_end t with
  | Ret (Ok read_fd, t1) =>
      match add_file_like write_end t1 with
      | Ret (Ok write_fd, t2) => Ret (Ok (read_fd, write_fd), t2)
      | Ret (Err e, t2) =>
          match close_file_like read_fd t2 with
          | Ret (_, t3) => Ret (Err e, t3)
          | Panic => Panic
          end
      | Panic => Panic
      end
  | Ret (Err e, t1) => Ret (Err e, t1)
  | Panic => Panic
  end.

(** [init_stdio]. *)
Definition init_stdio (stdin stdout : T) : outcome (FlattenObjects T) :=
  match fo_add_at fo_new 0 stdin with
  | Ok (_, t0) =>
      match fo_add_at t0 1 stdout with
      | Ok (_, t1) =>
          match fo_add_at t1 2 stdout with
          | Ok (_, t2) => Ret t2
          | Err _ => Panic
          end
      | Err _ => Panic
      end
  | Err _ => Panic
  end.

(** The calls of a process that change its descriptor table. *)
Inductive fd_call :=
| CallOpen (f : T) | CallClose (fd : Z) | CallDup (fd : Z) | CallFcntl (fd cmd arg : Z)
| CallDup2 (old_fd new_fd : Z) | CallPipe (read_end write_end : T).

(** The table after one call, and after a sequence of calls. *)
Definition fd_step (c : fd_call) (t : FlattenObjects T) : outcome (FlattenObjects T) :=
  let table {A} (r : outcome (A * FlattenObjects T)) :=
    match r with Ret (_, t') => Ret t' | Panic => Panic end in
  match c with
  | CallOpen f => table (add_file_like f t)
  | CallClose fd => table (sys_close fd t)
  | CallDup fd => table (sys_dup fd t)
  | CallFcntl fd cmd arg => table (sys_fcntl fd cmd arg t)
  | CallDup2 old_fd new_fd => table (sys_dup2 old_fd new_fd t)
  | CallPipe r w => table (sys_pipe_body r w t)
  end.
Fixpoint fd_steps (cs : list fd_call) (t : FlattenObjects T) : outcome (FlattenObjects T) :=
  match cs with
  | [] => Ret t
  | c :: cs' => match fd_step c t with Ret t' => fd_steps cs' t' | Panic => Panic end
  end.

End flatten_objects.

(** * Properties *)

Section fd_props.
Context {T : Type}.
Implicit Types (t : FlattenObjects T) (id : Z) (l : list (option T)).

(** The number of open descriptors. *)
Definition n_open (l : list (option T)) : nat := length (omap id l).

(** The invariant of the table. *)
Definition fo_wf t : Prop := length (objects t) = CAP /\ count t = Z.of_nat (n_open (objects t)).

Lemma n_open_le l : (n_open l <= length l)%nat.
Proof. unfold n_open. induction l as [|[x|] l IH]; cbn in *; lia. Qed.

Lemma n_open_insert_Some l i v : l !! i = Some None -> n_open (<[i := Some v]> l) = S (n_open l).
Proof.
  unfold n_open. revert i. induction l as [|[x|] l IH]; intros [|i] Hi; cbn in *; try done;
    rewrite ?IH by done; done.
Qed.

Lemma n_open_insert_None l i v : l !! i = Some (Some v) -> S (n_open (<[i := None]> l)) = n_open l.
Proof.
  unfold n_open. revert i. induction l as [|[x|] l IH]; intros [|i] Hi; cbn in *; try done;
    rewrite <- (IH i) by done; done.
Qed.

Lemma first_false_Some l i :
  first_false l = Some i <->
  l !! i = Some None /\ forall j, (j < i)%nat -> exists v, l !! j = Some (Some v).
Proof.
  revert i. induction l as [|[x|] l IH]; intros i; cbn.
  - split; [done|]. intros [? _]. done.
  - split.
    + destruct (first_false l) as [k|]; [|done]. cbn. intros [= <-].
      destruct (proj1 (IH k) eq_refl) as [Hk Hj]. split; [done|].
      intros [|j] Hlt; [by exists x|]. apply Hj. lia.
    + intros [Hi Hj]. destruct i as [|i]; [done|].
      rewrite (proj2 (IH i)); [done|]. split; [done|]. intros j Hlt. apply (Hj (S j)). lia.
  - split.
    + intros [= <-]. split; [done|]. lia.
    + intros [Hi Hj]. destruct i as [|i]; [done|]. destruct (Hj 0%nat ltac:(lia)). done.
Qed.

Lemma first_false_None l i : first_false l = None -> (i < length l)%nat -> exists v, l !! i = Some (Some v).
Proof.
  revert i. induction l as [|[x|] l IH]; intros i; cbn; [lia| |done].
  destruct (first_false l); [done|]. intros _ Hi. destruct i as [|i]; [by exists x|]. apply IH; [done|lia].
Qed.

Lemma fo_get_slot t id : fo_wf t -> 0 <= id < Z.of_nat CAP -> objects t !! Z.to_nat id = Some (fo_get t id).
Proof.
  intros [Hl _] Hid. unfold fo_get. destruct (Z.ltb_spec id (Z.of_nat CAP)); [|lia].
  destruct (lookup_lt_is_Some_2 (objects t) (Z.to_nat id)) as [x ->]; [lia|done].
Qed.

Lemma fo_get_range t id v : fo_get t id = Some v -> id < Z.of_nat CAP.
Proof. unfold fo_get. destruct (Z.ltb_spec id (Z.of_nat CAP)); [done|]. done. Qed.

(** Storing a value in a free slot. *)
Lemma fo_set_spec t id v :
  fo_wf t -> 0 <= id < Z.of_nat CAP -> fo_get t id = None ->
  fo_wf (fo_set t (Z.to_nat id) v) /\
  forall id', 0 <= id' -> fo_get (fo_set t (Z.to_nat id) v) id' = if id' =? id then Some v else fo_get t id'.
Proof.
  intros Hwf Hid Hn. pose proof (fo_get_slot t id Hwf Hid) as Hs. rewrite Hn in Hs.
  destruct Hwf as [Hl Hc]. pose proof (n_open_le (objects t)) as Hle. split.
  - split; cbn [fo_set objects count]; [by rewrite length_insert|]. rewrite (n_open_insert_Some _ _ v Hs), Hc.
    rewrite wadd_small; unfold CAP in *; lia.
  - intros id' Hid'. unfold fo_get, fo_set; cbn [objects].
    destruct (Z.ltb_spec id' (Z.of_nat CAP)), (Z.eqb_spec id' id) as [->|Hne]; try lia; try done.
    + rewrite list_lookup_insert_eq by (unfold CAP in *; lia). done.
    + rewrite list_lookup_insert_ne by lia. done.
Qed.

Lemma fo_remove_spec t id v :
  fo_wf t -> 0 <= id -> fo_get t id = Some v ->
  exists t', fo_remove t id = Some (v, t') /\ fo_wf t' /\
  forall id', 0 <= id' -> fo_get t' id' = if id' =? id then None else fo_get t id'.
Proof.
  intros Hwf Hid Hg. pose proof (fo_get_range t id v Hg) as Hlt.
  pose proof (fo_get_slot t id Hwf ltac:(lia)) as Hs. rewrite Hg in Hs.
  destruct Hwf as [Hl Hc]. pose proof (n_open_le (objects t)) as Hle.
  unfold fo_remove. rewrite Hg. eexists. split; [done|]. split.
  - split; cbn [fo_set objects count]; [by rewrite length_insert|]. pose proof (n_open_insert_None _ _ v Hs).
    rewrite Hc, wsub_small; unfold CAP in *; lia.
  - intros id' Hid'. unfold fo_get; cbn [objects].
    destruct (Z.ltb_spec id' (Z.of_nat CAP)), (Z.eqb_spec id' id) as [->|Hne]; try lia; try done.
    + rewrite list_lookup_insert_eq by (unfold CAP in *; lia). done.
    + rewrite list_lookup_insert_ne by lia. done.
Qed.

Lemma fd_usize_nonneg fd : 0 <= fd < USIZE -> fd_usize fd = fd.
Proof. apply wrap_small. Qed.

(** A negative descriptor becomes an identifier far above the capacity. *)
Lemma fd_usize_neg fd : -2147483648 <= fd < 0 -> Z.of_nat CAP <= fd_usize fd.
Proof.
  intros Hfd. unfold fd_usize, wrap. rewrite <- (Z.mod_add fd 1) by lia.
  rewrite Z.mod_small; unfold CAP; lia.
Qed.

Lemma add_file_like_spec f t :
  fo_wf t ->
  (exists fd t', add_file_like f t = Ret (Ok fd, t') /\ 0 <= fd < Z.of_nat CAP /\ fo_wf t' /\
     fo_get t fd = None /\ (forall j, 0 <= j < fd -> is_Some (fo_get t j)) /\
     (forall j, 0 <= j -> fo_get t' j = if j =? fd then Some f else fo_get t j)) \/
  (add_file_like f t = Ret (Err EMFILE, t) /\ forall j, 0 <= j < Z.of_nat CAP -> is_Some (fo_get t j)).
Proof.
  intros Hwf. pose proof Hwf as [Hl _]. unfold add_file_like, fo_add.
  destruct (first_false (objects t)) as [i|] eqn:E.
  - apply first_false_Some in E as [Hi Hj]. pose proof (lookup_lt_Some _ _ _ Hi) as Hlt.
    destruct (Nat.ltb_spec i CAP); [|lia]. left. exists (Z.of_nat i), (fo_set t i f).
    assert (Hn : fo_get t (Z.of_nat i) = None).
    { pose proof (fo_get_slot t (Z.of_nat i) Hwf ltac:(lia)) as Hs. rewrite Nat2Z.id in Hs. congruence. }
    destruct (fo_set_spec t (Z.of_nat i) f Hwf ltac:(lia) Hn) as [Hwf' Hget]. rewrite Nat2Z.id in *.
    rewrite as_i32_small by (unfold CAP in *; lia). split_and!; try done; try lia.
    intros j Hlt'. destruct (Hj (Z.to_nat j) ltac:(lia)) as [v Hv].
    pose proof (fo_get_slot t j Hwf ltac:(lia)) as Hs. exists v. congruence.
  - right. split; [done|]. intros j Hj.
    destruct (first_false_None _ (Z.to_nat j) E) as [v Hv]; [lia|].
    pose proof (fo_get_slot t j Hwf ltac:(lia)) as Hs. exists v. congruence.
Qed.

Lemma close_file_like_spec fd t :
  fo_wf t -> -2147483648 <= fd < 2147483648 ->
  match (if fd <? 0 then None else fo_get t fd) with
  | Some _ => exists t', close_file_like fd t = Ret (Ok tt, t') /\ fo_wf t' /\
      forall j, 0 <= j -> fo_get t' j = if j =? fd then None else fo_get t j
  | None => close_file_like fd t = Ret (Err EBADF, t)
  end.
Proof.
  intros Hwf Hfd. unfold close_file_like, fo_remove. destruct (Z.ltb_spec fd 0) as [Hneg|Hpos].
  - pose proof (fd_usize_neg fd ltac:(lia)) as Hge. unfold fo_get.
    by destruct (Z.ltb_spec (fd_usize fd) (Z.of_nat CAP)); [lia|].
  - rewrite fd_usize_nonneg by lia. destruct (fo_get t fd) as [v|] eqn:Eg; [|done].
    destruct (fo_remove_spec t fd v Hwf Hpos Eg) as (t' & Hr & Hwf' & Hget).
    unfold fo_remove in Hr. rewrite Eg in Hr. injection Hr as <-. eauto.
Qed.

(** ** [copy_inner] *)

(** Tables that agree on every descriptor. *)
Definition same_table t t' : Prop := forall j, 0 <= j -> fo_get t j = fo_get t' j.

Lemma n_open_prefix l n :
  (forall j, (j < n)%nat -> exists v, l !! j = Some (Some v)) -> n_open l = n ->
  forall j, (n <= j < length l)%nat -> l !! j = Some None.
Proof.
  unfold n_open. revert n. induction l as [|x l IH]; intros n Hp Hn j Hj; cbn in *; [lia|].
  destruct n as [|n].
  - clear Hp. assert (Hx : x = None /\ length (omap id l) = O) by (destruct x; cbn in *; [lia|done]).
    destruct Hx as [-> Hx]. destruct j as [|j]; [done|]. apply (IH O); [lia|done|lia].
  - destruct (Hp O ltac:(lia)) as [v [= ->]]. destruct j as [|j]; [lia|].
    apply (IH n); [|cbn in Hn; lia|lia].
    intros k Hk. apply (Hp (S k)). lia.
Qed.

Lemma copy_loop_spec t n i new :
  fo_wf t -> fo_wf new -> (i + n <= CAP)%nat ->
  (forall j, Z.of_nat i <= j -> fo_get new j = None) ->
  (forall j, Z.of_nat i <= j < Z.of_nat (i + n) -> is_Some (fo_get t j)) ->
  exists new', copy_loop t i n new = Ret new' /\ fo_wf new' /\
    forall j, 0 <= j -> fo_get new' j =
      if (Z.of_nat i <=? j) && (j <? Z.of_nat (i + n)) then fo_get t j else fo_get new j.
Proof.
  intros Hwf. revert i new. induction n as [|n IH]; intros i new Hwn Hle Hfree Hopen; cbn.
  - exists new. split_and!; [done|done|]. intros j Hj.
    destruct (Z.leb_spec (Z.of_nat i) j), (Z.ltb_spec j (Z.of_nat (i + 0))); cbn; done || lia.
  - destruct (Hopen (Z.of_nat i) ltac:(lia)) as [f Hf]. rewrite Hf.
    assert (Hna : is_assigned new (Z.of_nat i) = false) by (unfold is_assigned; by rewrite Hfree by lia).
    unfold fo_add_at. rewrite Hna. destruct (Z.leb_spec (Z.of_nat CAP) (Z.of_nat i)); [lia|]. cbn.
    destruct (fo_set_spec new (Z.of_nat i) f Hwn ltac:(lia) (Hfree (Z.of_nat i) ltac:(lia))) as [Hwf1 Hget1].
    destruct (IH (S i) (fo_set new (Z.to_nat (Z.of_nat i)) f)) as (new' & -> & Hwf' & Hget'); [done|lia|..].
    + intros j Hj. rewrite Hget1 by lia. destruct (Z.eqb_spec j (Z.of_nat i)); [lia|]. apply Hfree. lia.
    + intros j Hj. apply Hopen. lia.
    + exists new'. split_and!; [done|done|]. intros j Hj. rewrite Hget', Hget1 by lia.
      destruct (Z.leb_spec (Z.of_nat (S i)) j), (Z.ltb_spec j (Z.of_nat (S i + n))),
        (Z.leb_spec (Z.of_nat i) j), (Z.ltb_spec j (Z.of_nat (i + S n))), (Z.eqb_spec j (Z.of_nat i));
        cbn; try lia; congruence.
Qed.

Lemma copy_loop_hole t n i new j :
  Z.of_nat i <= j < Z.of_nat (i + n) -> fo_get t j = None -> copy_loop t i n new = Panic.
Proof.
  revert i new. induction n as [|n IH]; intros i new Hj Hn; [lia|]. cbn.
  destruct (Z.eq_dec j (Z.of_nat i)) as [->|Hne]; [by rewrite Hn|].
  destruct (fo_get t (Z.of_nat i)); [|done]. apply IH; [lia|done].
Qed.

Lemma fo_new_wf : fo_wf (fo_new (T:=T)).
Proof.
  split; [apply length_replicate|]. unfold n_open, fo_new. cbn [objects count].
  induction CAP; [done|]. cbn. done.
Qed.

Lemma fo_new_get j : fo_get (T:=T) fo_new j = None.
Proof.
  unfold fo_get, fo_new. cbn [objects]. destruct (Z.ltb_spec j (Z.of_nat CAP)); [|done].
  destruct (replicate CAP (@None T) !! Z.to_nat j) as [x|] eqn:E; [|done].
  apply lookup_replicate in E as [-> _]. done.
Qed.
End fd_props.

(** * Theorems *)

Section fd_theorems.
Context {T : Type}.
Implicit Types (t : FlattenObjects T).

(** [sys_dup] of an open descriptor returns the lowest descriptor that was free
    and makes it refer to the same file, leaving every other descriptor alone; it
    fails with [EMFILE] only when all 1024 descriptors are open and with [EBADF]
    only when the old one is not, in both cases without effect. *)
Theorem dup_correct t old_fd :
  fo_wf t -> 0 <= old_fd < 2147483648 ->
  exists z t', sys_dup old_fd t = Ret (z, t') /\ fo_wf t' /\
    match fo_get t old_fd with
    | None => z = - code EBADF /\ t' = t
    | Some f =>
        (0 <= z < Z.of_nat CAP /\ fo_get t z = None /\ (forall j, 0 <= j < z -> is_Some (fo_get t j)) /\
         (forall j, 0 <= j -> fo_get t' j = if j =? z then Some f else fo_get t j)) \/
        (z = - code EMFILE /\ t' = t /\ forall j, 0 <= j < Z.of_nat CAP -> is_Some (fo_get t j))
    end.
Proof.
  intros Hwf Hfd. unfold sys_dup, syscall_run, dup_fd, get_file_like. unfold_M.
  rewrite fd_usize_nonneg by lia. destruct (fo_get t old_fd) as [f|].
  - destruct (add_file_like_spec f t Hwf) as [(fd & t' & -> & Hr & Hwf' & Hn & Hlow & Hget)|[-> Hfull]].
    + exists fd, t'. cbn. rewrite as_i32_small by (unfold CAP in *; lia). split_and!; try done. left. done.
    + exists (-24), t. split_and!; try done. right. done.
  - exists (-9), t. done.
Qed.

(** [copy_inner], which gives a forked process its descriptors, returns a table
    with the same descriptors when the open ones are exactly 0..count, and panics
    the kernel when a descriptor below the count is closed. *)
Theorem copy_inner_correct t :
  fo_wf t ->
  ((forall j, 0 <= j < count t -> is_Some (fo_get t j)) ->
   exists t', copy_inner t = Ret t' /\ fo_wf t' /\ same_table t' t) /\
  (forall j, 0 <= j < count t -> fo_get t j = None -> copy_inner t = Panic).
Proof.
  intros Hwf. pose proof Hwf as [Hl Hc]. pose proof (n_open_le (objects t)) as Hle. unfold copy_inner. split.
  - intros Hopen.
    destruct (copy_loop_spec t (Z.to_nat (count t)) 0 fo_new Hwf fo_new_wf) as (t' & -> & Hwf' & Hget);
      [lia|intros; apply fo_new_get|intros j Hj; apply Hopen; lia|].
    exists t'. split_and!; [done|done|]. intros j Hj. rewrite Hget by lia.
    destruct (Z.leb_spec (Z.of_nat 0) j), (Z.ltb_spec j (Z.of_nat (0 + Z.to_nat (count t)))); cbn; try lia; [done|].
    rewrite fo_new_get. destruct (Z.ltb_spec j (Z.of_nat CAP)) as [Hlt|Hge].
    2: { unfold fo_get. by destruct (Z.ltb_spec j (Z.of_nat CAP)); [lia|]. }
    pose proof (fo_get_slot t j Hwf ltac:(lia)) as Hs.
    rewrite (n_open_prefix (objects t) (n_open (objects t))) in Hs; [by injection Hs| |done|lia].
    intros k Hk. destruct (Hopen (Z.of_nat k) ltac:(lia)) as [v Hv]. exists v.
    pose proof (fo_get_slot t (Z.of_nat k) Hwf ltac:(lia)) as Hsk. rewrite Nat2Z.id in Hsk. congruence.
  - intros j Hj Hn. apply (copy_loop_hole t _ 0 fo_new j); [lia|done].
Qed.

(** [sys_pipe] returns two fresh descriptors for the two ends, or fails with
    [EMFILE]; on failure every descriptor is as before, the read end that was
    already added included. *)
Theorem pipe_fds_correct t (r w : T) :
  fo_wf t ->
  exists res t', sys_pipe_body r w t = Ret (res, t') /\ fo_wf t' /\
    match res with
    | Ok (rfd, wfd) => rfd < wfd /\ fo_get t rfd = None /\ fo_get t wfd = None /\
        forall j, 0 <= j -> fo_get t' j =
          if j =? wfd then Some w else if j =? rfd then Some r else fo_get t j
    | Err e => e = EMFILE /\ same_table t' t
    end.
Proof.
  intros Hwf. unfold sys_pipe_body.
  destruct (add_file_like_spec r t Hwf) as [(rfd & t1 & -> & Hr & Hwf1 & Hn1 & Hlow1 & Hget1)|[-> Hfull]].
  2: { exists (Err EMFILE), t. split_and!; try done. }
  destruct (add_file_like_spec w t1 Hwf1) as [(wfd & t2 & -> & Hr2 & Hwf2 & Hn2 & Hlow2 & Hget2)|[-> Hfull]].
  - exists (Ok (rfd, wfd)), t2. split; [done|]. split; [done|].
    rewrite Hget1 in Hn2 by lia. destruct (Z.eqb_spec wfd rfd) as [|Hne]; [done|].
    assert (Hlt : rfd < wfd).
    { destruct (Z.lt_total rfd wfd) as [|[|Hgt]]; [done|congruence|].
      destruct (Hlow1 wfd ltac:(lia)) as [v Hv]. congruence. }
    split_and!; [done|done|done|]. intros j Hj. rewrite Hget2, Hget1 by lia. done.
  - pose proof (close_file_like_spec rfd t1 Hwf1 ltac:(unfold CAP in *; lia)) as Hc.
    destruct (Z.ltb_spec rfd 0); [lia|]. rewrite Hget1, Z.eqb_refl in Hc by lia.
    destruct Hc as (t3 & -> & Hwf3 & Hget3). exists (Err EMFILE), t3. split_and!; [done|done|done|].
    intros j Hj. rewrite Hget3, Hget1 by lia. destruct (Z.eqb_spec j rfd) as [->|]; [by rewrite Hn1|done].
Qed.

(** [sys_close] frees the descriptor: closing an open descriptor above 2 returns
    0 and removes exactly it, closing any other descriptor above 2 or a negative
    one returns [-EBADF], and closing 0, 1 or 2 returns 0 and leaves it open. *)
Theorem close_correct t fd :
  fo_wf t -> -2147483648 <= fd < 2147483648 ->
  exists z t', sys_close fd t = Ret (z, t') /\ fo_wf t' /\
    if (0 <=? fd) && (fd <=? 2) then z = 0 /\ t' = t
    else match (if fd <? 0 then None else fo_get t fd) with
         | Some _ => z = 0 /\ forall j, 0 <= j -> fo_get t' j = if j =? fd then None else fo_get t j
         | None => z = - code EBADF /\ t' = t
         end.
Proof.
  intros Hwf Hfd. unfold sys_close. destruct ((0 <=? fd) && (fd <=? 2))%bool; [by exists 0, t|].
  pose proof (close_file_like_spec fd t Hwf Hfd) as Hc. unfold syscall_run. unfold_M.
  destruct (if fd <? 0 then None else fo_get t fd) as [f|].
  - destruct Hc as (t' & -> & Hwf' & Hget). by exists 0, t'.
  - rewrite Hc. by exists (-9), t.
Qed.

(** [sys_dup2] onto an open descriptor fails with [EMFILE] and changes nothing,
    where the descriptor should have been closed and replaced; and of equal
    descriptors it returns the descriptor even when it is not open. *)
Theorem dup2_divergence t snb old_fd new_fd :
  0 <= old_fd < 2147483648 -> 0 <= new_fd < Z.of_nat CAP ->
  is_Some (fo_get t old_fd) -> is_Some (fo_get t new_fd) -> old_fd <> new_fd ->
  sys_dup2 snb old_fd new_fd t = Ret (- code EMFILE, t) /\
  sys_dup2 snb old_fd old_fd fo_new = Ret (old_fd, fo_new).
Proof.
  intros Ho Hn [f Hf] [g Hg] Hne. unfold sys_dup2, syscall_run, sys_dup2_body, get_file_like. split.
  - destruct (Z.eqb_spec old_fd new_fd); [done|].
    rewrite !fd_usize_nonneg by (unfold CAP in *; lia).
    destruct (Z.leb_spec (Z.of_nat CAP) new_fd); [lia|]. rewrite Hf.
    unfold fo_add_at, is_assigned. rewrite Hg, orb_true_r. done.
  - rewrite Z.eqb_refl.
    change (sys_fcntl snb old_fd F_GETFD 0 fo_new) with (@Ret (Z * FlattenObjects T) (0, fo_new)).
    unfold syscall_body. by rewrite (proj2 (Z.leb_le 0 0)), as_i32_small by lia.
Qed.
(** ** Sequences of calls *)

(** The descriptors of a call are C integers. *)
Definition is_cint (z : Z) : Prop := -2147483648 <= z < 2147483648.
Definition call_wf (c : fd_call (T:=T)) : Prop :=
  match c with
  | CallClose fd | CallDup fd | CallFcntl fd _ _ => is_cint fd
  | CallDup2 old_fd new_fd => is_cint old_fd /\ is_cint new_fd
  | _ => True
  end.

(** A well-formed table in which the open standard descriptors are those of [t]. *)
Definition keeps_std t t' : Prop :=
  fo_wf t' /\ forall j v, 0 <= j <= 2 -> fo_get t j = Some v -> fo_get t' j = Some v.

Lemma keeps_refl t : fo_wf t -> keeps_std t t.
Proof. by split. Qed.

Lemma add_keeps f t :
  fo_wf t -> exists r t', add_file_like f t = Ret (r, t') /\ keeps_std t t'.
Proof.
  intros Hwf. destruct (add_file_like_spec f t Hwf) as [(fd & t' & -> & _ & Hwf' & Hn & _ & Hg)|[-> _]].
  - exists (Ok fd), t'. split; [done|]. split; [done|]. intros j v Hj Hv. rewrite Hg by lia.
    destruct (Z.eqb_spec j fd) as [->|]; [congruence|done].
  - exists (Err EMFILE), t. split; [done|by apply keeps_refl].
Qed.

Lemma dup_keeps fd t : fo_wf t -> exists r t', dup_fd fd t = Ret (r, t') /\ keeps_std t t'.
Proof.
  intros Hwf. unfold dup_fd, get_file_like. unfold_M. destruct (fo_get t (fd_usize fd)) as [f|].
  - apply add_keeps, Hwf.
  - eexists _, _. split; [done|by apply keeps_refl].
Qed.

Lemma fcntl_keeps snb fd cmd arg t :
  fo_wf t -> exists r t', sys_fcntl_body snb fd cmd arg t = Ret (r, t') /\ keeps_std t t'.
Proof.
  intros Hwf. pose proof (keeps_refl t Hwf) as Hk. unfold sys_fcntl_body.
  destruct (_ =? F_DUPFD); [by apply dup_keeps|]. destruct (_ =? F_DUPFD_CLOEXEC); [by apply dup_keeps|].
  destruct (_ =? F_SETFL); [|by eexists _, _]. destruct (_ || _); [by eexists _, _|].
  unfold get_file_like, try_. unfold_M. destruct (fo_get t (fd_usize fd)) as [f|]; [|by eexists _, _].
  destruct (snb f _); by eexists _, _.
Qed.

Lemma dup2_keeps snb old_fd new_fd t :
  fo_wf t ->
  exists r t', sys_dup2_body snb old_fd new_fd t = Ret (r, t') /\ keeps_std t t'.
Proof.
  intros Hwf. pose proof (keeps_refl t Hwf) as Hk. unfold sys_dup2_body, sys_fcntl, syscall_run.
  destruct (old_fd =? new_fd).
  { destruct (fcntl_keeps snb old_fd F_GETFD 0 t Hwf) as (r & t' & -> & Hk'). by eexists _, _. }
  destruct (Z.leb_spec (Z.of_nat CAP) (fd_usize new_fd)) as [|Hlt]; [by eexists _, _|].
  unfold get_file_like. destruct (fo_get t (fd_usize old_fd)) as [f|]; [|by eexists _, _].
  pose proof (wrap_range new_fd) as Hr. fold (fd_usize new_fd) in Hr.
  unfold fo_add_at, is_assigned. destruct (fo_get t (fd_usize new_fd)) as [g|] eqn:Eg.
  { destruct (_ || _) eqn:Eo; [by eexists _, _|]. apply orb_false_iff in Eo as [_ ?]. discriminate. }
  destruct (Z.leb_spec (Z.of_nat CAP) (fd_usize new_fd)); [lia|]. cbn [orb].
  destruct (fo_set_spec t (fd_usize new_fd) f Hwf ltac:(lia) Eg) as [Hwf' Hg].
  eexists _, _. split; [done|]. split; [done|]. intros j v Hj Hv. rewrite Hg by lia.
  destruct (Z.eqb_spec j (fd_usize new_fd)) as [->|]; [congruence|done].
Qed.

Lemma fd_step_keeps snb c t :
  fo_wf t -> call_wf c -> exists t', fd_step snb c t = Ret t' /\ keeps_std t t'.
Proof.
  intros Hwf Hc. destruct c as [f|fd|fd|fd cmd arg|old_fd new_fd|r w]; cbn [fd_step call_wf] in *.
  - destruct (add_keeps f t Hwf) as (r & t' & -> & Hk). by exists t'.
  - destruct (close_correct t fd Hwf Hc) as (z & t' & -> & Hwf' & Hz). exists t'. split; [done|].
    split; [done|]. intros j v Hj Hv. destruct ((0 <=? fd) && (fd <=? 2)) eqn:Es; [by destruct Hz as [_ ->]|].
    apply andb_false_iff in Es. destruct (if fd <? 0 then None else fo_get t fd); [|by destruct Hz as [_ ->]].
    destruct Hz as [_ Hg]. rewrite Hg by lia. destruct (Z.eqb_spec j fd); [|done].
    rewrite !Z.leb_gt in Es. lia.
  - unfold sys_dup, syscall_run. destruct (dup_keeps fd t Hwf) as (r & t' & -> & Hk). by exists t'.
  - unfold sys_fcntl, syscall_run. destruct (fcntl_keeps snb fd cmd arg t Hwf) as (r & t' & -> & Hk). by exists t'.
  - unfold sys_dup2, syscall_run. destruct (dup2_keeps snb old_fd new_fd t Hwf) as (r & t' & -> & Hk). by exists t'.
  - destruct (pipe_fds_correct t r w Hwf) as (res & t' & -> & Hwf' & Hres). exists t'. split; [done|].
    split; [done|]. intros j v Hj Hv. destruct res as [[rfd wfd]|e].
    + destruct Hres as (_ & Hr & Hw & Hg). rewrite Hg by lia.
      destruct (Z.eqb_spec j wfd) as [->|]; [congruence|]. destruct (Z.eqb_spec j rfd) as [->|]; [congruence|done].
    + destruct Hres as [_ Hs]. by rewrite Hs by lia.
Qed.

(** C28: The descriptor table is always well formed: in every sequence of opening, closing,
    duplicating, fcntl and pipe calls with any descriptors no call panics, the table
    keeps its capacity and its count is the number of open descriptors; and the
    standard descriptors 0 to 2, once open, keep their objects for ever. *)
Theorem fd_calls_well_formed snb cs t :
  fo_wf t -> Forall call_wf cs ->
  exists t', fd_steps snb cs t = Ret t' /\ fo_wf t' /\
    forall j v, 0 <= j <= 2 -> fo_get t j = Some v -> fo_get t' j = Some v.
Proof.
  intros Hwf Hcs. revert t Hwf. induction Hcs as [|c cs Hc _ IH]; intros t Hwf; [by exists t|].
  cbn [fd_steps]. destruct (fd_step_keeps snb c t Hwf Hc) as (t1 & -> & Hwf1 & Hk1).
  destruct (IH t1 Hwf1) as (t2 & -> & Hwf2 & Hk2). exists t2. split; [done|]. split; [done|]. eauto.
Qed.
End fd_theorems.

(** * Concrete tables *)

Module FdDemo.
(** The descriptors of a new process, and the same with descriptor 3 open. *)
Definition stdio : FlattenObjects nat :=
  match init_stdio 0%nat 1%nat with Ret t => t | Panic => fo_new end.
Definition with3 : FlattenObjects nat :=
  match add_file_like 7%nat stdio with Ret (_, t) => t | Panic => fo_new end.
End FdDemo.

Lemma fd_demo_wf : fo_wf FdDemo.with3.
Proof. split; vm_compute; reflexivity. Qed.

Lemma dup_correct_witness : exists z t', sys_dup 3 FdDemo.with3 = Ret (z, t') /\ fo_wf t' /\ z = 4.
Proof.
  destruct (dup_correct FdDemo.with3 3 fd_demo_wf ltac:(lia)) as (z & t' & Hrun & Hwf & _).
  exists z, t'. split; [exact Hrun|]. split; [exact Hwf|].
  assert (Hz : match sys_dup 3 FdDemo.with3 with Ret (z, _) => z | Panic => 0 end = 4) by (vm_compute; reflexivity).
  rewrite Hrun in Hz. exact Hz.
Defined.

Lemma copy_inner_correct_witness :
  exists t', copy_inner FdDemo.with3 = Ret t' /\ fo_wf t' /\ same_table t' FdDemo.with3.
Proof.
  apply (copy_inner_correct FdDemo.with3 fd_demo_wf). change (count FdDemo.with3) with 4. intros j Hj.
  assert (Hc : j = 0 \/ j = 1 \/ j = 2 \/ j = 3) by lia.
  destruct Hc as [->|[->|[->| ->]]]; vm_compute; eexists; reflexivity.
Defined.

Lemma pipe_fds_correct_witness :
  exists res t', sys_pipe_body 8%nat 9%nat FdDemo.with3 = Ret (res, t') /\ fo_wf t'.
Proof.
  destruct (pipe_fds_correct FdDemo.with3 8%nat 9%nat fd_demo_wf) as (res & t' & Hrun & Hwf & _).
  exists res, t'. exact (conj Hrun Hwf).
Defined.

Lemma close_correct_witness :
  exists z t', sys_close 3 FdDemo.with3 = Ret (z, t') /\ fo_wf t' /\
    (z = 0 /\ forall j, 0 <= j -> fo_get t' j = if j =? 3 then None else fo_get FdDemo.with3 j).
Proof. apply (close_correct FdDemo.with3 3 fd_demo_wf). lia. Defined.

Lemma dup2_divergence_witness :
  sys_dup2 (fun _ _ => Ok tt) 3 1 FdDemo.with3 = Ret (- code EMFILE, FdDemo.with3) /\
  sys_dup2 (T:=nat) (fun _ _ => Ok tt) 3 3 fo_new = Ret (3, fo_new).
Proof.
  apply (dup2_divergence FdDemo.with3 (fun _ _ => Ok tt) 3 1); try (unfold CAP; lia);
    vm_compute; eexists; reflexivity.
Defined.

(** Open, duplicate, close the original and a standard descriptor, make a pipe. *)
Lemma fd_calls_well_formed_witness :
  exists t', fd_steps (fun _ _ => Ok tt)
      [CallOpen 9%nat; CallDup 4; CallClose 3; CallClose 1; CallDup2 4 1; CallPipe 5%nat 6%nat; CallClose (-1)]
      FdDemo.with3 = Ret t' /\ fo_wf t' /\
    forall j v, 0 <= j <= 2 -> fo_get FdDemo.with3 j = Some v -> fo_get t' j = Some v.
Proof.
  apply fd_calls_well_formed; [apply fd_demo_wf|]. repeat constructor; cbn; lia.
Defined.
