(* ===== verification/Pipe.v ===== *)
(** Pipes: the ring buffer and the blocking read and write loops of
    arceos/api/arceos_posix_api/src/imp/pipe.rs, refined to a byte queue. *)
From stdpp Require Import relations.
From S2P Require Import Prelude Errno.

(** * The ring buffer *)

Inductive RingBufferStatus := Full | Empty | Normal.

Definition RING_BUFFER_SIZE : Z := 256.

Record PipeRingBuffer := mkRB {
  arr : list Z;
  rb_head : Z;
  rb_tail : Z;
  status : RingBufferStatus;
}.

Definition rb_new : PipeRingBuffer := mkRB (replicate 256 0) 0 0 Empty.

Definition write_byte (byte : Z) (b : PipeRingBuffer) : PipeRingBuffer :=
  let a := <[Z.to_nat (rb_tail b) := byte]> (arr b) in
  let t := (rb_tail b + 1) mod RING_BUFFER_SIZE in
  mkRB a (rb_head b) t (if t =? rb_head b then Full else Normal).

Definition read_byte (b : PipeRingBuffer) : Z * PipeRingBuffer :=
  let c := default 0 (arr b !! Z.to_nat (rb_head b)) in
  let h := (rb_head b + 1) mod RING_BUFFER_SIZE in
  (c, mkRB (arr b) h (rb_tail b) (if h =? rb_tail b then Empty else Normal)).

Definition available_read (b : PipeRingBuffer) : Z :=
  match status b with
  | Empty => 0
  | _ => if rb_head b <? rb_tail b then rb_tail b - rb_head b
         else rb_tail b + RING_BUFFER_SIZE - rb_head b
  end.

Definition available_write (b : PipeRingBuffer) : Z :=
  match status b with
  | Full => 0
  | _ => RING_BUFFER_SIZE - available_read b
  end.

(** * Pipe ends *)

(** How one pass of the loop of [read] or [write] ends: it returns, or it goes
    around again (after yielding when the buffer was not ready). *)
Inductive turn := Return | Again.

(** The inner [for] loop of [read]: at most [n] bytes, returning at [max_len]. *)
Fixpoint read_for (n : nat) (max_len : nat) (buf : list Z) (b : PipeRingBuffer)
  : turn * list Z * PipeRingBuffer :=
  match n with
  | O => (Again, buf, b)
  | S n' =>
      if (length buf =? max_len)%nat then (Return, buf, b)
      else let '(c, b') := read_byte b in read_for n' max_len (buf ++ [c]) b'
  end.

(** One pass of the loop of [Pipe::read]; [buf] holds the [read_size] bytes read so
    far, [strong_count] is that of the shared buffer. *)
Definition read_pass (strong_count : Z) (max_len : nat) (buf : list Z) (b : PipeRingBuffer)
  : turn * list Z * PipeRingBuffer :=
  let loop_read := available_read b in
  if loop_read =? 0 then
    if strong_count =? 1 then (Return, buf, b) else (Again, buf, b)
  else read_for (Z.to_nat loop_read) max_len buf b.

(** The inner [for] loop of [write]; [size] bytes of [data] are already written. *)
Fixpoint write_for (n : nat) (data : list Z) (size : nat) (b : PipeRingBuffer)
  : turn * nat * PipeRingBuffer :=
  match n with
  | O => (Again, size, b)
  | S n' =>
      if (size =? length data)%nat then (Return, size, b)
      else write_for n' data (S size) (write_byte (default 0 (data !! size)) b)
  end.

(** One pass of the loop of [Pipe::write]. *)
Definition write_pass (data : list Z) (size : nat) (b : PipeRingBuffer)
  : turn * nat * PipeRingBuffer :=
  let loop_write := available_write b in
  if loop_write =? 0 then (Again, size, b)
  else write_for (Z.to_nat loop_write) data size b.

(** [Pipe::poll]. *)
Definition pipe_poll (readable : bool) (b : PipeRingBuffer) : bool * bool :=
  (readable && (0 <? available_read b), negb readable && (0 <? available_write b)).

(** A reader of [max_len] bytes and a writer of [data] on one pipe. *)
Record PipeSys := mkPS {
  ps_rb : PipeRingBuffer;
  ps_strong : Z;
  ps_buf : list Z;
  ps_read_done : bool;
  ps_size : nat;
  ps_write_done : bool;
}.

(** The passes of the two loops and the close of the write end, in any order. *)
Inductive pipe_step (data : list Z) (max_len : nat) : PipeSys -> PipeSys -> Prop :=
| step_read s t buf b :
    ps_read_done s = false -> read_pass (ps_strong s) max_len (ps_buf s) (ps_rb s) = (t, buf, b) ->
    pipe_step data max_len s
      (mkPS b (ps_strong s) buf (match t with Return => true | Again => false end)
         (ps_size s) (ps_write_done s))
| step_write s t size b :
    ps_write_done s = false -> write_pass data (ps_size s) (ps_rb s) = (t, size, b) ->
    pipe_step data max_len s
      (mkPS b (ps_strong s) (ps_buf s) (ps_read_done s) size
         (match t with Return => true | Again => false end))
| step_close s :
    ps_write_done s = true -> ps_strong s = 2 ->
    pipe_step data max_len s
      (mkPS (ps_rb s) 1 (ps_buf s) (ps_read_done s) (ps_size s) (ps_write_done s)).

(** The state after [sys_pipe]: two ends share an empty buffer. *)
Definition pipe_init : PipeSys := mkPS rb_new 2 [] false 0 false.

(** * The byte queue *)

(** The number of bytes in the buffer, by status. *)
Definition rb_len (b : PipeRingBuffer) : nat := Z.to_nat (available_read b).

(** The bytes in the buffer, oldest first. *)
Definition content (b : PipeRingBuffer) : list Z :=
  (fun i => default 0 (arr b !! Z.to_nat ((rb_head b + Z.of_nat i) mod RING_BUFFER_SIZE)))
    <$> seq 0 (rb_len b).

Record rb_wf (b : PipeRingBuffer) : Prop := {
  rb_wf_len : length (arr b) = 256%nat;
  rb_wf_head : 0 <= rb_head b < 256;
  rb_wf_tail : 0 <= rb_tail b < 256;
  rb_wf_full : status b = Full -> rb_head b = rb_tail b;
  rb_wf_empty : status b = Empty -> rb_head b = rb_tail b;
  rb_wf_normal : status b = Normal -> rb_head b <> rb_tail b;
}.

(** ** Refinement of the ring buffer *)

Lemma rb_new_wf : rb_wf rb_new.
Proof. by split. Qed.

Lemma rb_len_bound b : rb_wf b -> 0 <= available_read b <= 256.
Proof.
  intros [_ Hh Ht Hf He Hn]. unfold available_read, RING_BUFFER_SIZE.
  destruct (status b); [specialize (Hf eq_refl)|lia|specialize (Hn eq_refl)];
    destruct (Z.ltb_spec (rb_head b) (rb_tail b)); lia.
Qed.

Lemma available_write_spec b : rb_wf b -> available_write b = 256 - available_read b.
Proof.
  intros [_ Hh Ht Hf _ _]. unfold available_write, available_read, RING_BUFFER_SIZE.
  destruct (status b); [specialize (Hf eq_refl)|lia|lia].
  destruct (Z.ltb_spec (rb_head b) (rb_tail b)); lia.
Qed.

Lemma rb_tail_spec b : rb_wf b -> rb_tail b = (rb_head b + available_read b) mod 256.
Proof.
  intros [_ Hh Ht Hf He Hn]. unfold available_read, RING_BUFFER_SIZE.
  destruct (status b); [specialize (Hf eq_refl)|specialize (He eq_refl)|specialize (Hn eq_refl)];
    try destruct (Z.ltb_spec (rb_head b) (rb_tail b)); lia.
Qed.

Lemma write_byte_len b c :
  rb_wf b -> available_read b < 256 ->
  rb_wf (write_byte c b) /\ available_read (write_byte c b) = available_read b + 1.
Proof.
  intros Hwf Hlt. pose proof (rb_tail_spec b Hwf) as Htl. pose proof (rb_len_bound b Hwf) as Hb.
  destruct Hwf as [Hl Hh Ht Hf He Hn].
  set (n := available_read b) in *.
  assert (Ht' : (rb_tail b + 1) mod 256 = (rb_head b + n + 1) mod 256) by lia.
  assert (Heq : (rb_tail b + 1) mod 256 = rb_head b <-> n = 255) by lia.
  split.
  - unfold write_byte, RING_BUFFER_SIZE. split; cbn; try done.
    + by rewrite length_insert.
    + apply Z.mod_pos_bound. lia.
    + destruct (Z.eqb_spec ((rb_tail b + 1) mod 256) (rb_head b)); done.
    + destruct (Z.eqb_spec ((rb_tail b + 1) mod 256) (rb_head b)); done.
    + destruct (Z.eqb_spec ((rb_tail b + 1) mod 256) (rb_head b)); done.
  - unfold write_byte, RING_BUFFER_SIZE. unfold available_read at 1. cbn.
    destruct (Z.eqb_spec ((rb_tail b + 1) mod 256) (rb_head b)) as [E|E].
    + unfold RING_BUFFER_SIZE. destruct (Z.ltb_spec (rb_head b) ((rb_tail b + 1) mod 256)); lia.
    + unfold RING_BUFFER_SIZE. destruct (Z.ltb_spec (rb_head b) ((rb_tail b + 1) mod 256)); lia.
Qed.

Lemma content_length b : length (content b) = rb_len b.
Proof. unfold content. by rewrite length_fmap, length_seq. Qed.

(** Writing a byte appends it to the queue. *)
Lemma write_byte_spec b c :
  rb_wf b -> available_read b < 256 ->
  rb_wf (write_byte c b) /\ content (write_byte c b) = content b ++ [c].
Proof.
  intros Hwf Hlt. destruct (write_byte_len b c Hwf Hlt) as [Hwf' Hlen]. split; [done|].
  pose proof (rb_len_bound b Hwf) as Hb. pose proof (rb_tail_spec b Hwf) as Ht.
  unfold content, rb_len. rewrite Hlen, Z2Nat.inj_add, Nat.add_1_r, seq_S, fmap_app by lia. cbn [fmap list_fmap].
  pose proof (rb_wf_len b Hwf) as Hl. pose proof (rb_wf_tail b Hwf) as Htl.
  f_equal.
  - apply list_fmap_ext. intros i x Hx. apply lookup_seq in Hx as [-> Hi]. cbn in *.
    rewrite list_lookup_insert_ne; [done|]. unfold RING_BUFFER_SIZE in *. lia.
  - f_equal. cbn. unfold RING_BUFFER_SIZE.
    replace (Z.to_nat ((rb_head b + Z.of_nat (Z.to_nat (available_read b))) mod 256)) with (Z.to_nat (rb_tail b)) by lia.
    by rewrite list_lookup_insert_eq by lia.
Qed.

(** Reading a byte takes the oldest one from the queue. *)
Lemma read_byte_spec b :
  rb_wf b -> 0 < available_read b ->
  exists c b', read_byte b = (c, b') /\ rb_wf b' /\ content b = c :: content b'.
Proof.
  intros Hwf Hpos. pose proof (rb_len_bound b Hwf) as Hb. pose proof (rb_tail_spec b Hwf) as Ht.
  eexists _, _. split; [reflexivity|].
  set (b' := mkRB _ _ _ _). destruct Hwf as [Hl Hh Htl Hf He Hn]. set (n := available_read b) in *.
  assert (Heq : (rb_head b + 1) mod 256 = rb_tail b <-> n = 1) by lia.
  assert (Hlen : available_read b' = n - 1).
  { unfold b', available_read at 1, RING_BUFFER_SIZE. cbn.
    destruct (Z.eqb_spec ((rb_head b + 1) mod 256) (rb_tail b)) as [E|E]; [lia|].
    destruct (Z.ltb_spec ((rb_head b + 1) mod 256) (rb_tail b)); lia. }
  split.
  - unfold b', RING_BUFFER_SIZE. split; cbn; try done.
    + apply Z.mod_pos_bound. lia.
    + by destruct (Z.eqb_spec ((rb_head b + 1) mod 256) (rb_tail b)).
    + by destruct (Z.eqb_spec ((rb_head b + 1) mod 256) (rb_tail b)).
    + by destruct (Z.eqb_spec ((rb_head b + 1) mod 256) (rb_tail b)).
  - unfold content, rb_len. fold n. rewrite Hlen.
    replace (Z.to_nat n) with (S (Z.to_nat (n - 1))) by lia. cbn [seq fmap list_fmap].
    f_equal.
    + unfold RING_BUFFER_SIZE. do 3 f_equal. lia.
    + rewrite <- fmap_S_seq, <- list_fmap_compose. apply list_fmap_ext. intros i x Hx.
      apply lookup_seq in Hx as [-> Hi]. cbn. do 3 f_equal. unfold RING_BUFFER_SIZE. lia.
Qed.

Lemma available_read_content b : rb_wf b -> available_read b = Z.of_nat (length (content b)).
Proof. intros Hwf. rewrite content_length. unfold rb_len. pose proof (rb_len_bound b Hwf). lia. Qed.

(** ** Refinement of the loops *)

(** Passes of the inner read loop move a prefix of the queue to the buffer. *)
Lemma read_for_spec n max_len buf b :
  rb_wf b -> (n <= length (content b))%nat -> (length buf <= max_len)%nat ->
  exists t k b', read_for n max_len buf b = (t, buf ++ take k (content b), b') /\
    rb_wf b' /\ content b' = drop k (content b) /\ (k <= n)%nat /\
    (length buf + k <= max_len)%nat /\
    match t with
    | Return => (length buf + k = max_len)%nat /\ (k < n)%nat
    | Again => k = n
    end.
Proof.
  revert buf b. induction n as [|n IH]; intros buf b Hwf Hn Hlen; cbn [read_for].
  { exists Again, 0%nat, b. rewrite app_nil_r. split_and!; try done; lia. }
  destruct (Nat.eqb_spec (length buf) max_len) as [Heq|Hne].
  { exists Return, 0%nat, b. rewrite app_nil_r. split_and!; try done; lia. }
  destruct (read_byte_spec b Hwf) as (c & b' & -> & Hwf' & Hc).
  { rewrite available_read_content by done. lia. }
  rewrite Hc in *. cbn in Hn.
  destruct (IH (buf ++ [c]) b' Hwf' ltac:(lia)) as (t & k & b'' & -> & Hwf'' & Hc'' & Hk & Hl & Ht).
  { rewrite length_app. cbn. lia. }
  rewrite length_app in *. cbn in *.
  exists t, (S k), b''. cbn. rewrite <- app_assoc. cbn. split_and!; try done; try lia.
  destruct t; lia.
Qed.

Lemma read_pass_spec strong max_len buf b :
  rb_wf b -> (length buf <= max_len)%nat ->
  exists t k b', read_pass strong max_len buf b = (t, buf ++ take k (content b), b') /\
    rb_wf b' /\ content b' = drop k (content b) /\ (k <= length (content b))%nat /\
    (length buf + k <= max_len)%nat /\
    match t with
    | Return => (length buf + k = max_len)%nat \/ (content b = [] /\ strong = 1)
    | Again => k = length (content b)
    end.
Proof.
  intros Hwf Hlen. unfold read_pass. rewrite available_read_content by done.
  destruct (Z.eqb_spec (Z.of_nat (length (content b))) 0) as [E|E].
  - assert (Hc : content b = []) by (apply length_zero_iff_nil; lia).
    destruct (Z.eqb_spec strong 1); [exists Return, 0%nat, b|exists Again, 0%nat, b];
      rewrite Hc, app_nil_r; split_and!; try done; cbn; try lia. by right.
  - rewrite Nat2Z.id. destruct (read_for_spec _ max_len buf b Hwf (le_n _) Hlen)
      as (t & k & b' & -> & Hwf' & Hc & Hk & Hl & Ht).
    exists t, k, b'. split_and!; try done. destruct t; [left; lia|done].
Qed.

Lemma write_for_spec n data size b :
  rb_wf b -> Z.of_nat n <= 256 - available_read b -> (size <= length data)%nat ->
  exists t k b', write_for n data size b = (t, (size + k)%nat, b') /\
    rb_wf b' /\ content b' = content b ++ take k (drop size data) /\ (size + k <= length data)%nat /\
    match t with
    | Return => (size + k = length data)%nat
    | Again => k = n
    end.
Proof.
  revert size b. induction n as [|n IH]; intros size b Hwf Hn Hs; cbn [write_for].
  { exists Again, 0%nat, b. rewrite app_nil_r. split_and!; try done; try lia. f_equal. f_equal. lia. }
  destruct (Nat.eqb_spec size (length data)) as [->|Hne].
  { exists Return, 0%nat, b. rewrite app_nil_r. split_and!; try done; try lia. f_equal. f_equal. lia. }
  destruct (write_byte_spec b (default 0 (data !! size)) Hwf ltac:(lia)) as [Hwf' Hc].
  destruct (write_byte_len b (default 0 (data !! size)) Hwf ltac:(lia)) as [_ Hav].
  destruct (IH (S size) _ Hwf' ltac:(lia) ltac:(lia)) as (t & k & b'' & -> & Hwf'' & Hc'' & Hk & Ht).
  exists t, (S k), b''. split_and!; try done; try lia.
  - do 2 f_equal. lia.
  - rewrite Hc'', Hc, <- app_assoc. f_equal.
    destruct (lookup_lt_is_Some_2 data size ltac:(lia)) as [x Hx].
    rewrite (drop_S data x size Hx), Hx. done.
  - destruct t; lia.
Qed.

Lemma write_pass_spec data size b :
  rb_wf b -> (size <= length data)%nat ->
  exists t k b', write_pass data size b = (t, (size + k)%nat, b') /\
    rb_wf b' /\ content b' = content b ++ take k (drop size data) /\ (size + k <= length data)%nat /\
    (t = Return -> (size + k = length data)%nat).
Proof.
  intros Hwf Hs. unfold write_pass. rewrite available_write_spec by done.
  pose proof (rb_len_bound b Hwf) as Hb.
  destruct (Z.eqb_spec (256 - available_read b) 0) as [E|E].
  - exists Again, 0%nat, b. rewrite app_nil_r, Nat.add_0_r. split_and!; done.
  - destruct (write_for_spec (Z.to_nat (256 - available_read b)) data size b Hwf ltac:(lia) Hs)
      as (t & k & b' & -> & Hwf' & Hc & Hk & Ht).
    exists t, k, b'. split_and!; try done. by intros ->.
Qed.

(** ** Invariant of a pipe in use *)

(** What the reader got, followed by what is in the buffer and what is still to be
    written, is the data; and a finished call is finished for a reason. *)
Record pipe_inv (data : list Z) (max_len : nat) (s : PipeSys) : Prop := {
  pv_wf : rb_wf (ps_rb s);
  pv_fifo : ps_buf s ++ content (ps_rb s) ++ drop (ps_size s) data = data;
  pv_size : (ps_size s <= length data)%nat;
  pv_max : (length (ps_buf s) <= max_len)%nat;
  pv_strong : ps_strong s = 2 \/ (ps_strong s = 1 /\ ps_write_done s = true);
  pv_wdone : ps_write_done s = true -> ps_size s = length data;
  pv_rdone : ps_read_done s = true -> length (ps_buf s) = max_len \/ ps_buf s = data;
}.

Lemma pipe_step_inv data max_len s s' :
  pipe_inv data max_len s -> pipe_step data max_len s s' -> pipe_inv data max_len s'.
Proof.
  intros [Hwf Hf Hs Hm Hst Hwd Hrd] Hstep.
  destruct Hstep as [s t buf b Hnd Hp|s t size b Hnd Hp|s Hd H2].
  - destruct (read_pass_spec (ps_strong s) max_len (ps_buf s) (ps_rb s) Hwf Hm)
      as (t' & k & b' & Hp' & Hwf' & Hc & Hkc & Hl & Ht).
    rewrite Hp in Hp'. injection Hp' as -> -> ->. split; cbn; try done.
    + rewrite Hc, <- app_assoc, (app_assoc (take k _)), take_drop. done.
    + rewrite length_app, length_take. lia.
    + destruct t'; [|done]. intros _. rewrite length_app, length_take.
      destruct Ht as [Ht|[Hc0 Hs1]]; [left; lia|right].
      rewrite Hc0, take_nil, app_nil_r. destruct Hst as [?|[_ Hwd']]; [lia|].
      rewrite (Hwd Hwd'), drop_all, Hc0, app_nil_r in Hf. done.
  - destruct (write_pass_spec data (ps_size s) (ps_rb s) Hwf Hs) as (t' & k & b' & Hp' & Hwf' & Hc & Hk & Ht).
    rewrite Hp in Hp'. injection Hp' as -> -> ->. split; cbn; try done.
    + rewrite Hc, <- !app_assoc, <- drop_drop, take_drop. done.
    + destruct Hst as [?|[? ?]]; [by left|congruence].
    + destruct t'; [|done]. intros _. by apply Ht.
  - split; cbn; try done. by right.
Qed.

Lemma pipe_init_inv data max_len : pipe_inv data max_len pipe_init.
Proof. split; cbn; try done; lia. Qed.

Lemma pipe_reachable_inv data max_len s :
  rtc (pipe_step data max_len) pipe_init s -> pipe_inv data max_len s.
Proof.
  intros Hr. assert (Hinv : pipe_inv data max_len pipe_init) by apply pipe_init_inv.
  induction Hr as [|s1 s2 s3 Hst _ IH]; [done|]. apply IH. by eapply pipe_step_inv.
Qed.

(** * Theorems *)

(** The ring buffer implements a bounded byte queue: a byte written to a buffer
    that is not full is appended, a byte read from a buffer that is not empty is the
    oldest one, and the available counts are the length of the queue and the rest
    of the 256 bytes. *)
Theorem ring_buffer_refines_queue b :
  rb_wf b ->
  available_read b = Z.of_nat (length (content b)) /\
  available_write b = 256 - Z.of_nat (length (content b)) /\
  (forall c, 0 < available_write b ->
     rb_wf (write_byte c b) /\ content (write_byte c b) = content b ++ [c]) /\
  (0 < available_read b ->
     exists c b', read_byte b = (c, b') /\ rb_wf b' /\ content b = c :: content b').
Proof.
  intros Hwf. rewrite available_write_spec, available_read_content by done. split_and!; try done.
  - intros c Hc. apply write_byte_spec; [done|]. rewrite available_read_content by done. lia.
  - intros Hr. apply read_byte_spec; [done|]. by rewrite available_read_content.
Qed.

Lemma ring_buffer_refines_queue_witness :
  available_read (write_byte 5 rb_new) = 1 /\ available_write rb_new = 256.
Proof.
  destruct (ring_buffer_refines_queue rb_new rb_new_wf) as (_ & Hw & Hc & _).
  split; [|rewrite Hw; reflexivity]. vm_compute. reflexivity.
Defined.

(** C14: In every interleaving of a reader and a writer on a pipe, the bytes read,
    then the bytes in the buffer, then the bytes not yet written are the data the
    writer was given: nothing is lost, duplicated or reordered, for data longer
    than the buffer too. *)
Theorem pipe_fifo data max_len s :
  rtc (pipe_step data max_len) pipe_init s ->
  ps_buf s ++ content (ps_rb s) ++ drop (ps_size s) data = data.
Proof. intros Hr. apply (pv_fifo data max_len), pipe_reachable_inv, Hr. Qed.

(** A run: the writer writes, the reader takes two bytes. *)
Lemma pipe_run_example :
  rtc (pipe_step [1; 2; 3] 2) pipe_init
    (mkPS (mkRB (1 :: 2 :: 3 :: replicate 253 0) 2 3 Normal) 2 [1; 2] true 3 true).
Proof.
  eapply rtc_l; [eapply step_write; reflexivity|].
  eapply rtc_l; [eapply step_read; reflexivity|]. apply rtc_refl.
Qed.

Lemma pipe_fifo_witness : [1; 2] ++ [3] ++ [] = [1; 2; 3].
Proof. exact (pipe_fifo [1; 2; 3] 2 _ pipe_run_example). Defined.

(** A [read] that returned got exactly the number of bytes asked for, or all the
    data there was after the write end was closed. *)
Theorem pipe_read_complete data max_len s :
  rtc (pipe_step data max_len) pipe_init s -> ps_read_done s = true ->
  ps_buf s = take max_len data.
Proof.
  intros Hr Hd. pose proof (pipe_reachable_inv data max_len s Hr) as [_ Hf _ Hm _ _ Hrd].
  destruct (Hrd Hd) as [Hl|Heq].
  - rewrite <- Hf, <- Hl. by rewrite take_app_length.
  - rewrite Heq in *. by rewrite take_ge.
Qed.

Lemma pipe_read_complete_witness : [1; 2] = take 2 [1; 2; 3].
Proof. exact (pipe_read_complete [1; 2; 3] 2 _ pipe_run_example eq_refl). Defined.

(** A [read] whose request is satisfied does not return while the pipe is empty
    and the write end open: every further pass yields and leaves the state as it
    is. Only more data or the close of the write end lets it return. *)
Theorem satisfied_read_keeps_waiting max_len buf b :
  rb_wf b -> content b = [] -> length buf = max_len ->
  read_pass 2 max_len buf b = (Again, buf, b) /\ read_pass 1 max_len buf b = (Return, buf, b).
Proof.
  intros Hwf Hc Hl. unfold read_pass. rewrite available_read_content, Hc by done. done.
Qed.

Lemma satisfied_read_keeps_waiting_witness :
  read_pass 2 2 [1; 2] rb_new = (Again, [1; 2], rb_new) /\ read_pass 1 2 [1; 2] rb_new = (Return, [1; 2], rb_new).
Proof. apply (satisfied_read_keeps_waiting 2 [1; 2] rb_new rb_new_wf); reflexivity. Defined.

(** Once the write end is closed a [read] returns after at most two passes, with
    the bytes left in the pipe up to the length asked for. *)
Theorem read_after_close_returns max_len buf b :
  rb_wf b -> (length buf <= max_len)%nat ->
  exists t1 buf1 b1, read_pass 1 max_len buf b = (t1, buf1, b1) /\
    (t1 = Return \/ exists b2, read_pass 1 max_len buf1 b1 = (Return, buf1, b2)) /\
    buf1 = buf ++ take (max_len - length buf) (content b).
Proof.
  intros Hwf Hl. destruct (read_pass_spec 1 max_len buf b Hwf Hl)
    as (t & k & b' & Hp & Hwf' & Hc & Hkc & Hlk & Ht).
  exists t, (buf ++ take k (content b)), b'. split; [done|]. split.
  - destruct t; [by left|right]. exists b'. unfold read_pass.
    rewrite available_read_content, Hc, Ht, drop_all by done. done.
  - f_equal. destruct t.
    + destruct Ht as [Ht|[-> _]]; [f_equal; lia|by rewrite !take_nil].
    + rewrite Ht, !take_ge by lia. done.
Qed.

Lemma read_after_close_returns_witness :
  exists t1 buf1 b1, read_pass 1 5 [9] (write_byte 4 rb_new) = (t1, buf1, b1) /\
    (t1 = Return \/ exists b2, read_pass 1 5 buf1 b1 = (Return, buf1, b2)) /\
    buf1 = [9] ++ take (5 - 1) (content (write_byte 4 rb_new)).
Proof.
  apply (read_after_close_returns 5 [9] (write_byte 4 rb_new)); [|cbn; lia].
  apply write_byte_spec; [apply rb_new_wf|vm_compute; reflexivity].
Defined.
