(* ===== verification/Sched.v ===== *)
(** The scheduler (arceos/modules/axtask/src): tasks, per-CPU FIFO run queues,
    wait queues and timers, as a transition system over all CPUs.

    A CPU runs kernel code with interrupts off as a sequence of atomic actions
    ([act]), the parts of the source between two points where another CPU can
    interfere: the actions still to be run are the CPU's [c_pc], and what a task
    has left to run after it is switched out is saved in its [t_cont]. Locks are
    not modelled separately: the actions under one critical section are one
    action, except that the spin on [on_cpu] inside [put_task_with_state] is an
    action of its own ([APut]), so the model allows every interleaving of the
    code and some more. *)
From stdpp Require Import functions.
From S2P Require Import Prelude.

(** [TaskState] of task.rs. *)
Inductive TaskState := Running | Ready | Blocked | Exited.
#[export] Instance TaskState_eq_dec : EqDecision TaskState.
Proof. solve_decision. Defined.

(** The wait queues of the system: [wait_for_exit] of a task, the per-CPU
    [WAIT_FOR_EXIT] of the gc task, and any other [WaitQueue]. *)
Inductive wq := WJoin (t : Z) | WGc (c : nat) | WOther (n : Z).
#[export] Instance wq_eq_dec : EqDecision wq.
Proof. solve_decision. Defined.

(** The conditions given to [wait_until]: that of [join], or a closure of the
    caller, whose value at an evaluation is an input of the step. *)
Inductive cond := CExited (t : Z) | CExt.
#[export] Instance cond_eq_dec : EqDecision cond.
Proof. solve_decision. Defined.

Inductive act :=
| APut (t : Z) (q : nat)                         (* end of [put_task_with_state(Blocked)] *)
| AResched                                       (* [resched] *)
| AClear                                         (* [clear_prev_task_on_cpu] *)
| ANotifyOne (w : wq)
| ANotifyAll (w : wq)
| AExitCode (code : Z)                           (* the store in [notify_exit] *)
| APushExited                                    (* [EXITED_TASKS.push_back] *)
| ABlock (w : wq)                                (* [blocked_resched] *)
| AWaitUntil (w : wq) (k : cond)                 (* the loop of [wait_until] *)
| AWaitTimeout (w : wq) (deadline : Z) (k : cond)
| ACancel (w : wq) (from_timer_list : bool)      (* [cancel_events] *)
| ACheckEvents.                                  (* the loop of [check_events] *)
#[export] Instance act_eq_dec : EqDecision act.
Proof. solve_decision. Defined.

(** [TaskInner], with the actions left to run when the task is switched in. *)
Record Task := mkTask {
  t_state : TaskState;
  t_idle : bool;
  t_init : bool;
  t_mask : Z;
  t_in_wq : bool;
  t_on_cpu : bool;
  t_ticket : Z;
  t_code : Z;
  t_cont : list act;
}.

(** The per-CPU state: RUN_QUEUE (its FIFO scheduler), the current task,
    IDLE_TASK, PREV_TASK, EXITED_TASKS and TIMER_LIST. A timer event is its
    deadline, ticket and task. *)
Record Cpu := mkCpu {
  c_rq : list Z;
  c_cur : Z;
  c_idle : Z;
  c_prev : Z;
  c_exited : list Z;
  c_timers : list (Z * Z * Z);
  c_pc : list act;
}.

(** The whole system, with the counters of [TaskId::new], [set_alarm_wakeup] and
    [select_run_queue_index]. Identifiers from [s_next_id] on are not used yet. *)
Record Sys := mkSys {
  s_tasks : Z -> Task;
  s_cpus : nat -> Cpu;
  s_wqs : wq -> list Z;
  s_next_id : Z;
  s_next_ticket : Z;
  s_rr : Z;
  s_halted : bool;
}.

(** Field updates. *)
Definition set_state (x : TaskState) (k : Task) : Task :=
  mkTask x (t_idle k) (t_init k) (t_mask k) (t_in_wq k) (t_on_cpu k) (t_ticket k) (t_code k) (t_cont k).
Definition set_in_wait_queue (x : bool) (k : Task) : Task :=
  mkTask (t_state k) (t_idle k) (t_init k) (t_mask k) x (t_on_cpu k) (t_ticket k) (t_code k) (t_cont k).
Definition set_on_cpu (x : bool) (k : Task) : Task :=
  mkTask (t_state k) (t_idle k) (t_init k) (t_mask k) (t_in_wq k) x (t_ticket k) (t_code k) (t_cont k).
Definition set_timer_ticket (x : Z) (k : Task) : Task :=
  mkTask (t_state k) (t_idle k) (t_init k) (t_mask k) (t_in_wq k) (t_on_cpu k) x (t_code k) (t_cont k).
Definition set_code (x : Z) (k : Task) : Task :=
  mkTask (t_state k) (t_idle k) (t_init k) (t_mask k) (t_in_wq k) (t_on_cpu k) (t_ticket k) x (t_cont k).
Definition set_cont (x : list act) (k : Task) : Task :=
  mkTask (t_state k) (t_idle k) (t_init k) (t_mask k) (t_in_wq k) (t_on_cpu k) (t_ticket k) (t_code k) x.

Definition set_rq (x : list Z) (k : Cpu) : Cpu :=
  mkCpu x (c_cur k) (c_idle k) (c_prev k) (c_exited k) (c_timers k) (c_pc k).
Definition set_switch (cur prev : Z) (k : Cpu) : Cpu :=
  mkCpu (c_rq k) cur (c_idle k) prev (c_exited k) (c_timers k) (c_pc k).
Definition set_exited (x : list Z) (k : Cpu) : Cpu :=
  mkCpu (c_rq k) (c_cur k) (c_idle k) (c_prev k) x (c_timers k) (c_pc k).
Definition set_timers (x : list (Z * Z * Z)) (k : Cpu) : Cpu :=
  mkCpu (c_rq k) (c_cur k) (c_idle k) (c_prev k) (c_exited k) x (c_pc k).
Definition set_pc (x : list act) (k : Cpu) : Cpu :=
  mkCpu (c_rq k) (c_cur k) (c_idle k) (c_prev k) (c_exited k) (c_timers k) x.

Definition upd_task (t : Z) (f : Task -> Task) (s : Sys) : Sys :=
  mkSys (<[t := f (s_tasks s t)]> (s_tasks s)) (s_cpus s) (s_wqs s) (s_next_id s)
    (s_next_ticket s) (s_rr s) (s_halted s).
Definition upd_cpu (c : nat) (f : Cpu -> Cpu) (s : Sys) : Sys :=
  mkSys (s_tasks s) (<[c := f (s_cpus s c)]> (s_cpus s)) (s_wqs s) (s_next_id s)
    (s_next_ticket s) (s_rr s) (s_halted s).
Definition upd_wq (w : wq) (l : list Z) (s : Sys) : Sys :=
  mkSys (s_tasks s) (s_cpus s) (<[w := l]> (s_wqs s)) (s_next_id s)
    (s_next_ticket s) (s_rr s) (s_halted s).
Definition set_rr (x : Z) (s : Sys) : Sys :=
  mkSys (s_tasks s) (s_cpus s) (s_wqs s) (s_next_id s) (s_next_ticket s) x (s_halted s).
Definition set_ids (id ticket : Z) (s : Sys) : Sys :=
  mkSys (s_tasks s) (s_cpus s) (s_wqs s) id ticket (s_rr s) (s_halted s).
Definition halt (s : Sys) : Sys :=
  mkSys (s_tasks s) (s_cpus s) (s_wqs s) (s_next_id s) (s_next_ticket s) (s_rr s) true.

Definition cur (s : Sys) (c : nat) : Z := c_cur (s_cpus s c).
Definition curr_task (s : Sys) (c : nat) : Task := s_tasks s (cur s c).
Definition is_state (x : TaskState) (k : Task) : bool := bool_decide (t_state k = x).

Section Sched.
(** [axconfig::SMP], the number of CPUs. *)
Context (SMP : nat).

(** [cpumask.get(index)] and [cpumask.is_empty()]. *)
Definition cpumask_get (mask : Z) (index : nat) : bool := Z.testbit mask (Z.of_nat index).
Definition cpumask_is_empty (mask : Z) : bool :=
  negb (existsb (cpumask_get mask) (seq 0 SMP)).

(** The loop of [select_run_queue_index]; the counter wraps at [2^64]. *)
Fixpoint select_loop (fuel : nat) (mask rr : Z) : option (nat * Z) :=
  match fuel with
  | O => None
  | S fuel =>
      let index := Z.to_nat (rr mod Z.of_nat SMP) in
      if cpumask_get mask index then Some (index, wrap (rr + 1))
      else select_loop fuel mask (wrap (rr + 1))
  end.

(** [select_run_queue_index]. *)
Definition select_run_queue_index (mask : Z) (s : Sys) : outcome (nat * Sys) :=
  if cpumask_is_empty mask then Panic
  else match select_loop (2 * SMP) mask (s_rr s) with
       | Some (i, rr) => Ret (i, set_rr rr s)
       | None => Panic
       end.

(** [scheduler.put_prev_task] and [scheduler.add_task] of the FIFO scheduler. *)
Definition rq_push (q : nat) (t : Z) : Sys -> Sys :=
  upd_cpu q (fun k => set_rq (c_rq k ++ [t]) k).

(** [unblock_task] on a run queue chosen by [select_run_queue], up to the spin of
    [put_task_with_state], with [rest] the actions of the caller. *)
Definition unblock_task (c : nat) (t : Z) (rest : list act) (s : Sys) : outcome Sys :=
  match select_run_queue_index (t_mask (s_tasks s t)) s with
  | Panic => Panic
  | Ret (q, s1) =>
      if is_state Blocked (s_tasks s1 t) then
        let s2 := upd_task t (set_state Ready) s1 in
        if t_idle (s_tasks s t) then Ret (upd_cpu c (set_pc rest) s2)
        else Ret (upd_cpu c (set_pc (APut t q :: rest)) s2)
      else Ret (upd_cpu c (set_pc rest) s1)
  end.

(** The rest of [put_task_with_state] for a task that was blocked: wait until no CPU
    is still switching away from it ([None] while one is), then queue it on [q]. *)
Definition put_task_with_state (c : nat) (t : Z) (q : nat) (rest : list act) (s : Sys) : option Sys :=
  if t_on_cpu (s_tasks s t) then None else Some (rq_push q t (upd_cpu c (set_pc rest) s)).

(** [unblock_one_task] of wait_queue.rs. *)
Definition unblock_one_task (c : nat) (t : Z) (rest : list act) (s : Sys) : outcome Sys :=
  unblock_task c t rest (upd_task t (set_in_wait_queue false) s).

(** [notify_one] of wait_queue.rs. *)
Definition notify_one (c : nat) (w : wq) (rest : list act) (s : Sys) : outcome Sys :=
  match s_wqs s w with
  | [] => Ret (upd_cpu c (set_pc rest) s)
  | t :: l => unblock_one_task c t rest (upd_wq w l s)
  end.

(** [notify_all]: one round of its loop. *)
Definition notify_all (c : nat) (w : wq) (rest : list act) (s : Sys) : outcome Sys :=
  match s_wqs s w with
  | [] => Ret (upd_cpu c (set_pc rest) s)
  | _ => notify_one c w (ANotifyAll w :: rest) s
  end.

(** [switch_to], up to the return of the context switch in the next task. *)
Definition switch_to (c : nat) (next : Z) (rest : list act) (s : Sys) : Sys :=
  let s1 := upd_task next (set_state Running) s in
  if next =? cur s c then upd_cpu c (set_pc rest) s1
  else
    let s2 := upd_task next (set_on_cpu true) (upd_task (cur s c) (set_cont rest) s1) in
    upd_cpu c (fun k => set_pc (AClear :: t_cont (s_tasks s2 next)) (set_switch next (c_cur k) k)) s2.

(** [resched]. *)
Definition resched (c : nat) (rest : list act) (s : Sys) : outcome Sys :=
  let k := s_cpus s c in
  let '(next, rq) := match c_rq k with
                     | [] => (c_idle k, [])
                     | t :: l => (t, l)
                     end in
  if is_state Ready (s_tasks s next)
  then Ret (switch_to c next rest (upd_cpu c (set_rq rq) s)) else Panic.

(** [clear_prev_task_on_cpu]. *)
Definition clear_prev_task_on_cpu (c : nat) (rest : list act) (s : Sys) : Sys :=
  upd_cpu c (set_pc rest) (upd_task (c_prev (s_cpus s c)) (set_on_cpu false) s).

(** [blocked_resched], with [rest] what follows it in the caller. *)
Definition blocked_resched (c : nat) (w : wq) (rest : list act) (s : Sys) : outcome Sys :=
  if negb (is_state Running (curr_task s c)) then Panic
  else if t_idle (curr_task s c) then Panic
  else Ret (upd_cpu c (set_pc (AResched :: rest))
             (upd_wq w (s_wqs s w ++ [cur s c])
               (upd_task (cur s c) (fun k => set_in_wait_queue true (set_state Blocked k)) s))).

(** [cancel_events]. *)
Definition cancel_events (c : nat) (w : wq) (from_timer_list : bool) (rest : list act) (s : Sys) : Sys :=
  let t := cur s c in
  let s1 := if t_in_wq (s_tasks s t)
            then upd_task t (set_in_wait_queue false)
                   (upd_wq w (filter (fun x => x <> t) (s_wqs s w)) s)
            else s in
  let s2 := if from_timer_list then upd_task t (set_timer_ticket 0) s1 else s1 in
  upd_cpu c (set_pc rest) s2.

(** [condition()] of the waits. *)
Definition cond_holds (s : Sys) (ext : bool) (k : cond) : bool :=
  match k with CExited t => is_state Exited (s_tasks s t) | CExt => ext end.

(** One round of the loop of [wait_until]. *)
Definition wait_until (c : nat) (w : wq) (k : cond) (ext : bool) (rest : list act) (s : Sys) : outcome Sys :=
  if cond_holds s ext k then Ret (upd_cpu c (set_pc (ACancel w false :: rest)) s)
  else blocked_resched c w (AWaitUntil w k :: rest) s.

(** One round of the loop of [wait_timeout_until]. *)
Definition wait_timeout_until (c : nat) (w : wq) (deadline now : Z) (k : cond) (ext : bool)
    (rest : list act) (s : Sys) : outcome Sys :=
  if (deadline <=? now) || cond_holds s ext k
  then Ret (upd_cpu c (set_pc (ACancel w true :: rest)) s)
  else blocked_resched c w (AWaitTimeout w deadline k :: rest) s.

(** The first event of least deadline: [TimerList::expire_one] pops it when its
    deadline has passed. The order of events of equal deadline, which the binary
    heap does not specify, is that of insertion. *)
Fixpoint earliest (l : list (Z * Z * Z)) : option ((Z * Z * Z) * list (Z * Z * Z)) :=
  match l with
  | [] => None
  | e :: l' =>
      match earliest l' with
      | Some (m, r) => if m.1.1 <? e.1.1 then Some (m, e :: r) else Some (e, l')
      | None => Some (e, l')
      end
  end.
Definition expire_one (now : Z) (l : list (Z * Z * Z)) : option ((Z * Z * Z) * list (Z * Z * Z)) :=
  match earliest l with
  | Some (e, r) => if e.1.1 <=? now then Some (e, r) else None
  | None => None
  end.

(** [TaskWakeupEvent::callback]: an event whose ticket is not the task's is ignored. *)
Definition wakeup_callback (c : nat) (ticket t : Z) (rest : list act) (s : Sys) : outcome Sys :=
  if negb (t_ticket (s_tasks s t) =? ticket) then Ret (upd_cpu c (set_pc rest) s)
  else unblock_task c t rest s.

(** One round of [check_events]. *)
Definition check_events (c : nat) (now : Z) (rest : list act) (s : Sys) : outcome Sys :=
  match expire_one now (c_timers (s_cpus s c)) with
  | None => Ret (upd_cpu c (set_pc rest) s)
  | Some ((_, ticket, t), l) =>
      wakeup_callback c ticket t (ACheckEvents :: rest) (upd_cpu c (set_timers l) s)
  end.

(** [set_alarm_wakeup] for the current task. *)
Definition set_alarm_wakeup (c : nat) (deadline : Z) (s : Sys) : outcome Sys :=
  let ticket := s_next_ticket s in
  if ticket =? 0 then Panic
  else Ret (upd_cpu c (fun k => set_timers (c_timers k ++ [(deadline, ticket, c_cur k)]) k)
             (upd_task (cur s c) (set_timer_ticket ticket)
               (set_ids (s_next_id s) (wrap (ticket + 1)) s))).

(** The store of [notify_exit]; its [notify_all] is the next action of the exit. *)
Definition notify_exit (c : nat) (code : Z) (rest : list act) (s : Sys) : Sys :=
  upd_cpu c (set_pc rest) (upd_task (cur s c) (set_code code) s).

(** The next action of CPU [c], at time [now]; [ext] is the value of a condition of
    the caller if the action evaluates one. [None] when the CPU spins. *)
Definition exec (c : nat) (now : Z) (ext : bool) (s : Sys) : outcome (option Sys) :=
  let some (o : outcome Sys) := match o with Ret s' => Ret (Some s') | Panic => Panic end in
  match c_pc (s_cpus s c) with
  | [] => Ret None
  | a :: rest =>
      match a with
      | APut t q =>
          Ret (put_task_with_state c t q rest s)
      | AResched => some (resched c rest s)
      | AClear => Ret (Some (clear_prev_task_on_cpu c rest s))
      | ANotifyOne w => some (notify_one c w rest s)
      | ANotifyAll w => some (notify_all c w rest s)
      | AExitCode code => Ret (Some (notify_exit c code rest s))
      | APushExited =>
          Ret (Some (upd_cpu c (set_pc rest)
                       (upd_cpu c (fun k => set_exited (c_exited k ++ [c_cur k]) k) s)))
      | ABlock w => some (blocked_resched c w rest s)
      | AWaitUntil w k => some (wait_until c w k ext rest s)
      | AWaitTimeout w deadline k => some (wait_timeout_until c w deadline now k ext rest s)
      | ACancel w ft => Ret (Some (cancel_events c w ft rest s))
      | ACheckEvents => some (check_events c now rest s)
      end
  end.

(** What a task can ask of the scheduler (api.rs, wait_queue.rs, task.rs). *)
Inductive op :=
| OYield
| OWait (w : wq)
| OWaitUntil (w : wq) (k : cond)
| OWaitTimeout (w : wq) (deadline : Z)
| OWaitTimeoutUntil (w : wq) (deadline : Z) (k : cond)
| OSleep (deadline : Z)
| OExit (code : Z)
| OSpawn (mask : Z)
| ONotifyOne (w : wq)
| ONotifyAll (w : wq).

(** [join]: [wait_until] on the queue of the task. *)
Definition join (t : Z) : op := OWaitUntil (WJoin t) (CExited t).

(** [yield_current], up to its [resched]. *)
Definition yield_current (c : nat) (s : Sys) : outcome Sys :=
  if negb (is_state Running (curr_task s c)) then Panic
  else
    let s1 := upd_task (cur s c) (set_state Ready) s in
    let s2 := if t_idle (curr_task s c) then s1 else rq_push c (cur s c) s1 in
    Ret (upd_cpu c (set_pc [AResched]) s2).

(** [sleep_until], up to its [resched]. *)
Definition sleep_until (c : nat) (deadline now : Z) (s : Sys) : outcome Sys :=
  if negb (is_state Running (curr_task s c)) then Panic
  else if t_idle (curr_task s c) then Panic
  else if deadline <=? now then Ret s
  else match set_alarm_wakeup c deadline s with
       | Panic => Panic
       | Ret s1 => Ret (upd_cpu c (set_pc [AResched]) (upd_task (cur s c) (set_state Blocked) s1))
       end.

(** [exit_current]; the exit of the init task terminates the machine. *)
Definition exit_current (c : nat) (code : Z) (s : Sys) : outcome Sys :=
  if negb (is_state Running (curr_task s c)) then Panic
  else if t_idle (curr_task s c) then Panic
  else if t_init (curr_task s c) then Ret (halt (upd_cpu c (set_exited []) s))
  else Ret (upd_cpu c (set_pc [AExitCode code; ANotifyAll (WJoin (cur s c)); APushExited;
                               ANotifyOne (WGc c); AResched])
             (upd_task (cur s c) (set_state Exited) s)).

(** [TaskInner::new] followed by [spawn_task]. *)
Definition new_task (mask : Z) : Task := mkTask Ready false false mask false false 0 0 [].
Definition spawn_task (mask : Z) (s : Sys) : outcome Sys :=
  let t := s_next_id s in
  let s1 := upd_task t (fun _ => new_task mask) (set_ids (t + 1) (s_next_ticket s) s) in
  match select_run_queue_index mask s1 with
  | Panic => Panic
  | Ret (q, s2) => if is_state Ready (s_tasks s2 t) then Ret (rq_push q t s2) else Panic
  end.

(** [WaitQueue::wait]. *)
Definition wait (c : nat) (w : wq) (s : Sys) : Sys :=
  upd_cpu c (set_pc [ABlock w; ACancel w false]) s.

(** [WaitQueue::wait_timeout]; the deadline is the wall time plus the duration. *)
Definition wait_timeout (c : nat) (w : wq) (deadline : Z) (s : Sys) : outcome Sys :=
  match set_alarm_wakeup c deadline s with
  | Panic => Panic
  | Ret s1 => blocked_resched c w [ACancel w true] s1
  end.

(** [WaitQueue::wait_timeout_until] up to its loop. *)
Definition wait_timeout_enter (c : nat) (w : wq) (deadline : Z) (k : cond) (s : Sys) : outcome Sys :=
  match set_alarm_wakeup c deadline s with
  | Panic => Panic
  | Ret s1 => Ret (upd_cpu c (set_pc [AWaitTimeout w deadline k]) s1)
  end.

Definition do_op (c : nat) (now : Z) (o : op) (s : Sys) : outcome Sys :=
  match o with
  | OYield => yield_current c s
  | OWait w => Ret (wait c w s)
  | OWaitUntil w k => Ret (upd_cpu c (set_pc [AWaitUntil w k]) s)
  | OWaitTimeout w deadline => wait_timeout c w deadline s
  | OWaitTimeoutUntil w deadline k => wait_timeout_enter c w deadline k s
  | OSleep deadline => sleep_until c deadline now s
  | OExit code => exit_current c code s
  | OSpawn mask => spawn_task mask s
  | ONotifyOne w => Ret (upd_cpu c (set_pc [ANotifyOne w]) s)
  | ONotifyAll w => Ret (upd_cpu c (set_pc [ANotifyAll w]) s)
  end.

(** Where interrupts are enabled: outside the scheduler, and between the rounds
    of the waiting loops. *)
Definition interruptible (pc : list act) : bool :=
  match pc with
  | [] => true
  | AWaitUntil _ _ :: _ | AWaitTimeout _ _ _ :: _ | ACancel _ _ :: _ => true
  | _ => false
  end.

(** How the operations are used: the idle routine only yields; a task's
    [wait_for_exit] queue is private to [join]; a new task may run on some CPU. *)
Definition is_join_queue (w : wq) : bool := match w with WJoin _ => true | _ => false end.
Definition wait_ok (w : wq) (k : cond) : bool :=
  match w, k with
  | WJoin t, CExited t' => t =? t'
  | WJoin _, CExt => false
  | _, _ => true
  end.
Definition op_ok (s : Sys) (c : nat) (o : op) : bool :=
  (negb (t_idle (curr_task s c)) || match o with OYield => true | _ => false end) &&
  match o with
  | OWait w | OWaitTimeout w _ | OWaitTimeoutUntil w _ _ => negb (is_join_queue w)
  | OWaitUntil w k => wait_ok w k
  | OSpawn mask => negb (cpumask_is_empty mask)
  | _ => true
  end.

(** A step of the system: the next action of a CPU, a new request of the task
    running there, or a timer interrupt. *)
Inductive step (s : Sys) : Sys -> Prop :=
| step_exec c now ext s' :
    s_halted s = false -> (c < SMP)%nat -> exec c now ext s = Ret (Some s') -> step s s'
| step_op c now o s' :
    s_halted s = false -> (c < SMP)%nat -> c_pc (s_cpus s c) = [] -> op_ok s c o = true ->
    do_op c now o s = Ret s' -> step s s'
| step_tick c :
    s_halted s = false -> (c < SMP)%nat -> interruptible (c_pc (s_cpus s c)) = true ->
    step s (upd_cpu c (fun k => set_pc (ACheckEvents :: c_pc k) k) s).

(** The state after [init] and [init_secondary] on every CPU. CPU 0 runs the main
    task 2 and has the idle task 1; CPU [c] > 0 runs its idle task [2c + 2]; the
    gc task [2c + 3] of every CPU is ready there. *)
Definition one_shot (c : Z) : Z := 2 ^ c.
Definition cpumask_full : Z := 2 ^ Z.of_nat SMP - 1.
Definition init_task (t : Z) : Task :=
  if t =? 1 then mkTask Ready true false (one_shot 0) false false 0 0 []
  else if (2 <=? t) && (t <? 2 * Z.of_nat SMP + 2) then
    if Z.even t
    then mkTask Running (negb (t =? 2)) true cpumask_full false true 0 0 []
    else mkTask Ready false false (one_shot (t / 2 - 1)) false false 0 0 []
  else mkTask Exited false false cpumask_full false false 0 0 [].
Definition init_cpu (c : nat) : Cpu :=
  let t := 2 * Z.of_nat c + 2 in
  mkCpu [t + 1] t (if decide (c = 0%nat) then 1 else t) 0 [] [] [].
Definition init : Sys :=
  mkSys init_task init_cpu (fun _ => []) (2 * Z.of_nat SMP + 2) 1 0 false.
End Sched.
