(* ===== verification/SchedInv.v ===== *)
(** The invariant of the scheduler. The part about queues and CPUs is stated on a
    view of the system ([View]) with one lemma per kind of change; [SchedCorrect]
    shows that every step of the scheduler is one of these changes on the view. *)
From stdpp Require Import functions.
From S2P Require Import Prelude.
From S2P Require Import Sched.

(** What the invariant sees: the state, idle flag and [on_cpu] of the tasks, and
    per CPU the run queue, the tasks being put into a run queue, the current task,
    the task whose [on_cpu] is still to be cleared, whether a [resched] is pending,
    and the idle task. *)
Record View := mkView {
  v_state : Z -> TaskState;
  v_idle : Z -> bool;
  v_on : Z -> bool;
  v_rq : nat -> list Z;
  v_put : nat -> list Z;
  v_cur : nat -> Z;
  v_clr : nat -> option Z;
  v_pend : nat -> bool;
  v_idt : nat -> Z;
}.

Section View.
Context (SMP : nat).

(** The tasks in a run queue or on the way to one; those occupying a CPU. *)
Definition pool (v : View) : list Z := concat ((fun c => v_rq v c ++ v_put v c) <$> seq 0 SMP).
Definition busy (v : View) : list Z := concat ((fun c => v_cur v c :: option_list (v_clr v c)) <$> seq 0 SMP).

Record core (v : View) : Prop := mkCore {
  (* every ready task but the idle ones is in exactly one queue, once *)
  core_pool_nodup : NoDup (pool v);
  core_pool : forall t, t ∈ pool v <-> v_state v t = Ready /\ v_idle v t = false;
  (* a task occupies at most one CPU *)
  core_busy_nodup : NoDup (busy v);
  core_busy : forall t, t ∈ busy v <-> v_on v t = true;
  (* the running tasks are the current tasks of the CPUs that are not switching *)
  core_run : forall c, (c < SMP)%nat -> v_pend v c = false -> v_state v (v_cur v c) = Running;
  core_run_inv : forall t, v_state v t = Running ->
    exists c, (c < SMP)%nat /\ v_cur v c = t /\ v_pend v c = false;
  (* a queued task still on a CPU is queued on that CPU *)
  core_rq : forall c t, (c < SMP)%nat -> t ∈ v_rq v c -> v_on v t = true ->
    t = v_cur v c \/ v_clr v c = Some t;
  core_idle : forall c, (c < SMP)%nat -> v_idle v (v_idt v c) = true;
  core_idle_inj : forall c c', (c < SMP)%nat -> (c' < SMP)%nat -> v_idt v c = v_idt v c' -> c = c';
  core_idle_inv : forall t, v_idle v t = true -> exists c, (c < SMP)%nat /\ t = v_idt v c;
  core_idle_state : forall t, v_idle v t = true -> v_state v t = Ready \/ v_state v t = Running;
  core_idle_on : forall c, (c < SMP)%nat -> v_on v (v_idt v c) = true ->
    v_idt v c = v_cur v c \/ v_clr v c = Some (v_idt v c);
  core_clr_pend : forall c, (c < SMP)%nat -> v_pend v c = true -> v_clr v c = None;
}.

Lemma concat_upd {A} (f g : nat -> list A) c :
  (c < SMP)%nat -> (forall i, i <> c -> g i = f i) ->
  exists rest, concat (f <$> seq 0 SMP) ≡ₚ f c ++ rest /\ concat (g <$> seq 0 SMP) ≡ₚ g c ++ rest.
Proof.
  intros Hc Hg. assert (seq 0 SMP = seq 0 c ++ c :: seq (S c) (SMP - S c)) as ->.
  { replace SMP with (c + S (SMP - S c))%nat at 1 by lia. by rewrite seq_app. }
  rewrite !fmap_app, !fmap_cons, !concat_app. cbn [concat].
  exists (concat (f <$> seq 0 c) ++ concat (f <$> seq (S c) (SMP - S c))). split.
  - solve_Permutation.
  - rewrite !(list_fmap_ext g f).
    + solve_Permutation.
    + intros i x [-> ?]%lookup_seq. apply Hg. lia.
    + intros i x [-> ?]%lookup_seq. apply Hg. lia.
Qed.

Lemma elem_of_cpus {A} (f : nat -> list A) x :
  x ∈ concat (f <$> seq 0 SMP) <-> exists c, (c < SMP)%nat /\ x ∈ f c.
Proof.
  rewrite list_elem_of_In, in_concat. setoid_rewrite <- list_elem_of_In.
  split.
  - intros (l & (c & -> & Hc)%list_elem_of_fmap & Hx). exists c.
    apply elem_of_seq in Hc. split; [lia|done].
  - intros (c & Hc & Hx). exists (f c). split; [|done]. apply list_elem_of_fmap_2, elem_of_seq. lia.
Qed.

Lemma pool_in v t : t ∈ pool v <-> exists c, (c < SMP)%nat /\ (t ∈ v_rq v c \/ t ∈ v_put v c).
Proof. unfold pool. rewrite elem_of_cpus. setoid_rewrite elem_of_app. done. Qed.

Lemma elem_of_option_list {A} (o : option A) x : x ∈ option_list o <-> o = Some x.
Proof. destruct o as [y|]; cbn; rewrite ?list_elem_of_singleton, ?elem_of_nil; naive_solver. Qed.

Lemma busy_in v t :
  t ∈ busy v <-> exists c, (c < SMP)%nat /\ (t = v_cur v c \/ v_clr v c = Some t).
Proof.
  unfold busy. rewrite elem_of_cpus. setoid_rewrite elem_of_cons.
  by setoid_rewrite elem_of_option_list.
Qed.

Lemma core_cur_on v c : core v -> (c < SMP)%nat -> v_on v (v_cur v c) = true.
Proof. intros H Hc. apply (core_busy v H), busy_in. eauto. Qed.

(** What belongs to two CPUs occurs twice in the list over all of them. *)
Lemma cpus_disjoint {A} (f : nat -> list A) x c c' :
  NoDup (concat (f <$> seq 0 SMP)) -> (c < SMP)%nat -> (c' < SMP)%nat -> x ∈ f c -> x ∈ f c' -> c = c'.
Proof.
  intros Hnd Hc Hc' Hx Hx'. destruct (decide (c = c')) as [|Hne]; [done|exfalso].
  destruct (concat_upd f (<[c := []]> f) c Hc) as (rest & H1 & H2).
  { intros i Hi. by rewrite fn_lookup_insert_ne. }
  rewrite H1 in Hnd. rewrite fn_lookup_insert in H2. cbn in H2.
  apply NoDup_app in Hnd as (_ & Hd & _). apply (Hd x Hx). rewrite <- H2, elem_of_cpus.
  exists c'. by rewrite fn_lookup_insert_ne.
Qed.

(** Two CPUs never have the same current task. *)
Lemma core_cur_inj v c c' :
  core v -> (c < SMP)%nat -> (c' < SMP)%nat -> v_cur v c = v_cur v c' -> c = c'.
Proof.
  intros H Hc Hc' Heq.
  apply (cpus_disjoint (fun i => v_cur v i :: option_list (v_clr v i)) (v_cur v c));
    [apply (core_busy_nodup v H)|done|done|by left|rewrite Heq; by left].
Qed.

Lemma core_pend_not_running v c :
  core v -> (c < SMP)%nat -> v_pend v c = true -> v_state v (v_cur v c) <> Running.
Proof.
  intros H Hc Hp Hr. destruct (core_run_inv v H _ Hr) as (c' & Hc' & Heq & Hp').
  assert (c' = c) as -> by eauto using core_cur_inj. congruence.
Qed.

(** A change of the queues of one CPU. *)
Lemma pool_upd v v' c :
  (c < SMP)%nat ->
  (forall i, i <> c -> v_rq v' i = v_rq v i /\ v_put v' i = v_put v i) ->
  exists rest, pool v ≡ₚ (v_rq v c ++ v_put v c) ++ rest /\ pool v' ≡ₚ (v_rq v' c ++ v_put v' c) ++ rest.
Proof.
  intros Hc Hi. unfold pool.
  apply (concat_upd (fun c => v_rq v c ++ v_put v c) (fun c => v_rq v' c ++ v_put v' c)); [done|].
  intros i Hne. destruct (Hi i Hne) as [-> ->]. done.
Qed.
Lemma busy_upd v v' c :
  (c < SMP)%nat ->
  (forall i, i <> c -> v_cur v' i = v_cur v i /\ v_clr v' i = v_clr v i) ->
  exists rest, busy v ≡ₚ (v_cur v c :: option_list (v_clr v c)) ++ rest /\
    busy v' ≡ₚ (v_cur v' c :: option_list (v_clr v' c)) ++ rest.
Proof.
  intros Hc Hi. unfold busy.
  apply (concat_upd (fun c => v_cur v c :: option_list (v_clr v c))
           (fun c => v_cur v' c :: option_list (v_clr v' c))); [done|].
  intros i Hne. destruct (Hi i Hne) as [-> ->]. done.
Qed.

(** ** Changes of the view *)

(** The current task of [c] becomes ready and is queued, unless it is idle. *)
Definition v_yield (c : nat) (v : View) : View :=
  mkView (<[v_cur v c := Ready]> (v_state v)) (v_idle v) (v_on v)
    (if v_idle v (v_cur v c) then v_rq v else <[c := v_rq v c ++ [v_cur v c]]> (v_rq v)) (v_put v)
    (v_cur v) (v_clr v) (<[c := true]> (v_pend v)) (v_idt v).

(** The current task of [c] blocks or exits. *)
Definition v_stop (c : nat) (x : TaskState) (v : View) : View :=
  mkView (<[v_cur v c := x]> (v_state v)) (v_idle v) (v_on v) (v_rq v) (v_put v)
    (v_cur v) (v_clr v) (<[c := true]> (v_pend v)) (v_idt v).

(** CPU [c] makes the blocked task [t] ready and carries it to a queue. *)
Definition v_wake (c : nat) (t : Z) (v : View) : View :=
  mkView (<[t := Ready]> (v_state v)) (v_idle v) (v_on v) (v_rq v) (<[c := [t]]> (v_put v))
    (v_cur v) (v_clr v) (v_pend v) (v_idt v).

(** CPU [c] puts the task it carries into the queue of [q]. *)
Definition v_enqueue (c q : nat) (t : Z) (v : View) : View :=
  mkView (v_state v) (v_idle v) (v_on v) (<[q := v_rq v q ++ [t]]> (v_rq v)) (<[c := []]> (v_put v))
    (v_cur v) (v_clr v) (v_pend v) (v_idt v).

(** [resched] picks the current task of [c] again, leaving [rq] in the queue. *)
Definition v_keep (c : nat) (rq : list Z) (v : View) : View :=
  mkView (<[v_cur v c := Running]> (v_state v)) (v_idle v) (v_on v) (<[c := rq]> (v_rq v)) (v_put v)
    (v_cur v) (v_clr v) (<[c := false]> (v_pend v)) (v_idt v).

(** [resched] switches [c] to the task [next]. *)
Definition v_switch (c : nat) (next : Z) (rq : list Z) (v : View) : View :=
  mkView (<[next := Running]> (v_state v)) (v_idle v) (<[next := true]> (v_on v))
    (<[c := rq]> (v_rq v)) (v_put v)
    (<[c := next]> (v_cur v)) (<[c := Some (v_cur v c)]> (v_clr v)) (<[c := false]> (v_pend v)) (v_idt v).

(** The switch of [c] away from [p] is complete. *)
Definition v_clear (c : nat) (p : Z) (v : View) : View :=
  mkView (v_state v) (v_idle v) (<[p := false]> (v_on v)) (v_rq v) (v_put v)
    (v_cur v) (<[c := None]> (v_clr v)) (v_pend v) (v_idt v).

(** A new task in the queue of [q]. *)
Definition v_spawn (q : nat) (t : Z) (v : View) : View :=
  mkView (<[t := Ready]> (v_state v)) (v_idle v) (v_on v) (<[q := v_rq v q ++ [t]]> (v_rq v)) (v_put v)
    (v_cur v) (v_clr v) (v_pend v) (v_idt v).

Lemma fn_insert_spec {A T} `{!EqDecision A} (f : A -> T) a x b :
  (<[a := x]> f) b = if decide (a = b) then x else f b.
Proof. done. Qed.

(** The pool after a task [t] leaves or enters it. *)
Lemma core_pool_add v v' t :
  core v -> pool v' ≡ₚ t :: pool v -> v_state v t <> Ready -> v_idle v t = false ->
  (forall u, v_state v' u = if decide (t = u) then Ready else v_state v u) ->
  (forall u, v_idle v' u = v_idle v u) ->
  NoDup (pool v') /\ forall u, u ∈ pool v' <-> v_state v' u = Ready /\ v_idle v' u = false.
Proof.
  intros H Hp Hn Hi Hs Hid. split.
  - rewrite Hp. apply NoDup_cons. split; [|apply H]. rewrite (core_pool v H). tauto.
  - intros u. rewrite Hp, elem_of_cons, (core_pool v H), Hs, Hid. case_decide; naive_solver.
Qed.
Lemma core_pool_del v v' t x :
  core v -> pool v ≡ₚ t :: pool v' -> x <> Ready ->
  (forall u, v_state v' u = if decide (t = u) then x else v_state v u) ->
  (forall u, v_idle v' u = v_idle v u) ->
  NoDup (pool v') /\ forall u, u ∈ pool v' <-> v_state v' u = Ready /\ v_idle v' u = false.
Proof.
  intros H Hp Hn Hs Hid. pose proof (core_pool_nodup v H) as Hnd. rewrite Hp in Hnd.
  apply NoDup_cons in Hnd as [Hnt Hnd]. split; [done|].
  intros u. rewrite Hs, Hid. pose proof (core_pool v H u) as Hu. rewrite Hp, elem_of_cons in Hu.
  case_decide; naive_solver.
Qed.
Lemma core_pool_same v v' t x :
  core v -> pool v' ≡ₚ pool v -> x <> Ready \/ v_idle v t = true ->
  v_state v t <> Ready \/ v_idle v t = true ->
  (forall u, v_state v' u = if decide (t = u) then x else v_state v u) ->
  (forall u, v_idle v' u = v_idle v u) ->
  NoDup (pool v') /\ forall u, u ∈ pool v' <-> v_state v' u = Ready /\ v_idle v' u = false.
Proof.
  intros H Hp Hx Hn Hs Hid. split; [rewrite Hp; apply H|].
  intros u. rewrite Hp, (core_pool v H), Hs, Hid. case_decide; [subst|done].
  destruct Hx, Hn; naive_solver congruence.
Qed.

Ltac view := repeat (rewrite !fn_insert_spec in * || case_decide || subst); try done.

(** A change that keeps the occupation of the CPUs keeps the clauses about it. *)
Lemma busy_keep v v' :
  core v -> (forall c, v_cur v' c = v_cur v c) -> (forall c, v_clr v' c = v_clr v c) ->
  (forall t, v_on v' t = v_on v t) ->
  NoDup (busy v') /\ forall t, t ∈ busy v' <-> v_on v' t = true.
Proof.
  intros H Hc Hl Ho. assert (busy v' = busy v) as ->.
  { unfold busy. f_equal. apply list_fmap_ext. intros i x _. by rewrite Hc, Hl. }
  split; [apply H|]. intros t. rewrite Ho. apply H.
Qed.

Lemma pool_keep v v' :
  (forall c, v_rq v' c = v_rq v c) -> (forall c, v_put v' c = v_put v c) -> pool v' = pool v.
Proof.
  intros Hr Hp. unfold pool. f_equal. apply list_fmap_ext. intros i x _. by rewrite Hr, Hp.
Qed.

Lemma core_ext v v' :
  core v ->
  (forall t, v_state v' t = v_state v t /\ v_idle v' t = v_idle v t /\ v_on v' t = v_on v t) ->
  (forall c, v_rq v' c = v_rq v c /\ v_put v' c = v_put v c /\ v_cur v' c = v_cur v c /\
     v_clr v' c = v_clr v c /\ v_pend v' c = v_pend v c /\ v_idt v' c = v_idt v c) ->
  core v'.
Proof.
  intros H Ht Hc.
  assert (pool v' = pool v) as Hp by (apply pool_keep; intros c; apply Hc).
  destruct (busy_keep v v' H) as [Hb1 Hb2]; [intros c; apply Hc..|intros t; apply Ht|].
  constructor; try done.
  - rewrite Hp. apply H.
  - intros t. destruct (Ht t) as (-> & -> & _). rewrite Hp. apply H.
  - intros c Hlt. destruct (Hc c) as (_ & _ & -> & _ & -> & _). destruct (Ht (v_cur v c)) as (-> & _). by apply (core_run v H).
  - intros t. destruct (Ht t) as (-> & _). intros (c & Hlt & Heq & Hp')%(core_run_inv v H). exists c.
    destruct (Hc c) as (_ & _ & -> & _ & -> & _). done.
  - intros c t Hlt. destruct (Hc c) as (-> & _ & -> & -> & _). destruct (Ht t) as (_ & _ & ->). by apply (core_rq v H).
  - intros c Hlt. destruct (Hc c) as (_ & _ & _ & _ & _ & ->). destruct (Ht (v_idt v c)) as (_ & -> & _). by apply (core_idle v H).
  - intros c c' Hlt Hlt'. destruct (Hc c) as (_ & _ & _ & _ & _ & ->).
    destruct (Hc c') as (_ & _ & _ & _ & _ & ->). by apply (core_idle_inj v H).
  - intros t. destruct (Ht t) as (_ & -> & _). intros (c & Hlt & ->)%(core_idle_inv v H). exists c.
    by destruct (Hc c) as (_ & _ & _ & _ & _ & ->).
  - intros t. destruct (Ht t) as (-> & -> & _). apply (core_idle_state v H).
  - intros c Hlt. destruct (Hc c) as (_ & _ & -> & -> & _ & ->). destruct (Ht (v_idt v c)) as (_ & _ & ->). by apply (core_idle_on v H).
  - intros c Hlt. destruct (Hc c) as (_ & _ & _ & -> & -> & _). by apply (core_clr_pend v H).
Qed.

(** The clauses about running and idle tasks when the current task of [c] stops
    running and a [resched] becomes pending. *)
Lemma core_stop_run v c x (H : core v) :
  (c < SMP)%nat -> v_pend v c = false -> x <> Running ->
  (forall i, (i < SMP)%nat -> (<[c := true]> (v_pend v)) i = false ->
     (<[v_cur v c := x]> (v_state v)) (v_cur v i) = Running) /\
  (forall t, (<[v_cur v c := x]> (v_state v)) t = Running ->
     exists i, (i < SMP)%nat /\ v_cur v i = t /\ (<[c := true]> (v_pend v)) i = false).
Proof.
  intros Hc Hp Hx. split.
  - intros i Hi. rewrite !fn_insert_spec. case_decide; [done|]. intros Hpi.
    case_decide as Hcur; [|by apply H]. by apply (core_cur_inj v c i) in Hcur.
  - intros t. rewrite fn_insert_spec. case_decide as Ht; [done|]. intros Hr.
    destruct (core_run_inv v H t Hr) as (i & Hi & <- & Hpi). exists i.
    rewrite fn_insert_spec. case_decide; naive_solver.
Qed.

Lemma core_yield v c :
  core v -> (c < SMP)%nat -> v_pend v c = false -> v_clr v c = None -> core (v_yield c v).
Proof.
  intros H Hc Hp Hcl. pose proof (core_run v H c Hc Hp) as Hr.
  destruct (busy_keep v (v_yield c v)) as [Hb1 Hb2]; try done.
  destruct (core_stop_run v c Ready H) as [Hr1 Hr2]; try done.
  assert (NoDup (pool (v_yield c v)) /\
    forall u, u ∈ pool (v_yield c v) <-> v_state (v_yield c v) u = Ready /\ v_idle (v_yield c v) u = false)
    as [Hp1 Hp2].
  { destruct (v_idle v (v_cur v c)) eqn:Hid.
    - apply (core_pool_same v _ (v_cur v c) Ready); auto. rewrite (pool_keep v); try done.
      intros i. cbn. by rewrite Hid.
    - apply (core_pool_add v _ (v_cur v c)); auto; [|congruence].
      destruct (pool_upd v (v_yield c v) c) as (rest & -> & ->); [done|..].
      + intros i Hi. cbn. rewrite Hid, fn_insert_spec. by rewrite decide_False.
      + cbn. rewrite Hid, fn_insert_spec, decide_True by done. solve_Permutation. }
  constructor; try done; cbn; try apply H.
  - intros i t Hi. destruct (v_idle v (v_cur v c)) eqn:Hid; [by apply H|].
    rewrite fn_insert_spec. case_decide as Heq; [subst i|by apply H].
    intros [Ht| ->%list_elem_of_singleton]%elem_of_app; [by apply H|by left].
  - intros t Ht. rewrite fn_insert_spec. case_decide; [by left|by apply H].
  - intros i Hi. rewrite fn_insert_spec. case_decide; [by subst|by apply H].
Qed.

Lemma core_stop v c x :
  core v -> (c < SMP)%nat -> v_pend v c = false -> v_clr v c = None ->
  v_idle v (v_cur v c) = false -> x <> Ready -> x <> Running -> core (v_stop c x v).
Proof.
  intros H Hc Hp Hcl Hid Hx1 Hx2. pose proof (core_run v H c Hc Hp) as Hr.
  destruct (busy_keep v (v_stop c x v)) as [Hb1 Hb2]; try done.
  destruct (core_stop_run v c x H) as [Hr1 Hr2]; try done.
  destruct (core_pool_same v (v_stop c x v) (v_cur v c) x) as [Hp1 Hp2]; try done.
  { by left. }
  { left. congruence. }
  constructor; try done; cbn; try apply H.
  - intros t Ht. rewrite fn_insert_spec. case_decide; [congruence|by apply H].
  - intros i Hi. rewrite fn_insert_spec. case_decide; [by subst|by apply H].
Qed.

Lemma core_wake v c t :
  core v -> (c < SMP)%nat -> v_put v c = [] -> v_state v t = Blocked -> core (v_wake c t v).
Proof.
  intros H Hc Hp Ht.
  assert (v_idle v t = false) as Hid.
  { destruct (v_idle v t) eqn:E; [|done]. destruct (core_idle_state v H t E); congruence. }
  destruct (busy_keep v (v_wake c t v)) as [Hb1 Hb2]; try done.
  destruct (core_pool_add v (v_wake c t v) t) as [Hp1 Hp2]; try done; try congruence.
  { destruct (pool_upd v (v_wake c t v) c) as (rest & -> & ->); [done|..].
    - intros i Hi. cbn. rewrite fn_insert_spec. by rewrite decide_False.
    - cbn. rewrite Hp, fn_insert_spec, decide_True by done. solve_Permutation. }
  constructor; try done; cbn; try apply H.
  - intros i Hi Hpi. rewrite fn_insert_spec. case_decide; [|by apply H]. subst t.
    by rewrite (core_run v H) in Ht.
  - intros u. rewrite fn_insert_spec. case_decide; [done|by apply H].
  - intros u Hu. rewrite fn_insert_spec. case_decide; [by left|by apply H].
Qed.

Lemma pool_push v q t :
  (q < SMP)%nat ->
  pool (mkView (v_state v) (v_idle v) (v_on v) (<[q := v_rq v q ++ [t]]> (v_rq v)) (v_put v)
          (v_cur v) (v_clr v) (v_pend v) (v_idt v)) ≡ₚ t :: pool v.
Proof.
  intros Hq.
  destruct (pool_upd v (mkView (v_state v) (v_idle v) (v_on v) (<[q := v_rq v q ++ [t]]> (v_rq v)) (v_put v)
    (v_cur v) (v_clr v) (v_pend v) (v_idt v)) q) as (rest & -> & ->); [done|..].
  - intros i Hi. cbn. rewrite fn_insert_spec. by rewrite decide_False.
  - cbn. rewrite fn_insert_spec, decide_True by done. solve_Permutation.
Qed.

Lemma pool_enqueue v c q t :
  (c < SMP)%nat -> (q < SMP)%nat -> v_put v c = [t] -> pool (v_enqueue c q t v) ≡ₚ pool v.
Proof.
  intros Hc Hq Hp. apply (Permutation_cons_inv (a := t)).
  rewrite <- (pool_push v q t Hq).
  set (v1 := mkView _ _ _ _ _ _ _ _ _).
  destruct (pool_upd v1 (v_enqueue c q t v) c) as (rest & -> & ->); [done|..].
  - intros i Hi. cbn. rewrite (fn_insert_spec (v_put v)). by rewrite decide_False.
  - cbn. rewrite Hp, (fn_insert_spec (v_put v)), decide_True by done. solve_Permutation.
Qed.

Lemma core_enqueue v c q t :
  core v -> (c < SMP)%nat -> (q < SMP)%nat -> v_put v c = [t] -> v_on v t = false ->
  core (v_enqueue c q t v).
Proof.
  intros H Hc Hq Hp Ho. pose proof (pool_enqueue v c q t Hc Hq Hp) as Hpool.
  destruct (busy_keep v (v_enqueue c q t v)) as [Hb1 Hb2]; try done.
  constructor; try done; cbn; try apply H.
  - rewrite Hpool. apply H.
  - intros u. rewrite Hpool. apply (core_pool v H).
  - intros i u Hi. rewrite fn_insert_spec. case_decide; [subst i|by apply (core_rq v H)].
    intros [Hu| ->%list_elem_of_singleton]%elem_of_app; [by apply (core_rq v H)|congruence].
Qed.

Lemma core_spawn v q t :
  core v -> (q < SMP)%nat -> v_state v t = Exited -> v_on v t = false -> v_idle v t = false ->
  core (v_spawn q t v).
Proof.
  intros H Hq Ht Ho Hid.
  destruct (busy_keep v (v_spawn q t v)) as [Hb1 Hb2]; try done.
  destruct (core_pool_add v (v_spawn q t v) t) as [Hp1 Hp2]; try done; try congruence.
  { by rewrite <- (pool_push v q t Hq). }
  constructor; try done; cbn; try apply H.
  - intros i Hi Hpi. rewrite fn_insert_spec. case_decide; [|by apply (core_run v H)]. subst t.
    by rewrite (core_run v H) in Ht.
  - intros u. rewrite fn_insert_spec. case_decide; [done|by apply (core_run_inv v H)].
  - intros i u Hi. rewrite fn_insert_spec. case_decide; [subst i|by apply (core_rq v H)].
    intros [Hu| ->%list_elem_of_singleton]%elem_of_app; [by apply (core_rq v H)|congruence].
  - intros u Hu. rewrite fn_insert_spec. case_decide; [by left|by apply (core_idle_state v H)].
Qed.

Lemma core_clear v c p : core v -> (c < SMP)%nat -> v_clr v c = Some p -> core (v_clear c p v).
Proof.
  intros H Hc Hcl. pose proof (core_busy_nodup v H) as Hnd.
  destruct (busy_upd v (v_clear c p v) c) as (rest & H1 & H2); [done|..].
  { intros i Hi. cbn. rewrite fn_insert_spec. by rewrite decide_False. }
  assert (busy v ≡ₚ p :: busy (v_clear c p v)) as Hb.
  { rewrite H1, H2. cbn. rewrite Hcl, fn_insert_spec, decide_True by done. solve_Permutation. }
  rewrite Hb in Hnd. apply NoDup_cons in Hnd as [Hn1 Hn2].
  constructor; cbn; try apply H; try done.
  - intros t. pose proof (core_busy v H t) as Ht. rewrite Hb, elem_of_cons in Ht.
    rewrite fn_insert_spec. case_decide; naive_solver.
  - intros i t Hi Hti. rewrite !fn_insert_spec. case_decide; [done|]. intros Hot.
    destruct (core_rq v H i t Hi Hti Hot) as [|E]; [by left|]. right. case_decide; [congruence|done].
  - intros i Hi. rewrite !fn_insert_spec. case_decide; [done|]. intros Hot.
    destruct (core_idle_on v H i Hi Hot) as [|E]; [by left|]. right. case_decide; [congruence|done].
  - intros i Hi. rewrite fn_insert_spec. case_decide; [done|by apply (core_clr_pend v H)].
Qed.

(** The task [resched] picks: the head of the queue, or the idle task. *)
Definition v_next (v : View) (c : nat) : Z * list Z :=
  match v_rq v c with [] => (v_idt v c, []) | t :: l => (t, l) end.

Lemma core_next v c next l :
  core v -> (c < SMP)%nat -> v_pend v c = true -> v_next v c = (next, l) ->
  v_state v next = Ready /\ (next = v_cur v c \/ v_on v next = false) /\
  (v_idle v next = true /\ v_rq v c = [] /\ l = [] \/ v_idle v next = false /\ v_rq v c = next :: l).
Proof.
  intros H Hc Hp Hn. pose proof (core_clr_pend v H c Hc Hp) as Hcl.
  unfold v_next in Hn. destruct (v_rq v c) as [|t r] eqn:Erq; injection Hn as <- <-.
  - pose proof (core_idle v H c Hc) as Hid. split; [|split; [|by left]].
    + destruct (core_idle_state v H _ Hid) as [|Hr]; [done|exfalso].
      destruct (core_run_inv v H _ Hr) as (i & Hi & Heq & Hpi).
      pose proof (core_cur_on v i H Hi) as Ho. rewrite Heq in Ho.
      destruct (core_idle_on v H c Hc Ho) as [E|E]; [|congruence].
      rewrite E in Heq. apply (core_cur_inj v) in Heq; [congruence|done..].
    + destruct (v_on v (v_idt v c)) eqn:Ho; [|by right].
      destruct (core_idle_on v H c Hc Ho) as [|E]; [by left|congruence].
  - assert (t ∈ pool v) as [Hs Hid]%(core_pool v H).
    { apply pool_in. exists c. rewrite Erq. split; [done|]. left. by left. }
    split; [done|]. split; [|by right].
    destruct (v_on v t) eqn:Ho; [|by right].
    destruct (core_rq v H c t Hc ltac:(rewrite Erq; by left) Ho) as [|E]; [by left|congruence].
Qed.

Lemma pool_pick v v' c next l :
  core v -> (c < SMP)%nat -> v_pend v c = true -> v_next v c = (next, l) ->
  (forall i, v_rq v' i = if decide (c = i) then l else v_rq v i) ->
  (forall i, v_put v' i = v_put v i) ->
  (forall t, v_state v' t = if decide (next = t) then Running else v_state v t) ->
  (forall t, v_idle v' t = v_idle v t) ->
  NoDup (pool v') /\ forall u, u ∈ pool v' <-> v_state v' u = Ready /\ v_idle v' u = false.
Proof.
  intros H Hc Hp Hn Hrq Hput Hst Hid.
  destruct (core_next v c next l H Hc Hp Hn) as (Hs & _ & [(Hi & Erq & ->)|(Hi & Erq)]).
  - apply (core_pool_same v v' next Running); auto. rewrite (pool_keep v v'); [done|..|done].
    intros i. rewrite Hrq. case_decide; congruence.
  - apply (core_pool_del v v' next Running); auto.
    destruct (pool_upd v v' c) as (rest & -> & ->); [done|..].
    + intros i Hne. rewrite Hrq, Hput, decide_False; done.
    + rewrite Hrq, Hput, Erq, decide_True by done. done.
Qed.

Lemma core_keep v c l :
  core v -> (c < SMP)%nat -> v_pend v c = true -> v_next v c = (v_cur v c, l) -> core (v_keep c l v).
Proof.
  intros H Hc Hp Hn.
  destruct (core_next v c _ l H Hc Hp Hn) as (Hs & _ & Hrq).
  destruct (busy_keep v (v_keep c l v)) as [Hb1 Hb2]; try done.
  destruct (pool_pick v (v_keep c l v) c (v_cur v c) l) as [Hp1 Hp2]; try done.
  constructor; try done; cbn; try apply H.
  - intros i Hi. rewrite !fn_insert_spec. repeat case_decide; try done; [congruence|by apply (core_run v H)].
  - intros t. rewrite !fn_insert_spec. case_decide as Ht.
    + intros _. exists c. rewrite fn_insert_spec, decide_True by done. done.
    + intros (i & Hi & Heq & Hpi)%(core_run_inv v H). exists i.
      rewrite fn_insert_spec, decide_False by congruence. done.
  - intros i t Hi. rewrite !fn_insert_spec. case_decide; [subst i|by apply (core_rq v H)].
    intros Ht. apply (core_rq v H); [done|]. destruct Hrq as [(_ & -> & ->)|(_ & ->)]; [done|by right].
  - intros t Ht. rewrite fn_insert_spec. case_decide; [by right|by apply (core_idle_state v H)].
  - intros i Hi. rewrite fn_insert_spec. case_decide; [done|by apply (core_clr_pend v H)].
Qed.

Lemma busy_switch v c next l :
  core v -> (c < SMP)%nat -> v_pend v c = true -> v_on v next = false ->
  busy (v_switch c next l v) ≡ₚ next :: busy v.
Proof.
  intros H Hc Hp Ho.
  destruct (busy_upd v (v_switch c next l v) c) as (rest & -> & ->); [done|..].
  - intros i Hi. cbn. rewrite !fn_insert_spec. by rewrite !decide_False.
  - cbn. rewrite (core_clr_pend v H c Hc Hp), !fn_insert_spec, !decide_True by done. done.
Qed.

Lemma core_switch v c next l :
  core v -> (c < SMP)%nat -> v_pend v c = true -> v_next v c = (next, l) -> next <> v_cur v c ->
  core (v_switch c next l v).
Proof.
  intros H Hc Hp Hn Hne.
  destruct (core_next v c _ l H Hc Hp Hn) as (Hs & [?|Ho] & Hrq); [done|].
  pose proof (busy_switch v c next l H Hc Hp Ho) as Hb.
  pose proof (core_clr_pend v H c Hc Hp) as Hcl.
  pose proof (core_pend_not_running v c H Hc Hp) as Hnr.
  destruct (pool_pick v (v_switch c next l v) c next l) as [Hp1 Hp2]; try done.
  assert (forall i, (i < SMP)%nat -> next <> v_cur v i) as Hnc.
  { intros i Hi ->. by rewrite (core_cur_on v) in Ho. }
  constructor; try done; cbn; try apply H.
  - rewrite Hb. apply NoDup_cons. split; [|apply H]. rewrite (core_busy v H). congruence.
  - intros t. rewrite Hb, elem_of_cons, (core_busy v H), fn_insert_spec. case_decide; naive_solver.
  - intros i Hi. rewrite !fn_insert_spec. destruct (decide (c = i)).
    + by rewrite decide_True.
    + rewrite decide_False by auto. by apply (core_run v H).
  - intros t. rewrite !fn_insert_spec. case_decide as Ht.
    + intros _. exists c. rewrite !fn_insert_spec, !decide_True by done. done.
    + intros (i & Hi & Heq & Hpi)%(core_run_inv v H). exists i.
      rewrite !fn_insert_spec, !decide_False by congruence. done.
  - intros i t Hi. rewrite !fn_insert_spec. destruct (decide (c = i)) as [<-|Hci].
    + intros Ht. case_decide; [by left|]. intros Ho'. right.
      destruct (core_rq v H c t Hc) as [->|]; [|done|done|congruence].
      destruct Hrq as [(_ & -> & ->)|(_ & ->)]; [done|by right].
    + intros Ht. case_decide as Hnt; [subst t|by apply (core_rq v H)]. intros _. exfalso.
      assert (next ∈ v_rq v i /\ v_idle v next = false) as [_ Hid].
      { split; [done|]. apply (core_pool v H), (pool_in v). eauto. }
      destruct Hrq as [(? & _)|(_ & Hrq)]; [congruence|]. apply Hci.
      apply (cpus_disjoint (fun c => v_rq v c ++ v_put v c) next); [apply (core_pool_nodup v H)|done|done|..].
      * rewrite Hrq. by left.
      * apply elem_of_app. by left.
  - intros t Ht. rewrite fn_insert_spec. case_decide; [by right|by apply (core_idle_state v H)].
  - intros i Hi. rewrite !fn_insert_spec. destruct (decide (c = i)) as [<-|Hci].
    + case_decide; [by left|]. intros Ho'. right.
      destruct (core_idle_on v H c Hc Ho') as [->|]; [done|congruence].
    + case_decide as Hnt; [|by apply (core_idle_on v H)]. intros _. exfalso.
      destruct Hrq as [(_ & Erq & _)|(Hid & _)]; [|rewrite Hnt, (core_idle v H) in Hid; done].
      unfold v_next in Hn. rewrite Erq in Hn. injection Hn as Hn _. apply Hci.
      apply (core_idle_inj v H); congruence.
  - intros i Hi. rewrite !fn_insert_spec. case_decide; [done|by apply (core_clr_pend v H)].
Qed.
End View.
