(* ===== verification/SchedCorrect.v ===== *)
(** The scheduler keeps its invariant: every step of the system of [Sched] is one
    of the changes of [SchedInv] on the view, and none of the assertions of the
    scheduler fails. *)
From stdpp Require Import functions relations.
From S2P Require Import Prelude.
From S2P Require Import Sched.
From S2P Require Import SchedInv.

(** Whether a [resched] is among the actions left, the task being put into a queue,
    and the previous task still to be cleared. *)
Definition pend (pc : list act) : bool := existsb (fun a => bool_decide (a = AResched)) pc.
Definition carried (pc : list act) : list Z := match pc with APut t _ :: _ => [t] | _ => [] end.
Definition clearing (k : Cpu) : option Z := match c_pc k with AClear :: _ => Some (c_prev k) | _ => None end.

(** The actions that can be saved for later by a task that is idle ([i]) or not. *)
Definition plain (i : bool) (a : act) : bool :=
  match a with
  | APut _ _ | AResched | AClear => false
  | ABlock w | AWaitTimeout w _ _ => negb i && negb (is_join_queue w)
  | AWaitUntil w k => negb i && wait_ok w k
  | _ => true
  end.
(** The actions [exit_current] runs before its [resched]. *)
Definition quick (a : act) : bool :=
  match a with
  | ANotifyOne _ | ANotifyAll _ | AExitCode _ | APushExited => true
  | _ => false
  end.

(** The shape of the actions of a CPU. *)
Fixpoint tail_ok (i : bool) (pc : list act) : bool :=
  match pc with
  | [] => true
  | AResched :: l => forallb (plain i) l
  | a :: l => plain i a && tail_ok i l && (negb (pend l) || quick a)
  end.
Definition pc_ok (SMP : nat) (i : bool) (pc : list act) : bool :=
  match pc with
  | AClear :: l => forallb (plain i) l
  | APut _ q :: l => bool_decide (q < SMP)%nat && tail_ok i l
  | _ => tail_ok i pc
  end.

(** An exiting task that has not notified its joiners yet. *)
Fixpoint notifying (t : Z) (pc : list act) : bool :=
  match pc with
  | [] => false
  | AResched :: _ => false
  | ANotifyAll w :: l => bool_decide (w = WJoin t) || notifying t l
  | _ :: l => notifying t l
  end.

(** Actions are left before a pending [resched]. *)
Definition early (pc : list act) : bool :=
  match pc with [] | AResched :: _ => false | _ :: l => pend l end.

Definition view (s : Sys) : View :=
  mkView (fun t => t_state (s_tasks s t)) (fun t => t_idle (s_tasks s t)) (fun t => t_on_cpu (s_tasks s t))
    (fun c => c_rq (s_cpus s c)) (fun c => carried (c_pc (s_cpus s c))) (fun c => c_cur (s_cpus s c))
    (fun c => clearing (s_cpus s c)) (fun c => pend (c_pc (s_cpus s c))) (fun c => c_idle (s_cpus s c)).

(** A blocked task can be woken: it is in a wait queue, or a timer with its current
    ticket is armed. *)
Definition wakeable (SMP : nat) (s : Sys) (t : Z) : Prop :=
  (exists w, t ∈ s_wqs s w) \/
  exists c d, (c < SMP)%nat /\ (d, t_ticket (s_tasks s t), t) ∈ c_timers (s_cpus s c).

(** The invariant; [x] is a task about to be unblocked, if any. *)
Record inv_ex (SMP : nat) (x : option Z) (s : Sys) : Prop := mkInv {
  inv_core : core SMP (view s);
  inv_pc : forall c, (c < SMP)%nat -> pc_ok SMP (t_idle (curr_task s c)) (c_pc (s_cpus s c)) = true;
  inv_cont : forall t, forallb (plain (t_idle (s_tasks s t))) (t_cont (s_tasks s t)) = true;
  inv_fresh : forall t, s_next_id s <= t ->
    t_state (s_tasks s t) = Exited /\ t_idle (s_tasks s t) = false /\ t_on_cpu (s_tasks s t) = false;
  inv_mask : forall t, cpumask_is_empty SMP (t_mask (s_tasks s t)) = false;
  inv_rr : 0 <= s_rr s < USIZE;
  inv_wake : forall t, x <> Some t -> t_state (s_tasks s t) = Blocked -> wakeable SMP s t;
  (* a task that exited has no joiner waiting, or is still going to notify them *)
  inv_join : forall t, t_state (s_tasks s t) = Exited -> s_wqs s (WJoin t) = [] \/
    exists c, (c < SMP)%nat /\ cur s c = t /\ notifying t (c_pc (s_cpus s c)) = true;
  (* only an exiting task has something to do before it reschedules *)
  inv_exit : forall c, (c < SMP)%nat -> early (c_pc (s_cpus s c)) = true ->
    t_state (curr_task s c) = Exited;
}.
Abbreviation inv SMP := (inv_ex SMP None).

Lemma tasks_upd_task t f s u :
  s_tasks (upd_task t f s) u = if decide (t = u) then f (s_tasks s t) else s_tasks s u.
Proof. done. Qed.
Lemma cpus_upd_cpu c f s i :
  s_cpus (upd_cpu c f s) i = if decide (c = i) then f (s_cpus s c) else s_cpus s i.
Proof. done. Qed.
Lemma wqs_upd_wq w l s u : s_wqs (upd_wq w l s) u = if decide (w = u) then l else s_wqs s u.
Proof. done. Qed.
Lemma tasks_upd_cpu c f s : s_tasks (upd_cpu c f s) = s_tasks s.
Proof. done. Qed.
Lemma tasks_upd_wq w l s : s_tasks (upd_wq w l s) = s_tasks s.
Proof. done. Qed.
Lemma tasks_set_rr x s : s_tasks (set_rr x s) = s_tasks s.
Proof. done. Qed.
Lemma tasks_set_ids x y s : s_tasks (set_ids x y s) = s_tasks s.
Proof. done. Qed.
Lemma cpus_upd_task c f s : s_cpus (upd_task c f s) = s_cpus s.
Proof. done. Qed.
Lemma cpus_upd_wq w l s : s_cpus (upd_wq w l s) = s_cpus s.
Proof. done. Qed.
Lemma cpus_set_rr x s : s_cpus (set_rr x s) = s_cpus s.
Proof. done. Qed.
Lemma cpus_set_ids x y s : s_cpus (set_ids x y s) = s_cpus s.
Proof. done. Qed.
Lemma wqs_upd_task t f s : s_wqs (upd_task t f s) = s_wqs s.
Proof. done. Qed.
Lemma wqs_upd_cpu c f s : s_wqs (upd_cpu c f s) = s_wqs s.
Proof. done. Qed.
Lemma wqs_set_rr x s : s_wqs (set_rr x s) = s_wqs s.
Proof. done. Qed.
Lemma wqs_set_ids x y s : s_wqs (set_ids x y s) = s_wqs s.
Proof. done. Qed.

(** Compute the fields of an updated system. *)
Ltac sys_rw := rewrite ?tasks_upd_task, ?cpus_upd_cpu, ?wqs_upd_wq, ?tasks_upd_cpu, ?tasks_upd_wq,
  ?tasks_set_rr, ?tasks_set_ids, ?cpus_upd_task, ?cpus_upd_wq, ?cpus_set_rr, ?cpus_set_ids,
  ?wqs_upd_task, ?wqs_upd_cpu, ?wqs_set_rr, ?wqs_set_ids.
Ltac sys := unfold wakeable, curr_task, cur in *; repeat (sys_rw; cbn -[upd_task upd_cpu upd_wq set_rr set_ids]);
  repeat (case_decide; cbn -[upd_task upd_cpu upd_wq set_rr set_ids] in *; subst; sys_rw;
    cbn -[upd_task upd_cpu upd_wq set_rr set_ids]); try done.

Section Correct.
Context (SMP : nat) (HSMP : (0 < SMP)%nat) (HSMP64 : Z.of_nat SMP < USIZE).

(** *** [select_run_queue_index] *)

Definition found (mask : Z) (r : option (nat * Z)) : Prop :=
  exists j rr', r = Some (j, rr') /\ (j < SMP)%nat /\ cpumask_get mask j = true /\ 0 <= rr' < USIZE.

Lemma select_step fuel mask rr :
  0 <= rr -> cpumask_get mask (Z.to_nat (rr mod Z.of_nat SMP)) = true ->
  found mask (select_loop SMP (S fuel) mask rr).
Proof.
  intros Hr Hg. cbn. rewrite Hg. eexists _, _. split; [done|]. split; [lia|]. split; [done|].
  apply wrap_range.
Qed.

Lemma select_found mask i : (i < SMP)%nat -> cpumask_get mask i = true ->
  forall fuel rr, 0 <= rr < USIZE -> rr + (Z.of_nat i - rr) mod Z.of_nat SMP < USIZE ->
  (Z.of_nat i - rr) mod Z.of_nat SMP < Z.of_nat fuel -> found mask (select_loop SMP fuel mask rr).
Proof.
  intros Hi Hg. induction fuel as [|fuel IH]; intros rr Hr Hd Hf; [lia|].
  destruct (cpumask_get mask (Z.to_nat (rr mod Z.of_nat SMP))) eqn:E; [apply select_step; [lia|done]|].
  assert ((Z.of_nat i - rr) mod Z.of_nat SMP <> 0) as Hnz.
  { intros H0. rewrite <- Zminus_mod_idemp_r in H0. assert (rr mod Z.of_nat SMP = Z.of_nat i) as Hm.
    { pose proof (Z.mod_pos_bound rr (Z.of_nat SMP) ltac:(lia)).
      apply Z.mod_divide in H0 as [k Hk]; [|lia]. assert (k = 0) by nia. lia. }
    rewrite Hm, Nat2Z.id in E. congruence. }
  assert ((Z.of_nat i - (rr + 1)) mod Z.of_nat SMP = (Z.of_nat i - rr) mod Z.of_nat SMP - 1) as Hd'.
  { pose proof (Z.mod_pos_bound (Z.of_nat i - rr) (Z.of_nat SMP) ltac:(lia)).
    symmetry. apply (Z.mod_unique_pos _ _ ((Z.of_nat i - rr) / Z.of_nat SMP)); [lia|].
    pose proof (Z.div_mod (Z.of_nat i - rr) (Z.of_nat SMP) ltac:(lia)). lia. }
  pose proof (Z.mod_pos_bound (Z.of_nat i - rr) (Z.of_nat SMP) ltac:(lia)).
  cbn [select_loop]. rewrite E, wrap_small by lia. apply IH; rewrite ?Hd'; lia.
Qed.

Lemma select_found_wrap mask i : (i < SMP)%nat -> cpumask_get mask i = true ->
  forall fuel rr, 0 <= rr < USIZE -> USIZE - rr + Z.of_nat i < Z.of_nat fuel ->
  found mask (select_loop SMP fuel mask rr).
Proof.
  intros Hi Hg. induction fuel as [|fuel IH]; intros rr Hr Hf; [lia|].
  destruct (cpumask_get mask (Z.to_nat (rr mod Z.of_nat SMP))) eqn:E; [apply select_step; [lia|done]|].
  cbn [select_loop]. rewrite E. destruct (decide (rr + 1 = USIZE)) as [Heq|].
  - rewrite Heq. change (wrap USIZE) with 0.
    apply (select_found mask i Hi Hg); rewrite ?Z.sub_0_r, ?Z.mod_small; lia.
  - rewrite wrap_small by lia. apply IH; lia.
Qed.

(** The selection terminates: it returns a CPU of the mask. *)
Lemma select_ok mask s :
  cpumask_is_empty SMP mask = false -> 0 <= s_rr s < USIZE ->
  exists q rr, select_run_queue_index SMP mask s = Ret (q, set_rr rr s) /\ (q < SMP)%nat /\
    cpumask_get mask q = true /\ 0 <= rr < USIZE.
Proof.
  intros He Hr. unfold select_run_queue_index. rewrite He.
  unfold cpumask_is_empty in He. apply negb_false_iff, existsb_exists in He as (i & Hi%in_seq & Hg).
  assert (found mask (select_loop SMP (2 * SMP) mask (s_rr s))) as (j & rr & -> & ? & ? & ?).
  { pose proof (Z.mod_pos_bound (Z.of_nat i - s_rr s) (Z.of_nat SMP) ltac:(lia)).
    destruct (decide (s_rr s + (Z.of_nat i - s_rr s) mod Z.of_nat SMP < USIZE)).
    - apply (select_found mask i); lia || done.
    - apply (select_found_wrap mask i); lia || done. }
  eauto 6.
Qed.

(** *** Replacing the actions of a CPU *)

Lemma forallb_tail_ok i l : forallb (plain i) l = true -> tail_ok i l = true /\ pend l = false.
Proof.
  induction l as [|a l IH]; [done|]. cbn [forallb]. intros [Ha Hl]%andb_true_iff.
  destruct (IH Hl) as [H1 H2]. unfold pend in *. cbn [existsb]. rewrite H2.
  destruct a; try done; cbn [tail_ok]; rewrite Ha, H1; unfold pend; rewrite H2; done.
Qed.

Lemma tail_ok_pc i l :
  tail_ok i l = true -> carried l = [] /\ pc_ok SMP i l = true /\ forall k, c_pc k = l -> clearing k = None.
Proof.
  intros H. unfold clearing. destruct l as [|[] l]; try done; (split; [done|split; [done|by intros ? ->]]).
Qed.

Lemma early_pend l : early l = true -> pend l = true.
Proof. destruct l as [|[] l]; try done; unfold early, pend; cbn; intros ->; done. Qed.

Lemma tail_ok_cons i a l :
  tail_ok i (a :: l) = true -> a <> AResched ->
  plain i a = true /\ tail_ok i l = true /\ (pend l = true -> quick a = true) /\ pend (a :: l) = pend l.
Proof.
  intros H Ha. assert (plain i a && tail_ok i l && (negb (pend l) || quick a) = true) as H' by (by destruct a).
  bool_to_prop. split; [done|]. split; [done|]. split.
  - intros Hp. rewrite Hp in *. destruct (quick a); naive_solver.
  - unfold pend. cbn. rewrite bool_decide_false; done.
Qed.

#[local] Arguments clearing : simpl never.
#[local] Arguments carried : simpl never.
#[local] Arguments pend : simpl never.
#[local] Arguments early : simpl never.
#[local] Arguments pc_ok : simpl never.
#[local] Arguments tail_ok : simpl never.

(** The actions [rest] can replace those of CPU [c]: same pending [resched], and
    joiners waiting for a notification still get it. *)
Record repl (s : Sys) (c : nat) (rest : list act) : Prop := mkRepl {
  repl_c : (c < SMP)%nat;
  repl_clr : clearing (s_cpus s c) = None;
  repl_put : carried (c_pc (s_cpus s c)) = [];
  repl_tail : tail_ok (t_idle (curr_task s c)) rest = true;
  repl_pend : pend rest = pend (c_pc (s_cpus s c));
  repl_notify : notifying (cur s c) (c_pc (s_cpus s c)) = true ->
    notifying (cur s c) rest = true \/ s_wqs s (WJoin (cur s c)) = [];
  repl_exit : pend rest = true -> t_state (curr_task s c) = Exited;
}.

Lemma set_pc_inv x s c rest :
  inv_ex SMP x s -> repl s c rest -> inv_ex SMP x (upd_cpu c (set_pc rest) s).
Proof.
  intros H [Hc Hcl Hp Ht Hpe Hn Hex]. destruct (tail_ok_pc _ _ Ht) as (Hca & Hok & Hcl').
  destruct H as [H1 H2 H3 H4 H5 H6 H7 H8 H9]. constructor; try done.
  - apply (core_ext SMP _ _ H1); [done|]. intros i. sys.
    rewrite Hcl, Hp, Hca, Hpe, Hcl'; done.
  - intros i Hi. sys. by apply H2.
  - intros t Hx Hb. destruct (H7 t Hx Hb) as [|(i & d & Hi & Hd)]; [by left|right].
    exists i, d. split; [done|]. sys.
  - intros t He. destruct (H8 t He) as [|(i & Hi & Heq & Hnt)]; [by left|].
    destruct (decide (c = i)) as [->|Hne].
    + subst t. destruct (Hn Hnt); [right|by left]. exists i. split; [done|]. sys.
    + right. exists i. split; [done|]. sys.
  - intros i Hi. pose proof (H9 i Hi). sys. intros He. by apply Hex, early_pend.
Qed.

Lemma set_rr_inv x s rr : inv_ex SMP x s -> 0 <= rr < USIZE -> inv_ex SMP x (set_rr rr s).
Proof. intros [] Hrr. by constructor. Qed.

Lemma inv_drop s t : inv_ex SMP (Some t) s -> t_state (s_tasks s t) <> Blocked -> inv SMP s.
Proof.
  intros [H1 H2 H3 H4 H5 H6 H7 H8 H9] Ht. constructor; try done. intros u _ Hu.
  apply H7; [|done]. congruence.
Qed.

Lemma blocked_not_idle x s t :
  inv_ex SMP x s -> t_state (s_tasks s t) = Blocked -> t_idle (s_tasks s t) = false.
Proof.
  intros H Ht. destruct (t_idle (s_tasks s t)) eqn:E; [|done].
  destruct (core_idle_state SMP _ (inv_core _ _ _ H) t E) as [E'|E']; cbn in E'; congruence.
Qed.

(** A blocked task becomes ready and is carried to the queue [q]. *)
Lemma wake_inv s c t q rest :
  inv_ex SMP (Some t) s -> repl s c rest -> (q < SMP)%nat -> t_state (s_tasks s t) = Blocked ->
  inv SMP (upd_cpu c (set_pc (APut t q :: rest)) (upd_task t (set_state Ready) s)).
Proof.
  intros H [Hc Hcl Hp Ht Hpe Hn Hex] Hq Hb. destruct (tail_ok_pc _ _ Ht) as (Hca & Hok & Hcl').
  destruct H as [H1 H2 H3 H4 H5 H6 H7 H8 H9]. constructor; try done.
  - apply (core_ext SMP _ _ (core_wake SMP _ c t H1 Hc Hp Hb)).
    + intros u. sys; rewrite ?fn_insert_spec; sys.
    + intros i. sys; rewrite ?fn_insert_spec; sys.
  - intros i Hi. sys; unfold pc_ok; cbn; rewrite ?bool_decide_true by done.
    all: try (apply H2; done). all: try done.
  - intros u. sys.
  - intros u Hu. destruct (H4 u Hu) as (E1 & E2 & E3). sys. congruence.
  - intros u. sys.
  - intros u _. sys. intros Hu. destruct (H7 u) as [|(i & d & Hi & Hd)]; [congruence|done|by left|right].
    exists i, d. split; [done|]. sys.
  - intros u. sys. intros Hu. destruct (H8 u Hu) as [|(i & Hi & Heq & Hnt)]; [by left|].
    destruct (decide (c = i)) as [->|Hne].
    + subst u. destruct (Hn Hnt); [right|by left]. exists i. split; [done|]. sys.
    + right. exists i. split; [done|]. sys.
  - intros i Hi. pose proof (H9 i Hi) as H9i. sys; intros He; try (by apply Hex).
    + by rewrite (Hex He) in Hb.
    + by rewrite (H9i He) in Hb.
Qed.

Lemma unblock_ok s c t rest :
  inv_ex SMP (Some t) s -> repl s c rest ->
  exists s', unblock_task SMP c t rest s = Ret s' /\ inv SMP s'.
Proof.
  intros H Hr. unfold unblock_task.
  destruct (select_ok (t_mask (s_tasks s t)) s) as (q & rr & -> & Hq & _ & Hrr); [apply H..|].
  apply (set_rr_inv _ _ rr) in H; [|done]. rewrite tasks_set_rr. unfold is_state.
  assert (repl (set_rr rr s) c rest) as Hr' by (by destruct Hr).
  destruct (bool_decide_reflect (t_state (s_tasks s t) = Blocked)) as [Hb|Hb].
  - pose proof (blocked_not_idle _ _ t H Hb) as Hi. rewrite tasks_set_rr in Hi. rewrite Hi. eexists. split; [done|]. by apply wake_inv.
  - eexists. split; [done|]. apply set_pc_inv; [|done]. by apply (inv_drop _ t).
Qed.

(** The front task of a wait queue is taken out, to be unblocked next. *)
Lemma pop_inv s w t l :
  inv SMP s -> s_wqs s w = t :: l ->
  inv_ex SMP (Some t) (upd_task t (set_in_wait_queue false) (upd_wq w l s)).
Proof.
  intros [H1 H2 H3 H4 H5 H6 H7 H8 H9] Hw. constructor; try done.
  - apply (core_ext SMP _ _ H1); [intros u; sys|done].
  - intros c Hc. sys; by apply H2.
  - intros u. sys.
  - intros u Hu. destruct (H4 u Hu) as (E1 & E2 & E3). sys.
  - intros u. sys.
  - intros u Hx. sys. intros Hu.
    destruct (H7 u) as [[w' Hw']|(i & d & Hi & Hd)]; [done|done|left|right].
    + exists w'. sys. rewrite Hw in Hw'. apply elem_of_cons in Hw' as [->|]; [done|done].
    + exists i, d. done.
  - intros u. sys; intros Hu; (destruct (H8 _ Hu) as [E|(i & Hi & Heq & Hnt)]; [left|by right; exists i]); congruence.
  - intros i Hi. pose proof (H9 i Hi). sys; congruence.
Qed.

Lemma repl_pop s c w t l rest :
  repl s c rest -> s_wqs s w = t :: l ->
  repl (upd_task t (set_in_wait_queue false) (upd_wq w l s)) c rest.
Proof.
  intros [H1 H2 H3 H4 H5 H6 H7] Hw. constructor; try done.
  - sys.
  - sys. intros Hn. destruct (H6 Hn) as [|E]; [by left|right]. sys. congruence.
  - sys.
Qed.

Lemma notify_one_ok s c w rest :
  inv SMP s -> repl s c rest -> exists s', notify_one SMP c w rest s = Ret s' /\ inv SMP s'.
Proof.
  intros H Hr. unfold notify_one, unblock_one_task. destruct (s_wqs s w) as [|t l] eqn:Hw.
  - eexists. split; [done|]. by apply set_pc_inv.
  - apply unblock_ok; [by apply pop_inv|by apply repl_pop].
Qed.

Lemma notify_all_ok s c w rest :
  inv SMP s -> c_pc (s_cpus s c) = ANotifyAll w :: rest -> (c < SMP)%nat ->
  exists s', notify_all SMP c w rest s = Ret s' /\ inv SMP s'.
Proof.
  intros H Hpc Hc. pose proof (inv_pc _ _ _ H c Hc) as Hok. rewrite Hpc in Hok.
  assert (tail_ok (t_idle (curr_task s c)) (ANotifyAll w :: rest) = true) as Ht by done.
  destruct (tail_ok_cons _ _ _ Ht) as (_ & Ht' & _ & Hp); [done|].
  assert (pend rest = true -> t_state (curr_task s c) = Exited) as Hex.
  { intros Hpr. apply (inv_exit _ _ _ H c Hc). by rewrite Hpc. }
  unfold notify_all. destruct (s_wqs s w) as [|t l] eqn:Hw.
  - eexists. split; [done|]. apply set_pc_inv; [done|]. constructor; try done.
    + unfold clearing. by rewrite Hpc.
    + by rewrite Hpc.
    + by rewrite Hpc.
    + rewrite Hpc. cbn. case_bool_decide; [subst w; by right|by left].
  - apply notify_one_ok; [done|]. constructor; try done.
    + unfold clearing. by rewrite Hpc.
    + by rewrite Hpc.
    + by rewrite Hpc.
    + rewrite Hpc. by left.
Qed.

(** Going on with the actions after the first one. *)
Definition inner (a : act) : bool :=
  match a with APut _ _ | AResched | AClear | ANotifyAll _ => false | _ => true end.

Lemma pc_tail_ok s c :
  inv SMP s -> (c < SMP)%nat -> carried (c_pc (s_cpus s c)) = [] -> clearing (s_cpus s c) = None ->
  tail_ok (t_idle (curr_task s c)) (c_pc (s_cpus s c)) = true.
Proof.
  intros H Hc Hp Hcl. pose proof (inv_pc _ _ _ H c Hc) as Hok. unfold clearing in Hcl.
  by destruct (c_pc (s_cpus s c)) as [|[]].
Qed.

Lemma repl_same s c :
  inv SMP s -> (c < SMP)%nat -> carried (c_pc (s_cpus s c)) = [] -> clearing (s_cpus s c) = None ->
  pend (c_pc (s_cpus s c)) = false -> repl s c (c_pc (s_cpus s c)).
Proof. intros. constructor; try done; [by apply pc_tail_ok|by left|congruence]. Qed.

Lemma inner_head s c a rest :
  c_pc (s_cpus s c) = a :: rest -> inner a = true ->
  carried (c_pc (s_cpus s c)) = [] /\ clearing (s_cpus s c) = None /\ a <> AResched.
Proof. intros Hpc Ha. unfold clearing. rewrite Hpc. by destruct a. Qed.

Lemma repl_next s c a rest :
  inv SMP s -> (c < SMP)%nat -> c_pc (s_cpus s c) = a :: rest -> inner a = true -> repl s c rest.
Proof.
  intros H Hc Hpc Ha. destruct (inner_head s c a rest Hpc Ha) as (Hp & Hcl & Hne).
  pose proof (pc_tail_ok s c H Hc Hp Hcl) as Ht. rewrite Hpc in Ht.
  destruct (tail_ok_cons _ _ _ Ht Hne) as (_ & Ht' & _ & Hpe).
  constructor; try done; [by rewrite Hpc|rewrite Hpc; by destruct a; left|].
  intros Hpr. apply (inv_exit _ _ _ H c Hc). rewrite Hpc. by destruct a.
Qed.

(** What the invariant says of a CPU whose next action waits. *)
Lemma waiting_head s c a rest :
  inv SMP s -> (c < SMP)%nat -> c_pc (s_cpus s c) = a :: rest -> inner a = true -> quick a = false ->
  plain (t_idle (curr_task s c)) a = true /\ forallb (plain (t_idle (curr_task s c))) rest = true /\
  pend (c_pc (s_cpus s c)) = false.
Proof.
  intros H Hc Hpc Ha Hq. destruct (inner_head s c a rest Hpc Ha) as (Hp & Hcl & Hne).
  pose proof (pc_tail_ok s c H Hc Hp Hcl) as Ht. rewrite Hpc in Ht.
  destruct (tail_ok_cons _ _ _ Ht Hne) as (Hpl & Ht' & Hqk & Hpe).
  assert (pend rest = false) as Hpr. { destruct (pend rest); [|done]. rewrite Hqk in Hq; done. }
  split; [done|]. split; [|by rewrite Hpc, Hpe].
  clear -Ht' Hpr. induction rest as [|b l IH]; [done|].
  destruct (decide (b = AResched)) as [->|Hb]; [done|].
  destruct (tail_ok_cons _ _ _ Ht' Hb) as (Hpl & Htl & _ & Hpe). cbn. rewrite Hpl.
  apply IH; [done|]. by rewrite <- Hpe.
Qed.

Lemma repl_wait s c a b rest :
  inv SMP s -> (c < SMP)%nat -> c_pc (s_cpus s c) = a :: rest -> inner a = true -> quick a = false ->
  plain (t_idle (curr_task s c)) b = true -> repl s c (b :: rest).
Proof.
  intros H Hc Hpc Ha Hq Hb. destruct (inner_head s c a rest Hpc Ha) as (Hp & Hcl & Hne).
  destruct (waiting_head s c a rest H Hc Hpc Ha Hq) as (_ & Hpl & Hpe).
  destruct (forallb_tail_ok (t_idle (curr_task s c)) (b :: rest)) as [Ht Hpb]. { cbn. by rewrite Hb. }
  constructor; try done; [by rewrite Hpb| |congruence]. rewrite Hpc. intros Hn. left.
  destruct a; try done; cbn in Hn; destruct b; try done; cbn; rewrite Hn; auto using orb_true_r.
Qed.

Lemma cur_running s c :
  inv SMP s -> (c < SMP)%nat -> pend (c_pc (s_cpus s c)) = false -> t_state (curr_task s c) = Running.
Proof. intros H Hc Hp. exact (core_run SMP _ (inv_core _ _ _ H) c Hc Hp). Qed.

Lemma earliest_perm l e r : earliest l = Some (e, r) -> l ≡ₚ e :: r.
Proof.
  revert e r. induction l as [|x l IH]; cbn; intros e r; [done|].
  destruct (earliest l) as [[m r']|] eqn:E; [case_bool|]; intros [= <- <-]; [|done..].
  rewrite (IH m r' eq_refl). apply perm_swap.
Qed.

(** A timer event is taken out of the list. *)
Lemma expire_inv s c d ticket t l x :
  inv SMP s -> c_timers (s_cpus s c) ≡ₚ (d, ticket, t) :: l ->
  x = (if t_ticket (s_tasks s t) =? ticket then Some t else None) ->
  inv_ex SMP x (upd_cpu c (set_timers l) s).
Proof.
  intros [H1 H2 H3 H4 H5 H6 H7 H8 H9] Hl Hx. constructor; try done.
  - apply (core_ext SMP _ _ H1); [done|intros i; sys].
  - intros i Hi. sys; by apply H2.
  - intros u Hxu Hu. destruct (H7 u) as [|(i & d' & Hi & Hd)]; [done|done|by left|right].
    exists i, d'. split; [done|]. sys. rewrite Hl in Hd.
    apply elem_of_cons in Hd as [[= <- <- <-]|]; [|done]. rewrite Z.eqb_refl in Hxu. done.
  - intros u Hu. destruct (H8 u Hu) as [|(i & Hi & Heq & Hnt)]; [by left|right].
    exists i. split; [done|]. sys.
  - intros i Hi. pose proof (H9 i Hi). sys.
Qed.

Lemma check_events_ok s c now rest :
  inv SMP s -> (c < SMP)%nat -> c_pc (s_cpus s c) = ACheckEvents :: rest ->
  exists s', check_events SMP c now rest s = Ret s' /\ inv SMP s'.
Proof.
  intros H Hc Hpc. unfold check_events, expire_one.
  destruct (inner_head s c _ rest Hpc eq_refl) as (Hp & Hcl & _).
  destruct (waiting_head s c _ rest H Hc Hpc eq_refl eq_refl) as (_ & _ & Hpe).
  pose proof (repl_same s c H Hc Hp Hcl Hpe) as Hr. rewrite Hpc in Hr.
  assert (exists s', Ret (upd_cpu c (set_pc rest) s) = Ret s' /\ inv SMP s') as Hstop.
  { eexists. split; [done|]. eapply set_pc_inv, repl_next; done. }
  destruct (earliest _) as [[[[d ticket] t] l]|] eqn:E; [|done]. cbn [fst snd].
  destruct (d <=? now); [|done]. apply earliest_perm in E.
  assert (repl (upd_cpu c (set_timers l) s) c (ACheckEvents :: rest)) as Hr'.
  { destruct Hr. constructor; try done; sys. }
  pose proof (expire_inv s c d ticket t l _ H E eq_refl) as H'.
  unfold wakeup_callback. rewrite tasks_upd_cpu.
  destruct (t_ticket (s_tasks s t) =? ticket); cbn [negb].
  - by apply unblock_ok.
  - eexists. split; [done|]. by apply set_pc_inv.
Qed.

(** [blocked_resched]: the current task goes to sleep in the queue [w]. *)
Lemma blocked_resched_ok s c w rest :
  inv SMP s -> (c < SMP)%nat -> pend (c_pc (s_cpus s c)) = false -> clearing (s_cpus s c) = None ->
  carried (c_pc (s_cpus s c)) = [] -> t_idle (curr_task s c) = false ->
  (forall u, w = WJoin u -> t_state (s_tasks s u) <> Exited) ->
  forallb (plain false) rest = true ->
  exists s', blocked_resched c w rest s = Ret s' /\ inv SMP s'.
Proof.
  intros H Hc Hp Hcl Hca Hid Hw Hpl. pose proof (cur_running s c H Hc Hp) as Hr.
  unfold blocked_resched, is_state. rewrite Hr, Hid. cbn [negb]. rewrite bool_decide_true by done. cbn [negb].
  eexists. split; [done|]. destruct H as [H1 H2 H3 H4 H5 H6 H7 H8 H9]. constructor; try done.
  - apply (core_ext SMP _ _ (core_stop SMP _ c Blocked H1 Hc Hp Hcl Hid ltac:(done) ltac:(done))).
    + intros u. sys; rewrite ?fn_insert_spec; sys.
    + intros i. sys; rewrite ?fn_insert_spec; sys.
  - intros i Hi. pose proof (H2 i Hi). sys; [unfold pc_ok, tail_ok; by rewrite Hid|congruence].
  - intros u. sys.
  - intros u Hu. destruct (H4 u Hu) as (E1 & E2 & E3). sys; congruence.
  - intros u. sys.
  - intros u _. unfold cur. sys.
    + intros _. left. exists w. sys. apply elem_of_app. right. by left.
    + intros Hu. destruct (H7 u) as [[w' Hw']|(i & d & Hi & Hd)]; [done|done|left|right].
      * exists w'. sys. apply elem_of_app. by left.
      * exists i, d. split; [done|]. sys.
  - intros u. sys; intros Hu; [by apply Hw in Hu|].
    destruct (H8 u Hu) as [|(i & Hi & Heq & Hnt)]; [by left|right].
    exists i. split; [done|]. sys.
  - intros i Hi. pose proof (H9 i Hi) as H9i. sys; intros He.
    pose proof (H9i He). congruence.
Qed.

Lemma wait_until_ok s c w k ext rest :
  inv SMP s -> (c < SMP)%nat -> c_pc (s_cpus s c) = AWaitUntil w k :: rest ->
  exists s', wait_until c w k ext rest s = Ret s' /\ inv SMP s'.
Proof.
  intros H Hc Hpc. destruct (inner_head s c _ rest Hpc eq_refl) as (Hp & Hcl & _).
  destruct (waiting_head s c _ rest H Hc Hpc eq_refl eq_refl) as (Ha & Hpl & Hpe).
  pose proof Ha as Ha'. cbn in Ha. apply andb_true_iff in Ha as [Hid%negb_true_iff Hwk].
  unfold wait_until. destruct (cond_holds s ext k) eqn:Hk.
  - eexists. split; [done|]. apply set_pc_inv; [done|]. by eapply repl_wait.
  - rewrite Hid in *. apply blocked_resched_ok; try done.
    + intros u ->. destruct k as [u'|]; [|done]. cbn in Hwk, Hk. apply Z.eqb_eq in Hwk as <-.
      by apply bool_decide_eq_false in Hk.
    + cbn. by rewrite Hpl, Hwk.
Qed.

Lemma wait_timeout_until_ok s c w d now k ext rest :
  inv SMP s -> (c < SMP)%nat -> c_pc (s_cpus s c) = AWaitTimeout w d k :: rest ->
  exists s', wait_timeout_until c w d now k ext rest s = Ret s' /\ inv SMP s'.
Proof.
  intros H Hc Hpc. destruct (inner_head s c _ rest Hpc eq_refl) as (Hp & Hcl & _).
  destruct (waiting_head s c _ rest H Hc Hpc eq_refl eq_refl) as (Ha & Hpl & Hpe).
  pose proof Ha as Ha'. cbn in Ha. apply andb_true_iff in Ha as [Hid%negb_true_iff Hwk%negb_true_iff].
  unfold wait_timeout_until. destruct (_ || _).
  - eexists. split; [done|]. apply set_pc_inv; [done|]. by eapply repl_wait.
  - rewrite Hid in *. apply blocked_resched_ok; try done.
    + by intros u ->.
    + cbn. by rewrite Hpl, Hwk.
Qed.

Lemma block_ok s c w rest :
  inv SMP s -> (c < SMP)%nat -> c_pc (s_cpus s c) = ABlock w :: rest ->
  exists s', blocked_resched c w rest s = Ret s' /\ inv SMP s'.
Proof.
  intros H Hc Hpc. destruct (inner_head s c _ rest Hpc eq_refl) as (Hp & Hcl & _).
  destruct (waiting_head s c _ rest H Hc Hpc eq_refl eq_refl) as (Ha & Hpl & Hpe).
  cbn in Ha. apply andb_true_iff in Ha as [Hid%negb_true_iff Hwk%negb_true_iff].
  rewrite Hid in *. apply blocked_resched_ok; try done. by intros u ->.
Qed.

(** A change of the current task that the rest of the system does not see. *)
Lemma upd_cur_inv s c f :
  inv SMP s -> (t_state (curr_task s c) = Blocked -> forall k, t_ticket (f k) = t_ticket k) ->
  (forall k, t_state (f k) = t_state k /\ t_idle (f k) = t_idle k /\ t_on_cpu (f k) = t_on_cpu k /\
     t_cont (f k) = t_cont k /\ t_mask (f k) = t_mask k) ->
  inv SMP (upd_task (cur s c) f s).
Proof.
  intros [H1 H2 H3 H4 H5 H6 H7 H8 H9] Hb Hf. unfold curr_task in *.
  destruct (Hf (s_tasks s (cur s c))) as (E1 & E2 & E3 & E4 & E5). constructor; try done.
  - apply (core_ext SMP _ _ H1); [intros u; sys|done].
  - intros i Hi. pose proof (H2 i Hi). sys. congruence.
  - intros u. pose proof (H3 u). sys. by rewrite E2, E4.
  - intros u Hu. pose proof (H4 u Hu). sys. by rewrite E1, E2, E3.
  - intros u. pose proof (H5 u). sys. by rewrite E5.
  - intros u _. pose proof (H7 u) as H7u. sys; [rewrite E1|by auto].
    intros Hu. rewrite (Hb Hu). auto.
  - intros u. pose proof (H8 u) as H8u. sys. by rewrite E1.
  - intros i Hi. pose proof (H9 i Hi) as H9i. sys. intros He. pose proof (H9i He). congruence.
Qed.

Lemma filter_wq_inv s c w :
  inv SMP s -> (c < SMP)%nat -> t_state (curr_task s c) <> Blocked ->
  inv SMP (upd_wq w (filter (fun x => x <> cur s c) (s_wqs s w)) s).
Proof.
  intros [H1 H2 H3 H4 H5 H6 H7 H8 H9] Hc Hb. constructor; try done.
  - intros u _ Hu. destruct (H7 u) as [[w' Hw']|]; [done|done|left|by right].
    exists w'. sys. apply list_elem_of_filter. split; [|done]. intros ->. done.
  - intros u Hu. destruct (H8 u Hu) as [E|]; [left|by right]. sys. by rewrite E.
Qed.

Lemma cancel_events_inv s c w ft rest :
  inv SMP s -> (c < SMP)%nat -> c_pc (s_cpus s c) = ACancel w ft :: rest ->
  inv SMP (cancel_events c w ft rest s).
Proof.
  intros H Hc Hpc. destruct (waiting_head s c _ rest H Hc Hpc eq_refl eq_refl) as (_ & _ & Hpe).
  pose proof (cur_running s c H Hc Hpe) as Hr.
  assert (t_state (curr_task s c) <> Blocked) as Hnb by congruence.
  pose proof (repl_next s c _ rest H Hc Hpc eq_refl) as Hrep.
  unfold cancel_events. cbn zeta.
  set (s1 := if t_in_wq (s_tasks s (cur s c)) then _ else s).
  assert (inv SMP s1 /\ t_state (curr_task s1 c) <> Blocked /\ cur s1 c = cur s c /\ repl s1 c rest)
    as (H1 & Hb1 & Hcur1 & Hr1).
  { subst s1. destruct (t_in_wq _); [|done]. split; [|split; [|split; [done|]]].
    - apply (upd_cur_inv (upd_wq w _ s) c (set_in_wait_queue false)); try done. by apply filter_wq_inv.
    - sys.
    - destruct Hrep as [? ? ? ? ? Hn]. constructor; try done; sys.
      intros Hx. destruct (Hn Hx) as [|E]; [by left|right]. sys. by rewrite E. }
  clearbody s1. apply set_pc_inv.
  - destruct ft; [|done]. rewrite <- Hcur1. by apply upd_cur_inv.
  - destruct ft; [|done]. rewrite <- Hcur1. destruct Hr1. constructor; try done; sys.
Qed.

Lemma keep_inv s c next l rest :
  inv SMP s -> (c < SMP)%nat -> c_pc (s_cpus s c) = AResched :: rest ->
  v_next (view s) c = (next, l) -> next = cur s c ->
  inv SMP (switch_to c next rest (upd_cpu c (set_rq l) s)).
Proof.
  intros H Hc Hpc Hn ->. assert (pend (c_pc (s_cpus s c)) = true) as Hp by (by rewrite Hpc).
  pose proof (inv_pc _ _ _ H c Hc) as Hok. rewrite Hpc in Hok.
  assert (forallb (plain (t_idle (curr_task s c))) rest = true) as Hrest by done.
  destruct (forallb_tail_ok _ _ Hrest) as [Ht Hpr]. destruct (tail_ok_pc _ _ Ht) as (Hca & Hok' & Hcl').
  assert (clearing (s_cpus s c) = None) as Hcl by (unfold clearing; by rewrite Hpc).
  unfold switch_to. replace (cur (upd_cpu c (set_rq l) s) c) with (cur s c) by sys. rewrite Z.eqb_refl.
  destruct H as [H1 H2 H3 H4 H5 H6 H7 H8 H9]. constructor; try done.
  - apply (core_ext SMP _ _ (core_keep SMP _ c l H1 Hc Hp Hn)).
    + intros u. sys; rewrite ?fn_insert_spec; sys.
    + intros i. sys; rewrite ?fn_insert_spec; sys. rewrite Hpc, Hca, Hpr, Hcl, Hcl'; done.
  - intros i Hi. pose proof (H2 i Hi). sys. congruence.
  - intros u. sys.
  - intros u Hu. destruct (H4 u Hu) as (E1 & E2 & E3). sys.
    pose proof (core_cur_on SMP _ c H1 Hc) as Hon. cbn in Hon. congruence.
  - intros u. sys.
  - intros u _. sys. intros Hu. destruct (H7 u) as [|(i & d & Hi & Hd)]; [done|done|by left|right].
    exists i, d. split; [done|]. sys.
  - intros u. sys. intros Hu. destruct (H8 u Hu) as [|(i & Hi & Heq & Hnt)]; [by left|right].
    exists i. split; [done|]. sys.
  - intros i Hi. pose proof (H9 i Hi) as H9i. sys; intros He.
    + apply early_pend in He. congruence.
    + apply (core_cur_inj SMP _ c i H1) in H0; done.
Qed.

Lemma switch_inv s c next l rest :
  inv SMP s -> (c < SMP)%nat -> c_pc (s_cpus s c) = AResched :: rest ->
  v_next (view s) c = (next, l) -> next <> cur s c ->
  inv SMP (switch_to c next rest (upd_cpu c (set_rq l) s)).
Proof.
  intros H Hc Hpc Hn Hne. assert (pend (c_pc (s_cpus s c)) = true) as Hp by (by rewrite Hpc).
  pose proof (inv_pc _ _ _ H c Hc) as Hok. rewrite Hpc in Hok.
  assert (forallb (plain (t_idle (curr_task s c))) rest = true) as Hrest by done.
  destruct (core_next SMP _ c next l (inv_core _ _ _ H) Hc Hp Hn) as (Hs & _ & _). cbn in Hs.
  destruct (forallb_tail_ok _ _ (inv_cont _ _ _ H next)) as [Ht Hpn].
  unfold switch_to. replace (cur (upd_cpu c (set_rq l) s) c) with (cur s c) by sys.
  rewrite (proj2 (Z.eqb_neq next (cur s c))) by done.
  destruct H as [H1 H2 H3 H4 H5 H6 H7 H8 H9]. constructor; try done.
  - apply (core_ext SMP _ _ (core_switch SMP _ c next l H1 Hc Hp Hn Hne)).
    + intros u. sys; rewrite ?fn_insert_spec; sys.
    + intros i. sys; rewrite ?fn_insert_spec; sys. by rewrite Hpc.
  - intros i Hi. pose proof (H2 i Hi). pose proof (H3 next). sys; congruence.
  - intros u. pose proof (H3 u). sys.
  - intros u Hu. destruct (H4 u Hu) as (E1 & E2 & E3). sys; congruence.
  - intros u. sys.
  - intros u _. pose proof (H7 u) as H7u. sys. all: intros Hu.
    all: destruct H7u as [|(i & d & Hi & Hd)]; [done|done|by left|right].
    all: exists i, d. all: split; [done|]. all: sys.
  - intros u. sys. all: intros Hu. all: destruct (H8 _ Hu) as [|(i & Hi & Heq & Hnt)]; [by left|right].
    all: exists i. all: split; [done|]. all: sys. all: by rewrite Hpc in Hnt.
  - intros i Hi. pose proof (H9 i Hi) as H9i. sys; intros He.
    all: try (pose proof (H9i He); congruence).
    change (pend (t_cont (s_tasks s next)) = true) in He. congruence.
Qed.

(** [resched] switches to a ready task. *)
Lemma resched_ok s c rest :
  inv SMP s -> (c < SMP)%nat -> c_pc (s_cpus s c) = AResched :: rest ->
  exists s', resched c rest s = Ret s' /\ inv SMP s'.
Proof.
  intros H Hc Hpc. destruct (v_next (view s) c) as [next l] eqn:Hn.
  assert (pend (c_pc (s_cpus s c)) = true) as Hp by (by rewrite Hpc).
  destruct (core_next SMP _ c next l (inv_core _ _ _ H) Hc Hp Hn) as (Hs & _ & _).
  unfold resched. unfold v_next in Hn. cbn in Hn, Hs.
  assert (match c_rq (s_cpus s c) with [] => (c_idle (s_cpus s c), []) | t :: l => (t, l) end = (next, l))
    as -> by done.
  unfold is_state. rewrite bool_decide_true by done. eexists. split; [done|].
  destruct (decide (next = cur s c)) as [Heq|Hne].
  - by apply keep_inv.
  - by apply switch_inv.
Qed.

Lemma clear_inv s c rest :
  inv SMP s -> (c < SMP)%nat -> c_pc (s_cpus s c) = AClear :: rest ->
  inv SMP (clear_prev_task_on_cpu c rest s).
Proof.
  intros H Hc Hpc. pose proof (inv_pc _ _ _ H c Hc) as Hok. rewrite Hpc in Hok.
  assert (forallb (plain (t_idle (curr_task s c))) rest = true) as Hrest by done.
  destruct (forallb_tail_ok _ _ Hrest) as [Ht Hpr]. destruct (tail_ok_pc _ _ Ht) as (Hca & Hok' & Hcl').
  assert (clearing (s_cpus s c) = Some (c_prev (s_cpus s c))) as Hcl by (unfold clearing; by rewrite Hpc).
  unfold clear_prev_task_on_cpu. destruct H as [H1 H2 H3 H4 H5 H6 H7 H8 H9]. constructor; try done.
  - apply (core_ext SMP _ _ (core_clear SMP _ c _ H1 Hc Hcl)).
    + intros u. sys; rewrite ?fn_insert_spec; sys.
    + intros i. sys; rewrite ?fn_insert_spec; sys. rewrite Hpc, Hca, Hcl'; [|done].
      unfold pend in Hpr |- *. cbn. by rewrite Hpr.
  - intros i Hi. pose proof (H2 i Hi). sys; congruence.
  - intros u. pose proof (H3 u). sys.
  - intros u Hu. destruct (H4 u Hu) as (E1 & E2 & E3). sys; congruence.
  - intros u. sys.
  - intros u _. pose proof (H7 u) as H7u. sys. all: intros Hu.
    all: destruct H7u as [|(i & d & Hi & Hd)]; [done|done|by left|right].
    all: exists i, d. all: split; [done|]. all: sys.
  - intros u. sys. all: intros Hu. all: destruct (H8 _ Hu) as [|(i & Hi & Heq & Hnt)]; [by left|right].
    all: exists i. all: split; [done|]. all: sys. all: by rewrite Hpc in Hnt.
  - intros i Hi. pose proof (H9 i Hi) as H9i. sys; intros He.
    all: try (apply early_pend in He; congruence). all: pose proof (H9i He); congruence.
Qed.

Lemma clearing_set_rq l k : clearing (set_rq l k) = clearing k.
Proof. done. Qed.

Lemma put_inv s c t q rest :
  inv SMP s -> (c < SMP)%nat -> c_pc (s_cpus s c) = APut t q :: rest ->
  t_on_cpu (s_tasks s t) = false -> inv SMP (rq_push q t (upd_cpu c (set_pc rest) s)).
Proof.
  intros H Hc Hpc Ho. pose proof (inv_pc _ _ _ H c Hc) as Hok. rewrite Hpc in Hok.
  unfold pc_ok in Hok. apply andb_true_iff in Hok as [Hq%bool_decide_eq_true Ht].
  destruct (tail_ok_pc _ _ Ht) as (Hca & Hok' & Hcl').
  assert (carried (c_pc (s_cpus s c)) = [t]) as Hcar by (by rewrite Hpc).
  assert (clearing (s_cpus s c) = None) as Hcl by (unfold clearing; by rewrite Hpc).
  assert (pend (c_pc (s_cpus s c)) = pend rest) as Hpe by (by rewrite Hpc).
  unfold rq_push. destruct H as [H1 H2 H3 H4 H5 H6 H7 H8 H9]. constructor; try done.
  - apply (core_ext SMP _ _ (core_enqueue SMP _ c q t H1 Hc Hq Hcar Ho)); [done|].
    intros i. sys; rewrite ?fn_insert_spec; sys; rewrite ?clearing_set_rq, ?Hcl, ?Hpe, ?Hca, ?Hcl'; done.
  - intros i Hi. pose proof (H2 i Hi). sys.
  - intros u _ Hu. destruct (H7 u) as [|(i & d & Hi & Hd)]; [done|done|by left|right].
    exists i, d. split; [done|]. sys.
  - intros u Hu. destruct (H8 _ Hu) as [|(i & Hi & Heq & Hnt)]; [by left|right].
    exists i. split; [done|]. sys. all: by rewrite Hpc in Hnt.
  - intros i Hi. pose proof (H9 i Hi) as H9i. sys; intros He. all: apply H9i.
    all: rewrite Hpc; by apply early_pend.
Qed.

Lemma exited_inv s c f :
  inv SMP s -> inv SMP (upd_cpu c (fun k => set_exited (f k) k) s).
Proof.
  intros [H1 H2 H3 H4 H5 H6 H7 H8 H9]. constructor; try done.
  - apply (core_ext SMP _ _ H1); [done|]. intros i. sys.
  - intros i Hi. pose proof (H2 i Hi). sys.
  - intros u _ Hu. destruct (H7 u) as [|(i & d & Hi & Hd)]; [done|done|by left|right].
    exists i, d. split; [done|]. sys.
  - intros u Hu. destruct (H8 _ Hu) as [|(i & Hi & Heq & Hnt)]; [by left|right].
    exists i. split; [done|]. sys.
  - intros i Hi. pose proof (H9 i Hi) as H9i. sys.
Qed.

(** Every action of a CPU can be run without a failed assertion, and keeps the
    invariant. *)
Lemma exec_ok s c now ext :
  inv SMP s -> (c < SMP)%nat ->
  exists o, exec SMP c now ext s = Ret o /\ forall s', o = Some s' -> inv SMP s'.
Proof.
  intros H Hc. unfold exec.
  assert (forall o, (exists s', o = Ret s' /\ inv SMP s') ->
    exists o', match o with Ret s' => Ret (Some s') | Panic => Panic end = Ret o' /\
      forall s', o' = Some s' -> inv SMP s') as Hsome.
  { intros o (s' & -> & Hs'). eexists. split; [done|]. by intros ? [= <-]. }
  assert (forall s1, inv SMP s1 ->
    exists o', Ret (Some s1) = Ret o' /\ forall s', o' = Some s' -> inv SMP s') as Hret.
  { intros s1 H1. eexists. split; [done|]. by intros ? [= <-]. }
  destruct (c_pc (s_cpus s c)) as [|a rest] eqn:Hpc. { eexists. split; [done|]. done. }
  destruct a; try (apply Hsome); try (apply Hret).
  - unfold put_task_with_state. destruct (t_on_cpu _) eqn:Ho; [eexists; split; done|]. apply Hret. by apply put_inv.
  - by apply resched_ok.
  - by apply clear_inv.
  - apply notify_one_ok; [done|]. by eapply repl_next.
  - by apply notify_all_ok.
  - pose proof (repl_next s c _ rest H Hc Hpc eq_refl) as Hr.
    apply set_pc_inv; [by apply upd_cur_inv|]. destruct Hr. constructor; try done; sys.
  - pose proof (repl_next s c _ rest H Hc Hpc eq_refl) as Hr.
    apply set_pc_inv; [by apply exited_inv|]. destruct Hr. constructor; try done; sys.
  - by apply block_ok.
  - by apply wait_until_ok.
  - by apply wait_timeout_until_ok.
  - by apply cancel_events_inv.
  - by apply check_events_ok.
Qed.

(** *** Requests of the running task *)

Lemma start_view s c :
  c_pc (s_cpus s c) = [] ->
  pend (c_pc (s_cpus s c)) = false /\ clearing (s_cpus s c) = None /\ carried (c_pc (s_cpus s c)) = [].
Proof. intros Hpc. unfold clearing. by rewrite Hpc. Qed.

Lemma repl_start s c l :
  (c < SMP)%nat -> c_pc (s_cpus s c) = [] -> forallb (plain (t_idle (curr_task s c))) l = true -> repl s c l.
Proof.
  intros Hc Hpc Hl. destruct (start_view s c Hpc) as (Hp & Hcl & Hca).
  destruct (forallb_tail_ok _ _ Hl) as [Ht Hpl].
  constructor; try done; rewrite ?Hpc; done || congruence.
Qed.

Lemma yield_ok s c :
  inv SMP s -> (c < SMP)%nat -> c_pc (s_cpus s c) = [] ->
  exists s', yield_current c s = Ret s' /\ inv SMP s'.
Proof.
  intros H Hc Hpc. destruct (start_view s c Hpc) as (Hp & Hcl & Hca).
  pose proof (cur_running s c H Hc Hp) as Hr. unfold yield_current, is_state.
  rewrite bool_decide_true by done. cbn [negb]. eexists. split; [done|].
  unfold rq_push. destruct H as [H1 H2 H3 H4 H5 H6 H7 H8 H9]. constructor.
  - apply (core_ext SMP _ _ (core_yield SMP _ c H1 Hc Hp Hcl)).
    + intros u. destruct (t_idle _) eqn:Hid; sys; rewrite ?fn_insert_spec; sys.
    + intros i. destruct (t_idle _) eqn:Hid; sys; rewrite ?Hid, ?fn_insert_spec; sys; by rewrite Hpc.
  - intros i Hi. pose proof (H2 i Hi). destruct (t_idle (curr_task s c)); sys; congruence.
  - intros u. destruct (t_idle (curr_task s c)); sys.
  - intros u Hu. assert (s_next_id s <= u) as Hu' by (by destruct (t_idle (curr_task s c))).
    destruct (H4 u Hu') as (E1 & E2 & E3). destruct (t_idle (curr_task s c)); sys; congruence.
  - intros u. destruct (t_idle (curr_task s c)); sys.
  - by destruct (t_idle (curr_task s c)).
  - intros u _. destruct (t_idle (curr_task s c)); sys. all: intros Hu.
    all: destruct (H7 u) as [|(i & d & Hi & Hd)]; [done|done|by left|right].
    all: exists i, d. all: split; [done|]. all: sys.
  - intros u. destruct (t_idle (curr_task s c)); sys. all: intros Hu.
    all: destruct (H8 _ Hu) as [|(i & Hi & Heq & Hnt)]; [by left|right].
    all: exists i. all: split; [done|]. all: sys. all: by rewrite Hpc in Hnt.
  - intros i Hi. pose proof (H9 i Hi) as H9i. destruct (t_idle (curr_task s c)); sys; intros He.
    all: pose proof (H9i He); congruence.
Qed.

Lemma set_alarm_ok s c d :
  inv SMP s -> (c < SMP)%nat -> t_state (curr_task s c) = Running -> s_next_ticket s <> 0 ->
  exists s', set_alarm_wakeup c d s = Ret s' /\ inv SMP s' /\ cur s' c = cur s c /\
    t_idle (curr_task s' c) = t_idle (curr_task s c) /\ c_pc (s_cpus s' c) = c_pc (s_cpus s c) /\
    (d, t_ticket (s_tasks s' (cur s c)), cur s c) ∈ c_timers (s_cpus s' c).
Proof.
  intros H Hc Hr Htk. unfold set_alarm_wakeup. rewrite (proj2 (Z.eqb_neq _ _) Htk).
  eexists. split; [done|]. split; [|sys; split; [done|split; [done|split; [done|]]];
    apply elem_of_app; right; by left].
  destruct H as [H1 H2 H3 H4 H5 H6 H7 H8 H9]. constructor; try done.
  - apply (core_ext SMP _ _ H1); [intros u; sys|intros i; sys].
  - intros i Hi. pose proof (H2 i Hi). sys; congruence.
  - intros u. sys.
  - intros u Hu. destruct (H4 u Hu) as (E1 & E2 & E3). sys.
  - intros u. sys.
  - intros u _. unfold curr_task in Hr. sys; [congruence|]. intros Hu.
    destruct (H7 u) as [|(i & d' & Hi & Hd)]; [done|done|by left|right].
    exists i, d'. split; [done|]. sys. apply elem_of_app. by left.
  - intros u. sys. all: intros Hu.
    all: destruct (H8 _ Hu) as [|(i & Hi & Heq & Hnt)]; [by left|right].
    all: exists i. all: split; [done|]. all: sys.
  - intros i Hi. pose proof (H9 i Hi) as H9i. sys; intros He. all: pose proof (H9i He); congruence.
Qed.

(** The current task stops running, and can be woken if it is blocked. *)
Lemma stop_inv s c x pc :
  inv SMP s -> (c < SMP)%nat -> c_pc (s_cpus s c) = [] -> t_idle (curr_task s c) = false ->
  x <> Ready -> x <> Running -> tail_ok false pc = true -> pend pc = true ->
  (x = Blocked -> wakeable SMP s (cur s c)) -> (x = Exited -> notifying (cur s c) pc = true) ->
  (early pc = true -> x = Exited) ->
  inv SMP (upd_cpu c (set_pc pc) (upd_task (cur s c) (set_state x) s)).
Proof.
  intros H Hc Hpc Hid Hx1 Hx2 Ht Hpe Hb He Hea. destruct (start_view s c Hpc) as (Hp & Hcl & Hca).
  destruct (tail_ok_pc _ _ Ht) as (Hca' & Hok' & Hcl').
  pose proof (cur_running s c H Hc Hp) as Hr.
  destruct H as [H1 H2 H3 H4 H5 H6 H7 H8 H9]. constructor; try done.
  - apply (core_ext SMP _ _ (core_stop SMP _ c x H1 Hc Hp Hcl Hid Hx1 Hx2)).
    + intros u. sys; rewrite ?fn_insert_spec; sys.
    + intros i. sys; rewrite ?fn_insert_spec; sys. rewrite Hcl', Hcl, Hca, Hca', Hpe; done.
  - intros i Hi. pose proof (H2 i Hi). sys; congruence.
  - intros u. sys.
  - intros u Hu. destruct (H4 u Hu) as (E1 & E2 & E3). sys; congruence.
  - intros u. sys.
  - intros u _. unfold wakeable, cur in *. sys; intros Hu; [destruct (Hb Hu) as [|(i & d & Hi & Hd)]|
      destruct (H7 u) as [|(i & d & Hi & Hd)]]; try done; try (by left); right; exists i, d; (split; [done|]); sys.
  - intros u. sys; intros Hu; [right; exists c; split; [done|]; sys; auto|].
    destruct (H8 _ Hu) as [|(i & Hi & Heq & Hnt)]; [by left|right]. exists i. split; [done|]. sys.
  - intros i Hi. pose proof (H9 i Hi) as H9i. sys; intros He'; try (by apply Hea).
    all: pose proof (H9i He'); congruence.
Qed.

Lemma sleep_ok s c d now :
  inv SMP s -> (c < SMP)%nat -> c_pc (s_cpus s c) = [] -> t_idle (curr_task s c) = false ->
  s_next_ticket s <> 0 -> exists s', sleep_until c d now s = Ret s' /\ inv SMP s'.
Proof.
  intros H Hc Hpc Hid Htk. destruct (start_view s c Hpc) as (Hp & _).
  pose proof (cur_running s c H Hc Hp) as Hr. unfold sleep_until, is_state.
  rewrite bool_decide_true, Hid by done. cbn [negb]. destruct (d <=? now); [eauto|].
  destruct (set_alarm_ok s c d H Hc Hr Htk) as (s1 & -> & H1 & Hcur & Hid1 & Hpc1 & Htm).
  eexists. split; [done|]. rewrite <- Hcur in *. apply stop_inv; try done; [congruence|congruence|].
  intros _. right. by exists c, d.
Qed.

Lemma halt_inv s : inv SMP s -> inv SMP (halt s).
Proof. intros []. by constructor. Qed.

Lemma exit_ok s c code :
  inv SMP s -> (c < SMP)%nat -> c_pc (s_cpus s c) = [] -> t_idle (curr_task s c) = false ->
  exists s', exit_current c code s = Ret s' /\ inv SMP s'.
Proof.
  intros H Hc Hpc Hid. destruct (start_view s c Hpc) as (Hp & _).
  pose proof (cur_running s c H Hc Hp) as Hr. unfold exit_current, is_state.
  rewrite bool_decide_true, Hid by done. cbn [negb]. destruct (t_init _).
  - eexists. split; [done|]. apply halt_inv, (exited_inv s c (fun _ => [])), H.
  - eexists. split; [done|]. apply stop_inv; try done. intros _. cbn. by rewrite bool_decide_true.
Qed.

Lemma spawn_ok s mask :
  inv SMP s -> cpumask_is_empty SMP mask = false ->
  exists s', spawn_task SMP mask s = Ret s' /\ inv SMP s'.
Proof.
  intros H Hm. unfold spawn_task. cbn zeta. set (s1 := upd_task _ _ _).
  destruct (select_ok mask s1) as (q & rr & -> & Hq & _ & Hrr); [done|apply H|].
  subst s1. unfold is_state. rewrite bool_decide_true by sys. eexists. split; [done|].
  unfold rq_push. destruct H as [H1 H2 H3 H4 H5 H6 H7 H8 H9].
  destruct (H4 (s_next_id s)) as (Ee & Ei & Eo); [lia|].
  assert (forall i, (i < SMP)%nat -> c_cur (s_cpus s i) <> s_next_id s) as Hne.
  { intros i Hi Heq. pose proof (core_cur_on SMP _ i H1 Hi) as Hon. cbn in Hon. congruence. }
  constructor; try done.
  - apply (core_ext SMP _ _ (core_spawn SMP _ q _ H1 Hq Ee Eo Ei)).
    + intros u. sys; rewrite ?fn_insert_spec; sys.
    + intros i. sys; rewrite ?fn_insert_spec; sys.
  - intros i Hi. pose proof (H2 i Hi). pose proof (Hne i Hi). sys. all: congruence.
  - intros u. sys.
  - intros u Hu. cbn in Hu. destruct (H4 u) as (E1 & E2 & E3); [lia|]. sys. lia.
  - intros u. sys.
  - intros u _. sys. intros Hu. destruct (H7 u) as [|(i & d & Hi & Hd)]; [done|done|by left|right].
    exists i, d. split; [done|]. sys.
  - intros u. sys. intros Hu. destruct (H8 _ Hu) as [|(i & Hi & Heq & Hnt)]; [by left|right].
    exists i. split; [done|]. sys.
  - intros i Hi. pose proof (H9 i Hi) as H9i. pose proof (Hne i Hi). sys. all: congruence.
Qed.

Lemma wait_timeout_ok s c w d :
  inv SMP s -> (c < SMP)%nat -> c_pc (s_cpus s c) = [] -> t_idle (curr_task s c) = false ->
  s_next_ticket s <> 0 -> is_join_queue w = false ->
  exists s', do_op SMP c 0 (OWaitTimeout w d) s = Ret s' /\ inv SMP s'.
Proof.
  intros H Hc Hpc Hid Htk Hw. destruct (start_view s c Hpc) as (Hp & _).
  pose proof (cur_running s c H Hc Hp) as Hr. cbn. unfold wait_timeout.
  destruct (set_alarm_ok s c d H Hc Hr Htk) as (s1 & -> & H1 & Hcur & Hid1 & Hpc1 & Htm).
  rewrite Hpc in Hpc1. destruct (start_view s1 c Hpc1) as (Hp1 & Hcl1 & Hca1).
  apply blocked_resched_ok; try done; [congruence|]. by intros u ->.
Qed.

(** The requests that arm a timer, which take a non-zero ticket. *)
Definition arms_timer (o : op) : bool :=
  match o with OWaitTimeout _ _ | OWaitTimeoutUntil _ _ _ | OSleep _ => true | _ => false end.

Lemma do_op_no_ticket s c now o s' :
  arms_timer o = true -> s_next_ticket s = 0 -> do_op SMP c now o s = Ret s' -> s' = s.
Proof.
  intros Ho Hz. destruct o; try done; cbn; unfold wait_timeout, wait_timeout_enter, sleep_until, set_alarm_wakeup; rewrite Hz; cbn; try done.
  repeat case_bool; congruence.
Qed.

(** Every request is served without a failed assertion, and keeps the invariant. *)
Lemma do_op_ok s c now o :
  inv SMP s -> (c < SMP)%nat -> c_pc (s_cpus s c) = [] -> op_ok SMP s c o = true ->
  (arms_timer o = true -> s_next_ticket s <> 0) -> exists s', do_op SMP c now o s = Ret s' /\ inv SMP s'.
Proof.
  intros H Hc Hpc Hok Htk. apply andb_true_iff in Hok as [Hid Hok].
  assert (o = OYield \/ t_idle (curr_task s c) = false) as [->|Hni].
  { destruct (t_idle _); [|by right]. left. by destruct o. }
  { by apply yield_ok. }
  assert (forall l, forallb (plain false) l = true -> exists s', Ret (upd_cpu c (set_pc l) s) = Ret s' /\ inv SMP s')
    as Hstart.
  { intros l Hl. eexists. split; [done|]. apply set_pc_inv; [done|]. apply repl_start; [done..|]. by rewrite Hni. }
  destruct (start_view s c Hpc) as (Hp & _). pose proof (cur_running s c H Hc Hp) as Hr.
  destruct o; cbn in Hok; try (apply Hstart; done).
  - by apply yield_ok.
  - apply Hstart. cbn. by rewrite Hok.
  - apply Hstart. cbn. by rewrite Hok.
  - apply negb_true_iff in Hok. apply wait_timeout_ok; auto.
  - cbn. unfold wait_timeout_enter. destruct (set_alarm_ok s c deadline H Hc Hr (Htk eq_refl)) as (s1 & -> & H1 & Hcur & Hid1 & Hpc1 & Htm).
    rewrite Hpc in Hpc1. eexists. split; [done|]. apply set_pc_inv; [done|].
    apply repl_start; [done..|]. cbn. by rewrite Hid1, Hni, Hok.
  - apply sleep_ok; auto.
  - by apply exit_ok.
  - apply negb_true_iff in Hok. by apply spawn_ok.
Qed.

Lemma tick_inv s c :
  inv SMP s -> (c < SMP)%nat -> interruptible (c_pc (s_cpus s c)) = true ->
  inv SMP (upd_cpu c (fun k => set_pc (ACheckEvents :: c_pc k) k) s).
Proof.
  intros H Hc Hi. change (upd_cpu c _ s) with (upd_cpu c (set_pc (ACheckEvents :: c_pc (s_cpus s c))) s).
  apply set_pc_inv; [done|]. destruct (c_pc (s_cpus s c)) as [|a l] eqn:Hpc.
  - by apply repl_start.
  - assert (inner a = true /\ quick a = false) as [Ha Hq] by (by destruct a).
    destruct (inner_head s c a l Hpc Ha) as (Hp & Hcl & Hne).
    destruct (waiting_head s c a l H Hc Hpc Ha Hq) as (Hpl & Hpls & Hpe).
    destruct (forallb_tail_ok (t_idle (curr_task s c)) (ACheckEvents :: a :: l)) as [Ht Hpb].
    { cbn. by rewrite Hpl. }
    constructor; try done; [by rewrite Hpb|rewrite Hpc; by left|congruence].
Qed.

Lemma step_inv s s' : inv SMP s -> step SMP s s' -> inv SMP s'.
Proof.
  intros H [c now ext s1 _ Hc He|c now o s1 _ Hc Hpc Hok Hd|c _ Hc Hi].
  - destruct (exec_ok s c now ext H Hc) as (o & Ho & Hinv). rewrite He in Ho. injection Ho as <-. by apply Hinv.
  - destruct (decide (arms_timer o = true /\ s_next_ticket s = 0)) as [[Ha Hz]|Hz].
    + by rewrite (do_op_no_ticket s c now o s1 Ha Hz Hd).
    + destruct (do_op_ok s c now o H Hc Hpc Hok) as (s2 & Ho & Hinv); [tauto|congruence].
  - by apply tick_inv.
Qed.
End Correct.
