(* ===== verification/SchedTheorems.v ===== *)
(** What the scheduler guarantees in every state it can reach from boot, on any
    number of CPUs. *)
From stdpp Require Import functions relations.
From S2P Require Import Prelude.
From S2P Require Import Sched.
From S2P Require Import SchedInv.
From S2P Require Import SchedCorrect.

Section Init.
Context (SMP : nat) (HSMP : (0 < SMP)%nat).

Lemma cpumask_nonempty mask i :
  (i < SMP)%nat -> cpumask_get mask i = true -> cpumask_is_empty SMP mask = false.
Proof.
  intros Hi Hg. unfold cpumask_is_empty. apply negb_false_iff, existsb_exists.
  exists i. split; [apply in_seq; lia|done].
Qed.

Lemma full_get i : (i < SMP)%nat -> cpumask_get (cpumask_full SMP) i = true.
Proof.
  intros Hi. unfold cpumask_get, cpumask_full.
  replace (2 ^ Z.of_nat SMP - 1) with (Z.ones (Z.of_nat SMP)) by (rewrite Z.ones_equiv; lia).
  apply Z.ones_spec_low. lia.
Qed.

Lemma init_task_cur c : (c < SMP)%nat ->
  init_task SMP (2 * Z.of_nat c + 2) =
  mkTask Running (negb (2 * Z.of_nat c + 2 =? 2)) true (cpumask_full SMP) false true 0 0 [].
Proof.
  intros Hc. unfold init_task. destruct (Z.eqb_spec (2 * Z.of_nat c + 2) 1); [lia|].
  destruct (Z.leb_spec 2 (2 * Z.of_nat c + 2)); [|lia].
  destruct (Z.ltb_spec (2 * Z.of_nat c + 2) (2 * Z.of_nat SMP + 2)); [|lia].
  replace (2 * Z.of_nat c + 2) with (2 * (Z.of_nat c + 1)) by lia. by rewrite Z.even_mul.
Qed.
Lemma init_task_gc c : (c < SMP)%nat ->
  init_task SMP (2 * Z.of_nat c + 2 + 1) =
  mkTask Ready false false (one_shot (Z.of_nat c)) false false 0 0 [].
Proof.
  intros Hc. unfold init_task. destruct (Z.eqb_spec (2 * Z.of_nat c + 2 + 1) 1); [lia|].
  destruct (Z.leb_spec 2 (2 * Z.of_nat c + 2 + 1)); [|lia].
  destruct (Z.ltb_spec (2 * Z.of_nat c + 2 + 1) (2 * Z.of_nat SMP + 2)); [|lia].
  replace (2 * Z.of_nat c + 2 + 1) with (1 + 2 * (Z.of_nat c + 1)) by lia.
  rewrite Z.even_add_mul_2. cbn [Z.even andb]. do 2 f_equal.
  replace (1 + 2 * (Z.of_nat c + 1)) with (1 + (Z.of_nat c + 1) * 2) by lia.
  rewrite Z.div_add by lia. cbn [Z.div]. lia.
Qed.

(** The tasks that exist at boot. *)
Lemma init_cases t :
  t = 1 \/ (exists c, (c < SMP)%nat /\ t = 2 * Z.of_nat c + 2) \/
  (exists c, (c < SMP)%nat /\ t = 2 * Z.of_nat c + 2 + 1) \/
  init_task SMP t = mkTask Exited false false (cpumask_full SMP) false false 0 0 [].
Proof.
  destruct (decide (t = 1)) as [|H1]; [by left|right].
  destruct (decide (2 <= t < 2 * Z.of_nat SMP + 2)) as [Hr|Hr].
  - destruct (Z.Even_or_Odd t) as [[k Hk]|[k Hk]]; [left|right; left];
      exists (Z.to_nat (k - 1)); split; lia.
  - right. right. unfold init_task. destruct (Z.eqb_spec t 1); [done|].
    destruct (Z.leb_spec 2 t); [|done]. destruct (Z.ltb_spec t (2 * Z.of_nat SMP + 2)); [lia|done].
Qed.

Lemma concat_singletons (f : nat -> Z) l : concat ((fun c => [f c]) <$> l) = f <$> l.
Proof. induction l as [|c l IH]; [done|]. cbn. by rewrite <- IH. Qed.

Lemma nodup_cpus (f : nat -> Z) :
  (forall i j, f i = f j -> i = j) -> NoDup (concat ((fun c => [f c]) <$> seq 0 SMP)).
Proof. intros Hf. rewrite concat_singletons. apply NoDup_fmap_2; [exact Hf|apply NoDup_seq]. Qed.

Lemma init_pool t :
  t ∈ pool SMP (view (init SMP)) <->
  t_state (init_task SMP t) = Ready /\ t_idle (init_task SMP t) = false.
Proof.
  rewrite pool_in. cbn. setoid_rewrite list_elem_of_singleton. split.
  - intros (c & Hc & [->|[]%elem_of_nil]). by rewrite init_task_gc.
  - intros [Hs Hi]. destruct (init_cases t) as [->|[(c & Hc & ->)|[(c & Hc & ->)|E]]]; [done|..].
    + by rewrite init_task_cur in Hs.
    + exists c. auto.
    + by rewrite E in Hs.
Qed.

Lemma init_busy t : t ∈ busy SMP (view (init SMP)) <-> t_on_cpu (init_task SMP t) = true.
Proof.
  rewrite busy_in. cbn. split.
  - intros (c & Hc & [->|?]); [by rewrite init_task_cur|done].
  - intros Ho. destruct (init_cases t) as [->|[(c & Hc & ->)|[(c & Hc & ->)|E]]]; [done|..].
    + exists c. auto.
    + by rewrite init_task_gc in Ho.
    + by rewrite E in Ho.
Qed.

Lemma init_idle_task c :
  (c < SMP)%nat ->
  c_idle (init_cpu c) = 1 /\ c = 0%nat \/ c_idle (init_cpu c) = 2 * Z.of_nat c + 2 /\ c <> 0%nat.
Proof. intros Hc. cbn. case_decide; auto. Qed.

Lemma init_core : core SMP (view (init SMP)).
Proof.
  constructor.
  - apply (nodup_cpus (fun c => 2 * Z.of_nat c + 2 + 1)). lia.
  - apply init_pool.
  - apply (nodup_cpus (fun c => 2 * Z.of_nat c + 2)). lia.
  - apply init_busy.
  - intros c Hc _. cbn. by rewrite init_task_cur.
  - intros t. cbn. destruct (init_cases t) as [->|[(c & Hc & ->)|[(c & Hc & ->)| ->]]]; [done|..|done].
    + exists c. done.
    + by rewrite init_task_gc.
  - intros c t Hc. cbn. intros ->%list_elem_of_singleton. by rewrite init_task_gc.
  - intros c Hc. cbn -[init_cpu]. destruct (init_idle_task c Hc) as [[-> _]|[-> ?]]; [done|].
    rewrite init_task_cur by done. cbn. destruct (Z.eqb_spec (2 * Z.of_nat c + 2) 2); [lia|done].
  - intros c c' Hc Hc'. cbn -[init_cpu].
    destruct (init_idle_task c Hc) as [[-> ?]|[-> ?]], (init_idle_task c' Hc') as [[-> ?]|[-> ?]]; lia.
  - intros t. cbn -[init_cpu]. destruct (init_cases t) as [->|[(c & Hc & ->)|[(c & Hc & ->)| ->]]]; [|..|done].
    + intros _. exists 0%nat. done.
    + rewrite init_task_cur by done. cbn -[init_cpu]. intros Hn. exists c. split; [done|].
      destruct (init_idle_task c Hc) as [[_ ->]|[-> _]]; done.
    + by rewrite init_task_gc.
  - intros t. cbn. destruct (init_cases t) as [->|[(c & Hc & ->)|[(c & Hc & ->)| ->]]]; [by left|..|done].
    + rewrite init_task_cur by done. by right.
    + by rewrite init_task_gc.
  - intros c Hc. cbn -[init_cpu]. destruct (init_idle_task c Hc) as [[-> _]|[-> ?]]; [done|]. by left.
  - done.
Qed.

Lemma init_inv : inv SMP (init SMP).
Proof.
  constructor; try done.
  - apply init_core.
  - intros t. cbn. destruct (init_cases t) as [->|[(c & Hc & ->)|[(c & Hc & ->)| ->]]]; [done|..|done].
    + by rewrite init_task_cur.
    + by rewrite init_task_gc.
  - intros t. cbn. intros Ht. destruct (init_cases t) as [->|[(c & Hc & ->)|[(c & Hc & ->)| ->]]]; [lia|lia|lia|done].
  - intros t. cbn. destruct (init_cases t) as [->|[(c & Hc & ->)|[(c & Hc & ->)| ->]]].
    + apply (cpumask_nonempty _ 0); done.
    + rewrite init_task_cur by done. apply (cpumask_nonempty _ 0); [done|]. by apply full_get.
    + rewrite init_task_gc by done. apply (cpumask_nonempty _ c); [done|].
      unfold cpumask_get, one_shot. cbn. rewrite Z.pow2_bits_true; lia.
    + apply (cpumask_nonempty _ 0); [done|]. by apply full_get.
  - intros t _. cbn. destruct (init_cases t) as [->|[(c & Hc & ->)|[(c & Hc & ->)| ->]]]; [done|..|done].
    + by rewrite init_task_cur.
    + by rewrite init_task_gc.
  - intros t _. by left.
Qed.

Lemma reachable_inv s : Z.of_nat SMP < USIZE -> rtc (step SMP) (init SMP) s -> inv SMP s.
Proof.
  intros H64 Hr. remember (init SMP) as s0 eqn:E. assert (inv SMP s0) as H by (subst; apply init_inv).
  clear E. induction Hr as [|s0 s1 s2 Hs _ IH]; [done|]. apply IH. by eapply step_inv.
Qed.
End Init.

(** ** Runs *)

(** A run of the system as the list of its events. *)
Inductive event := EExec (c : nat) (now : Z) (ext : bool) | EOp (c : nat) (now : Z) (o : op) | ETick (c : nat).

Definition run1 (SMP : nat) (e : event) (s : Sys) : option Sys :=
  if s_halted s then None
  else match e with
       | EExec c now ext =>
           if decide (c < SMP)%nat then match exec SMP c now ext s with Ret o => o | Panic => None end else None
       | EOp c now o =>
           if decide (c < SMP)%nat then
             if decide (c_pc (s_cpus s c) = []) then
               if op_ok SMP s c o then match do_op SMP c now o s with Ret s' => Some s' | Panic => None end
               else None
             else None
           else None
       | ETick c =>
           if decide (c < SMP)%nat then
             if interruptible (c_pc (s_cpus s c))
             then Some (upd_cpu c (fun k => set_pc (ACheckEvents :: c_pc k) k) s) else None
           else None
       end.
Fixpoint run (SMP : nat) (es : list event) (s : Sys) : option Sys :=
  match es with
  | [] => Some s
  | e :: es => match run1 SMP e s with Some s' => run SMP es s' | None => None end
  end.

Lemma run1_step SMP e s s' : run1 SMP e s = Some s' -> step SMP s s'.
Proof.
  unfold run1. destruct (s_halted s) eqn:Hh; [done|].
  destruct e as [c now ext|c now o|c]; (case_decide as Hc; [|done]).
  - destruct (exec SMP c now ext s) as [o|] eqn:E; [|done]. intros ->. by eapply step_exec.
  - case_decide as Hpc; [|done]. destruct (op_ok SMP s c o) eqn:Ho; [|done].
    destruct (do_op SMP c now o s) as [s1|] eqn:E; [|done]. intros [= <-]. by eapply step_op.
  - destruct (interruptible _) eqn:Hi; [|done]. intros [= <-]. by apply step_tick.
Qed.

Lemma run_steps SMP es s s' : run SMP es s = Some s' -> rtc (step SMP) s s'.
Proof.
  revert s. induction es as [|e es IH]; cbn; intros s.
  - by intros [= <-].
  - destruct (run1 SMP e s) as [s1|] eqn:E; [|done]. intros Hr.
    eapply rtc_l; [by eapply run1_step|by apply IH].
Qed.

(** The state a run from boot ends in. *)
Definition after (SMP : nat) (es : list event) : Sys := default (init SMP) (run SMP es (init SMP)).
Definition runs (SMP : nat) (es : list event) : bool :=
  match run SMP es (init SMP) with Some _ => true | None => false end.

Lemma after_reachable SMP es : runs SMP es = true -> rtc (step SMP) (init SMP) (after SMP es).
Proof.
  unfold runs, after. destruct (run SMP es (init SMP)) as [s|] eqn:E; [|done]. intros _. by eapply run_steps.
Qed.

(** A run on two CPUs: the main task joins the gc task 5 of CPU 1, which exits with
    code 7. *)
Definition join_run : list event :=
  [EOp 0 0 (join 5); EExec 0 0 false; EExec 0 0 false; EExec 0 0 false;
   EOp 1 0 OYield; EExec 1 0 false; EExec 1 0 false; EOp 1 0 (OExit 7)].

Lemma pend_now l : pend l = true -> early l = false -> exists r, l = AResched :: r.
Proof.
  destruct l as [|a r]; [done|]. destruct (decide (a = AResched)) as [->|Hne]; [by eauto|].
  unfold pend. cbn. rewrite bool_decide_false by done. cbn. intros Hp He. destruct a; unfold early, pend in He; congruence.
Qed.

(** How a step changes the run queue of a CPU: tasks are appended, or the first one
    becomes current. *)
Definition rq_moves (c : nat) (s s' : Sys) : Prop :=
  (exists l, c_rq (s_cpus s' c) = c_rq (s_cpus s c) ++ l) \/
  c_rq (s_cpus s c) = cur s' c :: c_rq (s_cpus s' c).

Ltac same_rq := left; exists []; rewrite app_nil_r; sys.

Lemma unblock_rq SMP c t rest s s' i :
  unblock_task SMP c t rest s = Ret s' -> c_rq (s_cpus s' i) = c_rq (s_cpus s i).
Proof.
  unfold unblock_task, select_run_queue_index.
  destruct (cpumask_is_empty _ _); [done|]. destruct (select_loop _ _ _ _) as [[q rr]|]; [|done].
  repeat case_bool; intros [= <-]; sys.
Qed.

Lemma notify_one_rq SMP c w rest s s' i :
  notify_one SMP c w rest s = Ret s' -> c_rq (s_cpus s' i) = c_rq (s_cpus s i).
Proof.
  unfold notify_one, unblock_one_task. destruct (s_wqs s w); [intros [= <-]; sys|].
  intros H%(unblock_rq _ _ _ _ _ _ i). by rewrite H.
Qed.

Lemma blocked_rq c w rest s s' i :
  blocked_resched c w rest s = Ret s' -> c_rq (s_cpus s' i) = c_rq (s_cpus s i).
Proof. unfold blocked_resched. repeat case_bool; try done. intros [= <-]. sys. Qed.

Lemma resched_rq c rest s s' i : resched c rest s = Ret s' -> rq_moves i s s'.
Proof.
  unfold resched, switch_to. destruct (c_rq (s_cpus s c)) as [|t l] eqn:E; case_bool; try done.
  all: intros [= <-]; case_bool; bool_to_prop; unfold rq_moves.
  all: destruct (decide (c = i)) as [->|]; [|same_rq].
  - left. exists []. rewrite E. sys.
  - left. exists []. rewrite E. sys.
  - right. rewrite E. sys.
  - right. rewrite E. sys.
Qed.

Lemma alarm_rq c d s s' i :
  set_alarm_wakeup c d s = Ret s' -> c_rq (s_cpus s' i) = c_rq (s_cpus s i).
Proof. unfold set_alarm_wakeup. case_bool; [done|]. intros [= <-]. sys. Qed.

Lemma rq_same c s s' : c_rq (s_cpus s' c) = c_rq (s_cpus s c) -> rq_moves c s s'.
Proof. intros H. left. exists []. by rewrite app_nil_r. Qed.

Lemma exec_rq SMP c now ext s s' i : exec SMP c now ext s = Ret (Some s') -> rq_moves i s s'.
Proof.
  unfold exec. destruct (c_pc (s_cpus s c)) as [|a rest]; [done|].
  assert (forall o, match o with Ret s' => Ret (Some s') | Panic => Panic end = Ret (Some s') -> o = Ret s') as Hs.
  { intros [?|]; congruence. }
  destruct a; try (intros H%Hs); try (intros [= <-]; apply rq_same; unfold clear_prev_task_on_cpu, notify_exit; sys).
  - unfold put_task_with_state. case_bool; [done|]. intros [= <-]. unfold rq_push. left.
    destruct (decide (q = i)); [exists [t]|exists []]; rewrite ?app_nil_r; sys.
  - by eapply resched_rq.
  - eapply rq_same, notify_one_rq, H.
  - unfold notify_all in H. destruct (s_wqs s w); [injection H as <-; apply rq_same; sys|].
    eapply rq_same, notify_one_rq, H.
  - eapply rq_same, blocked_rq, H.
  - unfold wait_until in H. case_bool; [injection H as <-; apply rq_same; sys|]. eapply rq_same, blocked_rq, H.
  - unfold wait_timeout_until in H. case_bool; [injection H as <-; apply rq_same; sys|]. eapply rq_same, blocked_rq, H.
  - unfold cancel_events. repeat case_bool; sys.
  - unfold check_events in H. destruct (expire_one _ _) as [[[[d k] t] l]|]; [|injection H as <-; apply rq_same; sys].
    unfold wakeup_callback in H. case_bool; [injection H as <-; apply rq_same; sys|].
    apply rq_same. rewrite (unblock_rq _ _ _ _ _ _ _ H). sys.
Qed.

Lemma do_op_rq SMP c now o s s' i : do_op SMP c now o s = Ret s' -> rq_moves i s s'.
Proof.
  destruct o; cbn; unfold wait; try (intros [= <-]; apply rq_same; sys).
  - unfold yield_current. case_bool; [done|]. intros [= <-]. case_bool; [apply rq_same; sys|].
    unfold rq_push. left. destruct (decide (c = i)); [exists [cur s c]|exists []]; rewrite ?app_nil_r; sys.
  - unfold wait_timeout, wait_timeout_enter. destruct (set_alarm_wakeup c deadline s) as [s1|] eqn:E; [|done]. intros H%(blocked_rq _ _ _ _ _ i).
    apply rq_same. rewrite H. by eapply alarm_rq.
  - unfold wait_timeout, wait_timeout_enter. destruct (set_alarm_wakeup c deadline s) as [s1|] eqn:E; [|done]. intros [= <-].
    apply rq_same. sys; by rewrite (alarm_rq _ _ _ _ _ E).
  - unfold sleep_until. repeat case_bool; try done; [intros [= <-]; by apply rq_same|].
    destruct (set_alarm_wakeup c deadline s) as [s1|] eqn:E; [|done]. intros [= <-].
    apply rq_same. sys; by rewrite (alarm_rq _ _ _ _ _ E).
  - unfold exit_current. repeat case_bool; try done; intros [= <-]; apply rq_same; cbn -[upd_cpu upd_task]; sys.
  - unfold spawn_task, select_run_queue_index. destruct (cpumask_is_empty _ _); [done|].
    destruct (select_loop _ _ _ _) as [[q rr]|]; [|done]. case_bool; [|done]. intros [= <-].
    unfold rq_push. left.
    destruct (decide (q = i)); [exists [s_next_id s]|exists []]; rewrite ?app_nil_r; sys.
Qed.

Lemma step_rq SMP s s' i : step SMP s s' -> rq_moves i s s'.
Proof.
  intros [c now ext s1 _ _ He|c now o s1 _ _ _ _ Hd|c _ _ _].
  - by eapply exec_rq.
  - by eapply do_op_rq.
  - apply rq_same. sys.
Qed.

(** ** Properties *)

(** C5: At any time no task is current on two CPUs; every ready task other than an
    idle one is queued exactly once over all run queues (or is on its way to
    one), and nothing else is queued; the running tasks are exactly the current
    tasks of the CPUs that are not about to reschedule. *)
Theorem sched_one_place SMP s :
  (0 < SMP)%nat -> Z.of_nat SMP < USIZE -> rtc (step SMP) (init SMP) s ->
  (forall c c', (c < SMP)%nat -> (c' < SMP)%nat -> cur s c = cur s c' -> c = c') /\
  NoDup (pool SMP (view s)) /\
  (forall t, t ∈ pool SMP (view s) <->
     t_state (s_tasks s t) = Ready /\ t_idle (s_tasks s t) = false) /\
  (forall t, t_state (s_tasks s t) = Running <->
     exists c, (c < SMP)%nat /\ cur s c = t /\ pend (c_pc (s_cpus s c)) = false).
Proof.
  intros HS H64 Hr. pose proof (inv_core _ _ _ (reachable_inv SMP HS s H64 Hr)) as H.
  split; [intros c c'; apply (core_cur_inj SMP (view s)); done|].
  split; [apply (core_pool_nodup _ _ H)|]. split; [apply (core_pool _ _ H)|].
  intros t. split; [apply (core_run_inv _ _ H)|].
  intros (c & Hc & <- & Hp). exact (core_run _ _ H c Hc Hp).
Qed.

Lemma sched_one_place_witness :
  t_state (s_tasks (after 2 join_run) 2) = Blocked /\ NoDup (pool 2 (view (after 2 join_run))).
Proof.
  split; [vm_compute; reflexivity|].
  exact (proj1 (proj2 (sched_one_place 2 (after 2 join_run) ltac:(lia) ltac:(vm_compute; reflexivity)
    (after_reachable 2 join_run ltac:(vm_compute; reflexivity))))).
Defined.



(** C16: No task is lost: a blocked task is in a wait queue, or the timer event with
    its current ticket is still in the timer list of some CPU. *)
Theorem sched_no_lost_task SMP s t :
  (0 < SMP)%nat -> Z.of_nat SMP < USIZE -> rtc (step SMP) (init SMP) s ->
  t_state (s_tasks s t) = Blocked ->
  (exists w, t ∈ s_wqs s w) \/
  (exists c d, (c < SMP)%nat /\ (d, t_ticket (s_tasks s t), t) ∈ c_timers (s_cpus s c)).
Proof.
  intros HS H64 Hr Hb. by apply (inv_wake _ _ _ (reachable_inv SMP HS s H64 Hr)).
Qed.

Definition sleep_run : list event := [EOp 0 3 (OSleep 10); EExec 0 3 false; EExec 0 3 false].
Lemma sched_no_lost_task_witness :
  (exists w, 2 ∈ s_wqs (after 2 sleep_run) w) \/
  (exists c d, (c < 2)%nat /\ (d, t_ticket (s_tasks (after 2 sleep_run) 2), 2) ∈ c_timers (s_cpus (after 2 sleep_run) c)).
Proof.
  apply (sched_no_lost_task 2 (after 2 sleep_run) 2);
    [lia|vm_compute; reflexivity|apply after_reachable; vm_compute; reflexivity|vm_compute; reflexivity].
Defined.

(** No joiner is forgotten: while a task waits in [join] on a task that has
    exited, some CPU is still running that exit and has its [notify_all] ahead. *)
Theorem sched_join_notified SMP s t u :
  (0 < SMP)%nat -> Z.of_nat SMP < USIZE -> rtc (step SMP) (init SMP) s ->
  t_state (s_tasks s t) = Exited -> u ∈ s_wqs s (WJoin t) ->
  exists c, (c < SMP)%nat /\ cur s c = t /\ notifying t (c_pc (s_cpus s c)) = true.
Proof.
  intros HS H64 Hr He Hu. destruct (inv_join _ _ _ (reachable_inv SMP HS s H64 Hr) t He) as [E|]; [|done].
  rewrite E in Hu. by apply elem_of_nil in Hu.
Qed.

Lemma sched_join_notified_witness :
  exists c, (c < 2)%nat /\ cur (after 2 join_run) c = 5 /\
    notifying 5 (c_pc (s_cpus (after 2 join_run) c)) = true.
Proof.
  apply (sched_join_notified 2 (after 2 join_run) 5 2);
    [lia|vm_compute; reflexivity|apply after_reachable; vm_compute; reflexivity|vm_compute; reflexivity|].
  apply list_elem_of_In. vm_compute. by left.
Defined.

(** The spin on [on_cpu] in [put_task_with_state] does not deadlock: the task
    waited for is being switched out by another CPU, whose next action is the
    [resched] or the [clear_prev_task_on_cpu] of that switch and does not wait. *)
Theorem sched_spin_ends SMP s c t q rest :
  (0 < SMP)%nat -> Z.of_nat SMP < USIZE -> rtc (step SMP) (init SMP) s -> (c < SMP)%nat ->
  c_pc (s_cpus s c) = APut t q :: rest -> t_on_cpu (s_tasks s t) = true ->
  exists c', (c' < SMP)%nat /\ c' <> c /\
    ((cur s c' = t /\ exists l, c_pc (s_cpus s c') = AResched :: l) \/
     (c_prev (s_cpus s c') = t /\ exists l, c_pc (s_cpus s c') = AClear :: l)).
Proof.
  intros HS H64 Hr Hc Hpc Ho. pose proof (reachable_inv SMP HS s H64 Hr) as H.
  pose proof (inv_core _ _ _ H) as Hcore.
  assert (t ∈ pool SMP (view s)) as [Hs Hi]%(core_pool _ _ Hcore).
  { apply pool_in. exists c. split; [done|]. right. cbn. rewrite Hpc. by left. }
  cbn in Hs, Hi. apply (core_busy _ _ Hcore), busy_in in Ho as (c' & Hc' & [Heq|Hcl]); cbn in *.
  - subst t. exists c'. split; [done|].
    assert (pend (c_pc (s_cpus s c')) = true) as Hp.
    { destruct (pend _) eqn:Hp; [done|]. pose proof (core_run _ _ Hcore c' Hc' Hp) as E. cbn in E. congruence. }
    assert (early (c_pc (s_cpus s c')) = false) as He.
    { destruct (early _) eqn:He; [|done]. pose proof (inv_exit _ _ _ H c' Hc' He) as E.
      unfold curr_task, cur in E. congruence. }
    assert (exists l, c_pc (s_cpus s c') = AResched :: l) as [l Hl].
    { by apply pend_now. }
    split; [congruence|]. left. eauto.
  - unfold clearing in Hcl. destruct (c_pc (s_cpus s c')) as [|[] l] eqn:E; try done. injection Hcl as <-.
    exists c'. split; [done|]. split; [congruence|]. right. eauto.
Qed.

(** Tasks 2 and 5 share a queue; 5, running on CPU 1, notifies the main task 2 while
    CPU 0 has blocked it and not switched yet. *)
Definition spin_run : list event :=
  [EOp 1 0 OYield; EExec 1 0 false; EExec 1 0 false; EOp 0 0 (OWait (WOther 1)); EExec 0 0 false;
   EOp 1 0 (ONotifyOne (WOther 1)); EExec 1 0 false].
Lemma sched_spin_ends_witness :
  exists c', (c' < 2)%nat /\ c' <> 1%nat /\
    ((cur (after 2 spin_run) c' = 2 /\ exists l, c_pc (s_cpus (after 2 spin_run) c') = AResched :: l) \/
     (c_prev (s_cpus (after 2 spin_run) c') = 2 /\ exists l, c_pc (s_cpus (after 2 spin_run) c') = AClear :: l)).
Proof.
  apply (sched_spin_ends 2 (after 2 spin_run) 1 2 0 []);
    [lia|vm_compute; reflexivity|apply after_reachable; vm_compute; reflexivity|lia|vm_compute; reflexivity..].
Defined.

(** [exit_current] marks the task as exited before it stores its exit code, so a
    [join] on another CPU can return in between and read the old code: in this
    run task 5 exits with code 7, the join of the main task has returned, and
    the code it reads is 0. *)
Example join_reads_stale_code :
  let es := [EOp 1 0 OYield; EExec 1 0 false; EExec 1 0 false; EOp 1 0 (OExit 7);
             EOp 0 0 (join 5); EExec 0 0 false; EExec 0 0 false] in
  runs 2 es = true /\
  c_pc (s_cpus (after 2 es) 0) = [] /\
  t_state (s_tasks (after 2 es) 5) = Exited /\ t_code (s_tasks (after 2 es) 5) = 0 /\
  match run 2 (replicate 1 (EExec 1 0 false)) (after 2 es) with
  | Some s => t_code (s_tasks s 5) = 7
  | None => False
  end.
Proof. repeat split; vm_compute; reflexivity. Qed.

(** The run queues are first-in first-out: a task at position [k] of a run queue
    keeps its place, advances by one, or, from the front, becomes current there;
    no step overtakes it or drops it. *)
Theorem sched_fifo SMP s s' c k t :
  step SMP s s' -> c_rq (s_cpus s c) !! k = Some t ->
  c_rq (s_cpus s' c) !! k = Some t \/
  (exists k', k = S k' /\ c_rq (s_cpus s' c) !! k' = Some t) \/
  (k = 0%nat /\ cur s' c = t).
Proof.
  intros [[l E]|E]%(step_rq _ _ _ c) Hk.
  - left. rewrite E. by apply lookup_app_l_Some.
  - right. rewrite E in Hk. destruct k as [|k]; [right|left]; [by injection Hk|eauto].
Qed.

Lemma sched_fifo_witness :
  exists s', step 2 (after 2 [EOp 1 0 OYield]) s' /\
    (c_rq (s_cpus s' 1) !! 0%nat = Some 5 \/
     (exists k', 0%nat = S k' /\ c_rq (s_cpus s' 1) !! k' = Some 5) \/
     (0%nat = 0%nat /\ cur s' 1 = 5)).
Proof.
  assert (step 2 (after 2 [EOp 1 0 OYield]) (after 2 [EOp 1 0 OYield; EExec 1 0 false])) as H.
  { apply (run1_step 2 (EExec 1 0 false)). vm_compute. reflexivity. }
  eexists. split; [exact H|]. apply (sched_fifo 2 _ _ 1 0 5 H). vm_compute. reflexivity.
Defined.
