(* ===== verification/Mutex.v ===== *)
(** The sleeping mutex (arceos/modules/axsync/src/mutex.rs) as a transition system
    over the tasks that use it, in steps of one atomic access or one critical
    section of its wait queue. *)
From stdpp Require Import functions relations.
From S2P Require Import Prelude.

(** Where a task is with respect to the mutex. *)
Inductive mpc :=
| Out          (* not using it *)
| Cas          (* about to compare-and-exchange, in [lock] *)
| Wait         (* at the top of the loop of [wait_until], in [lock] *)
| Asleep       (* blocked in the wait queue *)
| Hold         (* owns a guard *)
| Notify.      (* about to call [notify_one], in [force_unlock] *)
#[export] Instance mpc_eq_dec : EqDecision mpc.
Proof. solve_decision. Defined.

(** [Mutex]: the owner (0 when unlocked) and the wait queue; and where the tasks are. *)
Record Mutex := mkMutex { owner_id : Z; wq : list Z; pc : Z -> mpc }.

Definition mutex_new : Mutex := mkMutex 0 [] (fun _ => Out).

Definition set_mpc (t : Z) (p : mpc) (m : Mutex) : Mutex :=
  mkMutex (owner_id m) (wq m) (<[t := p]> (pc m)).

Definition is_locked (m : Mutex) : bool := negb (owner_id m =? 0).

(** One round of the loop of [lock] up to the wait; a weak compare-and-exchange may
    fail on an unlocked mutex ([spurious]). *)
Definition lock_cas (t : Z) (spurious : bool) (m : Mutex) : outcome Mutex :=
  if (owner_id m =? 0) && negb spurious then Ret (mkMutex t (wq m) (<[t := Hold]> (pc m)))
  else if owner_id m =? t then Panic
  else Ret (set_mpc t Wait m).

(** One round of [wait_until(|| !self.is_locked())]. *)
Definition lock_wait (t : Z) (m : Mutex) : Mutex :=
  if negb (is_locked m) then set_mpc t Cas m
  else mkMutex (owner_id m) (wq m ++ [t]) (<[t := Asleep]> (pc m)).

(** [try_lock]: whether the lock was taken. *)
Definition try_lock (t : Z) (m : Mutex) : bool * Mutex :=
  if owner_id m =? 0 then (true, mkMutex t (wq m) (<[t := Hold]> (pc m))) else (false, m).

(** [force_unlock] up to its notification. The swap comes before the assertion. *)
Definition unlock_swap (t : Z) (m : Mutex) : outcome Mutex :=
  if owner_id m =? t then Ret (mkMutex 0 (wq m) (<[t := Notify]> (pc m))) else Panic.

(** [notify_one] of the queue: the first sleeper goes back to its [wait_until]. *)
Definition unlock_notify (t : Z) (m : Mutex) : Mutex :=
  match wq m with
  | [] => set_mpc t Out m
  | u :: l => set_mpc t Out (mkMutex (owner_id m) l (<[u := Wait]> (pc m)))
  end.

(** The next step of task [t]. *)
Definition mutex_step (t : Z) (spurious : bool) (m : Mutex) : outcome Mutex :=
  match pc m t with
  | Out => Ret (set_mpc t Cas m)                       (* calls [lock] *)
  | Cas => lock_cas t spurious m
  | Wait => Ret (lock_wait t m)
  | Asleep => Ret m
  | Hold => unlock_swap t m                            (* drops its guard *)
  | Notify => Ret (unlock_notify t m)
  end.

Inductive mstep (m : Mutex) : Mutex -> Prop :=
| mstep_run t spurious m' : 0 < t -> mutex_step t spurious m = Ret m' -> mstep m m'
| mstep_try t : 0 < t -> pc m t = Out -> mstep m (try_lock t m).2.

(** The invariant: the owner is the one holder; the queue is the sleepers; and
    sleepers are not forgotten. *)
Definition active (p : mpc) : bool := match p with Cas | Wait | Notify => true | _ => false end.
Record mutex_inv (m : Mutex) : Prop := mkMutexInv {
  mi_hold : forall t, pc m t = Hold <-> 0 < t /\ owner_id m = t;
  mi_owner : 0 <= owner_id m;
  mi_wq : forall t, t ∈ wq m <-> pc m t = Asleep;
  mi_nodup : NoDup (wq m);
  mi_pos : forall t, pc m t <> Out -> 0 < t;
  mi_wake : wq m <> [] -> owner_id m <> 0 \/ exists t, active (pc m t) = true;
}.

Lemma mutex_new_inv : mutex_inv mutex_new.
Proof.
  constructor; cbn; try done; try lia.
  - intros t. split; [done|lia].
  - intros t. rewrite elem_of_nil. done.
  - constructor.
Qed.

Ltac mx := cbn in *; rewrite ?fn_lookup_insert in *; unfold insert, fn_insert in *; repeat case_decide; subst; cbn in *.

(** A change of the place of one task that is not asleep, and does not fall asleep or
    take or release the lock. *)
Lemma set_mpc_inv t p m :
  mutex_inv m -> 0 < t -> p <> Hold -> p <> Asleep -> pc m t <> Hold -> pc m t <> Asleep ->
  (wq m <> [] -> owner_id m <> 0 \/ active p = true \/ exists u, u <> t /\ active (pc m u) = true) ->
  mutex_inv (set_mpc t p m).
Proof.
  intros [H1 H2 H3 H4 H5 H6] Ht Hp1 Hp2 Hh Ha Hw. constructor; try done.
  - intros u. specialize (H1 u). mx; naive_solver.
  - intros u. specialize (H3 u). mx; naive_solver.
  - intros u. specialize (H5 u). mx; naive_solver.
  - intros Hne. destruct (Hw Hne) as [|[Hp|(u & Hu & Hact)]]; [by left|right|right].
    + exists t. by mx.
    + exists u. by mx.
Qed.

Lemma take_inv t m :
  mutex_inv m -> 0 < t -> owner_id m = 0 -> pc m t <> Asleep ->
  mutex_inv (mkMutex t (wq m) (<[t := Hold]> (pc m))).
Proof.
  intros [H1 H2 H3 H4 H5 H6] Ht Ho Ha. constructor; cbn; try done; try lia.
  - intros u. specialize (H1 u). mx; split; try done; try lia. intros Hh. apply H1 in Hh. lia.
  - intros u. specialize (H3 u). mx; naive_solver.
  - intros u. specialize (H5 u). mx; naive_solver.
Qed.

Lemma lock_wait_inv t m : mutex_inv m -> 0 < t -> pc m t = Wait -> mutex_inv (lock_wait t m).
Proof.
  intros H Ht Hp. unfold lock_wait, is_locked. destruct (Z.eqb_spec (owner_id m) 0) as [E|E]; cbn [negb].
  - apply set_mpc_inv; try done; try congruence. auto.
  - destruct H as [H1 H2 H3 H4 H5 H6]. constructor; cbn; try done; try lia.
    + intros u. specialize (H1 u). mx; naive_solver congruence.
    + intros u. specialize (H3 u). rewrite elem_of_app, list_elem_of_singleton. mx; naive_solver.
    + apply NoDup_app. split; [done|]. split; [|apply NoDup_singleton].
      intros u Hu ->%list_elem_of_singleton. apply H3 in Hu. congruence.
    + intros u. specialize (H5 u). mx; naive_solver.
Qed.

Lemma notify_inv t m : mutex_inv m -> 0 < t -> pc m t = Notify -> mutex_inv (unlock_notify t m).
Proof.
  intros H Ht Hp. unfold unlock_notify. destruct (wq m) as [|u l] eqn:Hwq.
  - apply set_mpc_inv; try done; try congruence.
  - assert (pc m u = Asleep) as Hu. { apply (mi_wq m H). rewrite Hwq. by left. }
    assert (mutex_inv (mkMutex (owner_id m) l (<[u := Wait]> (pc m)))) as H'.
    { destruct H as [H1 H2 H3 H4 H5 H6]. rewrite Hwq in *. apply NoDup_cons in H4 as [Hn H4].
      constructor; cbn; try done.
      - intros v. specialize (H1 v). mx; naive_solver congruence.
      - intros v. specialize (H3 v). rewrite elem_of_cons in H3. mx; naive_solver congruence.
      - intros v. specialize (H5 v). mx; naive_solver congruence.
      - intros _. right. exists u. by mx. }
    assert (u <> t) by congruence.
    apply set_mpc_inv; try done; cbn; rewrite ?fn_lookup_insert_ne by done; try congruence.
    intros _. right. right. exists u. rewrite fn_lookup_insert. done.
Qed.

Lemma unlock_inv t m :
  mutex_inv m -> 0 < t -> owner_id m = t -> pc m t = Hold ->
  mutex_inv (mkMutex 0 (wq m) (<[t := Notify]> (pc m))).
Proof.
  intros [H1 H2 H3 H4 H5 H6] Ht Ho Hp. constructor; cbn; try done.
  - intros u. specialize (H1 u). mx; split; try done; try lia. intros Hh. apply H1 in Hh. lia.
  - intros u. specialize (H3 u). mx; naive_solver congruence.
  - intros u. specialize (H5 u). mx; naive_solver.
  - intros _. right. exists t. by mx.
Qed.

(** No task that follows the protocol ([lock], then drop the guard) panics. *)
Lemma mutex_step_ok t sp m :
  mutex_inv m -> 0 < t -> exists m', mutex_step t sp m = Ret m' /\ mutex_inv m'.
Proof.
  intros H Ht. unfold mutex_step. destruct (pc m t) eqn:Hp.
  - eexists. split; [done|]. apply set_mpc_inv; try done; try congruence. auto.
  - unfold lock_cas. destruct (Z.eqb_spec (owner_id m) 0) as [Ho|Ho]; cbn [andb].
    + destruct sp; cbn [negb].
      * destruct (Z.eqb_spec (owner_id m) t); [lia|]. eexists. split; [done|].
        apply set_mpc_inv; try done; try congruence. auto.
      * eexists. split; [done|]. apply take_inv; try done. congruence.
    + destruct (Z.eqb_spec (owner_id m) t) as [Heq|Heq].
      * assert (pc m t = Hold) by (by apply (mi_hold m H)). congruence.
      * eexists. split; [done|]. apply set_mpc_inv; try done; try congruence. auto.
  - eexists. split; [done|]. by apply lock_wait_inv.
  - by exists m.
  - assert (owner_id m = t) as Ho by (by apply (mi_hold m H)).
    unfold unlock_swap. rewrite Ho, Z.eqb_refl. eexists. split; [done|]. by apply unlock_inv.
  - eexists. split; [done|]. by apply notify_inv.
Qed.

Lemma mstep_inv m m' : mutex_inv m -> mstep m m' -> mutex_inv m'.
Proof.
  intros H [t sp m1 Ht Hs|t Ht Hp].
  - destruct (mutex_step_ok t sp m H Ht) as (m2 & E & H2). congruence.
  - unfold try_lock. destruct (Z.eqb_spec (owner_id m) 0); [|done]. apply take_inv; try done. congruence.
Qed.

Lemma mutex_reachable m : rtc mstep mutex_new m -> mutex_inv m.
Proof.
  intros Hr. remember mutex_new as m0 eqn:E. assert (mutex_inv m0) as H by (subst; apply mutex_new_inv).
  clear E. induction Hr as [|m0 m1 m2 Hs _ IH]; [done|]. apply IH. by eapply mstep_inv.
Qed.

(** A run in which task 1 takes the lock, task 2 falls asleep on it, and task 1
    releases it. *)
Definition steps (l : list Z) (m : Mutex) : Mutex :=
  foldl (fun m t => match mutex_step t false m with Ret m' => m' | Panic => m end) m l.
Lemma steps_reachable l m : Forall (fun t => 0 < t) l -> mutex_inv m -> rtc mstep m (steps l m).
Proof.
  intros Hl. revert m. induction Hl as [|t l Ht Hl IH]; intros m Hm; [done|]. cbn.
  destruct (mutex_step_ok t false m Hm Ht) as (m' & E & Hm'). rewrite E.
  eapply rtc_l; [|by apply IH]. by eapply mstep_run.
Qed.
Definition demo_sleep : Mutex := steps [1; 1; 2; 2; 2] mutex_new.
Definition demo_release : Mutex := steps [1; 1; 2; 2; 2; 1] mutex_new.
Lemma demo_sleep_reachable : rtc mstep mutex_new demo_sleep.
Proof. apply steps_reachable; [repeat constructor|apply mutex_new_inv]. Qed.
Lemma demo_release_reachable : rtc mstep mutex_new demo_release.
Proof. apply steps_reachable; [repeat constructor|apply mutex_new_inv]. Qed.

(** C17: Mutual exclusion: two tasks never hold the guard at the same time, and the
    owner field names the holder. *)
Theorem mutex_exclusive m t u :
  rtc mstep mutex_new m -> pc m t = Hold -> pc m u = Hold -> t = u /\ owner_id m = t.
Proof.
  intros H%mutex_reachable [_ Ht]%(mi_hold m H) [_ Hu]%(mi_hold m H). split; congruence.
Qed.

Lemma mutex_exclusive_witness : 1 = 1 /\ owner_id demo_sleep = 1.
Proof. apply (mutex_exclusive demo_sleep 1 1 demo_sleep_reachable); reflexivity. Defined.

(** C38: No lost wake-up: whenever a task sleeps on the mutex, either the mutex is
    held by a task that will release it, or some task is in the middle of
    [lock] or of the notification of [force_unlock] and will run. *)
Theorem mutex_no_lost_wakeup m t :
  rtc mstep mutex_new m -> pc m t = Asleep ->
  pc m (owner_id m) = Hold \/ exists u, u <> t /\ active (pc m u) = true.
Proof.
  intros H%mutex_reachable Ht. pose proof Ht as Hin. apply (mi_wq m H) in Hin.
  destruct (mi_wake m H) as [Ho|(u & Hu)].
  - intros E. rewrite E in Hin. by apply elem_of_nil in Hin.
  - left. apply (mi_hold m H). pose proof (mi_owner m H). lia.
  - right. exists u. split; [|done]. intros ->. by rewrite Ht in Hu.
Qed.

Lemma mutex_no_lost_wakeup_witness :
  pc demo_release (owner_id demo_release) = Hold \/ exists u, u <> 2 /\ active (pc demo_release u) = true.
Proof. apply (mutex_no_lost_wakeup demo_release 2 demo_release_reachable). reflexivity. Defined.

(** Tasks that lock and release in turn never hit the assertions of the mutex;
    but a task that locks a mutex it already holds panics. *)
Theorem mutex_panics m t sp :
  rtc mstep mutex_new m -> 0 < t ->
  mutex_step t sp m <> Panic /\ (pc m t = Hold -> lock_cas t sp m = Panic).
Proof.
  intros H%mutex_reachable Ht. split.
  - destruct (mutex_step_ok t sp m H Ht) as (m' & -> & _). done.
  - intros [_ Ho]%(mi_hold m H). unfold lock_cas. rewrite Ho, Z.eqb_refl.
    destruct (Z.eqb_spec t 0); [lia|done].
Qed.

Lemma mutex_panics_witness : lock_cas 1 false demo_sleep = Panic.
Proof. apply (mutex_panics demo_sleep 1 false demo_sleep_reachable); [lia|reflexivity]. Defined.

(** [force_unlock] wakes one waiter, the first, although the documentation of the
    type says that all waiting tasks are woken. *)
Theorem unlock_wakes_one m t u l :
  wq m = u :: l -> u <> t -> NoDup (wq m) ->
  wq (unlock_notify t m) = l /\ pc (unlock_notify t m) u = Wait /\
  forall v, v ∈ l -> v <> t -> pc (unlock_notify t m) v = pc m v.
Proof.
  intros Hw Hu Hnd. rewrite Hw in Hnd. apply NoDup_cons in Hnd as [Hn _].
  unfold unlock_notify. rewrite Hw. cbn. split; [done|]. split.
  - rewrite fn_lookup_insert_ne by done. by rewrite fn_lookup_insert.
  - intros v Hv Hvt. rewrite fn_lookup_insert_ne by done.
    rewrite fn_lookup_insert_ne; [done|]. by intros ->.
Qed.

Lemma unlock_wakes_one_witness :
  let m := steps [1; 1; 2; 2; 2; 3; 3; 3; 1] mutex_new in
  wq m = [2; 3] /\ wq (unlock_notify 1 m) = [3].
Proof.
  intros m. split; [reflexivity|].
  apply (unlock_wakes_one m 1 2 [3]); [reflexivity|lia|].
  cbn. apply NoDup_cons. split; [|apply NoDup_singleton]. intros H%list_elem_of_singleton. lia.
Defined.
