(* ===== verification/Pthread.v ===== *)
(** POSIX threads (arceos/api/arceos_posix_api/src/imp/pthread): the [Pthread] objects, the
    map from task identifiers to them, [pthread_create], [pthread_self], [pthread_exit] and
    [pthread_join] as steps of the threads of a program, and the mutex calls over the
    mutex of axsync. A pointer to an object that has been freed is not followed: the
    steps give [Panic] there. *)
From stdpp Require Import functions.
From S2P Require Import Prelude.
From S2P Require Import Errno.
From S2P Require Import Mutex.

(** * Threads *)

(** A [Pthread] behind its pointer: the task and the packet for its result. *)
Record Pthread := mkPth { th_inner : nat; th_retval : nat }.
(** A task: the packet that its closure writes, and whether it has ended. *)
Record PTask := mkPTask { tk_packet : nat; tk_exited : bool }.

(** The objects by pointer, [TID_TO_PTHREAD], the packets, the tasks, and the next
    number for a task, a packet or an object. *)
Record PthSt := mkPt {
  pt_box : gmap nat Pthread;
  pt_map : gmap nat nat;
  pt_packet : gmap nat Z;
  pt_task : gmap nat PTask;
  pt_next : nat;
}.
(** The main thread, task 1, whose object is made at the first use of the map. *)
Definition pt_init : PthSt :=
  mkPt {[1%nat := mkPth 1 1]} {[1%nat := 1%nat]} {[1%nat := 0]} {[1%nat := mkPTask 1 false]} 2.

(** [create] up to the return of [spawn]: the packet and the task, and the task is ready
    to run. *)
Definition create_spawn (st : PthSt) : nat * PthSt :=
  let t := pt_next st in
  (t, mkPt (pt_box st) (pt_map st) (<[t := 0]> (pt_packet st)) (<[t := mkPTask t false]> (pt_task st)) (S t)).
(** The rest of [create]: the object and its entry in the map. *)
Definition create_insert (t : nat) (st : PthSt) : nat * PthSt :=
  (t, mkPt (<[t := mkPth t t]> (pt_box st)) (<[t := t]> (pt_map st)) (pt_packet st) (pt_task st) (pt_next st)).
Definition pt_create (st : PthSt) : nat * PthSt := let '(t, st') := create_spawn st in create_insert t st'.

(** [current_ptr]; [sys_pthread_self]: the [expect]. *)
Definition current_ptr (cur : nat) (st : PthSt) : option nat := pt_map st !! cur.
Definition pthread_self (cur : nat) (st : PthSt) : outcome nat :=
  match current_ptr cur st with Some b => Ret b | None => Panic end.

Definition end_task (t : nat) (q : nat) (v : Z) (st : PthSt) : PthSt :=
  mkPt (pt_box st) (pt_map st) (<[q := v]> (pt_packet st))
    (alter (fun k => mkPTask (tk_packet k) true) t (pt_task st)) (pt_next st).
(** [exit_current]. *)
Definition pt_exit_current (cur : nat) (v : Z) (st : PthSt) : outcome PthSt :=
  match current_ptr cur st with
  | None => Panic
  | Some b => match pt_box st !! b with Some th => Ret (end_task cur (th_retval th) v st) | None => Panic end
  end.
(** The end of the closure of a thread: its function returned [v]. *)
Definition thread_return (cur : nat) (v : Z) (st : PthSt) : outcome PthSt :=
  match pt_task st !! cur with Some k => Ret (end_task cur (tk_packet k) v st) | None => Panic end.

(** [join] by [cur]; [None] while the thread has not ended. *)
Definition pt_join (cur : nat) (b : nat) (st : PthSt) : option (outcome (result Z LinuxError * PthSt)) :=
  if bool_decide (current_ptr cur st = Some b) then Some (Ret (Err EDEADLK, st)) else
  match pt_box st !! b with
  | None => Some Panic
  | Some th =>
      match pt_task st !! th_inner th with
      | None => Some Panic
      | Some k =>
          if tk_exited k then
            match pt_packet st !! th_retval th with
            | Some v => Some (Ret (Ok v, mkPt (delete b (pt_box st)) (delete (th_inner th) (pt_map st)) (pt_packet st) (pt_task st) (pt_next st)))
            | None => Some Panic
            end
          else None
      end
  end.
(** [sys_pthread_join]: the result and the value that is stored through [retval]. *)
Definition sys_pthread_join (cur b : nat) (retval : Z) (st : PthSt) : option (outcome (Z * option Z * PthSt)) :=
  match pt_join cur b st with
  | None => None
  | Some Panic => Some Panic
  | Some (Ret (Err e, st')) => Some (Ret (syscall_body as_i32 (Err e), None, st'))
  | Some (Ret (Ok v, st')) => Some (Ret (syscall_body as_i32 (Ok 0), if retval =? 0 then None else Some v, st'))
  end.

(** * Programs of threads *)

(** A step of thread [cur]. [pthread_create] is one step, or two when other tasks run in
    between: a second CPU, or preemption. *)
Inductive pth_step :=
| PCreate (cur : nat)
| PSpawn (cur : nat)
| PInsert (cur t : nat)
| PSelf (cur : nat)
| PExit (cur : nat) (v : Z)
| PReturn (cur : nat) (v : Z)
| PJoin (cur b : nat).
Definition by_task (s : pth_step) : nat :=
  match s with PCreate c | PSpawn c | PInsert c _ | PSelf c | PExit c _ | PReturn c _ | PJoin c _ => c end.
Definition runs (t : nat) (st : PthSt) : bool :=
  match pt_task st !! t with Some k => negb (tk_exited k) | None => false end.

(** The step, and what a [join] returned; a task that has ended takes no step. *)
Definition do_step (s : pth_step) (st : PthSt) : outcome (option Z * PthSt) :=
  if negb (runs (by_task s) st) then Ret (None, st) else
  match s with
  | PCreate _ => Ret (None, snd (pt_create st))
  | PSpawn _ => Ret (None, snd (create_spawn st))
  | PInsert _ t => Ret (None, snd (create_insert t st))
  | PSelf cur => match pthread_self cur st with Ret _ => Ret (None, st) | Panic => Panic end
  | PExit cur v => match pt_exit_current cur v st with Ret st' => Ret (None, st') | Panic => Panic end
  | PReturn cur v => match thread_return cur v st with Ret st' => Ret (None, st') | Panic => Panic end
  | PJoin cur b =>
      match pt_join cur b st with
      | None => Ret (None, st)
      | Some Panic => Panic
      | Some (Ret (r, st')) => Ret (match r with Ok v => Some v | Err _ => None end, st')
      end
  end.

(** The value a thread has ended with, in the steps taken so far. *)
Definition ended_step (s : pth_step) (st : PthSt) (g : gmap nat Z) : gmap nat Z :=
  if negb (runs (by_task s) st) then g else
  match s with PExit cur v | PReturn cur v => <[cur := v]> g | _ => g end.
(** The values of the joins, with the thread joined, and the end values. *)
Fixpoint run_steps (ss : list pth_step) (st : PthSt) (g : gmap nat Z) : outcome (list (nat * Z) * PthSt * gmap nat Z) :=
  match ss with
  | [] => Ret ([], st, g)
  | s :: ss' =>
      match do_step s st with
      | Panic => Panic
      | Ret (r, st') =>
          match run_steps ss' st' (ended_step s st g) with
          | Panic => Panic
          | Ret (js, st2, g2) => Ret (match s, r with PJoin _ b, Some v => (b, v) :: js | _, _ => js end, st2, g2)
          end
      end
  end.

(** [pthread_create] is not interrupted. *)
Definition atomic_create (s : pth_step) : bool := match s with PSpawn _ | PInsert _ _ => false | _ => true end.

(** * Joins return the value of the thread *)

(** The objects and the map agree; a task that runs is in the map; an ended task has left
    its value in its packet; and an object is there until its thread is joined ([js] are
    the joins so far). *)
Record pth_inv (st : PthSt) (g : gmap nat Z) (js : list (nat * Z)) : Prop := {
  pv_box : forall b th, pt_box st !! b = Some th -> th = mkPth b b /\ is_Some (pt_task st !! b);
  pv_map : forall t b, pt_map st !! t = Some b <-> b = t /\ is_Some (pt_box st !! t);
  pv_task : forall t k, pt_task st !! t = Some k -> tk_packet k = t /\ (t < pt_next st)%nat /\ is_Some (pt_packet st !! t);
  pv_live : forall t k, pt_task st !! t = Some k -> tk_exited k = false -> is_Some (pt_box st !! t);
  pv_end : forall t k, pt_task st !! t = Some k -> tk_exited k = true -> exists v, pt_packet st !! t = Some v /\ g !! t = Some v;
  pv_join : forall t v, (t, v) ∈ js -> g !! t = Some v /\ exists k, pt_task st !! t = Some k /\ tk_exited k = true;
  pv_box_join : forall t, is_Some (pt_task st !! t) -> is_Some (pt_box st !! t) \/ t ∈ js.*1;
}.

Lemma pth_init_inv : pth_inv pt_init ∅ [].
Proof.
  split; unfold pt_init; cbn [pt_box pt_map pt_packet pt_task pt_next].
  - intros b th Hb. apply lookup_singleton_Some in Hb as [<- <-]. split; [done|]. rewrite lookup_singleton_eq. by eexists.
  - intros t b. destruct (decide (t = 1%nat)) as [->|]; simplify_map_eq.
    + split; [intros [= <-]; split; [done|by eexists]|by intros [-> _]].
    + split; [done|by intros [_ []]].
  - intros t k Hk. apply lookup_singleton_Some in Hk as [<- <-]. rewrite lookup_singleton_eq. cbn. split; [done|]. split; [lia|by eexists].
  - intros t k Hk _. apply lookup_singleton_Some in Hk as [<- <-]. rewrite lookup_singleton_eq. by eexists.
  - intros t k Hk He. apply lookup_singleton_Some in Hk as [<- <-]. done.
  - intros t v []%elem_of_nil.
  - intros t [k Hk]. left. apply lookup_singleton_Some in Hk as [<- _]. rewrite lookup_singleton_eq. by eexists.
Qed.

Lemma create_inv st g js : pth_inv st g js -> pth_inv (snd (pt_create st)) g js.
Proof.
  intros [Ib Im It Il Ie Ij Ix]. unfold pt_create, create_spawn, create_insert. cbn [snd pt_box pt_map pt_packet pt_task pt_next].
  set (t0 := pt_next st). assert (Hn : forall k, pt_task st !! t0 <> Some k) by (intros k Hk; destruct (It _ _ Hk); unfold t0 in *; lia).
  split; cbn [pt_box pt_map pt_packet pt_task pt_next].
  - intros b th Hb. destruct (decide (b = t0)) as [->|]; simplify_map_eq; [split; [done|by eexists]|]. by apply Ib.
  - intros t b. destruct (decide (t = t0)) as [->|]; simplify_map_eq; [|apply Im]. split; [intros [= <-]; split; [done|by eexists]|by intros [-> _]].
  - intros t k Hk. destruct (decide (t = t0)) as [->|]; simplify_map_eq.
    { cbn. rewrite ?lookup_insert_eq. split; [done|]. split; [lia|]. by eexists. }
    destruct (It t k Hk) as (? & ? & ?). split; [done|]. split; [lia|done].
  - intros t k Hk He. destruct (decide (t = t0)) as [->|]; simplify_map_eq; [by eexists|]. by eapply Il.
  - intros t k Hk He. destruct (decide (t = t0)) as [->|]; simplify_map_eq. by eapply Ie.
  - intros t v Hin. destruct (Ij t v Hin) as (Hg & k & Hk & He). split; [done|]. exists k. split; [|done].
    rewrite lookup_insert_ne; [done|]. intros <-. by apply (Hn k).
  - intros t. destruct (decide (t = t0)) as [->|]; [left; simplify_map_eq; by eexists|]. rewrite !lookup_insert_ne by done. apply Ix.
Qed.

(** A thread ends with [v]. *)
Lemma end_inv st g js t k v :
  pth_inv st g js -> pt_task st !! t = Some k -> tk_exited k = false ->
  pth_inv (end_task t t v st) (<[t := v]> g) js.
Proof.
  intros [Ib Im It Il Ie Ij Ix] Hk He. unfold end_task. split; cbn [pt_box pt_map pt_packet pt_task pt_next].
  - intros b th Hb. destruct (Ib b th Hb) as [-> Hs]. split; [done|]. rewrite lookup_alter. case_decide; by rewrite ?fmap_is_Some.
  - done.
  - intros u k' Hu. rewrite lookup_alter in Hu. destruct (decide (t = u)) as [<-|Hne].
    + rewrite Hk in Hu. injection Hu as <-. destruct (It t k Hk) as (? & ? & ?). rewrite lookup_insert_eq. split; [done|]. split; [done|by eexists].
    + destruct (It u k' Hu) as (? & ? & ?). by rewrite lookup_insert_ne.
  - intros u k' Hu Hx. rewrite lookup_alter in Hu. destruct (decide (t = u)) as [<-|Hne]; [|by eapply Il].
    rewrite Hk in Hu. by injection Hu as <-.
  - intros u k' Hu Hx. rewrite lookup_alter in Hu. destruct (decide (t = u)) as [<-|Hne].
    + exists v. by rewrite !lookup_insert_eq.
    + rewrite !lookup_insert_ne by done. by eapply Ie.
  - intros u w Hin. destruct (Ij u w Hin) as (Hg & k' & Hu & Hx). assert (t <> u) by congruence.
    rewrite lookup_insert_ne by done. split; [done|]. exists k'. by rewrite lookup_alter_ne.
  - intros u Hu. apply Ix. destruct (decide (t = u)) as [<-|Hne]; [rewrite Hk; by eexists|by rewrite lookup_alter_ne in Hu].
Qed.

(** A join that returns. *)
Lemma join_inv st g js b k v :
  pth_inv st g js -> pt_task st !! b = Some k -> tk_exited k = true -> pt_packet st !! b = Some v ->
  pth_inv (mkPt (delete b (pt_box st)) (delete b (pt_map st)) (pt_packet st) (pt_task st) (pt_next st)) g ((b, v) :: js)
  /\ g !! b = Some v.
Proof.
  intros [Ib Im It Il Ie Ij Ix] Hk He Hv. assert (Hg : g !! b = Some v).
  { destruct (Ie b k Hk He) as (v' & Hv' & Hg). congruence. }
  split; [|done]. split; cbn [pt_box pt_map pt_packet pt_task pt_next].
  - intros b' th [_ Hb]%lookup_delete_Some. by apply Ib.
  - intros t b'. destruct (decide (t = b)) as [->|]; [|rewrite !lookup_delete_ne by done; apply Im].
    rewrite !lookup_delete_eq. split; [done|by intros [_ []]].
  - done.
  - intros t k' Ht Hx. rewrite lookup_delete_ne by congruence. by eapply Il.
  - done.
  - intros t w [[= -> ->]|Hin]%elem_of_cons; [|by apply Ij]. split; [done|]. by exists k.
  - intros t Ht. destruct (decide (t = b)) as [->|]; [right; left|]. rewrite lookup_delete_ne by done.
    destruct (Ix t Ht); [by left|right; by right].
Qed.

Definition joins_of (s : pth_step) (r : option Z) : list (nat * Z) :=
  match s, r with PJoin _ b, Some v => [(b, v)] | _, _ => [] end.
Lemma do_step_inv s st g js :
  pth_inv st g js -> atomic_create s = true ->
  match do_step s st with
  | Ret (r, st') => exists js', pth_inv st' (ended_step s st g) js' /\ js' ≡ₚ joins_of s r ++ js
  | Panic => exists cur b, s = PJoin cur b /\ (b ∈ js.*1 \/ pt_task st !! b = None)
  end.
Proof.
  intros I Ha. unfold do_step, ended_step. destruct (runs (by_task s) st) eqn:Hr; cbn [negb].
  2:{ exists js. split; [done|]. by destruct s. }
  unfold runs in Hr. destruct (pt_task st !! by_task s) as [k|] eqn:Hk; [|done]. apply negb_true_iff in Hr.
  destruct s as [cur|cur|cur t|cur|cur v|cur v|cur b]; try done; cbn [by_task] in Hk.
  - exists js. split; [by apply create_inv|done].
  - unfold pthread_self, current_ptr. destruct (pv_live _ _ _ I cur k Hk Hr) as [th Hb].
    rewrite (proj2 (pv_map _ _ _ I cur cur)) by (split; [done|by eexists]). by exists js.
  - unfold pt_exit_current, current_ptr. destruct (pv_live _ _ _ I cur k Hk Hr) as [th Hb].
    rewrite (proj2 (pv_map _ _ _ I cur cur)) by (split; [done|by eexists]). rewrite Hb. destruct (pv_box _ _ _ I cur th Hb) as [-> _].
    exists js. split; [by eapply end_inv|done].
  - unfold thread_return. rewrite Hk. destruct (pv_task _ _ _ I cur k Hk) as [-> _]. exists js. split; [by eapply end_inv|done].
  - unfold pt_join. case_bool_decide; [by exists js|]. destruct (pt_box st !! b) as [th|] eqn:Hb.
    2:{ exists cur, b. split; [done|]. destruct (pt_task st !! b) as [k'|] eqn:Hkb; [|by right].
        destruct (pv_box_join _ _ _ I b) as [[th Hth]|]; [by eexists|congruence|by left]. }
    destruct (pv_box _ _ _ I b th Hb) as [-> [k' Hk']]. cbn [th_inner th_retval]. rewrite Hk'.
    destruct (tk_exited k') eqn:Hx; [|by exists js]. destruct (pv_end _ _ _ I b k' Hk' Hx) as (v & Hv & _). rewrite Hv.
    destruct (join_inv st g js b k' v I Hk' Hx Hv) as [I' _]. by exists ((b, v) :: js).
Qed.

Lemma run_steps_inv ss st g js0 :
  pth_inv st g js0 -> Forall (fun s => atomic_create s = true) ss ->
  match run_steps ss st g with
  | Ret (js, st', g') => exists js', pth_inv st' g' js' /\ js' ≡ₚ js ++ js0
  | Panic => exists ss1 cur b ss2 js st' g', ss = ss1 ++ PJoin cur b :: ss2 /\ run_steps ss1 st g = Ret (js, st', g')
               /\ (b ∈ (js ++ js0).*1 \/ pt_task st' !! b = None)
  end.
Proof.
  revert st g js0. induction ss as [|s ss IH]; intros st g js0 I Hf; cbn [run_steps]; [by exists js0|].
  apply Forall_cons in Hf as [Hs Hf]. pose proof (do_step_inv s st g js0 I Hs) as Hd.
  destruct (do_step s st) as [[r st1]|] eqn:E.
  2:{ destruct Hd as (cur & b & -> & Hb). by exists [], cur, b, ss, [], st, g. }
  destruct Hd as (js1 & I1 & Hp1). specialize (IH st1 _ js1 I1 Hf). destruct (run_steps ss st1 _) as [[[js st2] g2]|] eqn:E2.
  - destruct IH as (js' & I' & Hp'). exists js'. split; [done|]. rewrite Hp', Hp1.
    destruct s; try done. destruct r; [|done]. cbn [joins_of app]. by rewrite Permutation_middle.
  - destruct IH as (ss1 & cur & b & ss2 & js & st' & g' & -> & Hr & Hb).
    exists (s :: ss1), cur, b, ss2. cbn [run_steps]. rewrite E, Hr.
    eexists _, st', g'. split; [done|]. split; [done|]. destruct Hb as [Hb|]; [left|by right].
    rewrite Hp1 in Hb. destruct s; try done. destruct r; [|done]. cbn [joins_of app] in Hb |- *.
    rewrite !fmap_app, fmap_cons in *. set_solver.
Qed.

(** C37: Threads that are created, exit, return and join each other in any order, when no other
    task runs inside [pthread_create]: a [join] that returns gives the value that its
    thread returned or passed to [pthread_exit], and nothing panics or follows a
    dangling pointer, except a join of a thread that was already joined or of a pointer
    that is no thread. *)
Theorem pthread_join_values ss :
  Forall (fun s => atomic_create s = true) ss ->
  match run_steps ss pt_init ∅ with
  | Ret (js, _, g) => forall t v, (t, v) ∈ js -> g !! t = Some v
  | Panic => exists ss1 cur b ss2 js st g, ss = ss1 ++ PJoin cur b :: ss2 /\ run_steps ss1 pt_init ∅ = Ret (js, st, g)
               /\ (b ∈ js.*1 \/ pt_task st !! b = None)
  end.
Proof.
  intros Hf. pose proof (run_steps_inv ss pt_init ∅ [] pth_init_inv Hf) as H.
  destruct (run_steps ss pt_init ∅) as [[[js st] g]|].
  - destruct H as (js' & I & Hp). intros t v Hin. apply (pv_join _ _ _ I). rewrite Hp, app_nil_r. done.
  - destruct H as (ss1 & cur & b & ss2 & js & st & g & H1 & H2 & H3). rewrite app_nil_r in H3. by exists ss1, cur, b, ss2, js, st, g.
Qed.

Module PthDemo.
Definition prog : list pth_step :=
  [PCreate 1; PCreate 1; PJoin 1 2; PSelf 2; PReturn 2 7; PJoin 1 2; PCreate 3; PExit 3 9; PJoin 4 3; PExit 4 5; PJoin 1 4].
End PthDemo.
Lemma pthread_join_values_witness :
  Forall (fun s => atomic_create s = true) PthDemo.prog
  /\ match run_steps PthDemo.prog pt_init ∅ with
     | Ret (js, _, g) => forall t v, (t, v) ∈ js -> g !! t = Some v
     | Panic => exists ss1 cur b ss2 js st g, PthDemo.prog = ss1 ++ PJoin cur b :: ss2
                  /\ run_steps ss1 pt_init ∅ = Ret (js, st, g) /\ (b ∈ js.*1 \/ pt_task st !! b = None)
     end
  /\ match run_steps PthDemo.prog pt_init ∅ with Ret (js, _, _) => js = [(2%nat, 7); (3%nat, 9); (4%nat, 5)] | Panic => False end.
Proof.
  assert (Hf : Forall (fun s => atomic_create s = true) PthDemo.prog) by (repeat constructor).
  split; [exact Hf|]. split; [|by vm_compute]. apply (pthread_join_values PthDemo.prog Hf).
Defined.

(** A thread that runs before its creator has entered it in the map cannot exit or ask for
    itself; a second join of a thread follows a pointer that is gone. *)
Example create_race_panics : run_steps [PSpawn 1; PSelf 2] pt_init ∅ = Panic /\ run_steps [PSpawn 1; PExit 2 7] pt_init ∅ = Panic.
Proof. done. Qed.
Example double_join_panics : run_steps [PCreate 1; PReturn 2 7; PJoin 1 2; PJoin 1 2] pt_init ∅ = Panic.
Proof. done. Qed.

(** * Mutex calls *)

(** The mutexes of a program by address; a thread in a call of [lock] or [unlock] is at
    its place in the mutex. *)
Definition Mutexes : Type := gmap Z Mutex.
Definition sys_pthread_mutex_init (mutex : Z) (ms : Mutexes) : Z * Mutexes :=
  if mutex =? 0 then (syscall_body as_i32 (Err EFAULT), ms)
  else (syscall_body as_i32 (Ok 0), <[mutex := mutex_new]> ms).
(** One step of [lock], with the result of the call once the thread holds the mutex; a
    thread that already holds it also starts with the compare-and-exchange. *)
Definition sys_pthread_mutex_lock (t mutex : Z) (spurious : bool) (ms : Mutexes) : outcome (option Z * Mutexes) :=
  if mutex =? 0 then Ret (Some (syscall_body as_i32 (Err EFAULT)), ms) else
  match ms !! mutex with
  | None => Panic
  | Some m =>
      match (match pc m t with
             | Wait => Ret (lock_wait t m)
             | Asleep => Ret m
             | _ => lock_cas t spurious m
             end) with
      | Panic => Panic
      | Ret m' => Ret (match pc m' t with Hold => Some (syscall_body as_i32 (Ok 0)) | _ => None end, <[mutex := m']> ms)
      end
  end.
(** The guard was forgotten, so that [unlock] is [force_unlock] by whoever calls it. *)
Definition sys_pthread_mutex_unlock (t mutex : Z) (ms : Mutexes) : outcome (Z * Mutexes) :=
  if mutex =? 0 then Ret (syscall_body as_i32 (Err EFAULT), ms) else
  match ms !! mutex with
  | None => Panic
  | Some m => match unlock_swap t m with
              | Panic => Panic
              | Ret m' => Ret (syscall_body as_i32 (Ok 0), <[mutex := unlock_notify t m']> ms)
              end
  end.

(** Locking a mutex one holds, or unlocking one that one does not hold, panics the kernel
    instead of failing. *)
Lemma pthread_mutex_misuse t u mutex m ms :
  mutex <> 0 -> ms !! mutex = Some m -> 0 < t -> owner_id m = t -> pc m t = Hold -> u <> t ->
  sys_pthread_mutex_lock t mutex false ms = Panic /\ sys_pthread_mutex_unlock u mutex ms = Panic.
Proof.
  intros Hz Hm Ht Ho Hp Hu. unfold sys_pthread_mutex_lock, sys_pthread_mutex_unlock, lock_cas, unlock_swap.
  rewrite (proj2 (Z.eqb_neq _ _) Hz), Hm, Hp, Ho, Z.eqb_refl. rewrite (proj2 (Z.eqb_neq t 0)) by lia.
  rewrite (proj2 (Z.eqb_neq t u)) by done. done.
Qed.
