(* ===== verification/TimeStat.v ===== *)
(** Time accounting of a process: [TimeStat] of src/src/ctypes.rs, its use by the
    system call handler, and [sys_times] (src/src/syscall_imp/utils/time.rs). *)
From S2P Require Import Prelude.

(** [TimerType] and its conversion from a [usize]. *)
Inductive TimerType := NONE | REAL | VIRTUAL | PROF.
#[export] Instance TimerType_eq_dec : EqDecision TimerType.
Proof. solve_decision. Defined.

Definition TimerType_from (num : Z) : TimerType :=
  let n := as_i32 num in
  if n =? 0 then REAL else if n =? 1 then VIRTUAL else if n =? 2 then PROF else NONE.

Record TimeStat := mkTimeStat {
  utime_ns : Z;
  stime_ns : Z;
  user_timestamp : Z;
  kernel_timestamp : Z;
  timer_type : TimerType;
  timer_interval_ns : Z;
  timer_remained_ns : Z;
}.

Definition ts_new : TimeStat := mkTimeStat 0 0 0 0 NONE 0 0.
Definition ts_output (t : TimeStat) : Z * Z := (utime_ns t, stime_ns t).
Definition ts_reset (now : Z) (t : TimeStat) : TimeStat :=
  mkTimeStat 0 0 0 now (timer_type t) (timer_interval_ns t) (timer_remained_ns t).

Definition update_timer (delta : Z) (t : TimeStat) : TimeStat :=
  if timer_remained_ns t =? 0 then t
  else if delta <? timer_remained_ns t
  then mkTimeStat (utime_ns t) (stime_ns t) (user_timestamp t) (kernel_timestamp t) (timer_type t)
         (timer_interval_ns t) (timer_remained_ns t -w delta)
  else t.

Definition switch_into_kernel_mode (now : Z) (t : TimeStat) : TimeStat :=
  let delta := now -w kernel_timestamp t in
  let t1 := mkTimeStat (utime_ns t +w delta) (stime_ns t) (user_timestamp t) now (timer_type t)
              (timer_interval_ns t) (timer_remained_ns t) in
  if decide (timer_type t <> NONE) then update_timer delta t1 else t1.

Definition switch_into_user_mode (now : Z) (t : TimeStat) : TimeStat :=
  let delta := now -w kernel_timestamp t in
  let t1 := mkTimeStat (utime_ns t) (stime_ns t +w delta) now (kernel_timestamp t) (timer_type t)
              (timer_interval_ns t) (timer_remained_ns t) in
  if decide (timer_type t = REAL \/ timer_type t = PROF) then update_timer delta t1 else t1.

Definition switch_from_old_task (now : Z) (t : TimeStat) : TimeStat :=
  let delta := now -w kernel_timestamp t in
  let t1 := mkTimeStat (utime_ns t) (stime_ns t +w delta) (user_timestamp t) now (timer_type t)
              (timer_interval_ns t) (timer_remained_ns t) in
  if decide (timer_type t = REAL \/ timer_type t = PROF) then update_timer delta t1 else t1.

Definition switch_to_new_task (now : Z) (t : TimeStat) : TimeStat :=
  let delta := now -w kernel_timestamp t in
  let t1 := mkTimeStat (utime_ns t) (stime_ns t) (user_timestamp t) now (timer_type t)
              (timer_interval_ns t) (timer_remained_ns t) in
  if decide (timer_type t = REAL) then update_timer delta t1 else t1.

Definition set_timer (interval remained ty : Z) (t : TimeStat) : bool * TimeStat :=
  let ty' := TimerType_from ty in
  (bool_decide (ty' <> NONE),
   mkTimeStat (utime_ns t) (stime_ns t) (user_timestamp t) (kernel_timestamp t) ty' interval remained).

(** [time_stat_output] of src/src/task.rs: seconds and microseconds of both. *)
Definition NANOS_PER_SEC : Z := 1000000000.
Definition NANOS_PER_MICROS : Z := 1000.
Definition time_stat_output (t : TimeStat) : Z * Z * Z * Z :=
  let '(utime, stime) := ts_output t in
  (utime / NANOS_PER_SEC, utime / NANOS_PER_MICROS, stime / NANOS_PER_SEC, stime / NANOS_PER_MICROS).

(** [Tms] and [sys_times]; [ticks] is [nanos_to_ticks(monotonic_time_nanos())]. *)
Record Tms := mkTms { tms_utime : Z; tms_stime : Z; tms_cutime : Z; tms_cstime : Z }.
Definition sys_times (ticks : Z) (t : TimeStat) : Z * Tms :=
  let '(_, utime_us, _, stime_us) := time_stat_output t in
  (as_i64 ticks, mkTms utime_us stime_us utime_us stime_us).

(** What [handle_syscall] does to the statistics for a call entered at time [e] and
    left at time [l]: [time_stat_from_user_to_kernel] and
    [time_stat_from_kernel_to_user]. *)
Definition syscall_time (t : TimeStat) (el : Z * Z) : TimeStat :=
  switch_into_user_mode el.2 (switch_into_kernel_mode el.1 t).
Definition syscalls_time (els : list (Z * Z)) (t : TimeStat) : TimeStat := foldl syscall_time t els.

(** ** What is measured *)

(** The time spent in the kernel, and in user mode between [start] and the last
    entry, for the given calls. *)
Fixpoint kernel_time (els : list (Z * Z)) : Z :=
  match els with [] => 0 | (e, l) :: els => (l - e) + kernel_time els end.
Fixpoint user_time (start : Z) (els : list (Z * Z)) : Z :=
  match els with [] => 0 | (e, l) :: els => (e - start) + user_time l els end.
(** The kernel time of all calls but the last. *)
Fixpoint kernel_time_init (els : list (Z * Z)) : Z :=
  match els with [] => 0 | [_] => 0 | (e, l) :: els => (l - e) + kernel_time_init els end.

(** The calls follow each other in time, below [2^64] ns. *)
Fixpoint in_order (start : Z) (els : list (Z * Z)) : Prop :=
  match els with
  | [] => start < USIZE
  | (e, l) :: els => start <= e /\ e <= l /\ in_order l els
  end.

Lemma in_order_bound start els : in_order start els -> start < USIZE.
Proof.
  revert start. induction els as [|[e l] els IH]; cbn; intros start H; [done|].
  destruct H as (? & ? & ?%IH). lia.
Qed.

Lemma switch_kernel_none now t :
  timer_type t = NONE ->
  switch_into_kernel_mode now t =
  mkTimeStat (utime_ns t +w (now -w kernel_timestamp t)) (stime_ns t) (user_timestamp t) now NONE
    (timer_interval_ns t) (timer_remained_ns t).
Proof. intros H. unfold switch_into_kernel_mode. rewrite H. by case_decide. Qed.
Lemma switch_user_none now t :
  timer_type t = NONE ->
  switch_into_user_mode now t =
  mkTimeStat (utime_ns t) (stime_ns t +w (now -w kernel_timestamp t)) now (kernel_timestamp t) NONE
    (timer_interval_ns t) (timer_remained_ns t).
Proof. intros H. unfold switch_into_user_mode. rewrite H. case_decide; [naive_solver|done]. Qed.

(** The counters after a sequence of calls; [k] is the time of the last entry, or the
    kernel timestamp the sequence started with. *)
Lemma syscalls_time_spec els t start :
  timer_type t = NONE -> 0 <= kernel_timestamp t <= start -> in_order start els ->
  0 <= utime_ns t -> 0 <= stime_ns t ->
  utime_ns t <= kernel_timestamp t -> stime_ns t <= start ->
  utime_ns (syscalls_time els t) =
    utime_ns t + (default (kernel_timestamp t) (fst <$> last els) - kernel_timestamp t) /\
  stime_ns (syscalls_time els t) = stime_ns t + kernel_time els.
Proof.
  revert t start. induction els as [|[e l] els IH]; intros t start Hty Hk Ho Hu Hs Hle Hls.
  { cbn. lia. }
  destruct Ho as (Hse & Hel & Ho). pose proof (in_order_bound l els Ho).
  cbn [syscalls_time foldl]. unfold syscall_time at 2 4. cbn [fst snd].
  rewrite switch_kernel_none by done. rewrite switch_user_none by done. cbn.
  unfold wsub, wadd. rewrite (wrap_small (e - _)) by lia. rewrite (wrap_small (l - e)) by lia.
  rewrite !wrap_small by lia.
  match goal with |- context [foldl syscall_time ?t1 els] => set (t' := t1) end.
  destruct (IH t' l) as [E1 E2]; try done; cbn; try lia.
  unfold syscalls_time in E1, E2. rewrite E1, E2. cbn [kernel_time]. split; [|cbn; lia].
  destruct els as [|x els]; [cbn; lia|].
  change (last ((e, l) :: x :: els)) with (last (x :: els)).
  destruct (last (x :: els)) eqn:E; [cbn; lia|]. by apply last_None in E.
Qed.

Lemma last_entry_user start e l els :
  (default 0 (fst <$> last ((e, l) :: els)) - start)
  = user_time start ((e, l) :: els) + kernel_time_init ((e, l) :: els).
Proof.
  revert start e l. induction els as [|[e' l'] els IH]; intros start e l; [cbn; lia|].
  change (last ((e, l) :: (e', l') :: els)) with (last ((e', l') :: els)).
  change (kernel_time_init ((e, l) :: (e', l') :: els)) with ((l - e) + kernel_time_init ((e', l') :: els)).
  specialize (IH l e' l'). cbn [user_time] in *. lia.
Qed.

(** What a process that makes system calls is charged: the system time is the time
    spent in the kernel, but the user time is the whole time up to the last
    system call, the kernel time of all earlier calls included: that time is
    counted twice. *)
Theorem timestat_double_count els :
  els <> [] -> in_order 0 els ->
  ts_output (syscalls_time els ts_new) = (user_time 0 els + kernel_time_init els, kernel_time els).
Proof.
  intros Hne Ho. destruct els as [|[e l] els]; [done|].
  destruct (syscalls_time_spec ((e, l) :: els) ts_new 0) as [E1 E2]; try done; try (cbn; lia).
  unfold ts_output. rewrite E1, E2, <- (last_entry_user 0 e l els).
  change (utime_ns ts_new) with 0. change (stime_ns ts_new) with 0. change (kernel_timestamp ts_new) with 0.
  f_equal.
Qed.

Lemma timestat_double_count_witness :
  ts_output (syscalls_time [(10, 15); (18, 30)] ts_new) = (18, 17).
Proof. apply (timestat_double_count [(10, 15); (18, 30)]); [done|cbn; lia]. Defined.

(** An interval timer never expires: once armed with a non-zero remaining time,
    no amount of elapsed time brings it to zero. *)
Theorem timer_never_expires delta t :
  0 <= delta -> 0 < timer_remained_ns t < USIZE -> 0 < timer_remained_ns (update_timer delta t).
Proof.
  intros Hd Hr. unfold update_timer. destruct (Z.eqb_spec (timer_remained_ns t) 0); [lia|].
  destruct (Z.ltb_spec delta (timer_remained_ns t)); [|lia]. cbn. unfold wsub. rewrite wrap_small; lia.
Qed.

Lemma timer_never_expires_witness :
  let t := (set_timer 100 100 0 ts_new).2 in 0 < timer_remained_ns (update_timer 5000 t).
Proof. intros t. apply (timer_never_expires 5000 t); cbn; lia. Defined.
