(* ===== verification/Trap.v ===== *)
(** Traps and context switches on riscv64 (arceos/modules/axhal/src/arch/riscv):
    the trap frame, the assembly that saves and restores it (trap.S, macros.rs),
    the entry into user space and the context switch (context.rs), and the trap
    dispatcher (trap.rs). The assembly is given a small-step meaning on a hart with
    its registers, the CSRs it uses and a memory of 8-byte words at aligned
    addresses. *)
From S2P Require Import Prelude.
From S2P Require Import Paging.
Import MappingFlags.

(** * The machine *)

(** Registers by their number, [x0] to [x31]. *)
Module Reg.
Abbreviation zero := 0.
Abbreviation ra := 1.
Abbreviation sp := 2.
Abbreviation gp := 3.
Abbreviation tp := 4.
Abbreviation t0 := 5.
Abbreviation t1 := 6.
Abbreviation t2 := 7.
Abbreviation s0 := 8.
Abbreviation s1 := 9.
Abbreviation a0 := 10.
Abbreviation a1 := 11.
Abbreviation a2 := 12.
Abbreviation a3 := 13.
Abbreviation a4 := 14.
Abbreviation a5 := 15.
Abbreviation a6 := 16.
Abbreviation a7 := 17.
Abbreviation s2 := 18.
Abbreviation s3 := 19.
Abbreviation s4 := 20.
Abbreviation s5 := 21.
Abbreviation s6 := 22.
Abbreviation s7 := 23.
Abbreviation s8 := 24.
Abbreviation s9 := 25.
Abbreviation s10 := 26.
Abbreviation s11 := 27.
Abbreviation t3 := 28.
Abbreviation t4 := 29.
Abbreviation t5 := 30.
Abbreviation t6 := 31.
End Reg.
Import Reg.

Inductive csr := Sepc | Sstatus | Sscratch | Satp.
#[export] Instance csr_eq_dec : EqDecision csr.
Proof. solve_decision. Defined.

Record Hart := mkHart { h_regs : Z -> Z; h_csr : csr -> Z; h_mem : Z -> Z }.

Inductive instr :=
| Addi (rd rs imm : Z)
| Ld (rd rs off : Z)            (* LDR rd, rs, off: the word at rs + 8 * off *)
| Sd (rs2 rs1 off : Z)          (* STR rs2, rs1, off *)
| Csrr (rd : Z) (k : csr)
| Csrw (k : csr) (rs : Z)
| Csrrw (rd : Z) (k : csr) (rs : Z)
| Mv (rd rs : Z)
| Li (rd imm : Z).

(** [f] with the value [v] at [a]. *)
Definition upd (a v : Z) (f : Z -> Z) : Z -> Z := fun x => if x =? a then v else f x.

Definition getr (h : Hart) (r : Z) : Z := if r =? 0 then 0 else h_regs h r.
Definition setr (r v : Z) (h : Hart) : Hart :=
  if r =? 0 then h else mkHart (upd r v (h_regs h)) (h_csr h) (h_mem h).
Definition setcsr (k : csr) (v : Z) (h : Hart) : Hart := mkHart (h_regs h) (fun x => if decide (x = k) then v else h_csr h x) (h_mem h).
Definition store (a v : Z) (h : Hart) : Hart := mkHart (h_regs h) (h_csr h) (upd a v (h_mem h)).

Definition exec_instr (h : Hart) (i : instr) : Hart :=
  match i with
  | Addi rd rs imm => setr rd (getr h rs +w imm) h
  | Ld rd rs off => setr rd (h_mem h (getr h rs +w (8 * off))) h
  | Sd rs2 rs1 off => store (getr h rs1 +w (8 * off)) (getr h rs2) h
  | Csrr rd k => setr rd (h_csr h k) h
  | Csrw k rs => setcsr k (getr h rs) h
  | Csrrw rd k rs => setr rd (h_csr h k) (setcsr k (getr h rs) h)
  | Mv rd rs => setr rd (getr h rs) h
  | Li rd imm => setr rd imm h
  end.
Definition run_asm (code : list instr) (h : Hart) : Hart := foldl exec_instr h code.

(** * The trap frame *)

(** [TrapFrame]: its general registers in the order of [GeneralRegisters], which is
    that of the register numbers, then [sepc] and [sstatus]. *)
Record TrapFrame := mkTF { tf_regs : Z -> Z; tf_sepc : Z; tf_sstatus : Z }.
Definition GeneralRegisters : list Z :=
  [ra; sp; gp; tp; t0; t1; t2; s0; s1; a0; a1; a2; a3; a4; a5; a6; a7;
   s2; s3; s4; s5; s6; s7; s8; s9; s10; s11; t3; t4; t5; t6].
Definition trapframe_size : Z := 264.

(** The frame [tf] lies at address [base]. *)
Definition tf_at (m : Z -> Z) (base : Z) (tf : TrapFrame) : Prop :=
  (forall i r, GeneralRegisters !! i = Some r -> m (base + 8 * Z.of_nat i) = tf_regs tf r) /\
  m (base + 8 * 31) = tf_sepc tf /\ m (base + 8 * 32) = tf_sstatus tf.

(** [PUSH_POP_GENERAL_REGS] of macros.rs: the registers it covers with their slots. *)
Definition general_regs : list (Z * Z) :=
  [(ra, 0); (t0, 4); (t1, 5); (t2, 6); (s0, 7); (s1, 8); (a0, 9); (a1, 10); (a2, 11); (a3, 12);
   (a4, 13); (a5, 14); (a6, 15); (a7, 16); (s2, 17); (s3, 18); (s4, 19); (s5, 20); (s6, 21);
   (s7, 22); (s8, 23); (s9, 24); (s10, 25); (s11, 26); (t3, 27); (t4, 28); (t5, 29); (t6, 30)].
Definition PUSH_GENERAL_REGS : list instr := (fun '(r, i) => Sd r sp i) <$> general_regs.
Definition POP_GENERAL_REGS : list instr := (fun '(r, i) => Ld r sp i) <$> general_regs.

(** [SAVE_REGS] and [RESTORE_REGS] of trap.S. *)
Definition SAVE_REGS (from_user : bool) : list instr :=
  [Addi sp sp (- trapframe_size)] ++ PUSH_GENERAL_REGS ++
  [Csrr t0 Sepc; Csrr t1 Sstatus; Csrrw t2 Sscratch zero;
   Sd t0 sp 31; Sd t1 sp 32; Sd t2 sp 1] ++
  (if from_user then
     [Ld t0 sp 2; Ld t1 sp 3; Sd gp sp 2; Sd tp sp 3; Mv gp t0; Mv tp t1]
   else []).
Definition RESTORE_REGS (from_user : bool) : list instr :=
  (if from_user then
     [Ld t1 sp 2; Ld t0 sp 3; Sd gp sp 2; Sd tp sp 3; Mv gp t1; Mv tp t0;
      Addi t0 sp trapframe_size; Csrw Sscratch t0]
   else []) ++
  [Ld t0 sp 31; Ld t1 sp 32; Csrw Sepc t0; Csrw Sstatus t1] ++
  POP_GENERAL_REGS ++ [Ld sp sp 1].

(** [trap_vector_base], up to the call of [riscv_trap_handler]: where the trap came
    from, and the hart with the address of the frame in [a0]. *)
Definition trap_entry (h : Hart) : bool * Hart :=
  let h1 := exec_instr h (Csrrw sp Sscratch sp) in
  if getr h1 sp =? 0 then
    (false, run_asm (Csrr sp Sscratch :: SAVE_REGS false ++ [Mv a0 sp; Li a1 0]) h1)
  else (true, run_asm (SAVE_REGS true ++ [Mv a0 sp; Li a1 1]) h1).
Definition trap_return (from_user : bool) (h : Hart) : Hart := run_asm (RESTORE_REGS from_user) h.

(** * User contexts (context.rs) *)

(** [UspaceContext::new]. *)
Definition uctx_new (entry ustack_top arg0 : Z) : TrapFrame :=
  mkTF (upd a0 arg0 (upd sp ustack_top (fun _ => 0))) entry (Z.lor (2 ^ 5) (2 ^ 18)).
Definition uctx_from (tf : TrapFrame) : TrapFrame := tf.
Definition get_ip (u : TrapFrame) : Z := tf_sepc u.
Definition get_sp (u : TrapFrame) : Z := tf_regs u sp.
Definition set_ip (pc : Z) (u : TrapFrame) : TrapFrame := mkTF (tf_regs u) pc (tf_sstatus u).
Definition set_sp (v : Z) (u : TrapFrame) : TrapFrame := mkTF (upd sp v (tf_regs u)) (tf_sepc u) (tf_sstatus u).
Definition set_retval (v : Z) (u : TrapFrame) : TrapFrame := mkTF (upd a0 v (tf_regs u)) (tf_sepc u) (tf_sstatus u).
(** [arg0] to [arg5] of a trap frame. *)
Definition arg (i : Z) (tf : TrapFrame) : Z := tf_regs tf (a0 + i).

(** [enable_irqs] and [disable_irqs] of arch/riscv/mod.rs: the SIE bit of [sstatus]. *)
Definition enable_irqs (h : Hart) : Hart := setcsr Sstatus (Z.lor (h_csr h Sstatus) (2 ^ 1)) h.
Definition disable_irqs (h : Hart) : Hart := setcsr Sstatus (Z.ldiff (h_csr h Sstatus) (2 ^ 1)) h.
Definition irqs_enabled (h : Hart) : bool := Z.testbit (h_csr h Sstatus) 1.

(** [enter_uspace]: the CSR writes, then the assembly with the frame at [tf] and the
    kernel's own frame below [kstack_top]; the operands are in [t0] and [t1]. *)
Definition enter_uspace_asm : list instr :=
  [Mv sp t0; Sd gp t1 2; Ld gp sp 2; Sd tp t1 3; Ld tp sp 3; Ld t0 sp 32; Csrw Sstatus t0] ++
  POP_GENERAL_REGS ++ [Ld sp sp 1].
Definition enter_uspace (tf : TrapFrame) (tf_addr kstack_top : Z) (h : Hart) : Hart :=
  let h1 := setcsr Sepc (tf_sepc tf) (setcsr Sscratch kstack_top (disable_irqs h)) in
  let kernel_trap_addr := kstack_top -w trapframe_size in
  run_asm enter_uspace_asm (setr t0 tf_addr (setr t1 kernel_trap_addr h1)).

(** [context_switch]: [a0] and [a1] point to the two [TaskContext]s. *)
Definition TaskContext_regs : list Z :=
  [ra; sp; s0; s1; s2; s3; s4; s5; s6; s7; s8; s9; s10; s11].
Definition context_switch_asm : list instr :=
  [Sd ra a0 0; Sd sp a0 1; Sd s0 a0 2; Sd s1 a0 3; Sd s2 a0 4; Sd s3 a0 5; Sd s4 a0 6; Sd s5 a0 7;
   Sd s6 a0 8; Sd s7 a0 9; Sd s8 a0 10; Sd s9 a0 11; Sd s10 a0 12; Sd s11 a0 13;
   Ld s11 a1 13; Ld s10 a1 12; Ld s9 a1 11; Ld s8 a1 10; Ld s7 a1 9; Ld s6 a1 8; Ld s5 a1 7;
   Ld s4 a1 6; Ld s3 a1 5; Ld s2 a1 4; Ld s1 a1 3; Ld s0 a1 2; Ld sp a1 1; Ld ra a1 0].
Definition context_switch (current_task next_task : Z) (h : Hart) : Hart :=
  run_asm context_switch_asm (setr a0 current_task (setr a1 next_task h)).

(** * The trap dispatcher (trap.rs) *)

Inductive Cause :=
| UserEnvCall | LoadPageFault | StorePageFault | InstructionPageFault | Breakpoint
| Interrupt (bits : Z) | OtherCause.

Section Dispatch.
Context {S : Type}.
(** The registered handlers: system calls, page faults (address, access flags, from
    user mode), interrupts; and the address in [stval]. *)
Context (handle_syscall : TrapFrame -> Z -> S -> outcome (Z * S)).
Context (page_fault : Z -> Z -> bool -> S -> outcome (bool * S)).
Context (irq : Z -> S -> outcome S).
Context (stval : Z).

(** [handle_page_fault] of trap.rs: an unhandled fault panics. *)
Definition trap_page_fault (access_flags : Z) (is_user : bool) (s : S) : outcome S :=
  let flags := if is_user then Z.lor access_flags USER else access_flags in
  match page_fault stval flags is_user s with
  | Ret (true, s') => Ret s'
  | Ret (false, _) => Panic
  | Panic => Panic
  end.

(** [riscv_trap_handler]. *)
Definition riscv_trap_handler (cause : Cause) (from_user : bool) (tf : TrapFrame) (s : S)
  : outcome (TrapFrame * S) :=
  let keep (o : outcome S) := match o with Ret s' => Ret (tf, s') | Panic => Panic end in
  match cause with
  | UserEnvCall =>
      match handle_syscall tf (tf_regs tf a7) s with
      | Ret (ret, s') => Ret (set_ip (tf_sepc tf +w 4) (set_retval (wrap ret) tf), s')
      | Panic => Panic
      end
  | LoadPageFault => keep (trap_page_fault READ from_user s)
  | StorePageFault => keep (trap_page_fault WRITE from_user s)
  | InstructionPageFault => keep (trap_page_fault EXECUTE from_user s)
  | Breakpoint => Ret (set_ip (tf_sepc tf +w 2) tf, s)
  | Interrupt bits => keep (irq bits s)
  | OtherCause => Panic
  end.
End Dispatch.

(** * Straight-line code *)

Lemma run_asm_app c1 c2 h : run_asm (c1 ++ c2) h = run_asm c2 (run_asm c1 h).
Proof. apply foldl_app. Qed.

Definition stores (b : Z) (l : list (Z * Z)) : list instr := (fun '(r, i) => Sd r b i) <$> l.
Definition loads (b : Z) (l : list (Z * Z)) : list instr := (fun '(r, i) => Ld r b i) <$> l.

(** The slots of [l] lie in the address space. *)
Definition in_range (base : Z) (l : list (Z * Z)) : Prop :=
  Forall (fun '(_, i) => 0 <= base /\ 0 <= i /\ base + 8 * i < USIZE) l.

Lemma wadd_slot base i : 0 <= base -> 0 <= i -> base + 8 * i < USIZE -> base +w (8 * i) = base + 8 * i.
Proof. intros. apply wadd_small. lia. Qed.

(** Storing registers to distinct slots of a frame. *)
Lemma run_stores b l h :
  in_range (getr h b) l -> NoDup (snd <$> l) ->
  h_regs (run_asm (stores b l) h) = h_regs h /\ h_csr (run_asm (stores b l) h) = h_csr h /\
  (forall r i, (r, i) ∈ l -> h_mem (run_asm (stores b l) h) (getr h b + 8 * i) = getr h r) /\
  (forall a, (forall r i, (r, i) ∈ l -> a <> getr h b + 8 * i) -> h_mem (run_asm (stores b l) h) a = h_mem h a).
Proof.
  revert h. induction l as [|[r i] l IH]; intros h Hr Hnd.
  { cbn. repeat split; try done. intros ? ? []%elem_of_nil. }
  apply Forall_cons in Hr as [(Hb & Hi & Hlt) Hr]. cbn in Hnd. apply NoDup_cons in Hnd as [Hn Hnd].
  cbn [stores fmap list_fmap run_asm foldl]. set (h1 := exec_instr h (Sd r b i)).
  assert (forall x, getr h1 x = getr h x) as Hg by done.
  destruct (IH h1) as (E1 & E2 & E3 & E4); [by rewrite Hg|done|]. rewrite Hg in *.
  unfold run_asm, stores in *. rewrite E1, E2. split; [done|]. split; [done|].
  assert (h_mem h1 = upd (getr h b + 8 * i) (getr h r) (h_mem h)) as Hm.
  { unfold h1. cbn. by rewrite wadd_slot. }
  split.
  - intros r' i' [[= -> ->]|Hin]%elem_of_cons; [|by apply E3].
    rewrite E4, Hm; [unfold upd; by rewrite Z.eqb_refl|]. intros r' i' Hin Heq.
    assert (i = i') as -> by lia. apply Hn. apply list_elem_of_fmap. by exists (r', i').
  - intros a Ha. rewrite E4, Hm.
    + unfold upd. destruct (Z.eqb_spec a (getr h b + 8 * i)); [|done]. exfalso. eapply (Ha r i); [by left|done].
    + intros r' i' Hin. apply (Ha r' i'). by right.
Qed.

(** Loading distinct registers, not the base, from the slots of a frame. *)
Lemma run_loads b l h :
  in_range (getr h b) l -> NoDup (fst <$> l) -> (forall r i, (r, i) ∈ l -> r <> 0 /\ r <> b) ->
  h_csr (run_asm (loads b l) h) = h_csr h /\ h_mem (run_asm (loads b l) h) = h_mem h /\
  (forall r i, (r, i) ∈ l -> getr (run_asm (loads b l) h) r = h_mem h (getr h b + 8 * i)) /\
  (forall r, (forall i, (r, i) ∉ l) -> getr (run_asm (loads b l) h) r = getr h r).
Proof.
  revert h. induction l as [|[r i] l IH]; intros h Hr Hnd Hz.
  { cbn. repeat split; try done. intros ? ? []%elem_of_nil. }
  apply Forall_cons in Hr as [(Hb & Hi & Hlt) Hr]. cbn in Hnd. apply NoDup_cons in Hnd as [Hn Hnd].
  destruct (Hz r i) as [Hr0 Hrb]; [by left|].
  cbn [loads fmap list_fmap run_asm foldl]. set (h1 := exec_instr h (Ld r b i)).
  assert (h1 = setr r (h_mem h (getr h b + 8 * i)) h) as Hh1.
  { unfold h1. cbn. by rewrite wadd_slot. }
  assert (forall x, getr h1 x = if x =? r then h_mem h (getr h b + 8 * i) else getr h x) as Hg.
  { intros x. rewrite Hh1. unfold getr, setr, upd. destruct (Z.eqb_spec r 0); [done|]. cbn.
    destruct (Z.eqb_spec x 0); [|done]. destruct (Z.eqb_spec x r); [congruence|done]. }
  assert (h_csr h1 = h_csr h /\ h_mem h1 = h_mem h) as [Hc Hm].
  { rewrite Hh1. unfold setr. by destruct (r =? 0). }
  assert (getr h1 b = getr h b) as Hgb.
  { rewrite Hg. destruct (Z.eqb_spec b r); [congruence|done]. }
  destruct (IH h1) as (E1 & E2 & E3 & E4); [by rewrite Hgb|done|..].
  { intros r' i' Hin. apply (Hz r' i'). by right. }
  unfold run_asm, loads in *. rewrite E1, E2, Hc, Hm. split; [done|]. split; [done|]. split.
  - intros r' i' [[= -> ->]|Hin]%elem_of_cons.
    + rewrite E4, Hg, Z.eqb_refl; [done|]. intros i' Hin. apply Hn, list_elem_of_fmap. by exists (r, i').
    + rewrite (E3 r' i' Hin), Hgb, Hm. done.
  - intros r' Hr'. rewrite E4, Hg.
    + destruct (Z.eqb_spec r' r) as [->|]; [|done]. exfalso. apply (Hr' i). by left.
    + intros i' Hin. apply (Hr' i'). by right.
Qed.

(** ** Saving and restoring a frame *)

#[local] Arguments wadd : simpl never.
#[local] Arguments Z.add : simpl never.
#[local] Arguments Z.mul : simpl never.

Definition frame_ok (B : Z) : Prop := 0 <= B /\ B + trapframe_size < USIZE.

Lemma general_regs_slots B : frame_ok B -> in_range B general_regs.
Proof.
  intros [H1 H2]. unfold trapframe_size in H2. unfold in_range, general_regs.
  repeat (apply Forall_cons; split; [lia|]). constructor.
Qed.
Lemma general_regs_nodup : NoDup (fst <$> general_regs) /\ NoDup (snd <$> general_regs).
Proof. split; apply (bool_decide_unpack _); vm_compute; exact I. Qed.
Lemma general_regs_regs r i : (r, i) ∈ general_regs -> 0 < r <= 31 /\ r <> sp /\ r <> gp /\ r <> tp /\ i = r - 1.
Proof.
  intros H. assert (Forall (fun '(r, i) => 0 < r <= 31 /\ r <> sp /\ r <> gp /\ r <> tp /\ i = r - 1) general_regs) as Hf.
  { unfold general_regs. repeat (apply Forall_cons; split; [lia|]). constructor. }
  rewrite Forall_forall in Hf. exact (Hf _ H).
Qed.
Lemma general_regs_all r : 0 < r <= 31 -> r <> sp -> r <> gp -> r <> tp -> (r, r - 1) ∈ general_regs.
Proof.
  intros Hr H1 H2 H3.
  assert (Forall (fun r => r = sp \/ r = gp \/ r = tp \/ (r, r - 1) ∈ general_regs) (Z.of_nat <$> seq 1 31)) as Hf.
  { cbn. repeat (apply Forall_cons; split;
      [first [by left|by right; left|by right; right; left|right; right; right; apply (bool_decide_unpack _); vm_compute; exact I]|]).
    constructor. }
  rewrite Forall_forall in Hf. destruct (Hf r) as [?|[?|[?|?]]]; try done.
  apply list_elem_of_fmap. exists (Z.to_nat r). split; [lia|]. apply elem_of_seq. lia.
Qed.

(** The order of the fields is that of the register numbers. *)
Lemma GeneralRegisters_spec i r : GeneralRegisters !! i = Some r -> r = Z.of_nat i + 1 /\ (i < 31)%nat.
Proof.
  intros H. pose proof (lookup_lt_Some _ _ _ H) as Hl. cbn in Hl. split; [|done].
  do 31 (destruct i as [|i]; [injection H as <-; lia|]). lia.
Qed.

(** [tf_at] by register number. *)
Lemma tf_at_regs m B tf :
  (forall r, 0 < r <= 31 -> m (B + 8 * (r - 1)) = tf_regs tf r) ->
  m (B + 8 * 31) = tf_sepc tf -> m (B + 8 * 32) = tf_sstatus tf -> tf_at m B tf.
Proof.
  intros H1 H2 H3. split; [|done]. intros i r [-> Hi]%GeneralRegisters_spec.
  rewrite <- H1 by lia. f_equal. lia.
Qed.
Lemma tf_at_reg m B tf r : tf_at m B tf -> 0 < r <= 31 -> m (B + 8 * (r - 1)) = tf_regs tf r.
Proof.
  intros [H _] Hr. assert (GeneralRegisters !! Z.to_nat (r - 1) = Some r) as E.
  { assert (r = Z.of_nat (Z.to_nat (r - 1)) + 1) as Er by lia.
    remember (Z.to_nat (r - 1)) as n eqn:En. clear En. subst r. assert (n < 31)%nat as Hn by lia. clear -Hn.
    do 31 (destruct n as [|n]; [done|]). lia. }
  rewrite <- (H _ _ E). f_equal. lia.
Qed.

Lemma upd_slot B i v m j : upd (B + 8 * i) v m (B + 8 * j) = if j =? i then v else m (B + 8 * j).
Proof.
  unfold upd. destruct (Z.eqb_spec (B + 8 * j) (B + 8 * i)), (Z.eqb_spec j i); try done; lia.
Qed.

(** The registers of a hart as a trap frame with the given stack pointer. *)
Definition frame_of (h : Hart) (usp : Z) : TrapFrame :=
  mkTF (upd sp usp (h_regs h)) (h_csr h Sepc) (h_csr h Sstatus).

(** The part of [SAVE_REGS] after the pushes. *)
Definition save_csrs : list instr :=
  [Csrr t0 Sepc; Csrr t1 Sstatus; Csrrw t2 Sscratch zero; Sd t0 sp 31; Sd t1 sp 32; Sd t2 sp 1].
Definition save_user : list instr :=
  [Ld t0 sp 2; Ld t1 sp 3; Sd gp sp 2; Sd tp sp 3; Mv gp t0; Mv tp t1].
Lemma SAVE_REGS_eq u :
  SAVE_REGS u = [Addi sp sp (- trapframe_size)] ++ stores sp general_regs ++ save_csrs ++ (if u then save_user else []).
Proof. done. Qed.

(** The hart after [Addi] and the pushes. *)
Lemma push_spec h B :
  frame_ok B -> getr h sp = B + trapframe_size ->
  let h' := run_asm ([Addi sp sp (- trapframe_size)] ++ stores sp general_regs) h in
  h_regs h' = upd sp B (h_regs h) /\ h_csr h' = h_csr h /\
  (forall r i, (r, i) ∈ general_regs -> h_mem h' (B + 8 * i) = h_regs h r) /\
  (forall a, (forall r i, (r, i) ∈ general_regs -> a <> B + 8 * i) -> h_mem h' a = h_mem h a).
Proof.
  intros HB Hsp h'. unfold h'. rewrite run_asm_app. set (h1 := run_asm [Addi sp sp (- trapframe_size)] h).
  assert (h1 = mkHart (upd sp B (h_regs h)) (h_csr h) (h_mem h)) as Eh.
  { unfold h1, run_asm. cbn [foldl exec_instr]. rewrite Hsp. unfold wadd. replace (B + trapframe_size + - trapframe_size) with B by lia.
    unfold frame_ok, trapframe_size in HB. rewrite wrap_small by lia. done. }
  assert (getr h1 sp = B) as Hs by (by rewrite Eh).
  destruct (run_stores sp general_regs h1) as (E1 & E2 & E3 & E4).
  { rewrite Hs. by apply general_regs_slots. }
  { apply general_regs_nodup. }
  rewrite Hs in E3, E4. rewrite E1, E2. split; [by rewrite Eh|]. split; [by rewrite Eh|]. split.
  - intros r i Hin. rewrite (E3 r i Hin), Eh. destruct (general_regs_regs r i Hin) as (? & ? & _).
    unfold getr, upd. cbn. destruct (Z.eqb_spec r 0); [lia|]. destruct (Z.eqb_spec r 2); [lia|done].
  - intros a Ha. rewrite E4; [by rewrite Eh|done].
Qed.

Lemma slots B i : frame_ok B -> 0 <= i <= 32 -> B +w (8 * i) = B + 8 * i.
Proof. intros [H1 H2] Hi. unfold trapframe_size in H2. apply wadd_slot; lia. Qed.

(** ** The properties *)

(** A hart in user mode that can take a trap: [sscratch] has the top of the kernel
    stack, and the frame below it holds the kernel's [gp] and [tp]. *)
Record user_ready (B kgp ktp : Z) (h : Hart) : Prop := mkUR {
  ur_scratch : h_csr h Sscratch = B + trapframe_size;
  ur_gp : h_mem h (B + 8 * 2) = kgp;
  ur_tp : h_mem h (B + 8 * 3) = ktp;
}.
(** A hart in the kernel with the frame of a user trap. *)
Record kernel_ready (B kgp ktp : Z) (tf : TrapFrame) (h : Hart) : Prop := mkKR {
  kr_tf : tf_at (h_mem h) B tf;
  kr_sp : getr h sp = B;
  kr_gp : getr h gp = kgp;
  kr_tp : getr h tp = ktp;
}.
(** The user registers, program counter and status are those of [tf]. *)
Definition resumes (tf : TrapFrame) (h : Hart) : Prop :=
  (forall r, 0 < r <= 31 -> getr h r = tf_regs tf r) /\
  h_csr h Sepc = tf_sepc tf /\ h_csr h Sstatus = tf_sstatus tf.

Definition pushes : list instr := [Addi sp sp (- trapframe_size)] ++ stores sp general_regs.
Lemma run_save u c h :
  run_asm (SAVE_REGS u ++ c) h = run_asm (save_csrs ++ (if u then save_user else []) ++ c) (run_asm pushes h).
Proof. rewrite <- run_asm_app. by destruct u. Qed.

#[local] Arguments upd : simpl never.
Lemma upd_same a v f : upd a v f a = v.
Proof. unfold upd. by rewrite Z.eqb_refl. Qed.
Lemma upd_other a v f b : b <> a -> upd a v f b = f b.
Proof. intros H. unfold upd. by rewrite (proj2 (Z.eqb_neq b a)). Qed.

(** Evaluate straight-line code on a hart with symbolic contents. *)
Ltac reg_step := match goal with
  | |- context [upd ?a ?v ?f ?b] => first [rewrite (upd_same a v f) | rewrite (upd_other a v f b) by lia]
  end.

Lemma save_tail_user rg cs m B :
  frame_ok B -> rg sp = B ->
  let h' := run_asm (save_csrs ++ save_user ++ [Mv a0 sp; Li a1 1]) (mkHart rg cs m) in
  getr h' sp = B /\ getr h' gp = m (B + 8 * 2) /\ getr h' tp = m (B + 8 * 3) /\
  getr h' a0 = B /\ getr h' a1 = 1 /\ h_csr h' Sscratch = 0 /\
  h_mem h' = upd (B + 8 * 3) (rg tp) (upd (B + 8 * 2) (rg gp) (upd (B + 8 * 1) (cs Sscratch)
    (upd (B + 8 * 32) (cs Sstatus) (upd (B + 8 * 31) (cs Sepc) m)))).
Proof.
  intros HB Hsp h'. unfold h'. cbn. repeat reg_step. rewrite Hsp.
  rewrite !slots by (done || lia). repeat reg_step. done.
Qed.
Lemma trap_entry_user B kgp ktp h :
  frame_ok B -> user_ready B kgp ktp h ->
  exists h', trap_entry h = (true, h') /\ kernel_ready B kgp ktp (frame_of h (getr h sp)) h' /\
    h_csr h' Sscratch = 0 /\ getr h' a0 = B /\ getr h' a1 = 1 /\
    forall a, (forall i, 0 <= i <= 32 -> a <> B + 8 * i) -> h_mem h' a = h_mem h a.
Proof.
  intros HB [Hs Hg Ht]. unfold trap_entry. cbn [exec_instr]. rewrite Hs.
  set (h1 := setr sp _ _). assert (getr h1 sp = B + trapframe_size) as Hsp by done.
  rewrite Hsp. destruct (Z.eqb_spec (B + trapframe_size) 0).
  { destruct HB. unfold trapframe_size in *. lia. }
  eexists. split; [done|]. rewrite run_save.
  destruct (push_spec h1 B HB Hsp) as (E1 & E2 & E3 & E4). fold pushes in E1, E2, E3, E4.
  destruct (run_asm pushes h1) as [rg cs m]. cbn in E1, E2, E3, E4.
  destruct (save_tail_user rg cs m B HB) as (F1 & F2 & F3 & F4 & F5 & F6 & F7); [by rewrite E1, upd_same|].
  assert (forall i, (forall r, (r, i) ∉ general_regs) -> m (B + 8 * i) = h_mem h (B + 8 * i)) as Hm.
  { intros i Hi. apply E4. intros r i' Hin Heq. assert (i = i') as -> by lia. by apply (Hi r). }
  assert (forall i, (i = 1 \/ i = 2 \/ i = 3) -> forall r, (r, i) ∉ general_regs) as Hno.
  { intros i Hi r Hin%general_regs_regs. lia. }
  rewrite Hm in F2, F3 by (apply Hno; lia).
  split; [constructor|split; [done|split; [done|split; [done|]]]].
  - rewrite F7, E1, E2. apply tf_at_regs.
    + intros r Hr. rewrite !upd_slot. cbn.
      destruct (Z.eqb_spec (r - 1) 3); [assert (r = 4) as -> by lia; by repeat reg_step|].
      destruct (Z.eqb_spec (r - 1) 2); [assert (r = 3) as -> by lia; by repeat reg_step|].
      destruct (Z.eqb_spec (r - 1) 1); [assert (r = 2) as -> by lia; by repeat reg_step|].
      destruct (Z.eqb_spec (r - 1) 32); [lia|]. destruct (Z.eqb_spec (r - 1) 31); [lia|].
      rewrite (E3 r (r - 1)) by (apply general_regs_all; lia). by repeat reg_step.
    + rewrite !upd_slot. done.
    + rewrite !upd_slot. done.
  - done.
  - rewrite F2. done.
  - rewrite F3. done.
  - intros a Ha. rewrite F7. repeat (rewrite upd_other by (apply Ha; lia)).
    rewrite E4; [done|]. intros r i Hin. apply Ha. apply general_regs_regs in Hin. lia.
Qed.

(** The part of [RESTORE_REGS] before the pops. *)
Definition restore_user : list instr :=
  [Ld t1 sp 2; Ld t0 sp 3; Sd gp sp 2; Sd tp sp 3; Mv gp t1; Mv tp t0;
   Addi t0 sp trapframe_size; Csrw Sscratch t0].
Definition restore_csrs : list instr := [Ld t0 sp 31; Ld t1 sp 32; Csrw Sepc t0; Csrw Sstatus t1].
Lemma run_restore u h :
  run_asm (RESTORE_REGS u) h =
  run_asm (loads sp general_regs ++ [Ld sp sp 1]) (run_asm ((if u then restore_user else []) ++ restore_csrs) h).
Proof. rewrite <- run_asm_app. by destruct u. Qed.

Lemma restore_head_user rg cs m B :
  frame_ok B -> rg sp = B ->
  let h' := run_asm (restore_user ++ restore_csrs) (mkHart rg cs m) in
  getr h' sp = B /\ getr h' gp = m (B + 8 * 2) /\ getr h' tp = m (B + 8 * 3) /\
  h_csr h' Sscratch = B + trapframe_size /\ h_csr h' Sepc = m (B + 8 * 31) /\ h_csr h' Sstatus = m (B + 8 * 32) /\
  h_mem h' = upd (B + 8 * 3) (rg tp) (upd (B + 8 * 2) (rg gp) m).
Proof.
  intros HB Hsp h'. unfold h'. cbn. repeat reg_step. rewrite Hsp.
  rewrite !slots by (done || lia). unfold wadd. destruct HB as [HB1 HB2].
  rewrite wrap_small by (unfold trapframe_size in *; lia). repeat reg_step. done.
Qed.

Lemma run_asm_one i h : run_asm [i] h = exec_instr h i.
Proof. done. Qed.
#[local] Opaque run_asm general_regs.

(** The pops and the final load of the stack pointer. *)
Lemma pop_sp h B :
  frame_ok B -> getr h sp = B ->
  exec_instr h (Ld sp sp 1) = mkHart (upd sp (h_mem h (B + 8 * 1)) (h_regs h)) (h_csr h) (h_mem h).
Proof. intros HB Hsp. cbn [exec_instr]. by rewrite Hsp, slots by (done || lia). Qed.

Lemma pop_spec h B h' :
  frame_ok B -> getr h sp = B -> h' = run_asm (loads sp general_regs ++ [Ld sp sp 1]) h ->
  h_csr h' = h_csr h /\ h_mem h' = h_mem h /\
  (forall r, 0 < r <= 31 -> r <> gp -> r <> tp -> getr h' r = h_mem h (B + 8 * (r - 1))) /\
  getr h' gp = getr h gp /\ getr h' tp = getr h tp.
Proof.
  intros HB Hsp Hh'. rewrite run_asm_app, run_asm_one in Hh'.
  destruct (run_loads sp general_regs h) as (E1 & E2 & E3 & E4).
  { rewrite Hsp. by apply general_regs_slots. }
  { apply general_regs_nodup. }
  { intros r i Hin%general_regs_regs. lia. }
  revert E1 E2 E3 E4 Hh'. generalize (run_asm (loads sp general_regs) h). intros h1 E1 E2 E3 E4 Hh'.
  assert (getr h1 sp = B) as Hs1.
  { rewrite E4; [done|]. intros i Hin%general_regs_regs. lia. }
  rewrite (pop_sp h1 B HB Hs1) in Hh'. subst h'. cbn [h_csr h_mem]. rewrite Hsp in E3.
  split; [done|]. split; [done|]. split; [|split].
  - intros r Hr Hg Ht. unfold getr. cbn [h_regs]. destruct (Z.eqb_spec r 0); [lia|].
    destruct (decide (r = sp)) as [->|Hne]; [by rewrite upd_same, E2|].
    rewrite upd_other by done. rewrite <- (E3 r (r - 1)) by (apply general_regs_all; lia).
    unfold getr. destruct (Z.eqb_spec r 0); done.
  - apply (E4 gp). intros i Hin%general_regs_regs. lia.
  - apply (E4 tp). intros i Hin%general_regs_regs. lia.
Qed.

Lemma trap_return_user B kgp ktp tf h :
  frame_ok B -> kernel_ready B kgp ktp tf h ->
  user_ready B kgp ktp (trap_return true h) /\ resumes tf (trap_return true h).
Proof.
  intros HB [Htf Hsp Hg Ht]. unfold trap_return. rewrite run_restore. destruct h as [rg cs m]. cbn in Hsp, Hg, Ht.
  destruct (restore_head_user rg cs m B HB Hsp) as (F1 & F2 & F3 & F4 & F5 & F6 & F7).
  set (h1 := run_asm _ (mkHart rg cs m)) in *. clearbody h1.
  destruct (pop_spec h1 B _ HB F1 eq_refl) as (E1 & E2 & E3 & E4 & E5).
  set (h2 := run_asm _ h1) in *. clearbody h2.
  cbn in Htf. split; constructor; rewrite ?E1, ?E2, ?F4, ?F7; try done.
  - by rewrite !upd_slot.
  - by rewrite !upd_slot.
  - intros r Hr. destruct (decide (r = gp)) as [->|Hn3]; [|destruct (decide (r = tp)) as [->|Hn4]].
    + rewrite E4, F2. exact (tf_at_reg m B tf gp Htf ltac:(lia)).
    + rewrite E5, F3. exact (tf_at_reg m B tf tp Htf ltac:(lia)).
    + rewrite E3, F7, !upd_slot by done. destruct (Z.eqb_spec (r - 1) 3); [lia|].
      destruct (Z.eqb_spec (r - 1) 2); [lia|]. by apply tf_at_reg.
  - rewrite F5, F6. destruct Htf as (_ & ? & ?). done.
Qed.

(** ** Entering user space *)

Definition enter_head : list instr :=
  [Mv sp t0; Sd gp t1 2; Ld gp sp 2; Sd tp t1 3; Ld tp sp 3; Ld t0 sp 32; Csrw Sstatus t0].
Lemma run_enter h :
  run_asm enter_uspace_asm h = run_asm (loads sp general_regs ++ [Ld sp sp 1]) (run_asm enter_head h).
Proof. rewrite <- run_asm_app. done. Qed.

(** Two frames that do not overlap. *)
Definition apart (n T B : Z) : Prop := T + n <= B \/ B + n <= T.

#[local] Transparent run_asm.
Lemma enter_head_spec rg cs m T B :
  frame_ok T -> frame_ok B -> apart trapframe_size T B -> rg t0 = T -> rg t1 = B ->
  let h' := run_asm enter_head (mkHart rg cs m) in
  getr h' sp = T /\ getr h' gp = m (T + 8 * 2) /\ getr h' tp = m (T + 8 * 3) /\
  h_csr h' Sscratch = cs Sscratch /\ h_csr h' Sepc = cs Sepc /\ h_csr h' Sstatus = m (T + 8 * 32) /\
  h_mem h' = upd (B + 8 * 3) (rg tp) (upd (B + 8 * 2) (rg gp) m).
Proof.
  intros HT HB Ha H0 H1 h'. unfold h'. cbn. repeat reg_step. rewrite H0, H1.
  rewrite !slots by (done || lia). unfold apart, trapframe_size in Ha.
  repeat (rewrite (upd_other (B + _)) by lia). repeat reg_step. done.
Qed.
#[local] Opaque run_asm.

Lemma enter_uspace_ok T B tf h :
  frame_ok T -> frame_ok B -> apart trapframe_size T B -> tf_at (h_mem h) T tf ->
  user_ready B (getr h gp) (getr h tp) (enter_uspace tf T (B + trapframe_size) h) /\
  resumes tf (enter_uspace tf T (B + trapframe_size) h).
Proof.
  intros HT HB Ha Htf. unfold enter_uspace, disable_irqs. rewrite run_enter.
  replace (B + trapframe_size -w trapframe_size) with B.
  2: { unfold wsub. replace (B + trapframe_size - trapframe_size) with B by lia. symmetry.
       apply wrap_small. unfold frame_ok, trapframe_size in HB. lia. }
  destruct h as [rg cs m]. cbn in Htf. cbn [setr setcsr h_regs h_csr h_mem Z.eqb Z.compare Pos.compare Pos.compare_cont].
  match goal with |- context [run_asm enter_head (mkHart ?r ?c m)] =>
    destruct (enter_head_spec r c m T B HT HB Ha ltac:(by repeat reg_step) ltac:(by repeat reg_step))
      as (F1 & F2 & F3 & F4 & F5 & F6 & F7); set (h1 := run_asm enter_head (mkHart r c m)) in * end.
  clearbody h1. destruct (pop_spec h1 T _ HT F1 eq_refl) as (E1 & E2 & E3 & E4 & E5).
  set (h2 := run_asm _ h1) in *. clearbody h2. unfold apart, trapframe_size in Ha.
  split; constructor; rewrite ?E1, ?E2, ?F4, ?F7; try done.
  - rewrite !upd_slot. cbn. by repeat reg_step.
  - rewrite !upd_slot. cbn. by repeat reg_step.
  - intros r Hr. destruct (decide (r = gp)) as [->|Hn3]; [|destruct (decide (r = tp)) as [->|Hn4]].
    + rewrite E4, F2. exact (tf_at_reg m T tf gp Htf ltac:(lia)).
    + rewrite E5, F3. exact (tf_at_reg m T tf tp Htf ltac:(lia)).
    + rewrite E3, F7 by done. rewrite !upd_other by lia. by apply tf_at_reg.
  - rewrite F5, F6. destruct Htf as (_ & ? & ?). done.
Qed.

(** ** Context switches *)

Definition ctx_slots : list (Z * Z) :=
  [(ra, 0); (sp, 1); (s0, 2); (s1, 3); (s2, 4); (s3, 5); (s4, 6); (s5, 7); (s6, 8); (s7, 9);
   (s8, 10); (s9, 11); (s10, 12); (s11, 13)].
Definition ctx_size : Z := 112.
Definition ctx_ok (a : Z) : Prop := 0 <= a /\ a + ctx_size < USIZE.

Lemma context_switch_eq : context_switch_asm = stores a0 ctx_slots ++ loads a1 (reverse ctx_slots).
Proof. done. Qed.
Lemma ctx_range a : ctx_ok a -> in_range a ctx_slots.
Proof.
  intros [H1 H2]. unfold ctx_size in H2. unfold in_range, ctx_slots.
  repeat (apply Forall_cons; split; [lia|]). constructor.
Qed.
Lemma ctx_slots_spec r i : (r, i) ∈ ctx_slots -> 0 < r /\ r <> a0 /\ r <> a1 /\ 0 <= i <= 13.
Proof.
  intros H. assert (Forall (fun '(r, i) => 0 < r /\ r <> a0 /\ r <> a1 /\ 0 <= i <= 13) ctx_slots) as Hf.
  { unfold ctx_slots. repeat (apply Forall_cons; split; [lia|]). constructor. }
  rewrite Forall_forall in Hf. exact (Hf _ H).
Qed.

(** What [context_switch] does: it saves the callee-saved registers to one context
    and loads them from the other. *)
Lemma context_switch_spec c n h :
  ctx_ok c -> ctx_ok n -> apart ctx_size c n ->
  (forall r i, (r, i) ∈ ctx_slots -> h_mem (context_switch c n h) (c + 8 * i) = getr h r) /\
  (forall r i, (r, i) ∈ ctx_slots -> getr (context_switch c n h) r = h_mem h (n + 8 * i)) /\
  (forall a, (forall r i, (r, i) ∈ ctx_slots -> a <> c + 8 * i) -> h_mem (context_switch c n h) a = h_mem h a).
Proof.
  intros Hc Hn Ha. unfold context_switch. rewrite context_switch_eq, run_asm_app.
  set (h0 := setr a0 c (setr a1 n h)).
  assert (getr h0 a0 = c /\ getr h0 a1 = n) as [G0 G1] by done.
  assert (forall r, r <> a0 -> r <> a1 -> getr h0 r = getr h r) as Gr.
  { intros r Hr0 Hr1. unfold h0, getr. cbn. destruct (r =? 0); [done|]. by rewrite !upd_other. }
  assert (h_mem h0 = h_mem h) as Gm by done. clearbody h0.
  destruct (run_stores a0 ctx_slots h0) as (E1 & E2 & E3 & E4).
  { rewrite G0. by apply ctx_range. }
  { apply (bool_decide_unpack _). vm_compute. exact I. }
  revert E1 E2 E3 E4. generalize (run_asm (stores a0 ctx_slots) h0). intros h1 E1 E2 E3 E4.
  assert (forall r, getr h1 r = getr h0 r) as G. { intros r. unfold getr. by rewrite E1. }
  destruct (run_loads a1 (reverse ctx_slots) h1) as (F1 & F2 & F3 & F4).
  { rewrite G, G1. unfold in_range. rewrite Forall_reverse. by apply ctx_range. }
  { apply (bool_decide_unpack _). vm_compute. exact I. }
  { intros r i Hin%elem_of_reverse%ctx_slots_spec. lia. }
  rewrite F2. rewrite G0 in E3, E4. rewrite G, G1 in F3. split; [|split].
  - intros r i Hin. rewrite (E3 r i Hin). apply ctx_slots_spec in Hin. apply Gr; lia.
  - intros r i Hin. rewrite (F3 r i) by (by apply elem_of_reverse). rewrite E4, Gm; [done|].
    intros r' i' Hin'. apply ctx_slots_spec in Hin, Hin'. unfold apart, ctx_size in Ha. lia.
  - intros a Hne. rewrite E4, Gm; done.
Qed.

(** ** Theorems *)

Lemma syscall_frame {S} (hs : TrapFrame -> Z -> S -> outcome (Z * S)) pf irq stval u tf s ret s' :
  hs tf (tf_regs tf a7) s = Ret (ret, s') ->
  exists tf', riscv_trap_handler hs pf irq stval UserEnvCall u tf s = Ret (tf', s') /\
    tf_regs tf' a0 = wrap ret /\ tf_sepc tf' = tf_sepc tf +w 4 /\ tf_sstatus tf' = tf_sstatus tf /\
    forall r, r <> a0 -> tf_regs tf' r = tf_regs tf r.
Proof.
  intros H. unfold riscv_trap_handler. rewrite H. eexists. split; [done|]. cbn.
  split; [by rewrite upd_same|]. split; [done|]. split; [done|]. intros r Hr. by rewrite upd_other.
Qed.

(** The user resumes from a frame that differs from the one of the trap in the result
    and the program counter. *)
Lemma resume_after B kgp ktp h tf' hk ret :
  frame_ok B -> kernel_ready B kgp ktp tf' hk -> tf_regs tf' a0 = wrap ret ->
  tf_sepc tf' = tf_sepc (frame_of h (getr h sp)) +w 4 ->
  (forall r, r <> a0 -> tf_regs tf' r = tf_regs (frame_of h (getr h sp)) r) ->
  user_ready B kgp ktp (trap_return true hk) /\
  getr (trap_return true hk) a0 = wrap ret /\
  h_csr (trap_return true hk) Sepc = h_csr h Sepc +w 4 /\
  forall r, 0 < r <= 31 -> r <> a0 -> getr (trap_return true hk) r = getr h r.
Proof.
  intros HB Hhk Ha0 Hpc Hr. destruct (trap_return_user B kgp ktp tf' hk HB Hhk) as [Hu' (R1 & R2 & _)].
  split; [done|]. split; [by rewrite R1 by lia|]. split; [by rewrite R2|].
  intros r Hlt Hne. rewrite R1, Hr by done. cbn. destruct (decide (r = sp)) as [->|Hsp].
  - by rewrite upd_same.
  - rewrite upd_other by done. unfold getr. destruct (Z.eqb_spec r 0); [lia|done].
Qed.

(** C4: A system call from user mode preserves the user state: the trap entry stores
    all user registers in the frame the handler is given, and when the handler
    (which keeps [sp], [gp] and [tp]) returns, the user resumes after the [ecall]
    with the result in [a0] and every other register as before, ready to take
    the next trap on the same kernel stack. *)
Theorem syscall_roundtrip {S} (hs : TrapFrame -> Z -> S -> outcome (Z * S)) pf irq stval B kgp ktp h s ret s' :
  frame_ok B -> user_ready B kgp ktp h ->
  hs (frame_of h (getr h sp)) (getr h a7) s = Ret (ret, s') ->
  exists h' tf', trap_entry h = (true, h') /\ kernel_ready B kgp ktp (frame_of h (getr h sp)) h' /\
    riscv_trap_handler hs pf irq stval UserEnvCall true (frame_of h (getr h sp)) s = Ret (tf', s') /\
    forall hk, kernel_ready B kgp ktp tf' hk ->
      user_ready B kgp ktp (trap_return true hk) /\
      getr (trap_return true hk) a0 = wrap ret /\
      h_csr (trap_return true hk) Sepc = h_csr h Sepc +w 4 /\
      forall r, 0 < r <= 31 -> r <> a0 -> getr (trap_return true hk) r = getr h r.
Proof.
  intros HB Hu Hs. destruct (trap_entry_user B kgp ktp h HB Hu) as (h' & He & Hk & _).
  destruct (syscall_frame hs pf irq stval true (frame_of h (getr h sp)) s ret s' Hs)
    as (tf' & Ht & Ha0 & Hpc & _ & Hr).
  exists h', tf'. split; [done|]. split; [done|]. split; [done|]. intros hk Hhk.
  by apply (resume_after B kgp ktp h tf').
Qed.

(** A hart in user mode with its kernel stack at 8192 and the frame below it. *)
Definition demo_hart : Hart :=
  mkHart (fun r => 1000 + r) (fun k => if decide (k = Sscratch) then 8192 else 77)
    (fun a => if a =? 8192 - 264 + 16 then 5 else if a =? 8192 - 264 + 24 then 6 else 0).
Lemma demo_ready : user_ready (8192 - 264) 5 6 demo_hart.
Proof. constructor; reflexivity. Qed.
Definition demo_handler (tf : TrapFrame) (n : Z) (s : unit) : outcome (Z * unit) := Ret (-38, s).

Lemma syscall_roundtrip_witness :
  exists h' tf', trap_entry demo_hart = (true, h') /\
    kernel_ready (8192 - 264) 5 6 (frame_of demo_hart (getr demo_hart sp)) h' /\
    riscv_trap_handler demo_handler (fun _ _ _ s => Ret (true, s)) (fun _ s => Ret s) 0 UserEnvCall true
      (frame_of demo_hart (getr demo_hart sp)) tt = Ret (tf', tt) /\
    forall hk, kernel_ready (8192 - 264) 5 6 tf' hk ->
      user_ready (8192 - 264) 5 6 (trap_return true hk) /\
      getr (trap_return true hk) a0 = wrap (-38) /\
      h_csr (trap_return true hk) Sepc = h_csr demo_hart Sepc +w 4 /\
      forall r, 0 < r <= 31 -> r <> a0 -> getr (trap_return true hk) r = getr demo_hart r.
Proof.
  apply (syscall_roundtrip demo_handler (fun _ _ _ s => Ret (true, s)) (fun _ s => Ret s) 0 (8192 - 264) 5 6
    demo_hart tt (-38) tt); [split; vm_compute; congruence|apply demo_ready|reflexivity].
Defined.

(** [enter_uspace] starts the user with exactly the registers, program counter and
    status of its context, and leaves the hart ready to take a trap: the kernel
    stack in [sscratch], and the kernel's [gp] and [tp] in the frame below it. *)
Theorem enter_uspace_correct T B tf h :
  frame_ok T -> frame_ok B -> apart trapframe_size T B -> tf_at (h_mem h) T tf ->
  user_ready B (getr h gp) (getr h tp) (enter_uspace tf T (B + trapframe_size) h) /\
  resumes tf (enter_uspace tf T (B + trapframe_size) h).
Proof. apply enter_uspace_ok. Qed.

Lemma enter_uspace_correct_witness :
  user_ready 8192 (getr demo_hart gp) (getr demo_hart tp)
    (enter_uspace (mkTF (fun _ => 0) 0 0) 16384 (8192 + trapframe_size) demo_hart) /\
  resumes (mkTF (fun _ => 0) 0 0) (enter_uspace (mkTF (fun _ => 0) 0 0) 16384 (8192 + trapframe_size) demo_hart).
Proof.
  apply (enter_uspace_correct 16384 8192 (mkTF (fun _ => 0) 0 0) demo_hart).
  - split; vm_compute; congruence.
  - split; vm_compute; congruence.
  - right. vm_compute. congruence.
  - apply tf_at_regs; [|reflexivity|reflexivity]. intros r Hr. unfold demo_hart. cbn [h_mem tf_regs].
    destruct (Z.eqb_spec (16384 + 8 * (r - 1)) (8192 - 264 + 16)); [lia|].
    destruct (Z.eqb_spec (16384 + 8 * (r - 1)) (8192 - 264 + 24)); [lia|done].
Defined.

(** A task that is switched out and later switched back in finds its callee-saved
    registers, its stack pointer and its return address unchanged, whatever ran
    in between, as long as its saved context was not overwritten. *)
Theorem context_switch_roundtrip c n n' h h2 r i :
  ctx_ok c -> ctx_ok n -> ctx_ok n' -> apart ctx_size c n -> apart ctx_size n' c ->
  (forall j, 0 <= j <= 13 -> h_mem h2 (c + 8 * j) = h_mem (context_switch c n h) (c + 8 * j)) ->
  TaskContext_regs !! i = Some r ->
  getr (context_switch n' c h2) r = getr h r.
Proof.
  intros Hc Hn Hn' Ha Ha' Hm Hi.
  assert ((r, Z.of_nat i) ∈ ctx_slots) as Hin.
  { pose proof (lookup_lt_Some _ _ _ Hi) as Hl. cbn in Hl. apply list_elem_of_lookup. exists i. clear -Hi Hl.
    do 14 (destruct i as [|i]; [injection Hi as <-; reflexivity|]). lia. }
  destruct (context_switch_spec c n h Hc Hn Ha) as (E1 & _ & _).
  destruct (context_switch_spec n' c h2 Hn' Hc Ha') as (_ & E2 & _).
  pose proof (ctx_slots_spec _ _ Hin) as (_ & _ & _ & Hj).
  rewrite (E2 _ _ Hin), Hm, (E1 _ _ Hin); done.
Qed.

Lemma context_switch_roundtrip_witness :
  getr (context_switch 4096 0 (context_switch 0 4096 demo_hart)) sp = 1002.
Proof.
  apply (context_switch_roundtrip 0 4096 4096 demo_hart (context_switch 0 4096 demo_hart) sp 1);
    [split; vm_compute; congruence..|left; vm_compute; congruence|right; vm_compute; congruence|done|reflexivity].
Defined.
