(* ===== verification/TaskCtx.v ===== *)
(** The saved context of a task and the switch between tasks
    (src/arceos/modules/axhal/src/arch/riscv/context.rs and mod.rs), on the hart of
    [Trap]: besides the callee-saved registers a switch changes the page table. *)
From S2P Require Import Prelude.
From S2P Require Import Trap.
Import Reg.

(** * Page table roots (mod.rs) *)

(** [satp]: the mode in bits 60 to 63 (8 is Sv39), the root's page number in the low 44. *)
Definition satp_sv39 (root : Z) : Z := Z.lor (Z.shiftl 8 60) (Z.shiftr root 12).
Definition read_page_table_root (h : Hart) : Z := Z.shiftl (Z.land (h_csr h Satp) (Z.ones 44)) 12.
Definition write_page_table_root (root : Z) (h : Hart) : Hart :=
  if read_page_table_root h =? root then h else setcsr Satp (satp_sv39 root) h.

(** * [TaskContext], at an address of the kernel *)

(** The words of the record: the registers, then [tp] and [satp]. *)
Definition ctx_tp : Z := 14.
Definition ctx_satp : Z := 15.
Definition ctx_words : Z := 16.
Definition ctx_get (a i : Z) (h : Hart) : Z := h_mem h (a + 8 * i).
Definition ctx_set (a i v : Z) (h : Hart) : Hart := store (a + 8 * i) v h.

(** [TaskContext::new]: zeroes, and the kernel's page table. *)
Definition ctx_new (kernel_root a : Z) (h : Hart) : Hart :=
  ctx_set a ctx_satp kernel_root (foldr (fun i h => ctx_set a (Z.of_nat i) 0 h) h (seq 0 15)).
(** [TaskContext::init]. *)
Definition ctx_init (entry kstack_top tls_area a : Z) (h : Hart) : Hart :=
  ctx_set a ctx_tp tls_area (ctx_set a 0 entry (ctx_set a 1 kstack_top h)).
(** [TaskContext::set_page_table_root]. *)
Definition set_page_table_root (root a : Z) (h : Hart) : Hart := ctx_set a ctx_satp root h.
(** [TaskContext::switch_to]; thread-local storage is not built. *)
Definition ctx_switch_to (self next : Z) (h : Hart) : Hart :=
  let h := if ctx_get self ctx_satp h =? ctx_get next ctx_satp h then h
           else write_page_table_root (ctx_get next ctx_satp h) h in
  context_switch self next h.

(** * Facts *)

(** A page table root: page aligned, in the 56 bits of a physical address. *)
Definition root_ok (root : Z) : Prop := 0 <= root < 2 ^ 56 /\ root mod 4096 = 0.

Lemma satp_root root h : root_ok root -> read_page_table_root (setcsr Satp (satp_sv39 root) h) = root.
Proof.
  intros [Hr Hm]. unfold read_page_table_root, setcsr, satp_sv39. cbn [h_csr]. rewrite decide_True by done.
  rewrite Z.land_lor_distr_l, !Z.land_ones, Z.shiftr_div_pow2 by lia.
  change (Z.shiftl 8 60 mod 2 ^ 44) with 0. rewrite Z.lor_0_l, Z.shiftl_mul_pow2 by lia.
  change (2 ^ 12) with 4096. change (2 ^ 56) with (2 ^ 44 * 4096) in Hr. rewrite Z.mod_small; lia.
Qed.

Lemma write_page_table_root_spec root h : root_ok root ->
  read_page_table_root (write_page_table_root root h) = root /\
  h_mem (write_page_table_root root h) = h_mem h /\ h_regs (write_page_table_root root h) = h_regs h.
Proof.
  intros Hr. unfold write_page_table_root. destruct (Z.eqb_spec (read_page_table_root h) root); [done|].
  split; [by apply satp_root|done].
Qed.

Lemma context_switch_csr c n h : h_csr (context_switch c n h) = h_csr h.
Proof. reflexivity. Qed.

Definition taskctx_ok (a : Z) : Prop := 0 <= a /\ a + 8 * ctx_words < USIZE.
Lemma taskctx_ctx a : taskctx_ok a -> ctx_ok a.
Proof. unfold taskctx_ok, ctx_words, ctx_ok, ctx_size. lia. Qed.

Lemma switch_to_spec self next h :
  taskctx_ok self -> taskctx_ok next -> apart (8 * ctx_words) self next ->
  root_ok (ctx_get next ctx_satp h) -> read_page_table_root h = ctx_get self ctx_satp h ->
  read_page_table_root (ctx_switch_to self next h) = ctx_get next ctx_satp h /\
  ctx_get self ctx_satp (ctx_switch_to self next h) = ctx_get self ctx_satp h /\
  (forall i, 0 <= i < ctx_words -> ctx_get next i (ctx_switch_to self next h) = ctx_get next i h) /\
  forall r i, (r, i) ∈ ctx_slots ->
    getr (ctx_switch_to self next h) r = ctx_get next i h /\ ctx_get self i (ctx_switch_to self next h) = getr h r.
Proof.
  intros Hs Hn Ha Hr Hcur. unfold ctx_switch_to.
  set (h1 := if _ =? _ then h else _).
  assert (read_page_table_root h1 = ctx_get next ctx_satp h /\ h_mem h1 = h_mem h /\ h_regs h1 = h_regs h) as (R1 & R2 & R3).
  { unfold h1. destruct (Z.eqb_spec (ctx_get self ctx_satp h) (ctx_get next ctx_satp h)) as [E|_];
      [by rewrite <- E|by apply write_page_table_root_spec]. }
  clearbody h1. destruct (context_switch_spec self next h1) as (E1 & E2 & E3); [by apply taskctx_ctx..| |].
  { unfold apart, ctx_words, ctx_size in *. lia. }
  unfold ctx_get, ctx_satp, ctx_words, apart in *. split_and!.
  - unfold read_page_table_root in *. by rewrite context_switch_csr.
  - rewrite E3, R2; [done|]. intros r i Hin%ctx_slots_spec. lia.
  - intros i Hi. rewrite E3, R2; [done|]. intros r j Hin%ctx_slots_spec. lia.
  - intros r i Hin. rewrite (E2 r i Hin), (E1 r i Hin), R2. unfold getr. by rewrite R3.
Qed.

(** The words of a context that was prepared for a new task. *)
Lemma ctx_prepared kroot root entry kstack_top tls n h :
  let h' := set_page_table_root root n (ctx_init entry kstack_top tls n (ctx_new kroot n h)) in
  ctx_get n ctx_satp h' = root /\ h_csr h' = h_csr h /\ h_regs h' = h_regs h /\
  (forall a, (a < n \/ n + 8 * ctx_words <= a) -> h_mem h' a = h_mem h a) /\
  forall r i, (r, i) ∈ ctx_slots -> ctx_get n i h' = if r =? ra then entry else if r =? sp then kstack_top else 0.
Proof.
  cbn zeta. split_and!; [|done|done| |].
  - unfold ctx_get, set_page_table_root, ctx_set, store. cbn [h_mem]. unfold upd. by rewrite Z.eqb_refl.
  - intros a Ha. unfold set_page_table_root, ctx_init, ctx_new, ctx_set, ctx_words, ctx_satp, ctx_tp in *.
    cbn [seq foldr store h_mem]. rewrite !upd_other by lia. done.
  - intros r i Hin. unfold ctx_get, set_page_table_root, ctx_init, ctx_new, ctx_set, ctx_satp, ctx_tp.
    unfold ctx_slots in Hin. cbn [seq foldr store h_mem]. unfold upd. cbn [Z.of_nat Pos.of_succ_nat Pos.succ].
    repeat (apply elem_of_cons in Hin as [[= -> ->]|Hin];
      [repeat match goal with |- context [?x =? ?y] => destruct (Z.eqb_spec x y); [lia || reflexivity|] end; lia|]).
    by apply elem_of_nil in Hin.
Qed.

(** * Theorems *)

(** The address space follows the task: [switch_to] saves the callee-saved registers of
    the running task to its context, continues with those of the next one, and leaves
    the next one's page table in [satp]; the contexts of other tasks and the page table
    recorded for each task are unchanged, so that switching back restores both. *)
Theorem switch_to_correct self next h :
  taskctx_ok self -> taskctx_ok next -> apart (8 * ctx_words) self next ->
  root_ok (ctx_get next ctx_satp h) -> read_page_table_root h = ctx_get self ctx_satp h ->
  read_page_table_root (ctx_switch_to self next h) = ctx_get next ctx_satp (ctx_switch_to self next h) /\
  (forall r i, (r, i) ∈ ctx_slots ->
     getr (ctx_switch_to self next h) r = ctx_get next i h /\ ctx_get self i (ctx_switch_to self next h) = getr h r) /\
  (root_ok (ctx_get self ctx_satp h) ->
   read_page_table_root (ctx_switch_to next self (ctx_switch_to self next h)) = read_page_table_root h /\
   forall r i, (r, i) ∈ ctx_slots -> getr (ctx_switch_to next self (ctx_switch_to self next h)) r = getr h r).
Proof.
  intros Hs Hn Ha Hr Hcur. destruct (switch_to_spec self next h Hs Hn Ha Hr Hcur) as (E1 & E2 & E3 & E4).
  split; [rewrite E3; [done|unfold ctx_satp, ctx_words; lia]|]. split; [done|]. intros Hr'.
  destruct (switch_to_spec next self (ctx_switch_to self next h) Hn Hs) as (F1 & _ & _ & F4).
  - unfold apart in *. lia.
  - by rewrite E2.
  - rewrite E3; [done|unfold ctx_satp, ctx_words; lia].
  - rewrite F1, E2. split; [done|]. intros r i Hin.
    destruct (F4 r i Hin) as [-> _]. by destruct (E4 r i Hin).
Qed.

(** A new task starts at its entry point, on its own kernel stack and in its own address
    space, whatever the task that switches to it was doing. *)
Theorem new_task_starts self n kroot root entry kstack_top tls h :
  taskctx_ok self -> taskctx_ok n -> apart (8 * ctx_words) self n ->
  root_ok root -> read_page_table_root h = ctx_get self ctx_satp h ->
  let h' := ctx_switch_to self n (set_page_table_root root n (ctx_init entry kstack_top tls n (ctx_new kroot n h))) in
  getr h' ra = entry /\ getr h' sp = kstack_top /\ getr h' s0 = 0 /\ read_page_table_root h' = root.
Proof.
  intros Hs Hn Ha Hr Hcur. cbn zeta.
  destruct (ctx_prepared kroot root entry kstack_top tls n h) as (P1 & P2 & P3 & P4 & P5).
  set (h1 := set_page_table_root _ _ _) in *. clearbody h1.
  destruct (switch_to_spec self n h1 Hs Hn Ha) as (E1 & _ & _ & E4).
  - by rewrite P1.
  - unfold read_page_table_root in *. rewrite P2, Hcur. unfold ctx_get. symmetry. apply P4.
    unfold apart, ctx_words, ctx_satp in *. lia.
  - assert (forall r i, (r, i) ∈ ctx_slots ->
      getr (ctx_switch_to self n h1) r = if r =? ra then entry else if r =? sp then kstack_top else 0) as G.
    { intros r i Hin. rewrite (proj1 (E4 r i Hin)). by apply P5. }
    rewrite (G ra 0), (G sp 1), (G s0 2), E1, P1 by (apply (bool_decide_unpack _); vm_compute; exact I). done.
Qed.

(** Two tasks whose contexts are at 0 and 4096, the second with a page table of its own. *)
Definition demo_tasks : Hart :=
  ctx_set 4096 ctx_satp 65536 (setcsr Satp (satp_sv39 0) demo_hart).

Lemma switch_to_correct_witness :
  read_page_table_root (ctx_switch_to 0 4096 demo_tasks) = 65536 /\
  getr (ctx_switch_to 4096 0 (ctx_switch_to 0 4096 demo_tasks)) sp = 1002.
Proof.
  destruct (switch_to_correct 0 4096 demo_tasks) as (H1 & _ & H2).
  - split; vm_compute; congruence.
  - split; vm_compute; congruence.
  - left. vm_compute. congruence.
  - split; [split; vm_compute; congruence|reflexivity].
  - reflexivity.
  - split; [rewrite H1; reflexivity|].
    destruct H2 as [_ H2]; [split; [split; vm_compute; congruence|reflexivity]|].
    rewrite (H2 sp 1); [reflexivity|]. apply (bool_decide_unpack _). vm_compute. exact I.
Defined.

Lemma new_task_starts_witness :
  let h' := ctx_switch_to 0 4096 (set_page_table_root 65536 4096 (ctx_init 10 20480 0 4096 (ctx_new 0 4096 demo_tasks))) in
  getr h' ra = 10 /\ getr h' sp = 20480 /\ getr h' s0 = 0 /\ read_page_table_root h' = 65536.
Proof.
  apply (new_task_starts 0 4096 0 65536 10 20480 0 demo_tasks).
  - split; vm_compute; congruence.
  - split; vm_compute; congruence.
  - left. vm_compute. congruence.
  - split; [split; vm_compute; congruence|reflexivity].
  - reflexivity.
Defined.
