(* ===== verification/Syscall.v ===== *)
(** The system call dispatcher (src/src/syscall_imp/mod.rs): from the number and the argument
    registers of a trap frame to the call with its arguments at their types, with the
    time accounting around it. What the calls do is a parameter; the files of the
    components model them one by one. *)
From S2P Require Import Prelude.
From S2P Require Import Errno.
From S2P Require Import FdTable.
From S2P Require Import TimeStat.
From S2P Require Import Trap.
Import Reg.

(** * System call numbers *)

(** [Sysno::new] of the syscalls crate for riscv64: the numbers that have a name. *)
Definition sysno_ranges : list (Z * Z) := [(0, 243); (258, 294); (403, 414); (416, 462)].
Definition Sysno_new (id : Z) : option Z :=
  if existsb (fun r => (r.1 <=? id) && (id <=? r.2)) sysno_ranges then Some id else None.
(** [From<u32> for Sysno] panics on a number without a name. *)
Definition Sysno_from (id : Z) : outcome Z :=
  match Sysno_new id with Some n => Ret n | None => Panic end.

(** * Calls *)

(** The calls with their arguments; pointers are addresses. *)
Inductive SysCall :=
| Sys_read (fd buf count : Z)
| Sys_write (fd buf count : Z)
| Sys_mmap (addr length prot flags fd offset : Z)
| Sys_ioctl (fd op argp : Z)
| Sys_writev (fd iov iocnt : Z)
| Sys_sched_yield
| Sys_nanosleep (req rem : Z)
| Sys_getpid
| Sys_getppid
| Sys_exit (status : Z)
| Sys_get_time_of_day (ts : Z)
| Sys_getcwd (buf size : Z)
| Sys_dup (old_fd : Z)
| Sys_dup3 (old_fd new_fd : Z)
| Sys_clone (flags user_stack ptid arg3 arg4 : Z)
| Sys_wait4 (pid exit_code_ptr option : Z)
| Sys_pipe2 (fds : Z)
| Sys_close (fd : Z)
| Sys_chdir (path : Z)
| Sys_mkdirat (dirfd path mode : Z)
| Sys_execve (path argv envp : Z)
| Sys_openat (dirfd path flags modes : Z)
| Sys_getdents64 (fd buf len : Z)
| Sys_linkat (old_dirfd old_path new_dirfd new_path flags : Z)
| Sys_unlinkat (dir_fd path flags : Z)
| Sys_uname (name : Z)
| Sys_fstat (fd kstatbuf : Z)
| Sys_statx (dirfd pathname flags mask statxbuf : Z)
| Sys_munmap (addr length : Z)
| Sys_times (tms : Z)
| Sys_brk (addr : Z)
| Sys_set_tid_address (tid_ptd : Z)
| Sys_clock_gettime (clock_id tp : Z)
| Sys_exit_group (status : Z).

(** The arms of the match, with the casts [as _] to the types of the parameters. *)
Definition syscall_of (n : Z) (tf : TrapFrame) : option SysCall :=
  let arg0 := tf_regs tf a0 in let arg1 := tf_regs tf a1 in let arg2 := tf_regs tf a2 in
  let arg3 := tf_regs tf a3 in let arg4 := tf_regs tf a4 in let arg5 := tf_regs tf a5 in
  match n with
  | 63 => Some (Sys_read (as_i32 arg0) arg1 arg2)
  | 64 => Some (Sys_write (as_i32 arg0) arg1 arg2)
  | 222 => Some (Sys_mmap arg0 arg1 (as_i32 arg2) (as_i32 arg3) (as_i32 arg4) (as_i64 arg5))
  | 29 => Some (Sys_ioctl (as_i32 arg0) arg1 arg2)
  | 66 => Some (Sys_writev (as_i32 arg0) arg1 (as_i32 arg2))
  | 124 => Some Sys_sched_yield
  | 101 => Some (Sys_nanosleep arg0 arg1)
  | 172 => Some Sys_getpid
  | 173 => Some Sys_getppid
  | 93 => Some (Sys_exit (as_i32 arg0))
  | 169 => Some (Sys_get_time_of_day arg0)
  | 17 => Some (Sys_getcwd arg0 arg1)
  | 23 => Some (Sys_dup (as_i32 arg0))
  | 24 => Some (Sys_dup3 (as_i32 arg0) (as_i32 arg1))
  | 220 => Some (Sys_clone arg0 arg1 arg2 arg3 arg4)
  | 260 => Some (Sys_wait4 (as_i32 arg0) arg1 (as_u32 arg2))
  | 59 => Some (Sys_pipe2 arg0)
  | 57 => Some (Sys_close (as_i32 arg0))
  | 49 => Some (Sys_chdir arg0)
  | 34 => Some (Sys_mkdirat (as_i32 arg0) arg1 (as_u32 arg2))
  | 221 => Some (Sys_execve arg0 arg1 arg2)
  | 56 => Some (Sys_openat (as_i32 arg0) arg1 (as_i32 arg2) (as_u32 arg3))
  | 61 => Some (Sys_getdents64 (as_i32 arg0) arg1 arg2)
  | 37 => Some (Sys_linkat (as_i32 arg0) arg1 (as_i32 arg2) arg3 (as_i32 arg4))
  | 35 => Some (Sys_unlinkat (as_i64 arg0) arg1 arg2)
  | 160 => Some (Sys_uname arg0)
  | 80 => Some (Sys_fstat (as_i32 arg0) arg1)
  | 291 => Some (Sys_statx (as_i32 arg0) arg1 (as_u32 arg2) (as_u32 arg3) arg4)
  | 215 => Some (Sys_munmap arg0 arg1)
  | 153 => Some (Sys_times arg0)
  | 214 => Some (Sys_brk arg0)
  | 96 => Some (Sys_set_tid_address arg0)
  | 113 => Some (Sys_clock_gettime (as_i32 arg0) arg1)
  | 94 => Some (Sys_exit_group (as_i32 arg0))
  | _ => None
  end.

(** * The handler *)

(** A call returns a value, or its task does not come back from it. *)
Inductive sys_ret := Returns (ans : Z) | NoReturn.

Section Handler.
Context {S : Type}.
(** What the calls do, and [axtask::exit]. *)
Context (call : SysCall -> S -> outcome (sys_ret * S)).
Context (exit : Z -> S -> outcome S).

(** [handle_syscall] of a call entered at time [e] and left at time [l]. The number is
    converted before anything else, by the log message. *)
Definition handle_syscall (e l : Z) (tf : TrapFrame) (syscall_num : Z) (st : TimeStat * S)
  : outcome (sys_ret * (TimeStat * S)) :=
  match Sysno_from (as_u32 syscall_num) with
  | Panic => Panic
  | Ret n =>
      let t := switch_into_kernel_mode e (fst st) in
      match syscall_of n tf with
      | Some c =>
          match call c (snd st) with
          | Ret (Returns ans, s) => Ret (Returns ans, (switch_into_user_mode l t, s))
          | Ret (NoReturn, s) => Ret (NoReturn, (t, s))
          | Panic => Panic
          end
      | None => match exit (code ENOSYS) (snd st) with Ret s => Ret (NoReturn, (t, s)) | Panic => Panic end
      end
  end.

(** The handler the trap code calls; it gets no value from a call that does not return. *)
Definition trap_syscall (e l : Z) (tf : TrapFrame) (num : Z) (st : TimeStat * S) : outcome (Z * (TimeStat * S)) :=
  match handle_syscall e l tf num st with
  | Ret (Returns ans, st') => Ret (ans, st')
  | _ => Panic
  end.
End Handler.

(** * Arguments *)

Definition i32 (z : Z) : Prop := -2147483648 <= z < 2147483648.
Definition u32 (z : Z) : Prop := 0 <= z < 4294967296.
Definition i64 (z : Z) : Prop := -9223372036854775808 <= z < 9223372036854775808.
Definition usize (z : Z) : Prop := 0 <= z < USIZE.

(** The arguments have the types of the parameters. *)
Definition call_typed (c : SysCall) : Prop :=
  match c with
  | Sys_read fd buf n | Sys_write fd buf n | Sys_getdents64 fd buf n => i32 fd /\ usize buf /\ usize n
  | Sys_mmap addr len prot flags fd off => usize addr /\ usize len /\ i32 prot /\ i32 flags /\ i32 fd /\ i64 off
  | Sys_ioctl fd op argp => i32 fd /\ usize op /\ usize argp
  | Sys_writev fd iov n => i32 fd /\ usize iov /\ i32 n
  | Sys_sched_yield | Sys_getpid | Sys_getppid => True
  | Sys_nanosleep a b | Sys_getcwd a b | Sys_munmap a b => usize a /\ usize b
  | Sys_exit z | Sys_exit_group z | Sys_dup z | Sys_close z => i32 z
  | Sys_get_time_of_day p | Sys_pipe2 p | Sys_chdir p | Sys_uname p | Sys_times p | Sys_brk p
  | Sys_set_tid_address p => usize p
  | Sys_dup3 a b => i32 a /\ i32 b
  | Sys_clone a b c d e => usize a /\ usize b /\ usize c /\ usize d /\ usize e
  | Sys_wait4 pid p o => i32 pid /\ usize p /\ u32 o
  | Sys_mkdirat fd p m => i32 fd /\ usize p /\ u32 m
  | Sys_execve a b c => usize a /\ usize b /\ usize c
  | Sys_openat fd p fl m => i32 fd /\ usize p /\ i32 fl /\ u32 m
  | Sys_linkat fd p fd' p' fl => i32 fd /\ usize p /\ i32 fd' /\ usize p' /\ i32 fl
  | Sys_unlinkat fd p fl => i64 fd /\ usize p /\ usize fl
  | Sys_fstat fd p | Sys_clock_gettime fd p => i32 fd /\ usize p
  | Sys_statx fd p fl m b => i32 fd /\ usize p /\ u32 fl /\ u32 m /\ usize b
  end.

(** ** Theorems *)

Lemma as_i32_range z : i32 (as_i32 z).
Proof.
  unfold i32, as_i32, as_signed. change (2 ^ 32) with 4294967296.
  pose proof (Z.mod_pos_bound z 4294967296 ltac:(lia)). repeat case_match; bool_to_prop; lia.
Qed.

Lemma as_i64_range z : i64 (as_i64 z).
Proof.
  unfold i64, as_i64, as_signed. change (2 ^ 64) with 18446744073709551616.
  pose proof (Z.mod_pos_bound z 18446744073709551616 ltac:(lia)). repeat case_match; bool_to_prop; lia.
Qed.

Lemma as_u32_range z : u32 (as_u32 z).
Proof. apply Z.mod_pos_bound. lia. Qed.

#[local] Hint Resolve as_i32_range as_i64_range as_u32_range : core.

Lemma syscall_of_typed n tf c :
  (forall r, a0 <= r <= a5 -> usize (tf_regs tf r)) -> syscall_of n tf = Some c ->
  Sysno_new n = Some n /\ call_typed c.
Proof.
  intros Hr. pose proof (Hr a0 ltac:(lia)). pose proof (Hr a1 ltac:(lia)). pose proof (Hr a2 ltac:(lia)).
  pose proof (Hr a3 ltac:(lia)). pose proof (Hr a4 ltac:(lia)). pose proof (Hr a5 ltac:(lia)).
  unfold syscall_of.
  repeat case_match; intros; simplify_eq; (split; [reflexivity|cbn [call_typed]; auto 10]).
Qed.

(** The argument registers of the frame of a trap. *)
Lemma frame_reg h r : 2 < r -> tf_regs (frame_of h (getr h sp)) r = getr h r.
Proof. intros Hr. cbn. rewrite upd_other by lia. unfold getr. destruct (Z.eqb_spec r 0); [lia|done]. Qed.


(** If neither the calls nor the end of a task panic, the dispatcher panics exactly on the
    numbers that Linux has not assigned: it does not return ENOSYS for them. A number
    that is assigned but has no arm ends the task with status 38. *)
Theorem syscall_panics_iff {S} (call : SysCall -> S -> outcome (sys_ret * S)) exit e l tf num t s :
  (forall c s, call c s <> Panic) -> (forall z s, exists s', exit z s = Ret s') ->
  (handle_syscall call exit e l tf num (t, s) = Panic <-> Sysno_new (as_u32 num) = None) /\
  (forall n, Sysno_new (as_u32 num) = Some n -> syscall_of n tf = None ->
     exists s', exit 38 s = Ret s' /\
       handle_syscall call exit e l tf num (t, s) = Ret (NoReturn, (switch_into_kernel_mode e t, s'))).
Proof.
  intros Hc He. unfold handle_syscall, Sysno_from. cbn [fst snd]. destruct (Sysno_new (as_u32 num)) as [n|]; [|done].
  change (code ENOSYS) with 38. destruct (He 38 s) as [s' Hs']. rewrite Hs'. split.
  - destruct (syscall_of n tf) as [c|]; [|done]. pose proof (Hc c s).
    by destruct (call c s) as [[[ans|] s1]|].
  - intros n' [= <-] ->. eauto.
Qed.

(** A program closes its descriptor 3. *)
Module SyscallDemo.
Definition hart : Hart :=
  mkHart (fun r => if r =? a7 then 57 else if r =? a0 then 3 else 1000 + r)
    (fun k => if decide (k = Sscratch) then 8192 else 77)
    (fun a => if a =? 8192 - 264 + 16 then 5 else if a =? 8192 - 264 + 24 then 6 else 0).
Definition nonblock (x : nat) (b : bool) : result unit LinuxError := Ok tt.
(** A kernel with the descriptor calls on the table of [FdTable] only. *)
Definition fd_kernel {T} (nonblock : T -> bool -> result unit LinuxError) (c : SysCall) (t : FlattenObjects T)
  : outcome (sys_ret * FlattenObjects T) :=
  let ret (o : outcome (Z * FlattenObjects T)) :=
    match o with Ret (r, t') => Ret (Returns r, t') | Panic => Panic end in
  match c with
  | Sys_close fd => ret (FdTable.sys_close fd t)
  | Sys_dup old_fd => ret (FdTable.sys_dup old_fd t)
  | Sys_dup3 old_fd new_fd => ret (FdTable.sys_dup2 nonblock old_fd new_fd t)
  | _ => Ret (Returns (- code ENOSYS), t)
  end.
Definition exit (z : Z) (t : FlattenObjects nat) : outcome (FlattenObjects nat) := Ret t.
End SyscallDemo.


Lemma syscall_panics_iff_witness :
  handle_syscall (fun _ (s : unit) => Ret (Returns 0, s)) (fun _ s => Ret s) 0 1
    (frame_of SyscallDemo.hart 0) 500 (ts_new, tt) = Panic.
Proof.
  apply (syscall_panics_iff (fun _ (s : unit) => Ret (Returns 0, s)) (fun _ s => Ret s) 0 1
    (frame_of SyscallDemo.hart 0) 500 ts_new tt).
  - discriminate.
  - intros z s. exists s. reflexivity.
  - reflexivity.
Defined.
