(* ===== verification/Str.v ===== *)
(** Strings and paths: the operations of [str] the kernel uses on paths, and
    [canonicalize] of axfs_vfs (src/vendor/axfs_vfs/src/path.rs) with its meaning as a
    stack of components. A [str] is the list of its bytes; every pattern the code
    searches for is a sequence of whole characters, so the byte functions below agree
    with the character functions of Rust on UTF-8 text. *)
From Stdlib Require Import Ascii.
From S2P Require Import Prelude Errno.

Definition str : Type := list ascii.
Definition lit (s : string) : str := String.list_ascii_of_string s.
Notation "$ s" := (lit s%string) (at level 9, s at level 0, only parsing).

Definition slash : ascii := ascii_of_nat 47.
Definition dot : ascii := ascii_of_nat 46.
(** [as_bytes]. *)
Definition str_bytes (s : str) : list Z := (fun c => Z.of_nat (Ascii.nat_of_ascii c)) <$> s.
Lemma length_str_bytes s : length (str_bytes s) = length s.
Proof. apply length_fmap. Qed.
#[export] Instance str_eq_dec : EqDecision str := _.

(** [starts_with], [strip_prefix], [ends_with] and [strip_suffix]. *)
Fixpoint starts_with (s p : str) {struct p} : bool :=
  match p, s with
  | [], _ => true
  | _, [] => false
  | c :: p', d :: s' => Ascii.eqb c d && starts_with s' p'
  end.
Definition strip_prefix (s p : str) : option str :=
  if starts_with s p then Some (drop (length p) s) else None.
Definition ends_with (s p : str) : bool := starts_with (reverse s) (reverse p).
Definition strip_suffix (s p : str) : option str :=
  if ends_with s p then Some (take (length s - length p) s) else None.

(** [trim_start_matches(c)], [trim_end_matches(c)] and [trim_matches(c)] of a
    character. *)
Fixpoint trim_start_char (c : ascii) (s : str) : str :=
  match s with
  | d :: s' => if Ascii.eqb d c then trim_start_char c s' else s
  | [] => []
  end.
Definition trim_end_char (c : ascii) (s : str) : str := reverse (trim_start_char c (reverse s)).
Definition trim_char (c : ascii) (s : str) : str := trim_end_char c (trim_start_char c s).

Lemma trim_start_char_length c s : (length (trim_start_char c s) <= length s)%nat.
Proof. induction s as [|d s IH]; cbn; [done|]. destruct (Ascii.eqb d c); cbn; lia. Qed.
Lemma trim_char_length c s : (length (trim_char c s) <= length s)%nat.
Proof.
  unfold trim_char, trim_end_char. rewrite length_reverse.
  pose proof (trim_start_char_length c (reverse (trim_start_char c s))) as H1.
  rewrite length_reverse in H1. pose proof (trim_start_char_length c s). lia.
Qed.

(** The characters of White_Space, in UTF-8, that [trim] removes. *)
Definition bytes_str (l : list nat) : str := ascii_of_nat <$> l.
Definition whitespace : list str :=
  ((fun n => bytes_str [n]) <$> [9; 10; 11; 12; 13; 32]%nat) ++
  (bytes_str <$> [[194; 133]; [194; 160]; [225; 154; 128]]%nat) ++
  ((fun n => bytes_str [226; 128; n]%nat) <$> [128; 129; 130; 131; 132; 133; 134; 135; 136; 137; 138; 168; 169; 175]%nat) ++
  (bytes_str <$> [[226; 129; 159]; [227; 128; 128]]%nat).
Fixpoint trim_start_ws (ws : list str) (fuel : nat) (s : str) : str :=
  match fuel with
  | O => s
  | S fuel =>
      match list_find (fun w => starts_with s w = true) ws with
      | Some (_, w) => trim_start_ws ws fuel (drop (length w) s)
      | None => s
      end
  end.
(** [trim]. *)
Definition trim (s : str) : str :=
  let s1 := trim_start_ws whitespace (length s) s in
  reverse (trim_start_ws (reverse <$> whitespace) (length s1) (reverse s1)).

(** [split(c)]. *)
Fixpoint split (c : ascii) (s : str) : list str :=
  match s with
  | [] => [[]]
  | d :: s' =>
      if Ascii.eqb d c then [] :: split c s'
      else match split c s' with
           | part :: rest => (d :: part) :: rest
           | [] => [[d]]
           end
  end.

(** [find(c)] and [rfind(c)]: the index of the first and last occurrence. *)
Fixpoint find_char (c : ascii) (s : str) : option nat :=
  match s with
  | [] => None
  | d :: s' => if Ascii.eqb d c then Some 0%nat else S <$> find_char c s'
  end.
Definition rfind (c : ascii) (s : str) : option nat :=
  (fun i => (length s - 1 - i)%nat) <$> find_char c (reverse s).

(** [str::from_utf8]: the well-formed byte sequences of Unicode. *)
Definition in_range (lo hi n : nat) : bool := ((lo <=? n) && (n <=? hi))%nat.
Definition tail_byte (n : nat) : bool := in_range 128 191 n.
Definition utf8_char (s : list nat) : option (list nat) :=
  match s with
  | a :: s1 =>
      if (a <? 128)%nat then Some s1
      else match s1 with
           | b :: s2 =>
               if in_range 194 223 a && tail_byte b then Some s2
               else match s2 with
                    | c :: s3 =>
                        if (((a =? 224)%nat && in_range 160 191 b) ||
                            (in_range 225 236 a && tail_byte b) ||
                            ((a =? 237)%nat && in_range 128 159 b) ||
                            (in_range 238 239 a && tail_byte b)) && tail_byte c then Some s3
                        else match s3 with
                             | d :: s4 =>
                                 if (((a =? 240)%nat && in_range 144 191 b) ||
                                     (in_range 241 243 a && tail_byte b) ||
                                     ((a =? 244)%nat && in_range 128 143 b)) &&
                                    tail_byte c && tail_byte d then Some s4 else None
                             | [] => None
                             end
                    | [] => None
                    end
           | [] => None
           end
  | [] => None
  end.
Fixpoint utf8_valid (fuel : nat) (s : list nat) : bool :=
  match fuel, s with
  | _, [] => true
  | O, _ => false
  | S fuel, _ => match utf8_char s with Some s' => utf8_valid fuel s' | None => false end
  end.
Definition from_utf8 (s : str) : option str :=
  if utf8_valid (length s) (nat_of_ascii <$> s) then Some s else None.

(** [char_ptr_to_str]: [None] is the null pointer, otherwise the bytes before the NUL. *)
Definition char_ptr_to_str (p : option str) : result str LinuxError :=
  match p with
  | None => Err EFAULT
  | Some s => match from_utf8 s with Some s => Ok s | None => Err EINVAL end
  end.

(** * [canonicalize] *)

(** The loop of the component [..]: characters are popped up to and including a
    slash, never the leading one. The buffer is the reversed string. *)
Fixpoint pop_component (rbuf : str) : str :=
  match rbuf with
  | [] => []
  | c :: rbuf' =>
      if decide (rbuf = [slash]) then rbuf
      else if Ascii.eqb c slash then rbuf' else pop_component rbuf'
  end.

(** One component. *)
Definition canon_part (is_absolute : bool) (buf part : str) : str :=
  if decide (part = []) then buf
  else if decide (part = [dot]) then buf
  else if decide (part = [dot; dot]) then reverse (pop_component (reverse buf))
  else
    let buf1 := match buf with
                | [] => if is_absolute then [slash] else []
                | _ => if ends_with buf [slash] then buf else buf ++ [slash]
                end in
    buf1 ++ part.

(** [axfs_vfs::path::canonicalize]. *)
Definition canonicalize (path : str) : str :=
  let is_absolute := starts_with path [slash] in
  let buf := foldl (canon_part is_absolute) [] (split slash path) in
  if is_absolute && bool_decide (buf = []) then [slash] else buf.

(** The reference: the components are pushed on a stack, [..] pops. *)
Definition resolve_part (stack : list str) (part : str) : list str :=
  if decide (part = [] \/ part = [dot]) then stack
  else if decide (part = [dot; dot]) then removelast stack
  else stack ++ [part].
Definition resolve (parts : list str) : list str := foldl resolve_part [] parts.
(** A stack as a path. *)
Fixpoint join (stack : list str) : str :=
  match stack with
  | [] => []
  | [p] => p
  | p :: stack' => p ++ slash :: join stack'
  end.
Definition render (is_absolute : bool) (stack : list str) : str :=
  (if is_absolute then [slash] else []) ++ join stack.

(** ** Lemmas *)

Lemma starts_with_spec s p : starts_with s p = true <-> exists s', s = p ++ s'.
Proof.
  revert s. induction p as [|c p IH]; intros s.
  - destruct s; cbn; split; eauto.
  - destruct s as [|d s]; cbn; [split; [done|by intros [? ?]]|].
    rewrite andb_true_iff, Ascii.eqb_eq, IH. split.
    + intros [-> [s' ->]]. by exists s'.
    + intros [s' [= -> ->]]. eauto.
Qed.

Lemma ends_with_spec s p : ends_with s p = true <-> exists s', s = s' ++ p.
Proof.
  unfold ends_with. rewrite starts_with_spec. split; intros [s' E].
  - exists (reverse s'). rewrite <- (reverse_involutive s), E, reverse_app. by rewrite reverse_involutive.
  - exists (reverse s'). by rewrite E, reverse_app.
Qed.

Lemma ends_with_snoc s c d : ends_with (s ++ [c]) [d] = Ascii.eqb d c.
Proof. unfold ends_with. rewrite reverse_snoc. cbn. by rewrite andb_true_r. Qed.

Lemma starts_with_slash_cons c s : starts_with (c :: s) [slash] = Ascii.eqb slash c.
Proof. cbn. by rewrite andb_true_r. Qed.

(** What may be a component of a canonical path. *)
Definition name_ok (p : str) : Prop := p <> [] /\ p <> [dot] /\ p <> [dot; dot] /\ slash ∉ p.

Lemma split_nonempty c s : split c s <> [].
Proof. induction s as [|d s IH]; cbn; [done|]. destruct (Ascii.eqb d c); [done|]. by destruct (split c s). Qed.

Lemma split_no_sep c s : Forall (fun p => c ∉ p) (split c s).
Proof.
  induction s as [|d s IH]; cbn.
  - constructor; [by apply not_elem_of_nil|constructor].
  - destruct (Ascii.eqb_spec d c) as [->|Hne].
    + constructor; [by apply not_elem_of_nil|done].
    + destruct (split c s) as [|p ps]; inversion_clear IH.
      * repeat constructor. by apply not_elem_of_cons; split; [|apply not_elem_of_nil].
      * constructor; [|done]. by apply not_elem_of_cons.
Qed.

Lemma split_app_sep c p s : c ∉ p -> split c (p ++ c :: s) = p :: split c s.
Proof.
  induction p as [|d p IH]; cbn; intros Hp.
  - by rewrite Ascii.eqb_refl.
  - apply not_elem_of_cons in Hp as [Hd Hp]. rewrite IH by done.
    by destruct (Ascii.eqb_spec d c).
Qed.

Lemma split_single c p : c ∉ p -> split c p = [p].
Proof.
  induction p as [|d p IH]; cbn; intros Hp; [done|]. apply not_elem_of_cons in Hp as [Hd Hp].
  rewrite IH by done. by destruct (Ascii.eqb_spec d c).
Qed.

Lemma join_cons p st : st <> [] -> join (p :: st) = p ++ slash :: join st.
Proof. by destruct st. Qed.

Lemma join_snoc st p : st <> [] -> join (st ++ [p]) = join st ++ slash :: p.
Proof.
  induction st as [|q st IH]; intros Hst; [done|]. destruct (decide (st = [])) as [->|Hne]; [done|].
  cbn [app]. rewrite !join_cons, IH by (try done; by destruct st). by rewrite <- app_assoc.
Qed.

Lemma split_join st : st <> [] -> Forall (fun p => slash ∉ p) st -> split slash (join st) = st.
Proof.
  induction 2 as [|p st Hp _ IH]; [done|]. destruct (decide (st = [])) as [->|Hne].
  - by apply split_single.
  - rewrite join_cons, split_app_sep by done. by rewrite IH.
Qed.

Lemma join_last st p : name_ok p -> exists s c, join (st ++ [p]) = s ++ [c] /\ c <> slash.
Proof.
  intros (Hp & _ & _ & Hs). destruct p as [|c p _] using rev_ind; [done|].
  apply not_elem_of_app in Hs as [_ Hc]. rewrite list_elem_of_singleton in Hc.
  destruct (decide (st = [])) as [->|Hne]; [by exists p, c|].
  exists (join st ++ slash :: p), c. rewrite join_snoc by done. by rewrite <- app_assoc.
Qed.

(** *** The invariant of the loop *)

Definition represents (ab : bool) (buf : str) (stack : list str) : Prop :=
  match stack with
  | [] => buf = [] \/ (ab = true /\ buf = [slash])
  | _ => buf = render ab stack
  end.

Lemma represents_snoc ab buf st p :
  represents ab buf (st ++ [p]) <-> buf = render ab (st ++ [p]).
Proof. by destruct st. Qed.

Lemma pop_component_app p r :
  slash ∉ p -> pop_component (p ++ slash :: r) = if decide (r = []) then [slash] else r.
Proof.
  induction p as [|c p IH]; cbn; intros Hp.
  - case_decide as E; [injection E as ->; by rewrite decide_True|].
    rewrite decide_False by congruence. done.
  - apply not_elem_of_cons in Hp as [Hc Hp]. rewrite decide_False by congruence.
    destruct (Ascii.eqb_spec c slash); [done|]. by apply IH.
Qed.

Lemma pop_component_all p : slash ∉ p -> pop_component p = [].
Proof.
  induction p as [|c p IH]; intros Hp; [done|]. apply not_elem_of_cons in Hp as [Hc Hp].
  cbn. rewrite decide_False by congruence. destruct (Ascii.eqb_spec c slash); [done|]. by apply IH.
Qed.

Lemma represents_push ab buf st p :
  Forall name_ok st -> name_ok p -> represents ab buf st -> represents ab (canon_part ab buf p) (st ++ [p]).
Proof.
  intros Hst Hp Hr. apply represents_snoc. unfold canon_part. destruct Hp as (P1 & P2 & P3 & P4).
  rewrite !decide_False by done. destruct st as [|q st _] using rev_ind.
  - destruct Hr as [-> | [-> ->]]; [by destruct ab|done].
  - apply represents_snoc in Hr. apply Forall_app in Hst as [_ Hq]. inversion_clear Hq.
    destruct (join_last st q) as (s & c & E & Hc); [done|].
    unfold render in *. rewrite E, app_assoc in Hr.
    assert (ends_with buf [slash] = false) as He.
    { rewrite Hr, ends_with_snoc. by destruct (Ascii.eqb_spec slash c). }
    rewrite He, (join_snoc (st ++ [q])), E by (by destruct st). rewrite Hr.
    destruct (_ ++ [c]) eqn:E2; [by destruct (app_eq_nil _ _ E2)|]. by rewrite <- E2, <- !app_assoc.
Qed.

Lemma represents_pop ab buf st :
  Forall name_ok st -> represents ab buf st ->
  represents ab (reverse (pop_component (reverse buf))) (removelast st).
Proof.
  intros Hst Hr. destruct st as [|q st _] using rev_ind; [destruct Hr as [-> | [-> ->]]; cbn; auto|].
  apply represents_snoc in Hr. rewrite removelast_last.
  apply Forall_app in Hst as [Hst Hq]. inversion_clear Hq as [|? ? (_ & _ & _ & Hs) _].
  rewrite <- elem_of_reverse in Hs. unfold render in Hr. subst buf.
  destruct (decide (st = [])) as [->|Hne].
  - destruct ab; cbn [join app]; [|rewrite pop_component_all by done; by left].
    rewrite reverse_cons, pop_component_app by done. rewrite decide_True by done. by right.
  - rewrite join_snoc, app_assoc, reverse_app, reverse_cons, <- app_assoc by done. cbn [app].
    rewrite pop_component_app by done. rewrite decide_False.
    + rewrite reverse_involutive. by destruct st.
    + intros E%(f_equal reverse). rewrite reverse_involutive in E. cbn in E. destruct st as [|p st _] using rev_ind; [done|].
      apply Forall_app in Hst as [_ Hp]. inversion_clear Hp. destruct (join_last st p) as (s & c & E' & _); [done|].
      rewrite E' in E. by destruct ab, s.
Qed.

Lemma canon_loop ab parts buf st :
  Forall (fun p => slash ∉ p) parts -> Forall name_ok st -> represents ab buf st ->
  represents ab (foldl (canon_part ab) buf parts) (foldl resolve_part st parts) /\
  Forall name_ok (foldl resolve_part st parts).
Proof.
  intros Hp. revert buf st. induction Hp as [|p parts Hp _ IH]; intros buf st Hst Hr; [done|].
  cbn [foldl]. apply IH; unfold resolve_part.
  - repeat case_decide; [done| |].
    + destruct st as [|q st _] using rev_ind; [done|]. rewrite removelast_last. by apply Forall_app in Hst as [? _].
    + apply Forall_app. split; [done|]. constructor; [|constructor]. unfold name_ok. naive_solver.
  - destruct (decide (p = [] \/ p = [dot])) as [E|N1]; [|destruct (decide (p = [dot; dot])) as [E|N2]].
    + unfold canon_part. by destruct E as [-> | ->].
    + unfold canon_part. rewrite (decide_False (P := p = [])), (decide_False (P := p = [dot])), decide_True
        by naive_solver. by apply represents_pop.
    + apply represents_push; [done| |done]. unfold name_ok. naive_solver.
Qed.

Lemma canonicalize_eq path :
  canonicalize path = render (starts_with path [slash]) (resolve (split slash path)) /\
  Forall name_ok (resolve (split slash path)).
Proof.
  unfold canonicalize, resolve. set (ab := starts_with path [slash]).
  destruct (canon_loop ab (split slash path) [] []) as [Hr Hn].
  { apply split_no_sep. }
  { constructor. }
  { by left. }
  split; [|done]. destruct (foldl resolve_part _ _) as [|q st] eqn:E.
  - destruct Hr as [-> | [-> ->]]; [by destruct ab|done].
  - cbn [represents] in Hr. rewrite Hr. unfold render. destruct ab; [done|]. done.
Qed.

Lemma resolve_names st : Forall name_ok st -> resolve st = st.
Proof.
  unfold resolve. assert (forall acc, Forall name_ok st -> foldl resolve_part acc st = acc ++ st) as H.
  { induction st as [|p st IH]; intros acc Hf; cbn; [by rewrite app_nil_r|]. inversion_clear Hf as [|? ? Hp Hst].
    rewrite IH by done. unfold resolve_part. destruct Hp as (P1 & P2 & P3 & _).
    rewrite decide_False by naive_solver. rewrite decide_False by done. by rewrite <- app_assoc. }
  intros Hf. by rewrite H.
Qed.

Lemma names_no_slash st : Forall name_ok st -> Forall (fun p => slash ∉ p) st.
Proof. intros H. eapply Forall_impl; [exact H|]. by intros p (_ & _ & _ & ?). Qed.

Lemma canonicalize_render ab st : Forall name_ok st -> canonicalize (render ab st) = render ab st.
Proof.
  intros Hst. destruct (canonicalize_eq (render ab st)) as [-> _]. f_equal.
  - destruct ab; [done|]. unfold render. cbn [app]. destruct Hst as [|p st (Hp & _ & _ & Hs) _]; [done|].
    destruct p as [|c p]; [done|]. apply not_elem_of_cons in Hs as [Hs _].
    apply Ascii.eqb_neq in Hs. destruct st; cbn; by rewrite Hs.
  - destruct (decide (st = [])) as [->|Hne]; [by destruct ab|].
    pose proof (split_join st Hne (names_no_slash _ Hst)) as Hs.
    destruct ab; cbn [render app].
    + cbn [split]. rewrite Ascii.eqb_refl, Hs. unfold resolve. cbn [foldl]. by apply resolve_names.
    + rewrite Hs. by apply resolve_names.
Qed.

(** [canonicalize] computes the normal form of a path: the components are
    interpreted from left to right on a stack, [.] and empty ones are skipped and [..]
    pops (and never leaves the root); the result has only proper names as
    components, and normalising it again changes nothing. *)
Theorem canonicalize_correct path :
  let ab := starts_with path [slash] in
  let st := resolve (split slash path) in
  canonicalize path = render ab st /\ Forall name_ok st /\
  canonicalize (canonicalize path) = canonicalize path.
Proof.
  intros ab st. destruct (canonicalize_eq path) as [E Hn]. fold ab st in E, Hn. split_and!; [done|done|].
  rewrite E. by apply canonicalize_render.
Qed.
