(* ===== verification/Clock.v ===== *)
(** Clocks: the timer of riscv64-qemu-virt and the time values of axhal
    (src/arceos/modules/axhal/src/time.rs, platform/riscv64_qemu_virt/time.rs), the
    time calls of the POSIX layer (src/arceos/api/arceos_posix_api/src/imp/time.rs) with
    their system calls (src/src/syscall_imp/utils/time.rs, task/schedule.rs), and
    [sys_uname] (utils/system_info.rs). *)
From S2P Require Import Prelude.
From S2P Require Import Errno.
From S2P Require Import TimeStat.
From S2P Require Import Str.

(** * Durations (core::time) *)

(** Seconds in 64 bits and nanoseconds below a second. *)
Record Duration := mkDur { as_secs : Z; subsec_nanos : Z }.
Definition subsec_micros (d : Duration) : Z := subsec_nanos d / 1000.
(** The number of nanoseconds, for specifications. *)
Definition dur_nanos (d : Duration) : Z := as_secs d * NANOS_PER_SEC + subsec_nanos d.
(** [Duration::new]: a carry out of the seconds panics. *)
Definition dur_new (secs nanos : Z) : outcome Duration :=
  if nanos <? NANOS_PER_SEC then Ret (mkDur secs nanos)
  else match checked_add secs (nanos / NANOS_PER_SEC) with
       | Some s => Ret (mkDur s (nanos mod NANOS_PER_SEC))
       | None => Panic
       end.
Definition from_nanos (n : Z) : Duration := mkDur (n / NANOS_PER_SEC) (n mod NANOS_PER_SEC).
(** [+] and [-] panic on overflow; [checked_sub]. *)
Definition dur_add (a b : Duration) : outcome Duration :=
  match checked_add (as_secs a) (as_secs b) with
  | None => Panic
  | Some s =>
      let n := subsec_nanos a + subsec_nanos b in
      if n <? NANOS_PER_SEC then Ret (mkDur s n)
      else match checked_add s 1 with Some s => Ret (mkDur s (n - NANOS_PER_SEC)) | None => Panic end
  end.
Definition dur_checked_sub (a b : Duration) : option Duration :=
  match checked_sub (as_secs a) (as_secs b) with
  | None => None
  | Some s =>
      if subsec_nanos b <=? subsec_nanos a then Some (mkDur s (subsec_nanos a - subsec_nanos b))
      else match checked_sub s 1 with
           | Some s => Some (mkDur s (subsec_nanos a + NANOS_PER_SEC - subsec_nanos b))
           | None => None
           end
  end.
Definition dur_sub (a b : Duration) : outcome Duration :=
  match dur_checked_sub a b with Some d => Ret d | None => Panic end.

(** * The clock (axhal) *)

Definition TIMER_FREQUENCY : Z := 10000000.
Definition NANOS_PER_TICK : Z := NANOS_PER_SEC / TIMER_FREQUENCY.
Definition ticks_to_nanos (ticks : Z) : Z := wrap (ticks * NANOS_PER_TICK).
Definition nanos_to_ticks (nanos : Z) : Z := nanos / NANOS_PER_TICK.
(** [ticks] is [current_ticks()], [epoch] is [epochoffset_nanos()]. *)
Definition monotonic_time_nanos (ticks : Z) : Z := ticks_to_nanos ticks.
Definition monotonic_time (ticks : Z) : Duration := from_nanos (monotonic_time_nanos ticks).
Definition wall_time_nanos (epoch ticks : Z) : Z := monotonic_time_nanos ticks +w epoch.
Definition wall_time (epoch ticks : Z) : Duration := from_nanos (wall_time_nanos epoch ticks).

(** * Conversions (time.rs) *)

Record timespec := mkTimespec { tv_sec : Z; tv_nsec : Z }.
Record timeval := mkTimeval { tvv_sec : Z; tv_usec : Z }.
Definition timespec_dur (ts : timespec) : outcome Duration := dur_new (wrap (tv_sec ts)) (as_u32 (tv_nsec ts)).
Definition timeval_dur (tv : timeval) : outcome Duration :=
  dur_new (wrap (tvv_sec tv)) (as_u32 (as_u32 (tv_usec tv) * 1000)).
Definition dur_timespec (d : Duration) : timespec := mkTimespec (as_i64 (as_secs d)) (subsec_nanos d).
Definition dur_timeval (d : Duration) : timeval := mkTimeval (as_i64 (as_secs d)) (subsec_micros d).

(** * System calls *)

Definition CLOCK_REALTIME : Z := 0.
Definition CLOCK_MONOTONIC : Z := 1.

(** [sys_clock_gettime]: the result and what is stored; [null] tells whether the
    pointer is null. *)
Definition sys_clock_gettime (epoch ticks clk : Z) (null : bool) : Z * option timespec :=
  if null then (syscall_body as_i32 (Err EFAULT), None)
  else if as_u32 clk =? CLOCK_REALTIME then (syscall_body as_i32 (Ok 0), Some (dur_timespec (wall_time epoch ticks)))
  else if as_u32 clk =? CLOCK_MONOTONIC then (syscall_body as_i32 (Ok 0), Some (dur_timespec (monotonic_time ticks)))
  else (syscall_body as_i32 (Err EINVAL), None).

(** [axtask::sleep]: the deadline; [wake] gives the ticks at which the task runs again. *)
Definition sleep (wake : Duration -> Z) (epoch ticks : Z) (dur : Duration) : outcome Z :=
  match dur_add (wall_time epoch ticks) dur with
  | Ret deadline => Ret (wake deadline)
  | Panic => Panic
  end.

(** [sys_nanosleep]: the result and what is stored in [rem]. *)
Definition nanosleep_request (req : option timespec) : option timespec :=
  match req with
  | Some ts => if (tv_nsec ts <? 0) || (999999999 <? tv_nsec ts) then None else Some ts
  | None => None
  end.
Definition sys_nanosleep (wake : Duration -> Z) (epoch ticks : Z) (req : option timespec) (rem_null : bool)
  : outcome (Z * option timespec) :=
  match nanosleep_request req with
  | None => Ret (syscall_body as_i32 (Err EINVAL), None)
  | Some ts =>
      match timespec_dur ts with
      | Panic => Panic
      | Ret dur =>
          match sleep wake epoch ticks dur with
          | Panic => Panic
          | Ret after =>
              match dur_sub (monotonic_time after) (monotonic_time ticks) with
              | Panic => Panic
              | Ret actual =>
                  match dur_checked_sub dur actual with
                  | Some diff =>
                      Ret (syscall_body as_i32 (Err EINTR), if rem_null then None else Some (dur_timespec diff))
                  | None => Ret (syscall_body as_i32 (Ok 0), None)
                  end
              end
          end
      end
  end.

(** [sys_get_time_of_day]. *)
Definition sys_get_time_of_day (ticks : Z) : Z * timeval :=
  let current_us := monotonic_time_nanos ticks / 1000 in
  (syscall_body as_i32 (Ok 0), mkTimeval (as_i64 (current_us / 1000000)) (as_i64 (current_us mod 1000000))).

(** * System information *)

(** [UtsName::from_str]: slicing 65 bytes with a longer string panics. *)
Definition uts_from_str (info : str) : outcome (list Z) :=
  if (length info <=? 65)%nat
  then Ret (str_bytes info ++ replicate (65 - length info) 0) else Panic.
Definition uts_default : list str :=
  [$"Starry"; $"Starry - machine[0]"; $"10.0.0"; $"10.0.0"; $"10.0.0";
   $"https://github.com/BattiestStone4/Starry-On-ArceOS"].
(** [sys_uname]: the bytes of the [UtsName] that is stored. *)
Definition sys_uname : outcome (Z * list Z) :=
  match (fix go l := match l with
                     | [] => Ret []
                     | s :: l => match uts_from_str s, go l with
                                 | Ret b, Ret bs => Ret (b ++ bs)
                                 | _, _ => Panic
                                 end
                     end) uts_default with
  | Ret bs => Ret (0, bs)
  | Panic => Panic
  end.

(** * Facts *)

Definition dur_ok (d : Duration) : Prop := 0 <= as_secs d < USIZE /\ 0 <= subsec_nanos d < NANOS_PER_SEC.
Create HintDb clock.

Lemma from_nanos_ok n : 0 <= n < USIZE -> dur_ok (from_nanos n) /\ dur_nanos (from_nanos n) = n.
Proof. intros Hn. unfold dur_ok, from_nanos, dur_nanos, NANOS_PER_SEC. cbn. lia. Qed.

Lemma monotonic_ok ticks : dur_ok (monotonic_time ticks).
Proof. apply from_nanos_ok, wrap_range. Qed.
#[export] Hint Resolve monotonic_ok : clock.

Lemma dur_add_spec a b : dur_ok a -> dur_ok b ->
  match dur_add a b with
  | Ret d => dur_ok d /\ dur_nanos d = dur_nanos a + dur_nanos b
  | Panic => USIZE * NANOS_PER_SEC <= dur_nanos a + dur_nanos b
  end.
Proof.
  unfold dur_ok, dur_nanos, dur_add, checked_add, NANOS_PER_SEC. intros [A1 A2] [B1 B2].
  destruct (Z.ltb_spec (as_secs a + as_secs b) USIZE); [|lia].
  destruct (Z.ltb_spec (subsec_nanos a + subsec_nanos b) 1000000000); [cbn; lia|].
  destruct (Z.ltb_spec (as_secs a + as_secs b + 1) USIZE); cbn; lia.
Qed.

Lemma dur_checked_sub_spec a b : dur_ok a -> dur_ok b ->
  match dur_checked_sub a b with
  | Some d => dur_ok d /\ dur_nanos d = dur_nanos a - dur_nanos b
  | None => dur_nanos a < dur_nanos b
  end.
Proof.
  unfold dur_ok, dur_nanos, dur_checked_sub, checked_sub, NANOS_PER_SEC. intros [A1 A2] [B1 B2].
  destruct (Z.leb_spec (as_secs b) (as_secs a)); [|lia].
  destruct (Z.leb_spec (subsec_nanos b) (subsec_nanos a)); [cbn; lia|].
  destruct (Z.leb_spec 1 (as_secs a - as_secs b)); cbn; lia.
Qed.

Lemma timespec_dur_spec ts : 0 <= tv_nsec ts < NANOS_PER_SEC -> timespec_dur ts = Ret (mkDur (wrap (tv_sec ts)) (tv_nsec ts)).
Proof.
  intros Hn. unfold timespec_dur, dur_new, as_u32, as_unsigned. unfold NANOS_PER_SEC in *.
  rewrite Z.mod_small by (change (2 ^ 32) with U32; lia). by rewrite (proj2 (Z.ltb_lt _ _)) by lia.
Qed.

(** * Theorems *)

(** A [timespec] with nanoseconds in range and seconds that are not negative survives
    the conversion to a [Duration] and back; a [timeval] does to the microsecond. *)
Theorem timespec_roundtrip sec nsec usec :
  0 <= sec < 2 ^ 63 -> 0 <= nsec < NANOS_PER_SEC -> 0 <= usec < 1000000 ->
  (exists d, timespec_dur (mkTimespec sec nsec) = Ret d /\ dur_timespec d = mkTimespec sec nsec) /\
  (exists d, timeval_dur (mkTimeval sec usec) = Ret d /\ dur_timeval d = mkTimeval sec usec).
Proof.
  intros Hs Hn Hu. change (2 ^ 63) with 9223372036854775808 in Hs. split.
  - eexists. split; [by apply timespec_dur_spec|]. unfold dur_timespec. cbn.
    by rewrite wrap_small, as_i64_small by lia.
  - unfold timeval_dur, dur_new, as_u32, as_unsigned, NANOS_PER_SEC in *. change (2 ^ 32) with U32. cbn [tvv_sec tv_usec].
    rewrite (Z.mod_small usec), (Z.mod_small (usec * 1000)), wrap_small by lia.
    rewrite (proj2 (Z.ltb_lt _ _)) by lia. eexists. split; [done|].
    unfold dur_timeval, subsec_micros. cbn. rewrite as_i64_small, Z.div_mul by lia. done.
Qed.

(** The clocks never run backwards and give times that are in range, until the tick
    counter passes 2^64 nanoseconds (584 years). *)
Theorem clock_gettime_monotone epoch t1 t2 clk :
  0 <= t1 <= t2 -> 0 <= epoch -> t2 * NANOS_PER_TICK + epoch < USIZE -> clk = CLOCK_REALTIME \/ clk = CLOCK_MONOTONIC ->
  exists a b, sys_clock_gettime epoch t1 clk false = (0, Some a) /\ sys_clock_gettime epoch t2 clk false = (0, Some b) /\
    0 <= tv_nsec a < NANOS_PER_SEC /\ 0 <= tv_nsec b < NANOS_PER_SEC /\
    tv_sec b * NANOS_PER_SEC + tv_nsec b - (tv_sec a * NANOS_PER_SEC + tv_nsec a) = (t2 - t1) * NANOS_PER_TICK.
Proof.
  intros Ht He Hw. unfold NANOS_PER_TICK, TIMER_FREQUENCY, NANOS_PER_SEC in Hw. change (1000000000 / 10000000) with 100 in Hw.
  unfold sys_clock_gettime, wall_time, wall_time_nanos, monotonic_time, monotonic_time_nanos, ticks_to_nanos, from_nanos,
    dur_timespec, NANOS_PER_TICK, TIMER_FREQUENCY, NANOS_PER_SEC. change (1000000000 / 10000000) with 100. cbn [as_secs subsec_nanos].
  rewrite !(wrap_small (_ * 100)), !wadd_small by lia.
  intros [-> | ->]; cbn [Z.eqb as_u32 as_unsigned Z.modulo]; (eexists _, _; split; [reflexivity|]; split; [reflexivity|]; cbn [tv_sec tv_nsec];
    rewrite !as_i64_small by lia; lia).
Qed.

(** [gettimeofday] is in range and is the monotonic clock in microseconds. *)
Theorem get_time_of_day_correct ticks :
  0 <= ticks -> ticks * NANOS_PER_TICK < USIZE ->
  exists tv, sys_get_time_of_day ticks = (0, tv) /\ 0 <= tv_usec tv < 1000000 /\
    tvv_sec tv * 1000000 + tv_usec tv = ticks / 10.
Proof.
  intros Ht Hw. unfold sys_get_time_of_day, monotonic_time_nanos, ticks_to_nanos.
  unfold NANOS_PER_TICK, TIMER_FREQUENCY, NANOS_PER_SEC in *. change (1000000000 / 10000000) with 100 in *.
  rewrite wrap_small by lia. eexists. split; [reflexivity|]. cbn [tv_usec tvv_sec].
  rewrite !as_i64_small by lia. lia.
Qed.

(** [nanosleep] with a valid request: it returns 0 only after more than the requested
    time, and otherwise [EINTR] with the exact remaining time (0 when the sleep was
    exactly as long as requested); an invalid request is refused without sleeping. *)
Theorem nanosleep_correct wake epoch ticks req rem_null r rem :
  sys_nanosleep wake epoch ticks req rem_null = Ret (r, rem) ->
  match nanosleep_request req with
  | None => r = - code EINVAL
  | Some ts =>
      exists deadline, sleep wake epoch ticks (mkDur (wrap (tv_sec ts)) (tv_nsec ts)) = Ret (wake deadline) /\
      let slept := dur_nanos (monotonic_time (wake deadline)) - dur_nanos (monotonic_time ticks) in
      let want := wrap (tv_sec ts) * NANOS_PER_SEC + tv_nsec ts in
      0 <= slept /\
      if slept <=? want then r = - code EINTR /\
        (rem_null = false -> exists d, rem = Some (dur_timespec d) /\ dur_nanos d = want - slept)
      else r = 0
  end.
Proof.
  unfold sys_nanosleep. destruct (nanosleep_request req) as [ts|] eqn:Eq; [|intros [= <- _]; reflexivity].
  assert (0 <= tv_nsec ts < NANOS_PER_SEC) as Hn.
  { unfold nanosleep_request in Eq. destruct req as [ts'|]; [|done].
    destruct (_ || _) eqn:E; [done|]. injection Eq as <-. apply orb_false_iff in E as [E1 E2]. unfold NANOS_PER_SEC. bool_to_prop. lia. }
  rewrite timespec_dur_spec by done. set (dur := mkDur (wrap (tv_sec ts)) (tv_nsec ts)).
  assert (dur_ok dur) as Hd by (split; [apply wrap_range|done]).
  unfold sleep. destruct (dur_add (wall_time epoch ticks) dur) as [dl|]; [|done].
  unfold dur_sub. pose proof (dur_checked_sub_spec (monotonic_time (wake dl)) (monotonic_time ticks)
    (monotonic_ok _) (monotonic_ok _)) as Hs.
  destruct (dur_checked_sub _ (monotonic_time ticks)) as [actual|]; [|done]. destruct Hs as [Hok Ha].
  pose proof (dur_checked_sub_spec dur actual Hd Hok) as Hc. intros Hr. exists dl. split; [done|]. cbn zeta.
  rewrite <- Ha. change (wrap (tv_sec ts) * NANOS_PER_SEC + tv_nsec ts) with (dur_nanos dur).
  split; [unfold dur_nanos, NANOS_PER_SEC in *; destruct Hok; lia|].
  destruct (dur_checked_sub dur actual) as [diff|]; injection Hr as <- <-.
  - rewrite (proj2 (Z.leb_le _ _)); [|destruct Hc as [[? ?] ?]; unfold dur_nanos, NANOS_PER_SEC in *; lia].
    split; [reflexivity|]. intros ->. exists diff. by destruct Hc.
  - by rewrite (proj2 (Z.leb_gt _ _)) by lia.
Qed.

(** A negative number of seconds stops the kernel: the deadline overflows. *)
Theorem nanosleep_negative_panics wake epoch ticks sec rem_null :
  -2 ^ 63 <= sec < 0 -> - sec <= as_secs (wall_time epoch ticks) ->
  sys_nanosleep wake epoch ticks (Some (mkTimespec sec 0)) rem_null = Panic.
Proof.
  intros Hs Hw. unfold sys_nanosleep, nanosleep_request. cbn [tv_nsec Z.ltb Z.compare orb].
  rewrite timespec_dur_spec by done. unfold sleep, dur_add, checked_add. cbn [as_secs tv_sec].
  change (2 ^ 63) with 9223372036854775808 in Hs.
  replace (wrap sec) with (sec + USIZE) by (unfold wrap; lia).
  by rewrite (proj2 (Z.ltb_ge _ _)) by lia.
Qed.

(** [uname] stores six fields of 65 bytes, each a NUL-terminated string. *)
Theorem uname_fields :
  exists bs, sys_uname = Ret (0, bs) /\ length bs = (6 * 65)%nat /\
    forall i s, uts_default !! i = Some s ->
      take (length s + 1) (drop (65 * i) bs) = str_bytes s ++ [0].
Proof.
  eexists. split; [reflexivity|]. split; [reflexivity|]. intros i s Hi.
  do 6 (destruct i as [|i]; [injection Hi as <-; vm_compute; reflexivity|]). done.
Qed.

Lemma nanosleep_correct_witness :
  exists deadline, sleep (fun _ => 60) 0 10 (mkDur 0 5000) = Ret 60 /\ deadline = mkDur 0 6000.
Proof.
  destruct (nanosleep_correct (fun _ => 60) 0 10 (Some (mkTimespec 0 5000)) true (- code EINTR) None eq_refl)
    as (dl & H & _).
  exists (mkDur 0 6000). split; [exact H|reflexivity].
Defined.
Lemma nanosleep_negative_panics_witness :
  sys_nanosleep (fun _ => 0) 0 20000000 (Some (mkTimespec (-1) 0)) true = Panic.
Proof. apply (nanosleep_negative_panics (fun _ => 0) 0 20000000 (-1) true); vm_compute; [split|]; congruence. Defined.
Lemma clock_gettime_monotone_witness :
  exists a b, sys_clock_gettime 0 5 CLOCK_MONOTONIC false = (0, Some a) /\ sys_clock_gettime 0 9 CLOCK_MONOTONIC false = (0, Some b) /\
    tv_sec b * NANOS_PER_SEC + tv_nsec b - (tv_sec a * NANOS_PER_SEC + tv_nsec a) = 400.
Proof.
  destruct (clock_gettime_monotone 0 5 9 CLOCK_MONOTONIC) as (a & b & H1 & H2 & _ & _ & H3);
    [lia|lia|reflexivity|by right|]. exists a, b. exact (conj H1 (conj H2 H3)).
Defined.
