(* ===== verification/IoMpx.v ===== *)
(** I/O multiplexing (arceos_posix_api/src/imp/io_mpx): [select] with its descriptor
    sets and [epoll] with its interest list, on the descriptor table of FdTable. What the
    objects report when they are polled, the clock and the changes other tasks make
    between two passes of a waiting loop are given as the moments of the passes. *)
From stdpp Require Import sorting.
From S2P Require Import Prelude.
From S2P Require Import Errno.
From S2P Require Import MemorySet.
From S2P Require Import FdTable.
From S2P Require Import Clock.

(** [PollState]. *)
Record PollState := mkPoll { readable : bool; writable : bool }.

(** * Descriptor sets (select.rs) *)

Definition FD_SETSIZE : Z := 1024.
Definition BITS_PER_USIZE : Z := 64.
(** [div_ceil(BITS_PER_USIZE)]. *)
Definition usizes (nfds : Z) : nat := Z.to_nat ((nfds + 63) / 64).

(** An [fd_set] is its array of words; a null pointer is [None]. *)
Definition fd_set : Type := list Z.
(** The three sets of the caller. *)
Record UserSets := mkSets { us_read : option fd_set; us_write : option fd_set; us_except : option fd_set }.

(** An update of [unsafe { *fds }]: the block is a value, so the update is made to a
    copy of the set, which is dropped. *)
Definition on_copy (f : fd_set -> fd_set) (fds : fd_set) : fd_set := let _copy := f fds in fds.

(** [zero_fd_set], [set_fd_set]: the set of the caller afterwards. *)
Definition zero_fd_set (nfds : Z) (fds : option fd_set) : option fd_set :=
  on_copy (fun bits => replicate (usizes nfds) 0 ++ drop (usizes nfds) bits) <$> fds.
Definition set_fd_set (fd : Z) (fds : option fd_set) : option fd_set :=
  on_copy (fun bits => alter (fun w => Z.lor w (Z.shiftl 1 (fd mod BITS_PER_USIZE)))
                             (Z.to_nat (fd / BITS_PER_USIZE)) bits) <$> fds.

(** [FdSets]: the requested descriptors. *)
Record FdSets := mkFdSets { fs_nfds : Z; fs_read : list Z; fs_write : list Z; fs_except : list Z }.

(** The closure [copy_from_fd_set]; [FdSets::from]. *)
Definition copy_from_fd_set (n : nat) (fds : option fd_set) : list Z :=
  match fds with None => replicate n 0 | Some bits => take n bits end.
Definition FdSets_from (nfds : Z) (us : UserSets) : FdSets :=
  let nfds := Z.min nfds FD_SETSIZE in
  let n := usizes nfds in
  mkFdSets nfds (copy_from_fd_set n (us_read us)) (copy_from_fd_set n (us_write us))
    (copy_from_fd_set n (us_except us)).

Section select.
Context {T : Type}.
(** What an object reports when it is polled. *)
Variable poll : T -> result PollState LinuxError.
(** [FD_TABLE] and the sets of the caller. *)
Definition SelM (A : Type) : Type := M (FlattenObjects T * UserSets) LinuxError A.
Definition sel_file (fd : Z) : SelM T := zoom fst (fun t st => (t, snd st)) (get_file_like fd).
Definition mod_sets (f : UserSets -> UserSets) : SelM unit := modify (fun '(t, us) => (t, f us)).

(** One requested descriptor of the loop of [poll_all]: its contribution to [res_num]. *)
Definition poll_fd (fd bit rd wr ex : Z) : SelM Z :=
  f ← sel_file (as_i32 fd);
  match poll f with
  | Ok state =>
      let r := readable state && negb (Z.land rd bit =? 0) in
      let w := writable state && negb (Z.land wr bit =? 0) in
      _ ← (if r then mod_sets (fun us => mkSets (set_fd_set fd (us_read us)) (us_write us) (us_except us))
           else mret tt);
      _ ← (if w then mod_sets (fun us => mkSets (us_read us) (set_fd_set fd (us_write us)) (us_except us))
           else mret tt);
      mret ((if r then 1 else 0) + (if w then 1 else 0))
  | Err _ =>
      if negb (Z.land ex bit =? 0) then
        _ ← mod_sets (fun us => mkSets (us_read us) (us_write us) (set_fd_set fd (us_except us)));
        mret 1
      else mret 0
  end.

(** The loop over the bits of one word: [n] is [BITS_PER_USIZE - j]. *)
Fixpoint poll_bits (nfds i rd wr ex : Z) (n : nat) (j : Z) : SelM Z :=
  match n with
  | O => M_ret 0
  | S n' =>
      if negb (i + j <? nfds) then M_ret 0 else
      let bit := Z.shiftl 1 j in
      if Z.land (Z.lor (Z.lor rd wr) ex) bit =? 0 then poll_bits nfds i rd wr ex n' (j + 1)
      else
        k ← poll_fd (i + j) bit rd wr ex;
        rest ← poll_bits nfds i rd wr ex n' (j + 1);
        M_ret (k + rest)
  end.

(** The loop over the words, which skips the words without requests. *)
Fixpoint poll_words (nfds i : Z) (rds wrs exs : list Z) : SelM Z :=
  match rds, wrs, exs with
  | rd :: rds', wr :: wrs', ex :: exs' =>
      if negb (i <? nfds) then M_ret 0 else
      if Z.lor (Z.lor rd wr) ex =? 0 then poll_words nfds (i + BITS_PER_USIZE) rds' wrs' exs'
      else
        k ← poll_bits nfds i rd wr ex 64 0;
        rest ← poll_words nfds (i + BITS_PER_USIZE) rds' wrs' exs';
        M_ret (k + rest)
  | _, _, _ => M_ret 0
  end.

(** [FdSets::poll_all]. *)
Definition select_poll_all (s : FdSets) : SelM Z :=
  poll_words (fs_nfds s) 0 (fs_read s) (fs_write s) (fs_except s).
End select.

(** * Waiting *)

(** One pass of a waiting loop: the descriptor table, what the objects report, the
    interest lists and the time of the check of the deadline. *)
Record Moment (T : Type) := mkMoment {
  mo_table : FlattenObjects T;
  mo_poll : T -> result PollState LinuxError;
  mo_epolls : gmap Z (list (Z * (Z * Z)));
  mo_now : Duration;
}.
Arguments mkMoment {T} _ _ _ _.
Arguments mo_table {T} _.
Arguments mo_poll {T} _.
Arguments mo_epolls {T} _.
Arguments mo_now {T} _.

(** [wall_time() >= ddl]. *)
Definition dur_le (a b : Duration) : bool :=
  (as_secs a <? as_secs b) || ((as_secs a =? as_secs b) && (subsec_nanos a <=? subsec_nanos b)).
(** [deadline.is_some_and(|ddl| wall_time() >= ddl)]. *)
Definition expired (deadline : option Duration) (now : Duration) : bool :=
  match deadline with Some ddl => dur_le ddl now | None => false end.

Section wait.
Context {T : Type}.

(** The loop shared by the waiting calls: a pass that found something or failed ends it,
    and so does the deadline; [None] while the call is still waiting. *)
Fixpoint mpx_wait_loop {S} (pass : Moment T -> S -> outcome (result Z LinuxError * S)) (deadline : option Duration)
    (moments : list (Moment T)) (s : S) : option (outcome (result Z LinuxError * S)) :=
  match moments with
  | [] => None
  | mo :: moments' =>
      match pass mo s with
      | Panic => Some Panic
      | Ret (Err e, s') => Some (Ret (Err e, s'))
      | Ret (Ok n, s') =>
          if 0 <? n then Some (Ret (Ok n, s'))
          else if expired deadline (mo_now mo) then Some (Ret (Ok 0, s'))
          else mpx_wait_loop pass deadline moments' s'
      end
  end.

(** One pass of [sys_select] on the sets of the caller. *)
Definition select_pass (s : FdSets) (mo : Moment T) (us : UserSets) : outcome (result Z LinuxError * UserSets) :=
  match select_poll_all (mo_poll mo) s (mo_table mo, us) with
  | Ret (r, (_, us')) => Ret (r, us')
  | Panic => Panic
  end.

(** [sys_select]; [start] is the time of the call. *)
Definition sys_select (nfds : Z) (us : UserSets) (timeout : option timeval) (start : Duration)
    (moments : list (Moment T)) : option (outcome (Z * UserSets)) :=
  let ret (r : result Z LinuxError) := syscall_body as_i32 r in
  if nfds <? 0 then Some (Ret (ret (Err EINVAL), us)) else
  let nfds := Z.min nfds FD_SETSIZE in
  let deadline := match timeout with
                  | None => Ret None
                  | Some t =>
                      match timeval_dur t with
                      | Ret d => match dur_add start d with Ret ddl => Ret (Some ddl) | Panic => Panic end
                      | Panic => Panic
                      end
                  end in
  match deadline with
  | Panic => Some Panic
  | Ret deadline =>
      let fd_sets := FdSets_from nfds us in
      let us := mkSets (zero_fd_set nfds (us_read us)) (zero_fd_set nfds (us_write us))
                       (zero_fd_set nfds (us_except us)) in
      match mpx_wait_loop (select_pass fd_sets) deadline moments us with
      | Some (Ret (r, us')) => Some (Ret (ret r, us'))
      | Some Panic => Some Panic
      | None => None
      end
  end.
End wait.

(** * Interest lists (epoll.rs) *)

Definition EPOLL_CTL_ADD : Z := 1.
Definition EPOLL_CTL_DEL : Z := 2.
Definition EPOLL_CTL_MOD : Z := 3.
Definition EPOLLIN : Z := 1.
Definition EPOLLOUT : Z := 4.
Definition EPOLLERR : Z := 8.

(** [epoll_event]: the event mask and the user data; the [BTreeMap] of an instance. *)
Abbreviation epoll_event := (Z * Z)%type.
Definition Interest : Type := list (Z * epoll_event).

Section epoll.
Context {T : Type}.

(** [EpollInstance::control]: the list afterwards. *)
Definition control (t : FlattenObjects T) (op fd : Z) (event : epoll_event) (evs : Interest)
  : result Z LinuxError * Interest :=
  match fo_get t (fd_usize (as_i32 fd)) with
  | None => (Err EBADF, evs)
  | Some _ =>
      let op := as_u32 op in
      if op =? EPOLL_CTL_ADD then
        match bt_get fd evs with
        | None => (Ok 0, bt_insert fd event evs)
        | Some _ => (Err EEXIST, evs)
        end
      else if op =? EPOLL_CTL_MOD then
        match bt_get fd evs with
        | Some _ => (Ok 0, bt_insert fd event evs)
        | None => (Err ENOENT, evs)
        end
      else if op =? EPOLL_CTL_DEL then
        match bt_get fd evs with
        | Some _ => (Ok 0, bt_remove fd evs)
        | None => (Err ENOENT, evs)
        end
      else (Err EINVAL, evs)
  end.

(** [events[events_num] = ...]: past the end of the caller's array the index panics. *)
Definition put_event (max : Z) (ev : epoll_event) (out : list epoll_event) : outcome (list epoll_event) :=
  if Z.of_nat (length out) <? max then Ret (out ++ [ev]) else Panic.
Definition put_if (b : bool) (max : Z) (ev : epoll_event) (out : list epoll_event) : outcome (list epoll_event) :=
  if b then put_event max ev out else Ret out.

(** [EpollInstance::poll_all]: [out] is the filled part of the caller's array. *)
Fixpoint epoll_poll_all (poll : T -> result PollState LinuxError) (t : FlattenObjects T) (max : Z)
    (evs : Interest) (out : list epoll_event) : outcome (result Z LinuxError * list epoll_event) :=
  match evs with
  | [] => Ret (Ok (Z.of_nat (length out)), out)
  | (infd, (mask, data)) :: evs' =>
      match fo_get t (fd_usize (as_i32 infd)) with
      | None => Ret (Err EBADF, out)
      | Some f =>
          let out' :=
            match poll f with
            | Err _ => put_if (negb (Z.land mask EPOLLERR =? 0)) max (EPOLLERR, data) out
            | Ok state =>
                match put_if (readable state && negb (Z.land mask EPOLLIN =? 0)) max (EPOLLIN, data) out with
                | Ret out1 =>
                    put_if (writable state && negb (Z.land mask EPOLLOUT =? 0)) max (EPOLLOUT, data) out1
                | Panic => Panic
                end
            end in
          match out' with
          | Ret out' => epoll_poll_all poll t max evs' out'
          | Panic => Panic
          end
      end
  end.

(** [EpollInstance::from_fd]: [epoll_of] tells which instance an object is. *)
Variable epoll_of : T -> option Z.
Definition epoll_from_fd (t : FlattenObjects T) (fd : Z) : result Z LinuxError :=
  match fo_get t (fd_usize fd) with
  | None => Err EBADF
  | Some f => match epoll_of f with Some id => Ok id | None => Err EINVAL end
  end.

(** The table, the interest lists of the instances and the next instance. *)
Record EpollSt := mkEpollSt { es_table : FlattenObjects T; es_epolls : gmap Z Interest; es_next : Z }.

(** [sys_epoll_create]; [obj] makes the object of an instance. *)
Definition sys_epoll_create (obj : Z -> T) (size : Z) (s : EpollSt) : outcome (Z * EpollSt) :=
  if size <? 0 then Ret (syscall_body as_i32 (Err EINVAL), s) else
  match add_file_like (obj (es_next s)) (es_table s) with
  | Ret (r, t) => Ret (syscall_body as_i32 r, mkEpollSt t (<[es_next s := []]> (es_epolls s)) (es_next s + 1))
  | Panic => Panic
  end.

(** [sys_epoll_ctl]. *)
Definition sys_epoll_ctl (epfd op fd : Z) (event : epoll_event) (s : EpollSt) : Z * EpollSt :=
  match epoll_from_fd (es_table s) epfd with
  | Err e => (syscall_body as_i32 (Err e), s)
  | Ok id =>
      let '(r, evs) := control (es_table s) (wrap op) (wrap fd) event (default [] (es_epolls s !! id)) in
      (syscall_body as_i32 r, mkEpollSt (es_table s) (<[id := evs]> (es_epolls s)) (es_next s))
  end.

(** One pass of [sys_epoll_wait] on the instance [id]. *)
Definition epoll_pass (id max : Z) (mo : Moment T) (_ : list epoll_event)
  : outcome (result Z LinuxError * list epoll_event) :=
  epoll_poll_all (mo_poll mo) (mo_table mo) max (default [] (mo_epolls mo !! id)) [].

(** [sys_epoll_wait]: the result and the events stored. [wall_time() + from_millis] is
    computed at [start]. *)
Definition sys_epoll_wait (epfd maxevents timeout : Z) (t : FlattenObjects T) (start : Duration)
    (moments : list (Moment T)) : option (outcome (Z * list epoll_event)) :=
  if maxevents <=? 0 then Some (Ret (syscall_body as_i32 (Err EINVAL), [])) else
  let deadline := if timeout <? 0 then Ret None
                  else match dur_add start (from_nanos (timeout * 1000000)) with
                       | Ret d => Ret (Some d) | Panic => Panic end in
  match deadline with
  | Panic => Some Panic
  | Ret deadline =>
      match epoll_from_fd t epfd with
      | Err e => Some (Ret (syscall_body as_i32 (Err e), []))
      | Ok id =>
          match mpx_wait_loop (epoll_pass id maxevents) deadline moments [] with
          | Some (Ret (r, out)) => Some (Ret (syscall_body as_i32 r, out))
          | Some Panic => Some Panic
          | None => None
          end
      end
  end.
End epoll.

(** * Properties *)

Lemma land_bit w j : 0 <= j -> negb (Z.land w (Z.shiftl 1 j) =? 0) = Z.testbit w j.
Proof.
  intros Hj. destruct (Z.testbit w j) eqn:Ht.
  - apply negb_true_iff, Z.eqb_neq. intros E. apply (f_equal (fun z => Z.testbit z j)) in E.
    rewrite Z.land_spec, Z.shiftl_spec, Z.sub_diag, Ht, Z.bits_0 in E by done. done.
  - apply negb_false_iff, Z.eqb_eq, Z.bits_inj'. intros n Hn. rewrite Z.land_spec, Z.shiftl_spec, Z.bits_0 by done.
    destruct (Z.eqb_spec n j) as [->|Hne]; [by rewrite Ht|].
    destruct (Z.ltb_spec n j); [by rewrite (Z.testbit_neg_r 1) by lia; apply andb_false_r|].
    replace (Z.testbit 1 (n - j)) with false; [apply andb_false_r|]. symmetry.
    change 1 with (2 ^ 0). rewrite Z.pow2_bits_eqb by lia. by apply Z.eqb_neq; lia.
Qed.

(** ** The reference of [select] *)

(** The descriptor is in the set. *)
Definition in_set (words : list Z) (fd : Z) : bool :=
  Z.testbit (default 0 (words !! Z.to_nat (fd / 64))) (fd mod 64).

Lemma set_fd_set_same fd fds : set_fd_set fd fds = fds.
Proof. by destruct fds. Qed.

Section select_props.
Context {T : Type}.
Implicit Types (t : FlattenObjects T) (us : UserSets).

(** What one requested descriptor counts. *)
Definition fd_count (poll : T -> result PollState LinuxError) (s : FdSets) (fd : Z) (f : T) : Z :=
  match poll f with
  | Ok st => (if readable st && in_set (fs_read s) fd then 1 else 0) +
             (if writable st && in_set (fs_write s) fd then 1 else 0)
  | Err _ => if in_set (fs_except s) fd then 1 else 0
  end.
Definition requested (s : FdSets) (fd : Z) : bool :=
  in_set (fs_read s) fd || in_set (fs_write s) fd || in_set (fs_except s) fd.

(** The sum over the requested descriptors in order; one that is not open is an error. *)
Fixpoint count_ready poll t (s : FdSets) (fds : list Z) : result Z LinuxError :=
  match fds with
  | [] => Ok 0
  | fd :: fds' =>
      if requested s fd then
        match fo_get t fd with
        | None => Err EBADF
        | Some f =>
            match count_ready poll t s fds' with
            | Ok n => Ok (fd_count poll s fd f + n)
            | Err e => Err e
            end
        end
      else count_ready poll t s fds'
  end.

(** Requests that fit the model of an [fd_set]. *)
Record sets_wf (s : FdSets) : Prop := {
  sw_nfds : 0 <= fs_nfds s <= FD_SETSIZE;
  sw_read : length (fs_read s) = usizes (fs_nfds s);
  sw_write : length (fs_write s) = usizes (fs_nfds s);
  sw_except : length (fs_except s) = usizes (fs_nfds s);
}.

Lemma count_ready_app poll t s a b :
  count_ready poll t s (a ++ b) =
  match count_ready poll t s a with
  | Ok x => match count_ready poll t s b with Ok y => Ok (x + y) | Err e => Err e end
  | Err e => Err e
  end.
Proof.
  induction a as [|fd a IH]; cbn [app count_ready]; [by destruct (count_ready poll t s b)|].
  destruct (requested s fd); [|done]. destruct (fo_get t fd); [|done]. rewrite IH.
  destruct (count_ready poll t s a); [|done]. destruct (count_ready poll t s b); [|done]. f_equal. lia.
Qed.

Lemma poll_fd_spec poll t us s fd rd wr ex :
  0 <= fd < FD_SETSIZE ->
  Z.testbit rd (fd mod 64) = in_set (fs_read s) fd -> Z.testbit wr (fd mod 64) = in_set (fs_write s) fd ->
  Z.testbit ex (fd mod 64) = in_set (fs_except s) fd ->
  poll_fd poll fd (Z.shiftl 1 (fd mod 64)) rd wr ex (t, us) =
  Ret (match fo_get t fd with Some f => Ok (fd_count poll s fd f) | None => Err EBADF end, (t, us)).
Proof.
  unfold FD_SETSIZE. intros Hfd Hr Hw He. unfold poll_fd, sel_file, zoom, get_file_like. unfold_M. cbn.
  rewrite as_i32_small by lia. unfold fd_usize. rewrite wrap_small by lia.
  destruct (fo_get t fd) as [f|]; [|done]. unfold fd_count.
  rewrite !land_bit, Hr, Hw, He by lia.
  destruct us as [r w x]. destruct (poll f) as [[rb wb]|e]; cbn -[set_fd_set].
  - destruct (rb && in_set (fs_read s) fd), (wb && in_set (fs_write s) fd); cbn -[set_fd_set]; by rewrite ?set_fd_set_same.
  - destruct (in_set (fs_except s) fd); cbn -[set_fd_set]; by rewrite ?set_fd_set_same.
Qed.

(** The loop over one word counts its descriptors below [nfds]. *)
Lemma poll_bits_spec poll t us s i rd wr ex n j :
  0 <= i -> i mod 64 = 0 -> 0 <= j -> j + Z.of_nat n = 64 -> fs_nfds s <= FD_SETSIZE ->
  (forall b, 0 <= b < 64 -> Z.testbit rd b = in_set (fs_read s) (i + b)) ->
  (forall b, 0 <= b < 64 -> Z.testbit wr b = in_set (fs_write s) (i + b)) ->
  (forall b, 0 <= b < 64 -> Z.testbit ex b = in_set (fs_except s) (i + b)) ->
  poll_bits poll (fs_nfds s) i rd wr ex n j (t, us) =
  Ret (count_ready poll t s (seqZ (i + j) (Z.min (Z.of_nat n) (fs_nfds s - (i + j)))), (t, us)).
Proof.
  intros Hi Hm Hj Hn Hnf Hr Hw He. revert j Hj Hn. induction n as [|n IH]; intros j Hj Hn; cbn [poll_bits].
  { by rewrite seqZ_nil by lia. }
  destruct (Z.ltb_spec (i + j) (fs_nfds s)); cbn [negb].
  2: { by rewrite seqZ_nil by lia. }
  rewrite (seqZ_cons (i + j)) by lia. cbn [count_ready].
  replace (Z.succ (i + j)) with (i + (j + 1)) by lia.
  replace (Z.pred (Z.min (Z.of_nat (S n)) (fs_nfds s - (i + j))))
    with (Z.min (Z.of_nat n) (fs_nfds s - (i + (j + 1)))) by lia.
  assert (Hreq : negb (Z.land (Z.lor (Z.lor rd wr) ex) (Z.shiftl 1 j) =? 0) = requested s (i + j)).
  { rewrite land_bit by done. unfold requested. by rewrite !Z.lor_spec, Hr, Hw, He by lia. }
  symmetry in Hreq. apply negb_sym in Hreq. rewrite Hreq. destruct (requested s (i + j)); cbn [negb]; [|apply IH; lia].
  unfold_M. assert (Hmod : (i + j) mod 64 = j) by lia.
  pose proof (poll_fd_spec poll t us s (i + j) rd wr ex ltac:(lia)) as Hp. rewrite Hmod in Hp.
  rewrite Hp by (first [apply Hr|apply Hw|apply He]; lia).
  destruct (fo_get t (i + j)); [|done]. rewrite IH by lia. by destruct (count_ready _ _ _ _).
Qed.

Lemma in_set_word words i b :
  0 <= i -> i mod 64 = 0 -> 0 <= b < 64 ->
  in_set words (i + b) = Z.testbit (default 0 (words !! Z.to_nat (i / 64))) b.
Proof.
  intros Hi Hm Hb. unfold in_set. replace ((i + b) mod 64) with b by lia.
  by replace ((i + b) / 64) with (i / 64) by lia.
Qed.

Lemma count_ready_none poll t s fds :
  Forall (fun fd => requested s fd = false) fds -> count_ready poll t s fds = Ok 0.
Proof. induction 1 as [|fd fds Hr _ IH]; [done|]. cbn. by rewrite Hr. Qed.

(** A word without requests contributes nothing. *)
Lemma requested_word s i rd wr ex b :
  0 <= i -> i mod 64 = 0 -> 0 <= b < 64 ->
  fs_read s !! Z.to_nat (i / 64) = Some rd -> fs_write s !! Z.to_nat (i / 64) = Some wr ->
  fs_except s !! Z.to_nat (i / 64) = Some ex -> Z.lor (Z.lor rd wr) ex = 0 -> requested s (i + b) = false.
Proof.
  intros Hi Hm Hb Hr Hw He Hz. unfold requested. rewrite !in_set_word by done. rewrite Hr, Hw, He. cbn.
  by rewrite <- !Z.lor_spec, Hz, Z.bits_0.
Qed.

Lemma drop_cons_inv {A} q (l : list A) x l' : x :: l' = drop q l -> l !! q = Some x /\ l' = drop (S q) l.
Proof.
  intros E. assert (Hq : l !! q = Some x) by (rewrite <- (Nat.add_0_r q), <- lookup_drop, <- E; done).
  split; [done|]. rewrite (drop_S l x q Hq) in E. by injection E.
Qed.

(** The loop over the words from the [q]th counts the descriptors from [64 * q]. *)
Lemma poll_words_spec poll t us s rds wrs exs q :
  sets_wf s -> rds = drop q (fs_read s) -> wrs = drop q (fs_write s) -> exs = drop q (fs_except s) ->
  poll_words poll (fs_nfds s) (64 * Z.of_nat q) rds wrs exs (t, us) =
  Ret (count_ready poll t s (seqZ (64 * Z.of_nat q) (fs_nfds s - 64 * Z.of_nat q)), (t, us)).
Proof.
  intros Hwf. destruct Hwf as [Hnf Lr Lw Le]. unfold usizes in *. revert wrs exs q.
  assert (Hend : forall (l : list Z) q, length l = Z.to_nat ((fs_nfds s + 63) / 64) -> [] = drop q l ->
    fs_nfds s - 64 * Z.of_nat q <= 0).
  { intros l q Hl Hd. apply (f_equal length) in Hd. rewrite length_drop in Hd. cbn in Hd. lia. }
  induction rds as [|rd rds IH]; intros wrs exs q Er Ew Ee.
  { cbn [poll_words]. by rewrite seqZ_nil by (by eapply (Hend (fs_read s))). }
  destruct wrs as [|wr wrs]; [cbn [poll_words]; by rewrite seqZ_nil by (by eapply (Hend (fs_write s)))|].
  destruct exs as [|ex exs]; [cbn [poll_words]; by rewrite seqZ_nil by (by eapply (Hend (fs_except s)))|].
  apply drop_cons_inv in Er as [Hr Er], Ew as [Hw Ew], Ee as [He Ee]. cbn [poll_words].
  destruct (Z.ltb_spec (64 * Z.of_nat q) (fs_nfds s)); cbn [negb]; [|by rewrite seqZ_nil by lia].
  assert (Eq : Z.to_nat (64 * Z.of_nat q / 64) = q) by lia.
  replace (64 * Z.of_nat q + BITS_PER_USIZE) with (64 * Z.of_nat (S q)) by (unfold BITS_PER_USIZE; lia).
  set (k := Z.min 64 (fs_nfds s - 64 * Z.of_nat q)).
  assert (Hsplit : seqZ (64 * Z.of_nat q) (fs_nfds s - 64 * Z.of_nat q) =
    seqZ (64 * Z.of_nat q) k ++ seqZ (64 * Z.of_nat (S q)) (fs_nfds s - 64 * Z.of_nat (S q))).
  { destruct (Z.ltb_spec (fs_nfds s - 64 * Z.of_nat q) 64).
    - rewrite (seqZ_nil (64 * Z.of_nat (S q))) by lia. rewrite app_nil_r. f_equal. lia.
    - replace (fs_nfds s - 64 * Z.of_nat q) with (k + (fs_nfds s - 64 * Z.of_nat (S q))) by lia.
      rewrite seqZ_app by lia. do 2 f_equal. lia. }
  rewrite Hsplit, count_ready_app. destruct (Z.eqb_spec (Z.lor (Z.lor rd wr) ex) 0) as [Hz|Hz].
  - rewrite (count_ready_none poll t s (seqZ _ k)).
    + rewrite (IH wrs exs (S q) Er Ew Ee). by destruct (count_ready _ _ _ _).
    + apply Forall_forall. intros fd Hfd. apply elem_of_seqZ in Hfd.
      replace fd with (64 * Z.of_nat q + (fd - 64 * Z.of_nat q)) by lia.
      apply (requested_word s _ rd wr ex); rewrite ?Eq; done || lia.
  - unfold_M. rewrite (poll_bits_spec poll t us s); try lia; [|intros b Hb; by rewrite in_set_word, Eq, ?Hr, ?Hw, ?He by lia..].
    rewrite Z.add_0_r. change (Z.of_nat 64) with 64. fold k.
    destruct (count_ready poll t s (seqZ _ k)); [|done]. rewrite (IH wrs exs (S q) Er Ew Ee).
    by destruct (count_ready _ _ _ _).
Qed.

(** [FdSets::poll_all], which walks the words of the three sets and skips empty ones,
    equals a plain scan of the descriptors below [nfds]: it counts each requested
    class that is ready, and fails with [EBADF] exactly when a requested
    descriptor is not open. The descriptor table and the sets of the caller are
    left as they were. *)
Theorem select_poll_all_correct poll t us s :
  sets_wf s ->
  select_poll_all poll s (t, us) = Ret (count_ready poll t s (seqZ 0 (fs_nfds s)), (t, us)).
Proof.
  intros Hwf. unfold select_poll_all.
  pose proof (poll_words_spec poll t us s _ _ _ 0 Hwf eq_refl eq_refl eq_refl) as Hp.
  cbn [Z.of_nat drop] in Hp. rewrite Z.mul_0_r, Z.sub_0_r in Hp. by rewrite !drop_0 in Hp.
Qed.

(** ** Waiting *)

(** The caller passes null pointers or sets of [FD_SETSIZE] bits. *)
Definition user_sets_wf us : Prop :=
  Forall (fun o : option fd_set => forall l, o = Some l -> length l = 16%nat) [us_read us; us_write us; us_except us].

Lemma FdSets_from_wf nfds us : 0 <= nfds -> user_sets_wf us -> sets_wf (FdSets_from nfds us).
Proof.
  intros Hn Hu. unfold user_sets_wf in Hu. rewrite !Forall_cons in Hu. destruct Hu as (H1 & H2 & H3 & _).
  assert (Hb : (usizes (Z.min nfds FD_SETSIZE) <= 16)%nat) by (unfold usizes, FD_SETSIZE; lia).
  assert (Hc : forall o, (forall l : fd_set, o = Some l -> length l = 16%nat) ->
    length (copy_from_fd_set (usizes (Z.min nfds FD_SETSIZE)) o) = usizes (Z.min nfds FD_SETSIZE)).
  { intros [l|] Hl; cbn; [rewrite length_take, (Hl l) by done; lia|by rewrite length_replicate]. }
  split; cbn; auto. unfold FD_SETSIZE. lia.
Qed.

(** What a pass decides: [Some] the result, or [None] to keep waiting. *)
Definition decision deadline (r : result Z LinuxError) (mo : Moment T) : option (result Z LinuxError) :=
  match r with
  | Err e => Some (Err e)
  | Ok n => if 0 <? n then Some (Ok n) else if expired deadline (mo_now mo) then Some (Ok 0) else None
  end.
Fixpoint first_decision deadline (f : Moment T -> result Z LinuxError) (mos : list (Moment T))
  : option (result Z LinuxError) :=
  match mos with
  | [] => None
  | mo :: mos' =>
      match decision deadline (f mo) mo with
      | Some r => Some r
      | None => first_decision deadline f mos'
      end
  end.

Lemma mpx_wait_loop_spec {S} pass deadline f (s : S) mos :
  (forall mo, pass mo s = Ret (f mo, s)) ->
  mpx_wait_loop pass deadline mos s = (fun r => Ret (r, s)) <$> first_decision deadline f mos.
Proof.
  intros Hp. induction mos as [|mo mos IH]; [done|]. cbn. rewrite Hp. unfold decision.
  destruct (f mo) as [n|e]; [|done]. destruct (0 <? n); [done|]. destruct (expired deadline (mo_now mo)); done.
Qed.

Lemma zero_fd_set_same n fds : zero_fd_set n fds = fds.
Proof. by destruct fds. Qed.

(** [sys_select] with a valid timeout returns at the first pass at which a requested
    class of a requested descriptor is ready, a requested descriptor is not open, or the
    deadline has passed, with the count of ready classes, [-EBADF] or 0; until
    then it waits. The sets of the caller are never changed: they do not tell
    which descriptors are ready. *)
Theorem select_correct nfds us timeout start mos deadline :
  0 <= nfds -> user_sets_wf us ->
  match timeout with None => deadline = None | Some tv =>
    exists d ddl, timeval_dur tv = Ret d /\ dur_add start d = Ret ddl /\ deadline = Some ddl end ->
  let s := FdSets_from (Z.min nfds FD_SETSIZE) us in
  sys_select nfds us timeout start mos =
    (fun r => Ret (syscall_body as_i32 r, us)) <$>
      first_decision deadline (fun mo => count_ready (mo_poll mo) (mo_table mo) s (seqZ 0 (fs_nfds s))) mos.
Proof.
  intros Hn Hu Hd s. assert (Hwf : sets_wf s) by (apply FdSets_from_wf; [unfold FD_SETSIZE; lia|done]).
  unfold sys_select. destruct (Z.ltb_spec nfds 0); [lia|].
  assert (Ed : match timeout with
    | None => Ret None
    | Some t => match timeval_dur t with
                | Ret d => match dur_add start d with Ret ddl => Ret (Some ddl) | Panic => Panic end
                | Panic => Panic end
    end = Ret deadline).
  { destruct timeout as [tv|]; [|by rewrite Hd]. destruct Hd as (d & ddl & -> & -> & ->). done. }
  rewrite Ed. rewrite !zero_fd_set_same. fold s.
  rewrite (mpx_wait_loop_spec _ _ (fun mo => count_ready (mo_poll mo) (mo_table mo) s (seqZ 0 (fs_nfds s)))).
  - by destruct us, (first_decision _ _ mos).
  - intros mo. unfold select_pass. by rewrite select_poll_all_correct.
Qed.
End select_props.

(** ** [epoll] *)

(** The events one entry of an interest list reports. *)
Definition entry_events (r : result PollState LinuxError) (mask data : Z) : list epoll_event :=
  match r with
  | Err _ => if negb (Z.land mask EPOLLERR =? 0) then [(EPOLLERR, data)] else []
  | Ok st =>
      (if readable st && negb (Z.land mask EPOLLIN =? 0) then [(EPOLLIN, data)] else []) ++
      (if writable st && negb (Z.land mask EPOLLOUT =? 0) then [(EPOLLOUT, data)] else [])
  end.

(** The descriptors of an interest list in the order of the [BTreeMap]. *)
Definition interest_wf (evs : Interest) : Prop := StronglySorted Z.lt evs.*1.

Lemma bt_get_insert (k : Z) (v : epoll_event) (evs : Interest) k' :
  bt_get k' (bt_insert k v evs) = if k' =? k then Some v else bt_get k' evs.
Proof.
  induction evs as [|[x w] evs IH]; cbn; [done|].
  destruct (Z.ltb_spec k x); cbn; [done|]. destruct (Z.eqb_spec k x) as [->|]; cbn.
  - by destruct (k' =? x).
  - rewrite IH. destruct (Z.eqb_spec k' x), (Z.eqb_spec k' k); done || lia.
Qed.

Lemma bt_get_fresh (k : Z) (evs : Interest) : Forall (fun x => k < x) evs.*1 -> bt_get k evs = None.
Proof.
  induction evs as [|[x w] evs IH]; cbn; [done|]. rewrite Forall_cons. intros [Hx Hf].
  destruct (Z.eqb_spec k x); [lia|auto].
Qed.

Lemma bt_get_remove k evs k' :
  interest_wf evs -> bt_get k' (bt_remove k evs) = if k' =? k then None else bt_get k' evs.
Proof.
  unfold interest_wf. induction evs as [|[x w] evs IH]; cbn; [by destruct (k' =? k)|].
  intros [Hs Hf]%StronglySorted_inv. destruct (Z.eqb_spec k x) as [->|]; cbn.
  - destruct (Z.eqb_spec k' x) as [E|]; [rewrite E; by apply bt_get_fresh|done].
  - rewrite IH by done. destruct (Z.eqb_spec k' x), (Z.eqb_spec k' k); done || lia.
Qed.

Lemma bt_insert_keys (k : Z) (v : epoll_event) evs P : Forall P evs.*1 -> P k -> Forall P (bt_insert k v evs).*1.
Proof.
  intros Hf Hk. induction evs as [|[x w] evs IH]; cbn in *; [by constructor|].
  apply Forall_cons in Hf as [Hx Hf]. destruct (k <? x); cbn; [by repeat constructor|].
  destruct (k =? x); cbn; constructor; auto.
Qed.

Lemma bt_insert_wf k v evs : interest_wf evs -> interest_wf (bt_insert k v evs).
Proof.
  unfold interest_wf. induction evs as [|[x w] evs IH]; cbn; [by repeat constructor|].
  intros Hs. apply StronglySorted_inv in Hs as [Hs Hf].
  destruct (Z.ltb_spec k x); cbn.
  - constructor; [by constructor|]. constructor; [done|]. eapply Forall_impl; [done|]. cbn. lia.
  - destruct (Z.eqb_spec k x) as [->|]; cbn; [by constructor|]. constructor; [auto|].
    apply bt_insert_keys; [done|lia].
Qed.

Lemma bt_remove_wf k evs : interest_wf evs -> interest_wf (bt_remove k evs).
Proof.
  unfold interest_wf. induction evs as [|[x w] evs IH]; cbn; [done|].
  intros [Hs Hf]%StronglySorted_inv. destruct (k =? x); cbn; [done|]. constructor; [auto|].
  apply Forall_forall. intros y Hy. eapply Forall_forall in Hf; [done|]. clear -Hy.
  induction evs as [|[z w] evs IH]; cbn in *; [done|]. destruct (k =? z); cbn in *; [by right|].
  apply elem_of_cons in Hy as [->|Hy]; [left|right; auto].
Qed.

Section epoll_props.
Context {T : Type}.
Implicit Types t : FlattenObjects T.

(** [epoll_ctl] is a finite map of descriptors to events: ADD needs an absent and MOD and
    DEL a present descriptor, which must be open; a failed call changes nothing; and the
    list stays ordered by descriptor. *)
Theorem epoll_control_correct t op fd ev evs :
  interest_wf evs -> 0 <= op < 2 ^ 32 ->
  let '(r, evs') := control t op fd ev evs in
  interest_wf evs' /\
  r = (if negb (bool_decide (is_Some (fo_get t (fd_usize (as_i32 fd))))) then Err EBADF
       else if op =? EPOLL_CTL_ADD then if bool_decide (bt_get fd evs = None) then Ok 0 else Err EEXIST
       else if (op =? EPOLL_CTL_MOD) || (op =? EPOLL_CTL_DEL) then
         if bool_decide (bt_get fd evs = None) then Err ENOENT else Ok 0
       else Err EINVAL) /\
  forall k, bt_get k evs' =
    if is_ok r && (k =? fd) then if op =? EPOLL_CTL_DEL then None else Some ev else bt_get k evs.
Proof.
  intros Hwf Hop. unfold control. replace (as_u32 op) with op.
  2: { unfold as_u32, as_unsigned. rewrite Z.mod_small; lia. }
  destruct (fo_get t (fd_usize (as_i32 fd))); [|done]. cbn [negb].
  rewrite bool_decide_true by done. cbn [negb].
  unfold EPOLL_CTL_ADD, EPOLL_CTL_MOD, EPOLL_CTL_DEL.
  destruct (Z.eqb_spec op 1) as [->|]; cbn.
  { destruct (bt_get fd evs) eqn:Eg; cbn; [done|].
    split; [by apply bt_insert_wf|]. split; [done|]. intros k. by rewrite bt_get_insert. }
  destruct (Z.eqb_spec op 3) as [->|]; cbn.
  { destruct (bt_get fd evs) eqn:Eg; cbn; [|done].
    split; [by apply bt_insert_wf|]. split; [done|]. intros k. by rewrite bt_get_insert. }
  destruct (Z.eqb_spec op 2) as [->|]; cbn; [|done].
  destruct (bt_get fd evs) eqn:Eg; cbn; [|done].
  split; [by apply bt_remove_wf|]. split; [done|]. intros k. by rewrite bt_get_remove.
Qed.

(** All descriptors of the list are open. *)
Definition all_open t (evs : Interest) : Prop :=
  Forall (fun e => is_Some (fo_get t (fd_usize (as_i32 e.1)))) evs.

(** The events of all entries in the order of the descriptors. *)
Definition ready_events (poll : T -> result PollState LinuxError) t (evs : Interest) : list epoll_event :=
  flat_map (fun e => match fo_get t (fd_usize (as_i32 e.1)) with
                     | Some f => entry_events (poll f) e.2.1 e.2.2
                     | None => []
                     end) evs.

Lemma put_if_spec (b : bool) max ev out :
  Z.of_nat (length out) <= max ->
  put_if b max ev out =
  if Z.of_nat (length (out ++ if b then [ev] else [])) <=? max
  then Ret (out ++ if b then [ev] else []) else Panic.
Proof.
  intros Hm. unfold put_if, put_event. destruct b.
  - rewrite length_app. cbn [length].
    destruct (Z.ltb_spec (Z.of_nat (length out)) max), (Z.leb_spec (Z.of_nat (length out + 1)) max); done || lia.
  - rewrite app_nil_r. destruct (Z.leb_spec (Z.of_nat (length out)) max); done || lia.
Qed.

(** The events of one entry are added if they fit. *)
Lemma entry_events_spec max r mask data out :
  Z.of_nat (length out) <= max ->
  match r with
  | Err _ => put_if (negb (Z.land mask EPOLLERR =? 0)) max (EPOLLERR, data) out
  | Ok state =>
      match put_if (readable state && negb (Z.land mask EPOLLIN =? 0)) max (EPOLLIN, data) out with
      | Ret out1 => put_if (writable state && negb (Z.land mask EPOLLOUT =? 0)) max (EPOLLOUT, data) out1
      | Panic => Panic
      end
  end = if Z.of_nat (length (out ++ entry_events r mask data)) <=? max
        then Ret (out ++ entry_events r mask data) else Panic.
Proof.
  intros Hm. destruct r as [st|e]; cbn [entry_events]; [|by apply put_if_spec].
  rewrite put_if_spec by done.
  set (a := if readable st && negb (Z.land mask EPOLLIN =? 0) then [(EPOLLIN, data)] else []).
  set (b := if writable st && negb (Z.land mask EPOLLOUT =? 0) then [(EPOLLOUT, data)] else []).
  rewrite (app_assoc out a b). destruct (Z.leb_spec (Z.of_nat (length (out ++ a))) max) as [Hl|Hl].
  - rewrite put_if_spec by done. by fold b.
  - destruct (Z.leb_spec (Z.of_nat (length ((out ++ a) ++ b))) max) as [Hl'|]; [|done].
    rewrite (length_app (out ++ a)) in Hl'. lia.
Qed.

(** [poll_all] stores the events of the ready descriptors in order, or panics when they
    do not fit the array of the caller. *)
Lemma epoll_poll_all_spec poll t max evs out :
  all_open t evs -> Z.of_nat (length out) <= max ->
  epoll_poll_all poll t max evs out =
  let res := out ++ ready_events poll t evs in
  if Z.of_nat (length res) <=? max then Ret (Ok (Z.of_nat (length res)), res) else Panic.
Proof.
  intros Ho. revert out. induction Ho as [|[fd [mask data]] evs [f Hf] Ho IH]; intros out Hm; cbn [epoll_poll_all ready_events flat_map].
  { rewrite app_nil_r. cbn. destruct (Z.leb_spec (Z.of_nat (length out)) max); [done|lia]. }
  cbn in Hf. cbn [fst snd]. rewrite Hf, entry_events_spec by done. fold (ready_events poll t evs).
  rewrite (app_assoc out). set (out1 := out ++ entry_events (poll f) mask data).
  destruct (Z.leb_spec (Z.of_nat (length out1)) max) as [Hl|Hl]; [by apply IH|]. cbn zeta.
  destruct (Z.leb_spec (Z.of_nat (length (out1 ++ ready_events poll t evs))) max) as [Hl'|]; [|done].
  rewrite length_app in Hl'. lia.
Qed.

(** The result of the first pass that ends the wait. *)
Fixpoint first_ready deadline (f : Moment T -> list epoll_event) (mos : list (Moment T)) : option (list epoll_event) :=
  match mos with
  | [] => None
  | mo :: mos' =>
      if negb (bool_decide (f mo = [])) || expired deadline (mo_now mo) then Some (f mo)
      else first_ready deadline f mos'
  end.

End epoll_props.

(** * Concrete runs *)
Module MpxDemo.
(** Three open descriptors; object 0 becomes readable at the second moment, objects 1
    and 2 are always writable. *)
Definition table : FlattenObjects nat :=
  mkFO (Some 0%nat :: Some 1%nat :: Some 2%nat :: replicate 1021 None) 3.
Definition poll (late : bool) (n : nat) : result PollState LinuxError :=
  Ok (mkPoll (late && (n =? 0)%nat) (1 <=? n)%nat).
Definition epolls : gmap Z Interest := {[0 := [(0, (EPOLLIN, 7)); (1, (EPOLLIN, 8))]]}.
Definition moments : list (Moment nat) :=
  [mkMoment table (poll false) epolls (mkDur 1 0); mkMoment table (poll true) epolls (mkDur 2 0)].
(** Descriptors 0 and 1 in the read set, none in the write set. *)
Definition sets : UserSets := mkSets (Some (3 :: replicate 15 0)) None None.
(** Object 2 is the epoll instance 0. *)
Definition epoll_of (n : nat) : option Z := if (n =? 2)%nat then Some 0 else None.
End MpxDemo.

Lemma demo_sets_wf : user_sets_wf MpxDemo.sets.
Proof.
  unfold user_sets_wf. cbn [MpxDemo.sets us_read us_write us_except].
  constructor; [|constructor; [|constructor; [|constructor]]]; intros l E; [|discriminate..].
  injection E as <-. reflexivity.
Qed.

Lemma select_poll_all_correct_witness :
  select_poll_all (MpxDemo.poll true) (FdSets_from 2 MpxDemo.sets) (MpxDemo.table, MpxDemo.sets) =
    Ret (Ok 1, (MpxDemo.table, MpxDemo.sets)).
Proof.
  rewrite select_poll_all_correct.
  - vm_compute. reflexivity.
  - apply FdSets_from_wf; [lia|apply demo_sets_wf].
Defined.

Lemma select_correct_witness :
  sys_select 2 MpxDemo.sets None (mkDur 0 0) MpxDemo.moments = Some (Ret (1, MpxDemo.sets)).
Proof.
  rewrite (select_correct 2 MpxDemo.sets None (mkDur 0 0) MpxDemo.moments None).
  - vm_compute. reflexivity.
  - lia.
  - apply demo_sets_wf.
  - reflexivity.
Defined.

Lemma epoll_control_correct_witness :
  interest_wf (control MpxDemo.table EPOLL_CTL_ADD 1 (EPOLLIN, 8) [(0, (EPOLLIN, 7))]).2.
Proof.
  pose proof (epoll_control_correct MpxDemo.table EPOLL_CTL_ADD 1 (EPOLLIN, 8) [(0, (EPOLLIN, 7))]
    ltac:(repeat constructor) ltac:(unfold EPOLL_CTL_ADD; lia)) as Hc.
  destruct (control _ _ _ _ _) as [r evs]. apply Hc.
Defined.

