(* ===== verification/PacketBuffer.v ===== *)
(** The buffers of datagram sockets (src/vendor/smoltcp/src/storage): a ring buffer, and a
    packet buffer made of a ring of descriptions and a ring of bytes, in which every packet
    is contiguous and padding is inserted when a packet does not fit before the end of the
    storage. The packet buffer implements a bounded queue of packets. *)
From S2P Require Import Prelude.

#[local] Open Scope nat_scope.

(** * Ring buffers (ring_buffer.rs) *)

Record RingBuffer (T : Type) := mkRB { rg_storage : list T; rg_read : nat; rg_len : nat }.
Arguments mkRB {T} _ _ _.
Arguments rg_storage {T} _.
Arguments rg_read {T} _.
Arguments rg_len {T} _.

Section Ring.
Context {T : Type}.
Implicit Types r : RingBuffer T.

Definition rg_capacity r : nat := length (rg_storage r).
Definition rg_window r : nat := rg_capacity r - rg_len r.
Definition rg_is_empty r : bool := rg_len r =? 0.
Definition rg_is_full r : bool := rg_window r =? 0.
Definition rg_clear r : RingBuffer T := mkRB (rg_storage r) 0 0.
Definition rg_idx r (i : nat) : nat :=
  if 0 <? rg_capacity r then (rg_read r + i) mod rg_capacity r else 0.
Definition rg_contiguous_window r : nat := Nat.min (rg_window r) (rg_capacity r - rg_idx r (rg_len r)).

(** [enqueue_one] with the value stored in the element. *)
Definition rg_enqueue_one (x : T) r : option (RingBuffer T) :=
  if rg_is_full r then None else
  let index := (rg_read r + rg_len r) mod rg_capacity r in
  Some (mkRB (<[index := x]> (rg_storage r)) (rg_read r) (rg_len r + 1)).

(** [dequeue_one_with]: [f] says whether the element is taken. *)
Definition rg_dequeue_one_with (f : T -> bool) r : outcome (option (T * RingBuffer T)) :=
  if rg_is_empty r then Ret None else
  match rg_storage r !! rg_read r with
  | None => Panic
  | Some x =>
      Ret (Some (x, if f x then mkRB (rg_storage r) ((rg_read r + 1) mod rg_capacity r) (rg_len r - 1) else r))
  end.

(** [enqueue_many]: the position and the size of the slice that is returned. *)
Definition rg_enqueue_many (size : nat) r : nat * nat * RingBuffer T :=
  let r := if rg_len r =? 0 then mkRB (rg_storage r) 0 0 else r in
  let write_at := rg_idx r (rg_len r) in
  let size := Nat.min size (rg_contiguous_window r) in
  (write_at, size, mkRB (rg_storage r) (rg_read r) (rg_len r + size)).

(** [dequeue_many]: the slice that is returned. *)
Definition rg_dequeue_many (size : nat) r : list T * RingBuffer T :=
  let max_size := Nat.min (rg_len r) (rg_capacity r - rg_read r) in
  let size := Nat.min size max_size in
  (take size (drop (rg_read r) (rg_storage r)),
   mkRB (rg_storage r) (if 0 <? rg_capacity r then (rg_read r + size) mod rg_capacity r else 0) (rg_len r - size)).

(** [get_allocated(0, size)]. *)
Definition rg_get_allocated (size : nat) r : list T :=
  let size := Nat.min (Nat.min size (rg_len r)) (rg_capacity r - rg_read r) in
  take size (drop (rg_read r) (rg_storage r)).
End Ring.

(** * Packet buffers (packet_buffer.rs) *)

(** The size and the header of a packet; padding has no header. *)
Record PacketMetadata (H : Type) := mkPM { pm_size : nat; pm_header : option H }.
Arguments mkPM {H} _ _.
Arguments pm_size {H} _.
Arguments pm_header {H} _.

Record PacketBuffer (H : Type) := mkPB {
  pb_meta : RingBuffer (PacketMetadata H);
  pb_payload : RingBuffer Z;
}.
Arguments mkPB {H} _ _.
Arguments pb_meta {H} _.
Arguments pb_payload {H} _.

Section Packets.
Context {H : Type}.
Implicit Types b : PacketBuffer H.

Definition pm_empty : PacketMetadata H := mkPM 0 None.
Definition is_padding (m : PacketMetadata H) : bool := match pm_header m with None => true | Some _ => false end.

(** [new] with storage for [packets] packets and [bytes] bytes. *)
Definition pb_new (packets bytes : nat) : PacketBuffer H :=
  mkPB (mkRB (replicate packets pm_empty) 0 0) (mkRB (replicate bytes 0%Z) 0 0).
Definition pb_is_empty b : bool := rg_is_empty (pb_meta b).
Definition pb_is_full b : bool := rg_is_full (pb_meta b).

(** The end of [enqueue]: the description and the bytes of the packet. The caller
    copies the packet to the slice it is given. *)
Definition pb_put (size : nat) (header : H) (data : list Z) b : bool * PacketBuffer H :=
  match rg_enqueue_one (mkPM size (Some header)) (pb_meta b) with
  | None => (false, b)
  | Some m =>
      let '(pos, _, p) := rg_enqueue_many size (pb_payload b) in
      (true, mkPB m (mkRB (list_inserts pos data (rg_storage p)) (rg_read p) (rg_len p)))
  end.

(** [enqueue] of a packet with its [data]; [false] is [Err(Full)]. *)
Definition pb_enqueue (header : H) (data : list Z) b : bool * PacketBuffer H :=
  let size := length data in
  if (rg_capacity (pb_payload b) <? size) || rg_is_full (pb_meta b) then (false, b) else
  let p := if rg_is_empty (pb_payload b) then rg_clear (pb_payload b) else pb_payload b in
  let b := mkPB (pb_meta b) p in
  let window := rg_window p in
  let contig_window := rg_contiguous_window p in
  if window <? size then (false, b)
  else if contig_window <? size then
    if window - contig_window <? size then (false, b)
    else
      match rg_enqueue_one (mkPM contig_window None) (pb_meta b) with
      | None => (false, b)
      | Some m => let '(_, _, p') := rg_enqueue_many contig_window p in pb_put size header data (mkPB m p')
      end
  else pb_put size header data b.

(** [dequeue_padding]. *)
Definition pb_dequeue_padding b : outcome (PacketBuffer H) :=
  match rg_dequeue_one_with is_padding (pb_meta b) with
  | Panic => Panic
  | Ret None => Ret b
  | Ret (Some (m, r)) =>
      if is_padding m then Ret (mkPB r (snd (rg_dequeue_many (pm_size m) (pb_payload b)))) else Ret b
  end.

(** [dequeue]: [None] is [Err(Empty)]; the [unwrap] of the header. *)
Definition pb_dequeue b : outcome (option (H * list Z) * PacketBuffer H) :=
  match pb_dequeue_padding b with
  | Panic => Panic
  | Ret b =>
      match rg_dequeue_one_with (fun _ => true) (pb_meta b) with
      | Panic => Panic
      | Ret None => Ret (None, b)
      | Ret (Some (m, r)) =>
          let '(data, p) := rg_dequeue_many (pm_size m) (pb_payload b) in
          match pm_header m with
          | None => Panic
          | Some h => Ret (Some (h, data), mkPB r p)
          end
      end
  end.

(** [peek]. *)
Definition pb_peek b : outcome (option (H * list Z) * PacketBuffer H) :=
  match pb_dequeue_padding b with
  | Panic => Panic
  | Ret b =>
      match rg_get_allocated 1 (pb_meta b) with
      | [] => Ret (None, b)
      | m :: _ =>
          match pm_header m with
          | None => Panic
          | Some h => Ret (Some (h, rg_get_allocated (pm_size m) (pb_payload b)), b)
          end
      end
  end.

(** [reset]. *)
Definition pb_reset b : PacketBuffer H := mkPB (rg_clear (pb_meta b)) (rg_clear (pb_payload b)).
End Packets.

(** * Abstraction *)

(** The elements of a ring, from position [pos] on. *)
Fixpoint ring_from {T} (s : list T) (pos n : nat) : list T :=
  match n with
  | O => []
  | S n' => match s !! pos with Some x => x :: ring_from s ((pos + 1) mod length s) n' | None => [] end
  end.
Definition ring_list {T} (r : RingBuffer T) : list T := ring_from (rg_storage r) (rg_read r) (rg_len r).

Section Abstraction.
Context {H : Type}.

(** The packets that the descriptions [ms] find in the bytes [s] from [pos] on. *)
Fixpoint packets_at (s : list Z) (pos : nat) (ms : list (PacketMetadata H)) : list (H * list Z) :=
  match ms with
  | [] => []
  | m :: ms' =>
      let rest := packets_at s ((pos + pm_size m) mod length s) ms' in
      match pm_header m with
      | Some h => (h, take (pm_size m) (drop pos s)) :: rest
      | None => rest
      end
  end.
Definition packets (b : PacketBuffer H) : list (H * list Z) :=
  packets_at (rg_storage (pb_payload b)) (rg_read (pb_payload b)) (ring_list (pb_meta b)).

(** No packet wraps around; padding ends at the end of the storage, and what follows it
    is a packet. [cap] is the size of the storage. *)
Fixpoint layout (cap pos : nat) (ms : list (PacketMetadata H)) : Prop :=
  match ms with
  | [] => True
  | m :: ms' =>
      pos < cap /\ pos + pm_size m <= cap
      /\ (is_padding m = true -> 0 < pm_size m /\ pos + pm_size m = cap
          /\ match ms' with m' :: _ => is_padding m' = false | [] => True end)
      /\ layout cap ((pos + pm_size m) mod cap) ms'
  end.
Definition total (ms : list (PacketMetadata H)) : nat := sum_list_with pm_size ms.

Record ring_ok {T} (r : RingBuffer T) : Prop := {
  ro_read : rg_read r < rg_capacity r;
  ro_len : rg_len r <= rg_capacity r;
}.
Record pb_ok (b : PacketBuffer H) : Prop := {
  po_meta : ring_ok (pb_meta b);
  po_payload : ring_ok (pb_payload b);
  po_total : total (ring_list (pb_meta b)) = rg_len (pb_payload b);
  po_layout : layout (rg_capacity (pb_payload b)) (rg_read (pb_payload b)) (ring_list (pb_meta b));
}.
End Abstraction.

(** * Rings *)

(** The remainder of a sum of two indices. *)
Lemma mod_cases x c : x < c + c -> (x < c /\ x mod c = x) \/ (c <= x /\ x mod c = x - c).
Proof.
  intros Hx. destruct (decide (x < c)); [left; by rewrite Nat.mod_small|right].
  split; [lia|]. replace x with (x - c + 1 * c) at 1 by lia. rewrite Nat.Div0.mod_add. apply Nat.mod_small. lia.
Qed.

Ltac mods :=
  repeat match goal with
  | |- context [?x mod ?c] => destruct (mod_cases x c) as [[? ->]|[? ->]]; [lia| |]
  | Hm : context [?x mod ?c] |- _ =>
      let E := fresh "Hmod" in destruct (mod_cases x c) as [[? E]|[? E]]; [lia|rewrite E in Hm|rewrite E in Hm]; clear E
  end.

Section RingLemmas.
Context {T : Type}.
Implicit Types (s : list T) (r : RingBuffer T).

Lemma ring_from_length s pos n : pos < length s -> length (ring_from s pos n) = n.
Proof.
  revert pos. induction n as [|n IH]; intros pos Hp; cbn [ring_from]; [done|].
  destruct (lookup_lt_is_Some_2 s pos Hp) as [x ->]. cbn [length]. rewrite IH; [done|].
  apply Nat.mod_upper_bound. lia.
Qed.

(** An element outside the part in use does not matter. *)
Lemma ring_from_insert s pos n i x :
  pos < length s -> n <= i < length s ->
  ring_from (<[(pos + i) mod length s := x]> s) pos n = ring_from s pos n.
Proof.
  revert pos i. induction n as [|n IH]; intros pos i Hp Hi; cbn [ring_from]; [done|].
  rewrite list_lookup_insert_ne by (mods; lia). rewrite length_insert.
  destruct (s !! pos); [|done]. f_equal.
  replace ((pos + i) mod length s) with (((pos + 1) mod length s + (i - 1)) mod length s).
  - apply IH; [apply Nat.mod_upper_bound|]; lia.
  - rewrite Nat.Div0.add_mod_idemp_l. f_equal. lia.
Qed.

Lemma ring_from_snoc s pos n x :
  pos < length s -> n < length s ->
  ring_from (<[(pos + n) mod length s := x]> s) pos (S n) = ring_from s pos n ++ [x].
Proof.
  revert pos. induction n as [|n IH]; intros pos Hp Hn.
  - cbn [ring_from]. rewrite Nat.add_0_r, Nat.mod_small by done. by rewrite list_lookup_insert_eq.
  - cbn [ring_from]. rewrite list_lookup_insert_ne by (mods; lia). rewrite length_insert.
    destruct (lookup_lt_is_Some_2 s pos Hp) as [y ->]. cbn [app]. f_equal.
    assert (Hpos : (pos + 1) mod length s < length s) by (apply Nat.mod_upper_bound; lia).
    replace ((pos + S n) mod length s) with (((pos + 1) mod length s + n) mod length s).
    + rewrite <- IH by lia. cbn [ring_from]. by rewrite length_insert.
    + rewrite Nat.Div0.add_mod_idemp_l. f_equal. lia.
Qed.

Lemma rg_enqueue_one_spec x r :
  ring_ok r ->
  if rg_len r =? rg_capacity r then rg_enqueue_one x r = None
  else exists r', rg_enqueue_one x r = Some r' /\ ring_ok r' /\ ring_list r' = ring_list r ++ [x]
         /\ rg_capacity r' = rg_capacity r /\ rg_len r' = rg_len r + 1.
Proof.
  intros [Hr Hl]. unfold rg_enqueue_one, rg_is_full, rg_window. destruct (Nat.eqb_spec (rg_len r) (rg_capacity r)) as [E|E].
  - by rewrite E, Nat.sub_diag.
  - rewrite (proj2 (Nat.eqb_neq _ 0)) by lia. eexists. split; [done|].
    assert (Hc : rg_capacity (mkRB (<[(rg_read r + rg_len r) mod rg_capacity r := x]> (rg_storage r)) (rg_read r) (rg_len r + 1))
                 = rg_capacity r) by (unfold rg_capacity; cbn; by rewrite length_insert).
    split; [split; rewrite Hc; cbn; lia|]. split; [|done]. unfold ring_list. cbn [rg_storage rg_read rg_len].
    rewrite Nat.add_1_r. apply ring_from_snoc; unfold rg_capacity in *; lia.
Qed.

Lemma rg_dequeue_one_spec f r :
  ring_ok r ->
  match ring_list r with
  | [] => rg_dequeue_one_with f r = Ret None
  | x :: l => exists r', rg_dequeue_one_with f r = Ret (Some (x, if f x then r' else r)) /\ ring_ok r'
                /\ ring_list r' = l /\ rg_capacity r' = rg_capacity r
  end.
Proof.
  intros [Hr Hl]. unfold rg_dequeue_one_with, rg_is_empty, ring_list. destruct (rg_len r) as [|n] eqn:Hn; [done|].
  cbn [ring_from Nat.eqb]. destruct (lookup_lt_is_Some_2 (rg_storage r) (rg_read r) Hr) as [x ->].
  eexists. split; [done|]. split; [split; cbn; unfold rg_capacity in *; cbn; [apply Nat.mod_upper_bound|]; lia|].
  split; [|done]. cbn. unfold rg_capacity. by rewrite Nat.sub_0_r.
Qed.

Lemma rg_get_one r : ring_ok r -> rg_get_allocated 1 r = take 1 (ring_list r).
Proof.
  intros [Hr Hl]. unfold rg_get_allocated, ring_list. destruct (rg_len r) as [|n] eqn:Hn; [done|].
  cbn [ring_from]. destruct (lookup_lt_is_Some_2 (rg_storage r) (rg_read r) Hr) as [x Hx]. rewrite Hx.
  unfold rg_capacity in *. replace (Nat.min _ _) with 1 by lia.
  rewrite (drop_S _ _ _ Hx). cbn. by rewrite take_0.
Qed.
End RingLemmas.

(** * Packets *)

Section PacketLemmas.
Context {H : Type}.
Implicit Types (b : PacketBuffer H) (ms : list (PacketMetadata H)) (s : list Z).

Lemma take_drop_inserts s pos n off data :
  off + length data <= pos \/ pos + n <= off ->
  take n (drop pos (list_inserts off data s)) = take n (drop pos s).
Proof.
  intros Hd. apply list_eq. intros i. rewrite !lookup_take. case_decide; [|done].
  rewrite !lookup_drop. destruct Hd; [apply list_lookup_inserts_ge|apply list_lookup_inserts_lt]; lia.
Qed.

Lemma take_drop_inserts_eq s off data :
  off + length data <= length s -> take (length data) (drop off (list_inserts off data s)) = data.
Proof.
  intros Hl. apply list_eq. intros i. rewrite lookup_take. case_decide as Hi.
  - rewrite lookup_drop, list_lookup_inserts by lia. f_equal. lia.
  - symmetry. apply lookup_ge_None_2. lia.
Qed.

Lemma next_end cap pos m ms :
  ((pos + pm_size m) mod cap + total ms) mod cap = (pos + total (m :: ms)) mod cap.
Proof. rewrite Nat.Div0.add_mod_idemp_l. f_equal. unfold total. cbn. lia. Qed.

(** Bytes written after the packets do not change them. *)
Lemma packets_at_inserts s pos ms off data :
  layout (length s) pos ms -> pos < length s -> total ms + length data <= length s ->
  off = (pos + total ms) mod length s -> off + length data <= length s ->
  packets_at (list_inserts off data s) pos ms = packets_at s pos ms.
Proof.
  revert pos. induction ms as [|m ms IH]; intros pos Hl Hp Ht Ho Hd; cbn [packets_at]; [done|].
  destruct Hl as (_ & Hm & _ & Hl). rewrite length_inserts. rewrite <- next_end in Ho.
  unfold total in Ht; cbn in Ht; fold (total ms) in Ht.
  rewrite IH; [|done|apply Nat.mod_upper_bound; lia|lia|done|done].
  destruct (pm_header m); [|done]. f_equal. f_equal. apply take_drop_inserts.
  rewrite next_end in Ho. unfold total in Ho; cbn in Ho; fold (total ms) in Ho. subst off. mods; lia.
Qed.

Lemma packets_at_app s pos ms1 ms2 :
  packets_at s pos (ms1 ++ ms2) = packets_at s pos ms1 ++ packets_at s ((pos + total ms1) mod length s) ms2
  \/ length s <= pos.
Proof.
  destruct (decide (pos < length s)) as [Hp|]; [left|right; lia].
  revert pos Hp. induction ms1 as [|m ms IH]; intros pos Hp; cbn [app packets_at].
  - unfold total; cbn. by rewrite Nat.add_0_r, Nat.mod_small.
  - rewrite IH by (apply Nat.mod_upper_bound; lia). rewrite next_end. by destruct (pm_header m).
Qed.

(** Padding ends at the end of the storage. *)
Lemma last_padding cap pos ms m :
  layout cap pos ms -> last ms = Some m -> is_padding m = true -> (pos + total ms) mod cap = 0.
Proof.
  revert pos. induction ms as [|m' ms IH]; intros pos Hl Hlast Hm; [done|]. destruct Hl as (Hp & Hs & Hpad & Hl).
  rewrite <- next_end. destruct ms as [|m'' ms]; [|by apply IH].
  injection Hlast as <-. destruct (Hpad Hm) as (_ & -> & _). unfold total; cbn.
  rewrite Nat.Div0.mod_same. by rewrite Nat.Div0.mod_0_l.
Qed.

Lemma layout_snoc cap pos ms m :
  layout cap pos ms -> pos < cap -> (pos + total ms) mod cap + pm_size m <= cap ->
  (is_padding m = true -> 0 < pm_size m /\ (pos + total ms) mod cap + pm_size m = cap
     /\ (pos + total ms) mod cap <> 0) ->
  layout cap pos (ms ++ [m]).
Proof.
  revert pos. induction ms as [|m' ms IH]; intros pos Hl Hp Hs Hpad; cbn [app layout].
  - unfold total in *; cbn in *. rewrite Nat.add_0_r, Nat.mod_small in Hs, Hpad by done. naive_solver.
  - destruct Hl as (_ & Hs' & Hpad' & Hl). rewrite <- next_end in Hs, Hpad.
    assert (Hp' : (pos + pm_size m') mod cap < cap) by (apply Nat.mod_upper_bound; lia).
    split; [done|]. split; [done|]. split; [|by apply IH].
    intros Hm'. destruct (Hpad' Hm') as (H1 & H2 & H3). split; [done|]. split; [done|].
    destruct ms as [|m'' ms]; [|done]. cbn. destruct (is_padding m) eqn:Hm; [|done].
    destruct (Hpad eq_refl) as (_ & _ & Hne). rewrite H2 in Hne. unfold total in Hne; cbn in Hne.
    rewrite Nat.Div0.mod_same in Hne. by rewrite Nat.Div0.mod_0_l in Hne.
Qed.

Lemma total_app ms1 ms2 : total (ms1 ++ ms2) = total ms1 + total ms2.
Proof. apply sum_list_with_app. Qed.

(** Without bytes the position does not matter. *)
Lemma empty_layout s pos pos' ms :
  layout (length s) pos ms -> total ms = 0 -> pos' < length s ->
  layout (length s) pos' ms /\ packets_at s pos' ms = packets_at s pos ms.
Proof.
  revert pos pos'. induction ms as [|m ms IH]; intros pos pos' Hl Ht Hp; [done|].
  unfold total in Ht; cbn in Ht; fold (total ms) in Ht.
  destruct Hl as (Hp0 & Hs & Hpad & Hl). cbn [layout packets_at]. assert (Hz : pm_size m = 0) by lia.
  rewrite Hz, !Nat.add_0_r in *. rewrite (Nat.mod_small pos) in * by done. rewrite (Nat.mod_small pos') by done.
  destruct (IH pos pos' Hl) as [Hl' ->]; [lia|done|]. split; [|by rewrite !take_0].
  split; [done|]. split; [lia|]. split; [|done]. intros Hm. destruct (Hpad Hm). lia.
Qed.

Lemma pb_ok_clear b :
  pb_ok b -> rg_len (pb_payload b) = 0 ->
  pb_ok (mkPB (pb_meta b) (rg_clear (pb_payload b))) /\ packets (mkPB (pb_meta b) (rg_clear (pb_payload b))) = packets b.
Proof.
  intros [Hm [Hr Hl] Ht Hly] Hz. rewrite Hz in Ht. unfold rg_capacity in *.
  destruct (empty_layout (rg_storage (pb_payload b)) (rg_read (pb_payload b)) 0 _ Hly Ht) as [Hly' Hp]; [lia|].
  split; [|exact Hp]. split; [done|split; unfold rg_capacity; cbn; lia|exact Ht|exact Hly'].
Qed.

Lemma end_index b :
  pb_ok b -> rg_idx (pb_payload b) (rg_len (pb_payload b)) =
    (rg_read (pb_payload b) + total (ring_list (pb_meta b))) mod rg_capacity (pb_payload b).
Proof.
  intros [_ [Hr _] -> _]. unfold rg_idx. by rewrite (proj2 (Nat.ltb_lt 0 _)) by lia.
Qed.

(** The slice that [enqueue_many] reserves. *)
Lemma rg_enqueue_many_spec (r : RingBuffer Z) size :
  ring_ok r -> (rg_len r = 0 -> rg_read r = 0) -> size <= rg_contiguous_window r ->
  rg_enqueue_many size r = (rg_idx r (rg_len r), size, mkRB (rg_storage r) (rg_read r) (rg_len r + size)).
Proof.
  intros _ Hz Hs. unfold rg_enqueue_many. destruct (Nat.eqb_spec (rg_len r) 0) as [E|E].
  - replace (mkRB (rg_storage r) 0 0) with r by (destruct r; cbn in *; rewrite E, Hz; done). by rewrite Nat.min_l.
  - by rewrite Nat.min_l.
Qed.

Lemma contiguous_bounds b :
  pb_ok b -> let p := pb_payload b in
  rg_idx p (rg_len p) + rg_contiguous_window p <= rg_capacity p /\ rg_len p + rg_contiguous_window p <= rg_capacity p
  /\ (rg_contiguous_window p < rg_window p -> rg_idx p (rg_len p) + rg_contiguous_window p = rg_capacity p
        /\ rg_idx p (rg_len p) <> 0 /\ 0 < rg_contiguous_window p).
Proof.
  intros Hok p. destruct Hok as [_ [Hr Hl] _ _]. fold p in Hr, Hl. unfold rg_contiguous_window, rg_window, rg_idx.
  rewrite (proj2 (Nat.ltb_lt 0 _)) by lia. assert (Hi : (rg_read p + rg_len p) mod rg_capacity p < rg_capacity p).
  { apply Nat.mod_upper_bound. lia. }
  lia.
Qed.

(** One more description, and [data] written at the end of the bytes in use. *)
Lemma pb_push b m r' (data : list Z) :
  pb_ok b -> ring_ok r' -> ring_list r' = ring_list (pb_meta b) ++ [m] ->
  let p := pb_payload b in let w := rg_idx p (rg_len p) in
  pm_size m <= rg_contiguous_window p -> length data <= pm_size m ->
  (is_padding m = true -> 0 < pm_size m /\ w + pm_size m = rg_capacity p /\ w <> 0) ->
  let s' := list_inserts w data (rg_storage p) in
  let b' := mkPB r' (mkRB s' (rg_read p) (rg_len p + pm_size m)) in
  pb_ok b' /\ packets b' = packets b ++ packets_at s' w [m].
Proof.
  intros Hok Hr' Hl' p w Hs Hd Hpad s' b'. destruct (contiguous_bounds b Hok) as (Hb1 & Hb2 & _). fold p w in Hb1, Hb2.
  assert (Hw : w = (rg_read p + total (ring_list (pb_meta b))) mod rg_capacity p) by (by apply end_index).
  destruct Hok as [Hm [Hr Hl] Ht Hly]. fold p in Hr, Hl, Ht, Hly.
  assert (Hc : length s' = rg_capacity p) by (unfold s'; by rewrite length_inserts). split.
  - split; unfold b'; cbn [pb_meta pb_payload rg_read rg_len]; [done| | |].
    + split; unfold rg_capacity at 1; cbn [rg_storage rg_read rg_len]; rewrite Hc; lia.
    + rewrite Hl', total_app, Ht. unfold total; cbn. lia.
    + rewrite Hl'. unfold rg_capacity at 1. cbn [rg_storage]. rewrite Hc.
      apply layout_snoc; [done|done|rewrite <- Hw; lia|]. by rewrite <- Hw.
  - unfold packets, b'; cbn [pb_meta pb_payload rg_read rg_storage]. rewrite Hl'. fold p.
    destruct (packets_at_app s' (rg_read p) (ring_list (pb_meta b)) [m]) as [E|E]; [|lia].
    rewrite E, Hc, <- Hw. f_equal. unfold s'. apply packets_at_inserts; fold (rg_capacity p); [done|lia|lia|done|lia].
Qed.

Lemma pb_put_spec header (data : list Z) b :
  pb_ok b -> (rg_len (pb_payload b) = 0 -> rg_read (pb_payload b) = 0) ->
  length data <= rg_contiguous_window (pb_payload b) ->
  let '(ok, b') := pb_put (length data) header data b in
  pb_ok b' /\ packets b' = packets b ++ (if ok then [(header, data)] else [])
  /\ ok = negb (rg_len (pb_meta b) =? rg_capacity (pb_meta b))
  /\ rg_capacity (pb_meta b') = rg_capacity (pb_meta b) /\ rg_capacity (pb_payload b') = rg_capacity (pb_payload b).
Proof.
  intros Hok Hz Hs. unfold pb_put.
  pose proof (rg_enqueue_one_spec (mkPM (length data) (Some header)) _ (po_meta _ Hok)) as Hq.
  destruct (rg_len (pb_meta b) =? rg_capacity (pb_meta b)).
  { rewrite Hq. by rewrite app_nil_r. }
  destruct Hq as (r' & -> & Hr' & Hl' & Hc' & _). rewrite rg_enqueue_many_spec by (done || apply Hok). cbn [rg_storage rg_read rg_len].
  destruct (pb_push b _ r' data Hok Hr' Hl') as [Hok' Hp']; [done|done|done|]. cbn [pm_size] in Hok', Hp'.
  split; [done|]. split; [|split; [done|]; split; [done|]; unfold rg_capacity; cbn; apply length_inserts].
  rewrite Hp'. cbn [packets_at pm_header pm_size]. rewrite take_drop_inserts_eq; [done|].
  destruct (contiguous_bounds b Hok) as (Hb & _). unfold rg_capacity in Hb. cbn zeta in Hb. lia.
Qed.

(** [enqueue] with padding up to the end of the storage. *)
Lemma pb_enqueue_padding header (data : list Z) (r : RingBuffer (PacketMetadata H)) (p : RingBuffer Z) :
  let b := mkPB r p in
  pb_ok b -> (rg_len p = 0 -> rg_read p = 0) -> rg_len r < rg_capacity r -> rg_len r <> 0 ->
  rg_contiguous_window p < length data -> length data <= rg_window p - rg_contiguous_window p ->
  length data <= rg_capacity p ->
  let '(ok, b') := match rg_enqueue_one (mkPM (rg_contiguous_window p) None) r with
      | None => (false, b)
      | Some m => let '(_, _, p') := rg_enqueue_many (rg_contiguous_window p) p in pb_put (length data) header data (mkPB m p')
      end in
  pb_ok b' /\ packets b' = packets b ++ (if ok then [(header, data)] else [])
  /\ rg_capacity (pb_meta b') = rg_capacity r /\ rg_capacity (pb_payload b') = rg_capacity p.
Proof.
  intros b Hok Hz Hm Hne Hcw Hw Hsz. destruct (contiguous_bounds _ Hok) as (Hc1 & Hc2 & Hc3).
  cbn [pb_payload b] in Hc1, Hc2, Hc3. destruct Hc3 as (Hc3 & Hc4 & Hc5); [lia|].
  pose proof (rg_enqueue_one_spec (mkPM (rg_contiguous_window p) None) _ (po_meta _ Hok)) as Hq. cbn [pb_meta b] in Hq.
  rewrite (proj2 (Nat.eqb_neq _ _)) in Hq by lia. destruct Hq as (r' & -> & Hr' & Hl' & Hc' & _).
  rewrite rg_enqueue_many_spec by (done || apply Hok).
  destruct (pb_push b _ r' [] Hok Hr' Hl') as [Hok' Hp']; [done|cbn; lia|done|].
  cbn [pm_size list_inserts pb_payload b] in Hok', Hp'. cbn [packets_at pm_header] in Hp'. rewrite app_nil_r in Hp'.
  pose proof (pb_put_spec header data _ Hok') as Hput. cbn [pb_payload] in Hput.
  assert (Hi : rg_idx (mkRB (rg_storage p) (rg_read p) (rg_len p + rg_contiguous_window p))
                 (rg_len p + rg_contiguous_window p) = 0).
  { unfold rg_idx in *. unfold rg_capacity in *. cbn [rg_storage rg_read]. destruct (0 <? length (rg_storage p)) eqn:E; [|done].
    apply Nat.ltb_lt in E. rewrite Nat.add_assoc, <- Nat.Div0.add_mod_idemp_l. rewrite Hc3. apply Nat.Div0.mod_same. }
  destruct (pb_put _ _ _ _) as [ok b']. destruct Hput as (H1 & H2 & _ & H4 & H5).
  - cbn. lia.
  - unfold rg_contiguous_window at 1. cbn [rg_len]. rewrite Hi. unfold rg_window, rg_capacity in *. cbn [rg_storage rg_len]. lia.
  - rewrite H2, Hp'. rewrite H4, H5. cbn [pb_meta pb_payload]. split; [exact H1|]. unfold b. cbn [pb_meta pb_payload]. repeat split; try done; lia.
Qed.

(** The outcome of [enqueue]: the packet is added or it is not; nothing else changes. *)
Lemma pb_enqueue_spec header (data : list Z) b :
  pb_ok b ->
  let '(ok, b') := pb_enqueue header data b in
  pb_ok b' /\ packets b' = packets b ++ (if ok then [(header, data)] else [])
  /\ rg_capacity (pb_meta b') = rg_capacity (pb_meta b) /\ rg_capacity (pb_payload b') = rg_capacity (pb_payload b)
  /\ (length data <= rg_capacity (pb_payload b) -> rg_len (pb_meta b) = 0 -> ok = true)
  /\ (rg_capacity (pb_payload b) < length data -> ok = false /\ b' = b).
Proof.
  intros Hok. unfold pb_enqueue. destruct (Nat.ltb_spec (rg_capacity (pb_payload b)) (length data)) as [Hbig|Hsz]; cbn [orb].
  { rewrite app_nil_r. split; [done|]. repeat split; try done; lia. }
  destruct (rg_is_full (pb_meta b)) eqn:Hfull; cbn [negb].
  { rewrite app_nil_r. split; [done|]. repeat split; try done; try lia. destruct Hok as [[Hm _] _ _ _].
    unfold rg_is_full, rg_window in Hfull. apply Nat.eqb_eq in Hfull. lia. }
  set (p := if rg_is_empty (pb_payload b) then rg_clear (pb_payload b) else pb_payload b).
  assert (Hb1 : pb_ok (mkPB (pb_meta b) p) /\ packets (mkPB (pb_meta b) p) = packets b).
  { unfold p, rg_is_empty. destruct (Nat.eqb_spec (rg_len (pb_payload b)) 0); [by apply pb_ok_clear|by destruct b]. }
  assert (Hp : (rg_len p = 0 -> rg_read p = 0) /\ rg_capacity p = rg_capacity (pb_payload b)
               /\ rg_len p = rg_len (pb_payload b)).
  { unfold p, rg_is_empty. destruct (Nat.eqb_spec (rg_len (pb_payload b)) 0); [done|by split]. }
  clearbody p. destruct Hb1 as [Hok1 Hp1]. destruct Hp as (Hz & Hcp & Hlp). rewrite <- Hp1, <- Hcp in *.
  assert (Hemp : rg_len (pb_meta b) = 0 -> rg_len p = 0).
  { intros E. pose proof (po_total _ Hok1) as Ht; cbn [pb_payload] in Ht; rewrite <- Ht. unfold ring_list. cbn [pb_meta]. by rewrite E. }
  destruct (contiguous_bounds _ Hok1) as (Hc1 & Hc2 & Hc3). cbn [pb_payload] in Hc1, Hc2, Hc3. cbn [pb_meta].
  assert (Hm : rg_len (pb_meta b) < rg_capacity (pb_meta b)).
  { destruct Hok as [[_ Hm] _ _ _]. unfold rg_is_full, rg_window in Hfull. apply Nat.eqb_neq in Hfull. lia. }
  destruct (Nat.ltb_spec (rg_window p) (length data)).
  { rewrite app_nil_r. split; [done|]. unfold rg_window in *. repeat split; try done; lia. }
  destruct (Nat.ltb_spec (rg_contiguous_window p) (length data)) as [Hcw|Hcw].
  2:{ pose proof (pb_put_spec header data _ Hok1 Hz Hcw) as Hput. destruct (pb_put _ _ _ _) as [ok b'].
      destruct Hput as (? & ? & -> & ? & ?). cbn [pb_meta] in *. split; [done|]. repeat split; try done; try lia.
      rewrite (proj2 (Nat.eqb_neq _ _)) by lia. done. }
  assert (Hne : rg_len (pb_meta b) <> 0).
  { intros E. apply Hemp in E. destruct Hc3 as (_ & Hc3 & _); [lia|]. apply Hc3. unfold rg_idx. rewrite E, Hz by done.
    destruct (0 <? _); [by rewrite Nat.Div0.mod_0_l|done]. }
  destruct (Nat.ltb_spec (rg_window p - rg_contiguous_window p) (length data)).
  { rewrite app_nil_r. split; [done|]. repeat split; try done; lia. }
  pose proof (pb_enqueue_padding header data _ _ Hok1 Hz Hm Hne Hcw) as Hpad.
  destruct (match rg_enqueue_one _ _ with Some _ => _ | None => _ end) as [ok b'].
  destruct Hpad as (? & ? & ? & ?); [done|done|]. split; [done|]. split; [done|]. split; [done|]. split; [done|]. split; lia.
Qed.


(** [dequeue] and [peek] once the ring starts with a packet. *)
Lemma rg_dequeue_many_spec b m ms :
  pb_ok b -> ring_list (pb_meta b) = m :: ms ->
  let p := pb_payload b in
  rg_dequeue_many (pm_size m) p = (take (pm_size m) (drop (rg_read p) (rg_storage p)),
    mkRB (rg_storage p) ((rg_read p + pm_size m) mod rg_capacity p) (rg_len p - pm_size m))
  /\ rg_get_allocated (pm_size m) p = take (pm_size m) (drop (rg_read p) (rg_storage p)).
Proof.
  intros [_ [Hr Hl] Ht Hly] E p. rewrite E in Ht, Hly. destruct Hly as (_ & Hs & _). unfold total in Ht; cbn in Ht.
  fold p in Hr, Hl, Ht, Hs. unfold rg_dequeue_many, rg_get_allocated.
  rewrite (proj2 (Nat.ltb_lt 0 _)) by lia. split; by replace (Nat.min _ _) with (pm_size m) by lia.
Qed.

Lemma pb_pop b m ms r' :
  pb_ok b -> ring_list (pb_meta b) = m :: ms -> ring_ok r' -> ring_list r' = ms ->
  let p := pb_payload b in
  let b' := mkPB r' (mkRB (rg_storage p) ((rg_read p + pm_size m) mod rg_capacity p) (rg_len p - pm_size m)) in
  pb_ok b' /\ packets b = match pm_header m with
                          | Some h => (h, take (pm_size m) (drop (rg_read p) (rg_storage p))) :: packets b'
                          | None => packets b'
                          end.
Proof.
  intros [_ [Hr Hl] Ht Hly] E Hr' E' p b'. fold p in Hr, Hl, Ht, Hly. rewrite E in Ht, Hly. unfold total in Ht; cbn in Ht.
  destruct Hly as (_ & Hs & _ & Hly). split.
  - split; cbn [b' pb_meta pb_payload rg_read rg_len]; [done| |rewrite E'; unfold total; lia|by rewrite E'].
    split; unfold rg_capacity in *; cbn [rg_storage rg_read rg_len]; [apply Nat.mod_upper_bound|]; lia.
  - unfold packets. rewrite E. cbn [packets_at b' pb_meta pb_payload rg_storage rg_read]. rewrite E'. by destruct (pm_header m).
Qed.

Definition same_caps b b' : Prop :=
  rg_capacity (pb_meta b') = rg_capacity (pb_meta b) /\ rg_capacity (pb_payload b') = rg_capacity (pb_payload b).

(** [dequeue_padding]: the ring then is empty or starts with a packet. *)
Lemma pb_dequeue_padding_spec b :
  pb_ok b ->
  exists b', pb_dequeue_padding b = Ret b' /\ pb_ok b' /\ packets b' = packets b /\ same_caps b b'
    /\ match ring_list (pb_meta b') with [] => True | m :: _ => is_padding m = false end.
Proof.
  intros Hok. unfold pb_dequeue_padding. pose proof (rg_dequeue_one_spec is_padding _ (po_meta _ Hok)) as Hd.
  destruct (ring_list (pb_meta b)) as [|m ms] eqn:E.
  { rewrite Hd. exists b. by rewrite E. }
  destruct Hd as (r' & -> & Hr' & El & Hc). destruct (is_padding m) eqn:Hm.
  - destruct (rg_dequeue_many_spec b m ms Hok E) as [-> _]. destruct (pb_pop b m ms r' Hok E Hr' El) as [Hok' Hp].
    eexists. split; [done|]. split; [exact Hok'|]. unfold is_padding in Hm. destruct (pm_header m) eqn:Hh; [done|].
    split; [by rewrite Hp|]. split; [done|]. cbn [pb_meta]. rewrite El. destruct ms as [|m' ms]; [done|].
    pose proof (po_layout _ Hok) as Hly. rewrite E in Hly. destruct Hly as (_ & _ & Hpad & _).
    unfold is_padding in Hpad at 1. rewrite Hh in Hpad. by destruct Hpad as (_ & _ & ?).
  - exists b. by rewrite E, Hm.
Qed.

(** [dequeue] takes the first packet. *)
Lemma pb_dequeue_spec b :
  pb_ok b ->
  exists b', pb_dequeue b = Ret (head (packets b), b') /\ pb_ok b' /\ packets b' = tail (packets b) /\ same_caps b b'.
Proof.
  intros Hok. unfold pb_dequeue. destruct (pb_dequeue_padding_spec b Hok) as (b1 & -> & Hok1 & <- & Hc1 & Hm).
  pose proof (rg_dequeue_one_spec (fun _ => true) _ (po_meta _ Hok1)) as Hd.
  destruct (ring_list (pb_meta b1)) as [|m ms] eqn:E.
  { rewrite Hd. exists b1. unfold packets. by rewrite E. }
  destruct Hd as (r' & -> & Hr' & El & Hc). destruct (rg_dequeue_many_spec b1 m ms Hok1 E) as [-> _].
  destruct (pb_pop b1 m ms r' Hok1 E Hr' El) as [Hok' Hp]. unfold is_padding in Hm. destruct (pm_header m) eqn:Hh; [|done].
  rewrite Hp. eexists. split; [done|]. split; [exact Hok'|]. split; [done|]. destruct Hc1. by split; cbn; rewrite ?Hc.
Qed.

(** Every [dequeue] frees a description, if one is in use. *)
Lemma pb_dequeue_len b x b' : pb_dequeue b = Ret (x, b') -> rg_len (pb_meta b') <= rg_len (pb_meta b) - 1.
Proof.
  unfold pb_dequeue, pb_dequeue_padding, rg_dequeue_one_with, rg_is_empty. intros Hd.
  repeat (case_match; simplify_eq; cbn [pb_meta rg_len] in *; try done);
    repeat match goal with E : (_ =? 0) = _ |- _ => first [apply Nat.eqb_eq in E|apply Nat.eqb_neq in E] end; lia.
Qed.

(** [peek] gives the same packet and leaves it. *)
Lemma pb_peek_spec b :
  pb_ok b ->
  exists b', pb_peek b = Ret (head (packets b), b') /\ pb_ok b' /\ packets b' = packets b /\ same_caps b b'.
Proof.
  intros Hok. unfold pb_peek. destruct (pb_dequeue_padding_spec b Hok) as (b1 & -> & Hok1 & <- & Hc1 & Hm).
  rewrite rg_get_one by apply Hok1. destruct (ring_list (pb_meta b1)) as [|m ms] eqn:E; cbn [take].
  { exists b1. unfold packets. by rewrite E. }
  destruct (rg_dequeue_many_spec b1 m ms Hok1 E) as [_ ->]. unfold is_padding in Hm. destruct (pm_header m) eqn:Hh; [|done].
  exists b1. split; [|done]. unfold packets. rewrite E. cbn [packets_at]. by rewrite Hh.
Qed.

Lemma pb_new_ok (n bytes : nat) :
  0 < n -> 0 < bytes -> pb_ok (@pb_new H n bytes) /\ packets (@pb_new H n bytes) = [].
Proof.
  intros Hn Hb. split; [|done]. split; try done; split; unfold rg_capacity; cbn; rewrite ?length_replicate; lia.
Qed.

Lemma pb_reset_ok b : pb_ok b -> pb_ok (pb_reset b) /\ packets (pb_reset b) = [] /\ same_caps b (pb_reset b).
Proof. intros [[Hm _] [Hp _] _ _]. repeat split; unfold rg_capacity in *; cbn; try done; lia. Qed.
End PacketLemmas.
