(* ===== verification/Net.v ===== *)
(** Sockets (arceos/modules/axnet/src/smoltcp_impl): the socket set, the listen table
    with its queues of incoming connections, ephemeral ports and the [TcpSocket] that
    the POSIX layer uses. Of smoltcp (src/vendor/smoltcp) the model has the socket
    set, the calls the sockets make and the changes that packets and timers make to a
    socket; which of them happen at a poll is a list of events. The [UdpSocket] is in
    Udp.v. An [update_state] with
    its closure, and one pass of a blocking call, are one step. *)
From S2P Require Import Prelude.
From S2P Require Import Errno.
From S2P Require Import IoMpx.
From S2P Require Import PacketBuffer.

(** * Addresses (addr.rs) *)

(** [IpAddr] and [SocketAddr] of the standard library. *)
Inductive IpAddr := V4 (octets : Z) | V6 (segments : Z).
Record SocketAddr := mkAddr { sa_ip : IpAddr; sa_port : Z }.
(** [IpEndpoint] of smoltcp, IPv4 only; [IpListenEndpoint]. *)
Record IpEndpoint := mkEp { ep_addr : Z; ep_port : Z }.
Record IpListenEndpoint := mkLep { lep_addr : option Z; lep_port : Z }.

#[export] Instance IpEndpoint_eq_dec : EqDecision IpEndpoint.
Proof. solve_decision. Defined.

Definition UNSPECIFIED_ENDPOINT : IpEndpoint := mkEp 0 0.
Definition is_unspecified (ip : Z) : bool := ip =? 0.
Definition from_core_sockaddr (a : SocketAddr) : outcome IpEndpoint :=
  match sa_ip a with V4 ip => Ret (mkEp ip (sa_port a)) | V6 _ => Panic end.
Definition into_core_sockaddr (e : IpEndpoint) : SocketAddr := mkAddr (V4 (ep_addr e)) (ep_port e).

(** * TCP sockets of smoltcp (socket/tcp.rs) *)

Inductive TcpState :=
| Closed | Listen | SynSent | SynReceived | Established | FinWait1 | FinWait2 | CloseWait
| Closing | LastAck | TimeWait.
#[export] Instance TcpState_eq_dec : EqDecision TcpState.
Proof. solve_decision. Defined.

(** The state, the endpoints of a connection, the endpoint listened on and the bytes in
    the two buffers. *)
Record TcpSock := mkSock {
  sk_state : TcpState;
  sk_tuple : option (IpEndpoint * IpEndpoint);
  sk_listen : IpListenEndpoint;
  sk_rx : list Z;
  sk_tx : list Z;
}.
Definition TCP_RX_BUF_LEN : Z := 65536.
Definition TCP_TX_BUF_LEN : Z := 65536.

Definition new_tcp_socket : TcpSock := mkSock Closed None (mkLep None 0) [] [].
Definition set_sk_state (st : TcpState) (k : TcpSock) : TcpSock :=
  mkSock st (sk_tuple k) (sk_listen k) (sk_rx k) (sk_tx k).

Definition is_open (k : TcpSock) : bool :=
  match sk_state k with Closed | TimeWait => false | _ => true end.
Definition is_active (k : TcpSock) : bool :=
  match sk_state k with Closed | TimeWait | Listen => false | _ => true end.
Definition may_send (k : TcpSock) : bool :=
  match sk_state k with Established | CloseWait => true | _ => false end.
Definition may_recv (k : TcpSock) : bool :=
  match sk_state k with
  | Established | FinWait1 | FinWait2 => true
  | _ => negb (bool_decide (sk_rx k = []))
  end.
Definition can_send (k : TcpSock) : bool := may_send k && (Z.of_nat (length (sk_tx k)) <? TCP_TX_BUF_LEN).
Definition can_recv (k : TcpSock) : bool := may_recv k && negb (bool_decide (sk_rx k = [])).

Inductive ListenError := ListenInvalidState | ListenUnaddressable.
Inductive ConnectError := InvalidState | Unaddressable.

(** [listen], [close]. *)
Definition sk_do_listen (ep : IpListenEndpoint) (k : TcpSock) : result TcpSock ListenError :=
  if lep_port ep =? 0 then Err ListenUnaddressable else
  if is_open k then Err ListenInvalidState else Ok (mkSock Listen None ep [] []).
Definition sk_do_close (k : TcpSock) : TcpSock :=
  match sk_state k with
  | Listen | SynSent => set_sk_state Closed k
  | SynReceived | Established => set_sk_state FinWait1 k
  | CloseWait => set_sk_state LastAck k
  | _ => k
  end.

(** [connect]; [source] chooses the local address for a remote one. *)
Definition sk_do_connect (source : Z -> option Z) (remote : IpEndpoint) (local : IpListenEndpoint) (k : TcpSock)
  : result TcpSock ConnectError :=
  if is_open k then Err InvalidState else
  if (ep_port remote =? 0) || is_unspecified (ep_addr remote) then Err Unaddressable else
  if lep_port local =? 0 then Err Unaddressable else
  let addr := match lep_addr local with
              | Some a => if is_unspecified a then None else Some a
              | None => source (ep_addr remote)
              end in
  match addr with
  | None => Err Unaddressable
  | Some a => Ok (mkSock SynSent (Some (mkEp a (lep_port local), remote)) (mkLep None 0) [] [])
  end.

(** [recv_slice] into [len] bytes, [send_slice]; the callers do not look at the error. *)
Definition recv_slice (len : nat) (k : TcpSock) : result (list Z * TcpSock) unit :=
  if may_recv k then
    Ok (take len (sk_rx k), mkSock (sk_state k) (sk_tuple k) (sk_listen k) (drop len (sk_rx k)) (sk_tx k))
  else Err tt.
Definition send_slice (data : list Z) (k : TcpSock) : result (Z * TcpSock) unit :=
  if may_send k then
    let n := Z.min (Z.of_nat (length data)) (TCP_TX_BUF_LEN - Z.of_nat (length (sk_tx k))) in
    Ok (n, mkSock (sk_state k) (sk_tuple k) (sk_listen k) (sk_rx k) (sk_tx k ++ take (Z.to_nat n) data))
  else Err tt.

(** * UDP sockets of smoltcp (socket/udp.rs) *)

(** The endpoint it is bound to, and the datagrams received and to be sent with the
    remote endpoint of each. *)
Record UdpSock := mkUdp {
  us_endpoint : IpListenEndpoint;
  us_rx : PacketBuffer IpEndpoint;
  us_tx : PacketBuffer IpEndpoint;
}.
Definition UDP_RX_BUF_LEN : Z := 65536.
Definition UDP_TX_BUF_LEN : Z := 65536.
Definition new_udp_socket : UdpSock :=
  mkUdp (mkLep None 0) (pb_new 8 (Z.to_nat UDP_RX_BUF_LEN)) (pb_new 8 (Z.to_nat UDP_TX_BUF_LEN)).

(** [accepts] a datagram to [dst]; [group]: the address is a broadcast or multicast one. *)
Definition udp_accepts (u : UdpSock) (dst : IpEndpoint) (group : bool) : bool :=
  (lep_port (us_endpoint u) =? ep_port dst)
  && match lep_addr (us_endpoint u) with Some a => (a =? ep_addr dst) || group | None => true end.
(** [process]: a datagram that does not fit is dropped. *)
Definition udp_process (src : IpEndpoint) (data : list Z) (u : UdpSock) : UdpSock :=
  mkUdp (us_endpoint u) (snd (pb_enqueue src data (us_rx u))) (us_tx u).
(** [dispatch]: the first datagram is sent, or stays when the device does not take it. The
    panics of the buffer are excluded by [pb_dequeue_spec]. *)
Definition udp_dispatch (sent : bool) (u : UdpSock) : UdpSock :=
  let tx := if sent
            then match pb_dequeue (us_tx u) with Ret (_, b) => b | Panic => us_tx u end
            else match pb_dequeue_padding (us_tx u) with Ret b => b | Panic => us_tx u end in
  mkUdp (us_endpoint u) (us_rx u) tx.

(** * The socket set (iface/socket_set.rs) *)

(** A slot is free or holds a TCP socket, a UDP socket or a socket of another protocol. *)
Inductive Sock := Tcp (k : TcpSock) | Udp (u : UdpSock) | OtherSock.
Abbreviation SocketSet := (list (option Sock)).

Fixpoint free_slot (s : SocketSet) : option nat :=
  match s with
  | [] => None
  | None :: _ => Some 0%nat
  | Some _ :: s' => S <$> free_slot s'
  end.
Definition set_add_sock (x : Sock) (s : SocketSet) : nat * SocketSet :=
  match free_slot s with
  | Some i => (i, <[i := Some x]> s)
  | None => (length s, s ++ [Some x])
  end.
Definition set_add (k : TcpSock) : SocketSet -> nat * SocketSet := set_add_sock (Tcp k).
(** [get], [get_mut] and [remove] panic on a handle without a socket of the type. *)
Definition set_get (h : nat) (s : SocketSet) : outcome TcpSock :=
  match s !! h with Some (Some (Tcp k)) => Ret k | _ => Panic end.
Definition set_put (h : nat) (k : TcpSock) (s : SocketSet) : SocketSet := <[h := Some (Tcp k)]> s.
Definition set_remove (h : nat) (s : SocketSet) : outcome SocketSet :=
  match s !! h with Some (Some _) => Ret (<[h := None]> s) | _ => Panic end.

(** * The listen table (listen_table.rs) *)

Definition LISTEN_QUEUE_SIZE : nat := 512.

(** [ListenTableEntry]; the table by port. *)
Record ListenTableEntry := mkLTE { listen_endpoint : IpListenEndpoint; syn_queue : list nat }.
Abbreviation ListenTable := (gmap Z ListenTableEntry).

(** The global state: [SOCKET_SET], [LISTEN_TABLE] and the next ephemeral port. *)
Record NetSt := mkNet { n_set : SocketSet; n_listen : ListenTable; n_curr : Z }.
Definition with_set (s : SocketSet) (n : NetSt) : NetSt := mkNet s (n_listen n) (n_curr n).
Definition with_listen (l : ListenTable) (n : NetSt) : NetSt := mkNet (n_set n) l (n_curr n).

Definition NetM (A : Type) : Type := M NetSt AxError A.

Definition can_listen (port : Z) (n : NetSt) : bool :=
  match n_listen n !! port with None => true | Some _ => false end.

(** [listen]: the [assert_ne!] on the port. *)
Definition lt_listen (ep : IpListenEndpoint) : NetM unit := fun n =>
  if lep_port ep =? 0 then Panic else
  match n_listen n !! lep_port ep with
  | None => Ret (Ok tt, with_listen (<[lep_port ep := mkLTE ep []]> (n_listen n)) n)
  | Some _ => Ret (Err AddrInUse, n)
  end.

(** [Drop for ListenTableEntry]; [unlisten]. *)
Fixpoint remove_all (hs : list nat) (s : SocketSet) : outcome SocketSet :=
  match hs with
  | [] => Ret s
  | h :: hs' => match set_remove h s with Ret s' => remove_all hs' s' | Panic => Panic end
  end.
Definition unlisten (port : Z) : NetM unit := fun n =>
  match n_listen n !! port with
  | None => Ret (Ok tt, n)
  | Some e =>
      match remove_all (syn_queue e) (n_set n) with
      | Ret s => Ret (Ok tt, mkNet s (delete port (n_listen n)) (n_curr n))
      | Panic => Panic
      end
  end.

(** [is_connected], [get_addr_tuple]: the [unwrap]s of the endpoints. *)
Definition tcp_connected (k : TcpSock) : bool :=
  match sk_state k with Listen | SynReceived => false | _ => true end.
Definition is_connected (s : SocketSet) (h : nat) : outcome bool :=
  match set_get h s with Ret k => Ret (tcp_connected k) | Panic => Panic end.
Definition get_addr_tuple (s : SocketSet) (h : nat) : outcome (IpEndpoint * IpEndpoint) :=
  match set_get h s with
  | Ret k => match sk_tuple k with Some t => Ret t | None => Panic end
  | Panic => Panic
  end.

(** [iter().any(...)]; [iter().enumerate().find_map(...)]. *)
Fixpoint any_connected (s : SocketSet) (q : list nat) : outcome bool :=
  match q with
  | [] => Ret false
  | h :: q' =>
      match is_connected s h with
      | Ret true => Ret true
      | Ret false => any_connected s q'
      | Panic => Panic
      end
  end.
Fixpoint find_connected (s : SocketSet) (i : nat) (q : list nat)
  : outcome (option (nat * (IpEndpoint * IpEndpoint))) :=
  match q with
  | [] => Ret None
  | h :: q' =>
      match is_connected s h with
      | Ret true => match get_addr_tuple s h with Ret t => Ret (Some (i, t)) | Panic => Panic end
      | Ret false => find_connected s (S i) q'
      | Panic => Panic
      end
  end.

(** [ListenTable::can_accept]. *)
Definition lt_can_accept (port : Z) : NetM bool := fun n =>
  match n_listen n !! port with
  | Some e => match any_connected (n_set n) (syn_queue e) with Ret b => Ret (Ok b, n) | Panic => Panic end
  | None => Ret (Err InvalidInput, n)
  end.

(** [VecDeque::swap_remove_front]: the element is replaced by the first one. *)
Definition swap_remove_front (i : nat) (q : list nat) : option (nat * list nat) :=
  match q !! i with
  | None => None
  | Some h => Some (h, match i, q with S i', x :: q' => <[i' := x]> q' | _, _ => drop 1 q end)
  end.

(** [ListenTable::accept]. *)
Definition lt_accept (port : Z) : NetM (nat * (IpEndpoint * IpEndpoint)) := fun n =>
  match n_listen n !! port with
  | None => Ret (Err InvalidInput, n)
  | Some e =>
      match find_connected (n_set n) 0 (syn_queue e) with
      | Panic => Panic
      | Ret None => Ret (Err WouldBlock, n)
      | Ret (Some (idx, tuple)) =>
          match swap_remove_front idx (syn_queue e) with
          | Some (h, q) =>
              Ret (Ok (h, tuple), with_listen (<[port := mkLTE (listen_endpoint e) q]> (n_listen n)) n)
          | None => Panic
          end
      end
  end.

(** [ListenTableEntry::can_accept]; [incoming_tcp_packet]: a first packet to [dst]. *)
Definition entry_can_accept (e : ListenTableEntry) (dst : Z) : bool :=
  match lep_addr (listen_endpoint e) with Some a => a =? dst | None => true end.
Definition incoming_tcp_packet (dst : IpEndpoint) (n : NetSt) : NetSt :=
  match n_listen n !! ep_port dst with
  | None => n
  | Some e =>
      if negb (entry_can_accept e (ep_addr dst)) then n else
      if (LISTEN_QUEUE_SIZE <=? length (syn_queue e))%nat then n else
      match sk_do_listen (listen_endpoint e) new_tcp_socket with
      | Err _ => n
      | Ok k =>
          let '(h, s) := set_add k (n_set n) in
          mkNet s (<[ep_port dst := mkLTE (listen_endpoint e) (syn_queue e ++ [h])]> (n_listen n)) (n_curr n)
      end
  end.

(** * Polling the interface *)

(** The state changes of [process] and of the timers of [dispatch]. *)
Definition tcp_next (a b : TcpState) : bool :=
  match a, b with
  | Listen, (Listen | SynReceived)
  | SynReceived, (SynReceived | Listen | Established | CloseWait | Closed)
  | SynSent, (SynSent | Established | Closed)
  | Established, (Established | CloseWait | Closed)
  | FinWait1, (FinWait1 | FinWait2 | Closing | TimeWait | Closed)
  | FinWait2, (FinWait2 | TimeWait | Closed)
  | CloseWait, (CloseWait | Closed)
  | Closing, (Closing | TimeWait | Closed)
  | LastAck, (LastAck | Closed)
  | TimeWait, (TimeWait | Closed) => true
  | _, _ => false
  end.
(** [accepts] of a listening socket, for the destination of a packet. *)
Definition listen_accepts (ep : IpListenEndpoint) (dst : IpEndpoint) : bool :=
  match lep_addr ep with Some a => a =? ep_addr dst | None => true end
  && negb (ep_port dst =? 0) && (ep_port dst =? lep_port ep).
(** The endpoints after a change to [b] by a packet between [t]; a socket that closes
    forgets them on a reset, not on a timeout. *)
Definition seg_tuple (k : TcpSock) (b : TcpState) (t : IpEndpoint * IpEndpoint) (forget : bool)
  : option (IpEndpoint * IpEndpoint) :=
  match sk_state k, b with
  | Listen, SynReceived => Some t
  | SynReceived, Listen => None
  | _, Closed => if forget then None else sk_tuple k
  | _, _ => sk_tuple k
  end.

Inductive NetEvent :=
| Syn (dst : IpEndpoint)
| Segment (h : nat) (b : TcpState) (t : IpEndpoint * IpEndpoint) (forget : bool) (data : list Z) (acked : nat)
| Expire (h : nat)
| Forget (h : nat)
| Datagram (src dst : IpEndpoint) (group : bool) (data : list Z)
| Transmit (h : nat) (sent : bool).

(** A packet or a timeout moves [k] to [b], delivers [data] in order and acknowledges
    [acked] bytes. *)
Definition seg_step (k : TcpSock) (b : TcpState) (t : IpEndpoint * IpEndpoint) (forget : bool)
    (data : list Z) (acked : nat) : TcpSock :=
  if tcp_next (sk_state k) b
     && (negb (bool_decide (sk_state k = Listen)) || listen_accepts (sk_listen k) (fst t))
     && (Z.of_nat (length (sk_rx k) + length data) <=? TCP_RX_BUF_LEN)
  then mkSock b (seg_tuple k b t forget) (sk_listen k) (sk_rx k ++ data) (drop acked (sk_tx k))
  else k.
(** The end of TIME-WAIT; the reset packet of a closed socket is sent. *)
Definition expire_step (k : TcpSock) : TcpSock :=
  if bool_decide (sk_state k = TimeWait) then new_tcp_socket else k.
Definition forget_step (k : TcpSock) : TcpSock :=
  if bool_decide (sk_state k = Closed) then mkSock Closed None (sk_listen k) (sk_rx k) (sk_tx k) else k.

Definition on_tcp (h : nat) (f : TcpSock -> TcpSock) (n : NetSt) : NetSt :=
  match n_set n !! h with
  | Some (Some (Tcp k)) => with_set (<[h := Some (Tcp (f k))]> (n_set n)) n
  | _ => n
  end.

(** [process_udp]: the first socket that accepts the datagram takes it; datagrams to port
    0 are malformed and do not get here. *)
Fixpoint process_udp (src dst : IpEndpoint) (group : bool) (data : list Z) (s : SocketSet) : SocketSet :=
  match s with
  | [] => []
  | Some (Udp u) :: s' =>
      if udp_accepts u dst group then Some (Udp (udp_process src data u)) :: s'
      else Some (Udp u) :: process_udp src dst group data s'
  | x :: s' => x :: process_udp src dst group data s'
  end.
Definition on_udp (h : nat) (f : UdpSock -> UdpSock) (n : NetSt) : NetSt :=
  match n_set n !! h with
  | Some (Some (Udp u)) => with_set (<[h := Some (Udp (f u))]> (n_set n)) n
  | _ => n
  end.
Definition net_event (e : NetEvent) (n : NetSt) : NetSt :=
  match e with
  | Syn dst => incoming_tcp_packet dst n
  | Segment h b t forget data acked => on_tcp h (fun k => seg_step k b t forget data acked) n
  | Expire h => on_tcp h expire_step n
  | Forget h => on_tcp h forget_step n
  | Datagram src dst group data =>
      if ep_port dst =? 0 then n else with_set (process_udp src dst group data (n_set n)) n
  | Transmit h sent => on_udp h (udp_dispatch sent) n
  end.
(** [poll_interfaces]. *)
Definition poll_interfaces (evs : list NetEvent) (n : NetSt) : NetSt :=
  fold_left (fun n e => net_event e n) evs n.

(** * Ephemeral ports *)

Definition PORT_START : Z := 0xc000.
Definition PORT_END : Z := 0xffff.

(** The loop of [get_ephemeral_port]; [tries] is what is left of its bound. *)
Fixpoint port_loop (tries : nat) : NetM Z := fun n =>
  match tries with
  | O => Ret (Err AddrInUse, n)
  | S tries' =>
      let port := n_curr n in
      let n' := mkNet (n_set n) (n_listen n) (if port =? PORT_END then PORT_START else port + 1) in
      if can_listen port n' then Ret (Ok port, n') else port_loop tries' n'
  end.
Definition get_ephemeral_port : NetM Z := port_loop (Z.to_nat (PORT_END - PORT_START + 1)).

(** * [TcpSocket] (tcp.rs) *)

Inductive SState := S_CLOSED | S_BUSY | S_CONNECTING | S_CONNECTED | S_LISTENING.
#[export] Instance SState_eq_dec : EqDecision SState.
Proof. solve_decision. Defined.

Record TcpSocket := mkTS {
  ts_state : SState;
  ts_handle : option nat;
  ts_local : IpEndpoint;
  ts_peer : IpEndpoint;
  ts_nonblock : bool;
}.
Definition tcp_new : TcpSocket := mkTS S_CLOSED None UNSPECIFIED_ENDPOINT UNSPECIFIED_ENDPOINT false.
Definition new_connected (h : nat) (local peer : IpEndpoint) : TcpSocket :=
  mkTS S_CONNECTED (Some h) local peer false.

(** Code that runs on one socket and the global state. *)
Definition SockM (A : Type) : Type := M (TcpSocket * NetSt) AxError A.
Definition net {A} (m : NetM A) : SockM A := zoom snd (fun n st => (fst st, n)) m.
Definition sock_get : SockM TcpSocket := fun st => Ret (Ok (fst st), st).
Definition sock_mod (f : TcpSocket -> TcpSocket) : SockM unit := modify (fun st => (f (fst st), snd st)).
Definition set_ts_state (st : SState) (k : TcpSocket) : TcpSocket :=
  mkTS st (ts_handle k) (ts_local k) (ts_peer k) (ts_nonblock k).
Definition set_local (e : IpEndpoint) (k : TcpSocket) : TcpSocket :=
  mkTS (ts_state k) (ts_handle k) e (ts_peer k) (ts_nonblock k).

(** [update_state]: [Err] of the old state when it is not the expected one. *)
Definition update_state {A} (expect new : SState) (f : SockM A)
    (st : TcpSocket * NetSt) : outcome (result (result A AxError) SState * (TcpSocket * NetSt)) :=
  if bool_decide (ts_state (fst st) = expect) then
    match f (set_ts_state S_BUSY (fst st), snd st) with
    | Panic => Panic
    | Ret (Ok a, (k, n)) => Ret (Ok (Ok a), (set_ts_state new k, n))
    | Ret (Err e, (k, n)) => Ret (Ok (Err e), (set_ts_state expect k, n))
    end
  else Ret (Err (ts_state (fst st)), st).
(** [.unwrap_or_else(|_| r)] on the result of [update_state]. *)
Definition or_else {A} (r : result A AxError)
    (m : TcpSocket * NetSt -> outcome (result (result A AxError) SState * (TcpSocket * NetSt))) : SockM A :=
  fun st => match m st with
            | Ret (Ok x, st') => Ret (x, st')
            | Ret (Err _, st') => Ret (r, st')
            | Panic => Panic
            end.

(** [with_socket_mut] on the handle [h]. *)
Definition with_socket {A} (h : nat) (f : TcpSock -> result A AxError * TcpSock) : SockM A := fun '(k, n) =>
  match set_get h (n_set n) with
  | Panic => Panic
  | Ret s => let '(r, s') := f s in Ret (r, (k, with_set (set_put h s' (n_set n)) n))
  end.

(** [local_addr], [peer_addr]. *)
Definition local_addr (k : TcpSocket) : result SocketAddr AxError :=
  match ts_state k with
  | S_CONNECTED | S_LISTENING => Ok (into_core_sockaddr (ts_local k))
  | _ => Err NotConnected
  end.
Definition peer_addr (k : TcpSocket) : result SocketAddr AxError :=
  match ts_state k with
  | S_CONNECTED | S_LISTENING => Ok (into_core_sockaddr (ts_peer k))
  | _ => Err NotConnected
  end.

(** [bound_endpoint]. *)
Definition bound_endpoint : SockM IpListenEndpoint :=
  k ← sock_get;
  port ← (if negb (ep_port (ts_local k) =? 0) then mret (ep_port (ts_local k)) else net get_ephemeral_port);
  _ ← assert_ (negb (port =? 0));
  mret (mkLep (if is_unspecified (ep_addr (ts_local k)) then None else Some (ep_addr (ts_local k))) port).

(** [bind]. *)
Definition tcp_bind (addr : SocketAddr) : SockM unit :=
  or_else (Err InvalidInput) (update_state S_CLOSED S_CLOSED (
    port ← (if sa_port addr =? 0 then net get_ephemeral_port else mret (sa_port addr));
    k ← sock_get;
    _ ← ensure (bool_decide (ts_local k = UNSPECIFIED_ENDPOINT)) InvalidInput;
    match from_core_sockaddr (mkAddr (sa_ip addr) port) with
    | Ret e => sock_mod (set_local e)
    | Panic => panic
    end)).

(** [listen]. *)
Definition tcp_listen : SockM unit :=
  or_else (Ok tt) (update_state S_CLOSED S_LISTENING (
    ep ← bound_endpoint;
    _ ← sock_mod (fun k => set_local (mkEp (ep_addr (ts_local k)) (lep_port ep)) k);
    net (lt_listen ep))).

(** The first part of [connect], up to the wait: what the closure does with its handle, and
    the whole of it. A handle that is new is written to the socket only at the end. *)
Definition connect_on (source : Z -> option Z) (addr : SocketAddr) (h : nat) : SockM unit :=
  match from_core_sockaddr addr with
  | Panic => panic
  | Ret remote =>
      bound ← bound_endpoint;
      eps ← with_socket h (fun s =>
        match sk_do_connect source remote bound s with
        | Err InvalidState => (Err BadState, s)
        | Err Unaddressable => (Err ConnectionRefused, s)
        | Ok s' => (Ok (sk_tuple s'), s')
        end);
      eps ← unwrap eps;
      sock_mod (fun k => mkTS (ts_state k) (Some h) eps.1 eps.2 (ts_nonblock k))
  end.
Definition tcp_connect_start (source : Z -> option Z) (addr : SocketAddr) : SockM unit :=
  or_else (Err AlreadyExists) (update_state S_CLOSED S_CONNECTING (
    k ← sock_get;
    h ← match ts_handle k with
        | Some h => mret h
        | None => net (fun n => let '(h, s) := set_add new_tcp_socket (n_set n) in Ret (Ok h, with_set s n))
        end;
    connect_on source addr h)).

(** [poll_connect]: [writable] of the poll state, which is never readable. *)
Definition poll_connect : SockM bool := fun '(k, n) =>
  match ts_handle k with
  | None => Panic
  | Some h =>
      match set_get h (n_set n) with
      | Panic => Panic
      | Ret s =>
          match sk_state s with
          | SynSent => Ret (Ok false, (k, n))
          | Established => Ret (Ok true, (set_ts_state S_CONNECTED k, n))
          | _ => Ret (Ok true, (mkTS S_CLOSED (ts_handle k) UNSPECIFIED_ENDPOINT UNSPECIFIED_ENDPOINT (ts_nonblock k), n))
          end
      end
  end.

(** The closure of the wait of [connect]. *)
Definition connect_wait : SockM unit :=
  writable ← poll_connect;
  if negb writable then throw WouldBlock else
  k ← sock_get;
  if bool_decide (ts_state k = S_CONNECTED) then mret tt else throw ConnectionRefused.

(** One pass of the loop of [block_on]; [block_on]: a blocking socket polls the
    interfaces before every pass; the list has what happens at each poll; [None] while
    the call still waits. *)
Definition block_pass {A} (f : SockM A) (evs : list NetEvent) : SockM A := fun st =>
  f (fst st, poll_interfaces evs (snd st)).
Fixpoint block_loop {A} (f : SockM A) (polls : list (list NetEvent)) (st : TcpSocket * NetSt)
  : option (outcome (result A AxError * (TcpSocket * NetSt))) :=
  match polls with
  | [] => None
  | evs :: polls' =>
      match block_pass f evs st with
      | Ret (Err WouldBlock, st') => block_loop f polls' st'
      | r => Some r
      end
  end.
Definition block_on {A} (f : SockM A) (polls : list (list NetEvent)) (st : TcpSocket * NetSt)
  : option (outcome (result A AxError * (TcpSocket * NetSt))) :=
  if ts_nonblock (fst st) then Some (f st) else block_loop f polls st.

(** [connect]. *)
Definition tcp_connect (source : Z -> option Z) (addr : SocketAddr) (polls : list (list NetEvent))
    (st : TcpSocket * NetSt) : option (outcome (result unit AxError * (TcpSocket * NetSt))) :=
  match tcp_connect_start source addr st with
  | Ret (Ok _, st') =>
      if ts_nonblock (fst st') then Some (Ret (Err WouldBlock, st'))
      else block_on connect_wait polls st'
  | r => Some r
  end.

(** The closure of [accept]; [accept]. *)
Definition accept_pass (port : Z) : SockM TcpSocket :=
  x ← net (lt_accept port);
  mret (new_connected x.1 x.2.1 x.2.2).
Definition tcp_accept (polls : list (list NetEvent)) (st : TcpSocket * NetSt)
  : option (outcome (result TcpSocket AxError * (TcpSocket * NetSt))) :=
  if bool_decide (ts_state (fst st) = S_LISTENING)
  then block_on (accept_pass (ep_port (ts_local (fst st)))) polls st
  else Some (Ret (Err InvalidInput, st)).

(** [shutdown] of a stream and of a listener; [evs] is what happens at its poll. *)
Definition shutdown_stream (evs : list NetEvent) : SockM unit :=
  or_else (Ok tt) (update_state S_CONNECTED S_CLOSED (
    k ← sock_get;
    h ← unwrap (ts_handle k);
    _ ← with_socket h (fun s => (Ok tt, sk_do_close s));
    _ ← sock_mod (set_local UNSPECIFIED_ENDPOINT);
    modify (fun st => (fst st, poll_interfaces evs (snd st))))).
Definition shutdown_listener (evs : list NetEvent) : SockM unit :=
  or_else (Ok tt) (update_state S_LISTENING S_CLOSED (
    k ← sock_get;
    let port := ep_port (ts_local k) in
    _ ← sock_mod (set_local UNSPECIFIED_ENDPOINT);
    _ ← net (unlisten port);
    modify (fun st => (fst st, poll_interfaces evs (snd st))))).
Definition tcp_shutdown (evs : list NetEvent) : SockM unit :=
  _ ← shutdown_stream evs;
  shutdown_listener evs.

(** The closures of [recv] and [send]; [recv], [send]. *)
Definition recv_pass (h len : nat) : SockM (list Z) :=
  with_socket h (fun s =>
    if negb (is_active s) then (Err ConnectionRefused, s)
    else if negb (may_recv s) then (Ok [], s)
    else if (0 <? length (sk_rx s))%nat then
      match recv_slice len s with Ok (d, s') => (Ok d, s') | Err _ => (Err BadState, s) end
    else (Err WouldBlock, s)).
Definition send_pass (h : nat) (data : list Z) : SockM Z :=
  with_socket h (fun s =>
    if negb (is_active s) || negb (may_send s) then (Err ConnectionReset, s)
    else if can_send s then
      match send_slice data s with Ok (n, s') => (Ok n, s') | Err _ => (Err BadState, s) end
    else (Err WouldBlock, s)).

Definition on_connected {A} (f : nat -> SockM A) (polls : list (list NetEvent)) (st : TcpSocket * NetSt)
  : option (outcome (result A AxError * (TcpSocket * NetSt))) :=
  match ts_state (fst st) with
  | S_CONNECTING => Some (Ret (Err WouldBlock, st))
  | S_CONNECTED =>
      match ts_handle (fst st) with
      | Some h => block_on (f h) polls st
      | None => Some Panic
      end
  | _ => Some (Ret (Err NotConnected, st))
  end.
Definition tcp_recv (len : nat) := on_connected (fun h => recv_pass h len).
Definition tcp_send (data : list Z) := on_connected (fun h => send_pass h data).

(** [poll_stream], [poll_listener], [poll]. *)
Definition poll_stream : SockM PollState :=
  k ← sock_get;
  h ← unwrap (ts_handle k);
  with_socket h (fun s => (Ok (mkPoll (negb (may_recv s) || can_recv s) (negb (may_send s) || can_send s)), s)).
Definition poll_listener : SockM PollState :=
  k ← sock_get;
  b ← net (lt_can_accept (ep_port (ts_local k)));
  mret (mkPoll b false).
Definition tcp_poll : SockM PollState :=
  k ← sock_get;
  match ts_state k with
  | S_CONNECTING => w ← poll_connect; mret (mkPoll false w)
  | S_CONNECTED => poll_stream
  | S_LISTENING => poll_listener
  | _ => mret (mkPoll false false)
  end.

(** [Drop for TcpSocket]. *)
Definition tcp_drop (evs : list NetEvent) (st : TcpSocket * NetSt) : outcome NetSt :=
  match tcp_shutdown evs st with
  | Panic => Panic
  | Ret (_, (k, n)) =>
      match ts_handle k with
      | None => Ret n
      | Some h => match set_remove h (n_set n) with Ret s => Ret (with_set s n) | Panic => Panic end
      end
  end.

(** * The calls on a set of sockets *)

(** The sockets that are open, by number, and the global state. *)
Record NetSys := mkNS { ns_socks : gmap nat TcpSocket; ns_net : NetSt }.
Definition net_init : NetSys := mkNS ∅ (mkNet [] ∅ PORT_START).

(** A call, or one pass of a blocking one; calls of several threads interleave at passes.
    The port of [accept] is the one read when the call starts; the wait of [connect] is
    followed while the socket is connecting. *)
Inductive net_call :=
| CNew (i : nat)
| CBind (i : nat) (addr : SocketAddr)
| CListen (i : nat)
| CConnect (i : nat) (addr : SocketAddr)
| CConnectWait (i : nat) (evs : list NetEvent)
| CAccept (i j : nat) (port : Z) (evs : list NetEvent)
| CRecv (i : nat) (len : nat) (evs : list NetEvent)
| CSend (i : nat) (data : list Z) (evs : list NetEvent)
| CPoll (i : nat)
| CShutdown (i : nat) (evs : list NetEvent)
| CSetNonblock (i : nat) (b : bool)
| CDrop (i : nat) (evs : list NetEvent)
| CNetPoll (evs : list NetEvent).

Definition on_sock {A} (i : nat) (m : SockM A) (y : NetSys) : outcome NetSys :=
  match ns_socks y !! i with
  | None => Ret y
  | Some k =>
      match m (k, ns_net y) with
      | Ret (_, (k', n')) => Ret (mkNS (<[i := k']> (ns_socks y)) n')
      | Panic => Panic
      end
  end.

(** The step of a call; a call on a socket that is not open, or on one in a state in
    which the pass does not run, does nothing. *)
Definition net_step (source : Z -> option Z) (c : net_call) (y : NetSys) : outcome NetSys :=
  match c with
  | CNew i => match ns_socks y !! i with
              | None => Ret (mkNS (<[i := tcp_new]> (ns_socks y)) (ns_net y))
              | Some _ => Ret y
              end
  | CBind i addr => on_sock i (tcp_bind addr) y
  | CListen i => on_sock i tcp_listen y
  | CConnect i addr => on_sock i (tcp_connect_start source addr) y
  | CConnectWait i evs =>
      on_sock i (k ← sock_get;
                 if bool_decide (ts_state k = S_CONNECTING) then block_pass connect_wait evs else mret tt) y
  | CAccept i j port evs =>
      match ns_socks y !! i, ns_socks y !! j with
      | Some k, None =>
          match block_pass (accept_pass port) evs (k, ns_net y) with
          | Ret (Ok k', (_, n')) => Ret (mkNS (<[j := k']> (ns_socks y)) n')
          | Ret (Err _, (_, n')) => Ret (mkNS (ns_socks y) n')
          | Panic => Panic
          end
      | _, _ => Ret y
      end
  | CRecv i len evs =>
      on_sock i (k ← sock_get;
                 match ts_handle k with Some h => block_pass (recv_pass h len) evs | None => mret [] end) y
  | CSend i data evs =>
      on_sock i (k ← sock_get;
                 match ts_handle k with Some h => block_pass (send_pass h data) evs | None => mret 0 end) y
  | CPoll i => on_sock i tcp_poll y
  | CShutdown i evs => on_sock i (tcp_shutdown evs) y
  | CSetNonblock i b =>
      on_sock i (sock_mod (fun k => mkTS (ts_state k) (ts_handle k) (ts_local k) (ts_peer k) b)) y
  | CDrop i evs =>
      match ns_socks y !! i with
      | None => Ret y
      | Some k => match tcp_drop evs (k, ns_net y) with
                  | Ret n' => Ret (mkNS (delete i (ns_socks y)) n')
                  | Panic => Panic
                  end
      end
  | CNetPoll evs => Ret (mkNS (ns_socks y) (poll_interfaces evs (ns_net y)))
  end.

Fixpoint net_steps (source : Z -> option Z) (cs : list net_call) (y : NetSys) : outcome NetSys :=
  match cs with
  | [] => Ret y
  | c :: cs' => match net_step source c y with Ret y' => net_steps source cs' y' | Panic => Panic end
  end.
