(* ===== verification/NetTheorems.v ===== *)
(** TCP sockets: who owns a socket of the socket set, the safety of every call, what
    [accept] returns, ephemeral ports and the byte stream of a connection. *)
From S2P Require Import Prelude.
From S2P Require Import Errno.
From S2P Require Import IoMpx.
From S2P Require Import Net.

(** * The invariant *)

(** A handle is owned by a socket or by the queue of a port. *)
Inductive Owner := OSock (i : nat) | OQueue (p : Z).
Definition own (y : NetSys) (o : Owner) (h : nat) : Prop :=
  match o with
  | OSock i => exists k, ns_socks y !! i = Some k /\ ts_handle k = Some h
  | OQueue p => exists e, n_listen (ns_net y) !! p = Some e /\ h ∈ syn_queue e
  end.
Definition unowned (y : NetSys) (h : nat) : Prop := forall o, ~ own y o h.
Definition live (y : NetSys) (h : nat) (k : TcpSock) : Prop := n_set (ns_net y) !! h = Some (Some (Tcp k)).

(** A socket without endpoints is closed or listens. *)
Definition sock_ok (k : TcpSock) : Prop :=
  sk_tuple k = None -> sk_state k = Closed \/ sk_state k = Listen.
(** A socket in the queue of port [p]. *)
Definition queued_ok (p : Z) (k : TcpSock) : Prop :=
  (sk_state k = Listen \/ sk_state k = SynReceived -> lep_port (sk_listen k) = p)
  /\ (forall t, sk_tuple k = Some t -> ep_port (fst t) = p).
Definition entry_ok (p : Z) (e : ListenTableEntry) : Prop :=
  lep_port (listen_endpoint e) = p /\ p <> 0 /\ (length (syn_queue e) <= LISTEN_QUEUE_SIZE)%nat
  /\ NoDup (syn_queue e).
(** The port a socket listens on. *)
Definition lport (k : TcpSocket) : option Z :=
  if bool_decide (ts_state k = S_LISTENING) then Some (ep_port (ts_local k)) else None.
Definition state_ok (k : TcpSocket) : Prop :=
  ts_state k <> S_BUSY /\ (ts_state k = S_CONNECTING \/ ts_state k = S_CONNECTED -> is_Some (ts_handle k)).

Record net_inv (y : NetSys) : Prop := {
  inv_own : forall o o' h, own y o h -> own y o' h -> o = o';
  inv_live : forall o h, own y o h -> exists k, live y h k;
  inv_entry : forall p e, n_listen (ns_net y) !! p = Some e -> entry_ok p e;
  inv_queue : forall p h k, own y (OQueue p) h -> live y h k -> queued_ok p k;
  inv_sock : forall h k, live y h k -> sock_ok k;
  inv_state : forall i k, ns_socks y !! i = Some k -> state_ok k;
  inv_listener : forall p, is_Some (n_listen (ns_net y) !! p) <->
                           exists i k, ns_socks y !! i = Some k /\ lport k = Some p;
  inv_one : forall i j ki kj p, ns_socks y !! i = Some ki -> ns_socks y !! j = Some kj ->
                                lport ki = Some p -> lport kj = Some p -> i = j;
  inv_curr : PORT_START <= n_curr (ns_net y) <= PORT_END;
}.

(** The first connection of a queue that [accept] looks at was reset by the peer: it is
    closed and has no endpoints. *)
Definition reset_first (y : NetSys) (p : Z) : Prop :=
  exists e q1 h k q2, n_listen (ns_net y) !! p = Some e /\ syn_queue e = q1 ++ h :: q2
    /\ (forall h' k', h' ∈ q1 -> live y h' k' -> tcp_connected k' = false)
    /\ live y h k /\ sk_state k = Closed /\ sk_tuple k = None.

(** Calls whose address is IPv4. *)
Definition v4 (a : SocketAddr) : Prop := exists ip, sa_ip a = V4 ip.
Definition v4_call (c : net_call) : Prop :=
  match c with CBind _ a | CConnect _ a => v4 a | _ => True end.

(** * The socket set and the steps that keep the invariant *)

Lemma free_slot_Some s i : free_slot s = Some i -> s !! i = Some None.
Proof.
  revert i; induction s as [|[k|] s IH]; cbn [free_slot]; intros i Hf; [done| |by simplify_eq].
  destruct (free_slot s) as [j|]; [|done]. apply fmap_Some in Hf as (j' & ? & ->). simplify_eq. by apply IH.
Qed.

Lemma set_add_sock_spec z s h s' :
  set_add_sock z s = (h, s') ->
  (s !! h = None \/ s !! h = Some None) /\ s' !! h = Some (Some z) /\
  (forall h', h' <> h -> forall x, s' !! h' = Some (Some x) <-> s !! h' = Some (Some x)).
Proof.
  unfold set_add_sock. destruct (free_slot s) as [i|] eqn:Hf; intros [= <- <-].
  - apply free_slot_Some in Hf as Hi. pose proof (lookup_lt_Some _ _ _ Hi).
    split; [by right|]. split; [by apply list_lookup_insert_eq|].
    intros h' Hne x. by rewrite list_lookup_insert_ne.
  - split; [left; by apply lookup_ge_None_2|]. split; [by rewrite lookup_app_r, Nat.sub_diag|].
    intros h' Hne x. destruct (decide (h' < length s)%nat).
    + by rewrite lookup_app_l.
    + rewrite lookup_app_r by lia. rewrite (lookup_ge_None_2 s h') by lia.
      destruct (h' - length s)%nat as [|m] eqn:Hm; [lia|]. by cbn.
Qed.
Lemma set_add_spec k s h s' :
  set_add k s = (h, s') ->
  (s !! h = None \/ s !! h = Some None) /\ s' !! h = Some (Some (Tcp k)) /\
  (forall h', h' <> h -> forall x, s' !! h' = Some (Some x) <-> s !! h' = Some (Some x)).
Proof. apply set_add_sock_spec. Qed.

(** The socket that takes a datagram. *)
Fixpoint udp_taker (dst : IpEndpoint) (group : bool) (s : SocketSet) : option nat :=
  match s with
  | [] => None
  | Some (Udp u) :: s' => if udp_accepts u dst group then Some 0%nat else S <$> udp_taker dst group s'
  | _ :: s' => S <$> udp_taker dst group s'
  end.
Lemma process_udp_spec src dst group data s :
  match udp_taker dst group s with
  | None => process_udp src dst group data s = s
  | Some h => exists u, s !! h = Some (Some (Udp u)) /\ udp_accepts u dst group = true
                /\ process_udp src dst group data s = <[h := Some (Udp (udp_process src data u))]> s
  end.
Proof.
  induction s as [|x s IH]; [done|]. cbn [udp_taker process_udp].
  destruct x as [[k|u|]|]; [|destruct (udp_accepts u dst group) eqn:Ha; [by exists u|]|..];
    (destruct (udp_taker dst group s) as [h|]; cbn; [destruct IH as (v & Hv & Hacc & ->); by exists v|by rewrite IH]).
Qed.

Lemma live_put y h k k0 h' k' :
  live y h k ->
  live (mkNS (ns_socks y) (with_set (<[h := Some (Tcp k0)]> (n_set (ns_net y))) (ns_net y))) h' k' <->
  (h' = h /\ k' = k0) \/ (h' <> h /\ live y h' k').
Proof.
  intros Hl. unfold live in *. cbn. pose proof (lookup_lt_Some _ _ _ Hl).
  destruct (decide (h' = h)) as [->|Hne].
  - rewrite list_lookup_insert_eq by done. naive_solver.
  - rewrite list_lookup_insert_ne by done. naive_solver.
Qed.

(** The socket of a handle changes. *)
Lemma inv_put y h k k' :
  net_inv y -> live y h k -> sock_ok k' -> (forall p, own y (OQueue p) h -> queued_ok p k') ->
  net_inv (mkNS (ns_socks y) (with_set (set_put h k' (n_set (ns_net y))) (ns_net y))).
Proof.
  intros I Hl Hok Hq. unfold set_put. destruct I as [Io Il Ie Iq Is It Ii I1 Ic].
  split; try done.
  - intros o h0 Ho. destruct (Il o h0 Ho) as [k0 Hk0]. destruct (decide (h0 = h)) as [->|].
    + exists k'. apply (live_put y h k); auto.
    + exists k0. apply (live_put y h k); auto.
  - intros p h0 k0 Ho Hk0. apply (live_put y h k) in Hk0 as [[-> ->]|[_ Hk0]]; [by apply Hq| |done].
    by apply (Iq p h0).
  - intros h0 k0 Hk0. apply (live_put y h k) in Hk0 as [[-> ->]|[_ Hk0]]; [done|by apply (Is h0)|done].
Qed.

(** The sockets of other protocols change. *)
Lemma inv_tcp_same y (s' : SocketSet) :
  net_inv y -> (forall h k, s' !! h = Some (Some (Tcp k)) <-> n_set (ns_net y) !! h = Some (Some (Tcp k))) ->
  net_inv (mkNS (ns_socks y) (with_set s' (ns_net y))).
Proof.
  intros [Io Il Ie Iq Is It Ii I1 Ic] Hs. split; try done.
  - intros o h Ho. destruct (Il o h Ho) as [k Hk]. exists k. by apply Hs.
  - intros p h k Ho Hk. apply (Iq p h k Ho). by apply Hs.
  - intros h k Hk. apply (Is h k). by apply Hs.
Qed.
Lemma udp_insert_tcp (s : SocketSet) h u v :
  s !! h = Some (Some (Udp u)) ->
  forall h' k, <[h := Some (Udp v)]> s !! h' = Some (Some (Tcp k)) <-> s !! h' = Some (Some (Tcp k)).
Proof.
  intros Hu h' k. destruct (decide (h' = h)) as [->|]; [|by rewrite list_lookup_insert_ne].
  rewrite list_lookup_insert_eq by (by eapply lookup_lt_Some). rewrite Hu. naive_solver.
Qed.
(** UDP traffic does not change TCP sockets. *)
Lemma udp_event_tcp ev n :
  match ev with Datagram _ _ _ _ | Transmit _ _ => True | _ => False end ->
  exists s' : SocketSet, net_event ev n = with_set s' n
    /\ forall h k, s' !! h = Some (Some (Tcp k)) <-> n_set n !! h = Some (Some (Tcp k)).
Proof.
  destruct ev as [| | | |src dst group data|h sent]; intros Hev; try done; cbn [net_event].
  - destruct (_ =? 0); [exists (n_set n); by destruct n|]. eexists. split; [done|].
    pose proof (process_udp_spec src dst group data (n_set n)) as Hp. destruct (udp_taker _ _ _) as [h|]; [|by rewrite Hp].
    destruct Hp as (u & Hu & _ & ->). by eapply udp_insert_tcp.
  - unfold on_udp. destruct (n_set n !! h) as [[[k|u|]|]|] eqn:Hu; try (exists (n_set n); by destruct n).
    eexists. split; [done|]. by eapply udp_insert_tcp.
Qed.

(** A new socket, which nobody owns yet. *)
Lemma inv_add y k h s' :
  net_inv y -> sock_ok k -> set_add k (n_set (ns_net y)) = (h, s') ->
  let y' := mkNS (ns_socks y) (with_set s' (ns_net y)) in
  net_inv y' /\ live y' h k /\ unowned y' h.
Proof.
  intros I Hok Ha y'. apply set_add_spec in Ha as (Hfree & Hh & Hne).
  assert (Hun : unowned y' h).
  { intros o Ho. destruct (inv_live y I o h Ho) as [k0 Hk0]. unfold live in Hk0. naive_solver. }
  split; [|by split]. destruct I as [Io Il Ie Iq Is It Ii I1 Ic].
  assert (Hlive : forall h0 k0, live y' h0 k0 -> (h0 = h /\ k0 = k) \/ live y h0 k0).
  { intros h0 k0 Hk0. destruct (decide (h0 = h)) as [->|Hn]; unfold live in *; cbn in *.
    - left. split; congruence.
    - right. by apply Hne. }
  split; try done.
  - intros o h0 Ho. destruct (Il o h0 Ho) as [k0 Hk0]. exists k0.
    destruct (decide (h0 = h)) as [->|Hn]; [by destruct (Hun o)|]. by apply Hne.
  - intros p h0 k0 Ho Hk0. destruct (Hlive _ _ Hk0) as [[-> ->]|]; [by destruct (Hun (OQueue p))|by apply (Iq p h0)].
  - intros h0 k0 Hk0. destruct (Hlive _ _ Hk0) as [[-> ->]|]; [done|by apply (Is h0)].
Qed.

(** A socket nobody owns is removed. *)
Lemma inv_remove y h k :
  net_inv y -> live y h k -> unowned y h ->
  exists s', set_remove h (n_set (ns_net y)) = Ret s' /\
    net_inv (mkNS (ns_socks y) (with_set s' (ns_net y))) /\
    (forall h' k', h' <> h -> live y h' k' -> s' !! h' = Some (Some (Tcp k'))).
Proof.
  intros I Hl Hun. unfold set_remove. pose proof Hl as Hl'. unfold live in Hl'. rewrite Hl'.
  eexists. split; [done|].
  assert (Hlive : forall h0 k0, <[h := None]> (n_set (ns_net y)) !! h0 = Some (Some (Tcp k0)) -> live y h0 k0).
  { intros h0 k0 Hk0. destruct (decide (h0 = h)) as [->|Hn].
    - rewrite list_lookup_insert_eq in Hk0 by (by eapply lookup_lt_Some). done.
    - by rewrite list_lookup_insert_ne in Hk0. }
  split; [|intros h' k' Hn Hk'; by rewrite list_lookup_insert_ne].
  destruct I as [Io Il Ie Iq Is It Ii I1 Ic]. split; try done.
  - intros o h0 Ho. destruct (Il o h0 Ho) as [k0 Hk0]. exists k0.
    destruct (decide (h0 = h)) as [->|Hn]; [by destruct (Hun o)|].
    unfold live in *; cbn. by rewrite list_lookup_insert_ne.
  - intros p h0 k0 Ho Hk0. apply (Iq p h0); [done|by apply Hlive].
  - intros h0 k0 Hk0. apply (Is h0). by apply Hlive.
Qed.

(** A socket is opened or changes; the handle it gets nobody owned. *)
Lemma inv_sock_upd y i k' :
  net_inv y -> state_ok k' -> lport k' = ns_socks y !! i ≫= lport ->
  (forall h, ts_handle k' = Some h ->
     own y (OSock i) h \/ (unowned y h /\ exists k, live y h k)) ->
  net_inv (mkNS (<[i := k']> (ns_socks y)) (ns_net y)).
Proof.
  intros I Hst Hlp Hh.
  assert (Hown : forall o h, own (mkNS (<[i := k']> (ns_socks y)) (ns_net y)) o h ->
            own y o h \/ (o = OSock i /\ unowned y h /\ exists k, live y h k)).
  { intros [j|p] h; cbn; [|by left]. intros (kj & Hj & Hkh).
    destruct (decide (j = i)) as [->|Hn].
    - rewrite lookup_insert_eq in Hj. injection Hj as <-. destruct (Hh h Hkh); auto.
    - rewrite lookup_insert_ne in Hj by done. left. by exists kj. }
  assert (Hlook : forall j kj p, <[i := k']> (ns_socks y) !! j = Some kj -> lport kj = Some p ->
            exists kj', ns_socks y !! j = Some kj' /\ lport kj' = Some p).
  { intros j kj p Hj Hp. destruct (decide (j = i)) as [->|Hn].
    - rewrite lookup_insert_eq in Hj. injection Hj as <-. rewrite Hp in Hlp.
      symmetry in Hlp. apply bind_Some in Hlp as (k0 & ? & ?). by exists k0.
    - rewrite lookup_insert_ne in Hj by done. by exists kj. }
  destruct I as [Io Il Ie Iq Is It Ii I1 Ic]. split; try done.
  - intros o o' h Ho Ho'. destruct (Hown _ _ Ho) as [|(-> & Hu & _)], (Hown _ _ Ho') as [|(-> & Hu' & _)];
      [by apply (Io o o' h)|by destruct (Hu' o)|by destruct (Hu o')|done].
  - intros o h Ho. destruct (Hown _ _ Ho) as [|(_ & _ & ?)]; [by apply (Il o)|done].
  - intros j kj. destruct (decide (j = i)) as [->|Hn].
    + cbn; rewrite lookup_insert_eq. by intros [= <-].
    + cbn; rewrite lookup_insert_ne by done. apply It.
  - intros p. rewrite Ii. split; intros (j & kj & Hj & Hp).
    + destruct (decide (j = i)) as [->|Hn].
      * exists i, k'. cbn. rewrite lookup_insert_eq. by rewrite Hlp, Hj.
      * exists j, kj. cbn. by rewrite lookup_insert_ne.
    + destruct (Hlook _ _ _ Hj Hp) as (kj' & ? & ?). eauto.
  - intros j1 j2 k1 k2 p H1 H2 Hp1 Hp2.
    destruct (Hlook _ _ _ H1 Hp1) as (? & ? & ?), (Hlook _ _ _ H2 Hp2) as (? & ? & ?). by eapply I1.
Qed.

(** The queue of a port changes: what it gains nobody owned. *)
Lemma inv_queue_upd y p e q :
  net_inv y -> n_listen (ns_net y) !! p = Some e -> (length q <= LISTEN_QUEUE_SIZE)%nat -> NoDup q ->
  (forall h, h ∈ q -> h ∈ syn_queue e \/ (unowned y h /\ exists k, live y h k /\ queued_ok p k)) ->
  net_inv (mkNS (ns_socks y)
             (with_listen (<[p := mkLTE (listen_endpoint e) q]> (n_listen (ns_net y))) (ns_net y))).
Proof.
  intros I He Hlen Hnd Hq.
  assert (Hown : forall o h, own (mkNS (ns_socks y)
             (with_listen (<[p := mkLTE (listen_endpoint e) q]> (n_listen (ns_net y))) (ns_net y))) o h ->
            own y o h \/ (o = OQueue p /\ unowned y h /\ exists k, live y h k /\ queued_ok p k)).
  { intros [j|p'] h; cbn; [by left|]. intros (e' & He' & Hin).
    destruct (decide (p' = p)) as [->|Hn].
    - rewrite lookup_insert_eq in He'. injection He' as <-. destruct (Hq h Hin); [left; eauto|by right].
    - rewrite lookup_insert_ne in He' by done. left. by exists e'. }
  destruct I as [Io Il Ie Iq Is It Ii I1 Ic]. split; try done.
  - intros o o' h Ho Ho'. destruct (Hown _ _ Ho) as [|(-> & Hu & _)], (Hown _ _ Ho') as [|(-> & Hu' & _)];
      [by apply (Io o o' h)|by destruct (Hu' o)|by destruct (Hu o')|done].
  - intros o h Ho. destruct (Hown _ _ Ho) as [|(_ & _ & k & ? & _)]; [by apply (Il o)|by exists k].
  - intros p' e'. cbn. destruct (decide (p' = p)) as [->|Hn].
    + rewrite lookup_insert_eq. intros [= <-]. destruct (Ie p e He) as (? & ? & _). done.
    + rewrite lookup_insert_ne by done. apply Ie.
  - intros p' h k Ho Hk. destruct (Hown _ _ Ho) as [Ho'|(Heq & _ & k0 & Hk0 & Hok)]; [by apply (Iq p' h)|].
    injection Heq as ->. unfold live in *. cbn in Hk. congruence.
  - intros p'. cbn. rewrite <- Ii. destruct (decide (p' = p)) as [->|Hn].
    + rewrite lookup_insert_eq, He. split; intros _; eauto.
    + by rewrite lookup_insert_ne.
Qed.

(** The next ephemeral port changes. *)
Lemma inv_curr_upd y c :
  net_inv y -> PORT_START <= c <= PORT_END ->
  net_inv (mkNS (ns_socks y) (mkNet (n_set (ns_net y)) (n_listen (ns_net y)) c)).
Proof. intros [] ?. by split. Qed.

(** A socket starts to listen on a free port. *)
Lemma inv_listen y i k k' ep :
  net_inv y -> ns_socks y !! i = Some k -> lport k = None -> ts_handle k' = ts_handle k -> state_ok k' ->
  lport k' = Some (lep_port ep) -> lep_port ep <> 0 -> n_listen (ns_net y) !! lep_port ep = None ->
  net_inv (mkNS (<[i := k']> (ns_socks y))
             (with_listen (<[lep_port ep := mkLTE ep []]> (n_listen (ns_net y))) (ns_net y))).
Proof.
  intros I Hi Hl Hh Hst Hl' Hp Hn. set (p := lep_port ep) in *.
  assert (Hown : forall o h, own (mkNS (<[i := k']> (ns_socks y))
             (with_listen (<[p := mkLTE ep []]> (n_listen (ns_net y))) (ns_net y))) o h -> own y o h).
  { intros [j|p'] h; cbn.
    - intros (kj & Hj & Hkh). destruct (decide (j = i)) as [->|]; simplify_map_eq; [exists k|exists kj]; split; congruence.
    - intros (e & He & Hin). destruct (decide (p' = p)) as [->|]; simplify_map_eq; [by apply elem_of_nil in Hin|by exists e]. }
  assert (Hother : forall j kj p', <[i := k']> (ns_socks y) !! j = Some kj -> lport kj = Some p' ->
            (j = i /\ p' = p) \/ (j <> i /\ ns_socks y !! j = Some kj /\ p' <> p)).
  { intros j kj p' Hj Hlj. destruct (decide (j = i)) as [->|]; simplify_map_eq; [auto|].
    right. split; [done|]. split; [done|]. intros ->.
    destruct (proj2 (inv_listener y I p)) as [e He]; [eauto|]. congruence. }
  destruct I as [Io Il Ie Iq Is It Ii I1 Ic]. split; try done.
  - intros o o' h Ho Ho'. apply (Io o o' h); auto.
  - intros o h Ho. apply (Il o). auto.
  - intros p' e. cbn. destruct (decide (p' = p)) as [->|]; intros; simplify_map_eq; [|by apply Ie].
    repeat split; [done|cbn; lia|constructor].
  - intros p' h k0 Ho. apply (Iq p' h k0). auto.
  - intros j kj. cbn. destruct (decide (j = i)) as [->|]; intros; simplify_map_eq; [done|by apply (It j)].
  - intros p'. cbn. split.
    + destruct (decide (p' = p)) as [->|Hne]; [exists i, k'; by simplify_map_eq|].
      rewrite lookup_insert_ne by done. intros (j & kj & Hj & Hlj)%Ii. exists j, kj. split; [|done].
      rewrite lookup_insert_ne; [done|]. intros <-. congruence.
    + intros (j & kj & Hj & Hlj). destruct (Hother _ _ _ Hj Hlj) as [[-> ->]|(? & ? & ?)]; simplify_map_eq; [done|].
      apply Ii. eauto.
  - intros a b ka kb p' Ha Hb Hpa Hpb.
    destruct (Hother _ _ _ Ha Hpa) as [[-> ->]|(? & ? & ?)], (Hother _ _ _ Hb Hpb) as [[-> ?]|(? & ? & ?)]; try done.
    by apply (I1 a b ka kb p').
Qed.

(** A socket that listens on [p] stops, with an empty queue. *)
Lemma inv_unlisten y i k k' p e :
  net_inv y -> ns_socks y !! i = Some k -> lport k = Some p -> ts_handle k' = ts_handle k -> state_ok k' ->
  lport k' = None -> n_listen (ns_net y) !! p = Some e -> syn_queue e = [] ->
  net_inv (mkNS (<[i := k']> (ns_socks y)) (with_listen (delete p (n_listen (ns_net y))) (ns_net y))).
Proof.
  intros I Hi Hl Hh Hst Hl' He Hq.
  assert (Hown : forall o h, own (mkNS (<[i := k']> (ns_socks y))
             (with_listen (delete p (n_listen (ns_net y))) (ns_net y))) o h -> own y o h).
  { intros [j|p'] h; cbn.
    - intros (kj & Hj & Hkh). destruct (decide (j = i)) as [->|]; simplify_map_eq; [exists k|exists kj]; split; congruence.
    - intros (e' & He' & Hin). apply lookup_delete_Some in He' as [_ He']. by exists e'. }
  assert (Hother : forall j kj p', <[i := k']> (ns_socks y) !! j = Some kj -> lport kj = Some p' ->
            ns_socks y !! j = Some kj /\ p' <> p).
  { intros j kj p' Hj Hlj. destruct (decide (j = i)) as [->|]; simplify_map_eq.
    split; [done|]. intros ->. by pose proof (inv_one y I i j k kj p Hi Hj Hl Hlj). }
  destruct I as [Io Il Ie Iq Is It Ii I1 Ic]. split; try done.
  - intros o o' h Ho Ho'. apply (Io o o' h); auto.
  - intros o h Ho. apply (Il o). auto.
  - intros p' e'. cbn. intros (_ & He')%lookup_delete_Some. by apply Ie.
  - intros p' h k0 Ho. apply (Iq p' h k0). auto.
  - intros j kj. cbn. destruct (decide (j = i)) as [->|]; intros; simplify_map_eq; [done|by apply (It j)].
  - intros p'. cbn. split.
    + intros [e' (Hne & He')%lookup_delete_Some]. destruct (proj1 (Ii p')) as (j & kj & Hj & Hlj); [eauto|].
      exists j, kj. split; [|done]. rewrite lookup_insert_ne; [done|]. intros <-. congruence.
    + intros (j & kj & Hj & Hlj). destruct (Hother _ _ _ Hj Hlj) as [Hj' Hne].
      rewrite lookup_delete_ne by done. apply Ii. eauto.
  - intros a b ka kb p' Ha Hb Hpa Hpb.
    destruct (Hother _ _ _ Ha Hpa), (Hother _ _ _ Hb Hpb). by apply (I1 a b ka kb p').
Qed.

(** A socket that does not listen is closed; its handle is owned by nobody. *)
Lemma inv_sock_delete y i k :
  net_inv y -> ns_socks y !! i = Some k -> lport k = None ->
  let y' := mkNS (delete i (ns_socks y)) (ns_net y) in
  net_inv y' /\ (forall h, ts_handle k = Some h -> unowned y' h).
Proof.
  intros I Hi Hl y'.
  assert (Hown : forall o h, own y' o h -> own y o h /\ o <> OSock i).
  { intros [j|p'] h; cbn; [|done]. intros (kj & (Hne & Hj)%lookup_delete_Some & Hkh).
    split; [by exists kj|congruence]. }
  split.
  - destruct I as [Io Il Ie Iq Is It Ii I1 Ic]. split; try done.
    + intros o o' h [Ho _]%Hown [Ho' _]%Hown. by apply (Io o o' h).
    + intros o h [Ho _]%Hown. by apply (Il o).
    + intros j kj. cbn. intros (_ & Hj)%lookup_delete_Some. by apply (It j).
    + intros p. cbn. rewrite Ii. split; intros (j & kj & Hj & Hlj).
      * exists j, kj. split; [|done]. rewrite lookup_delete_ne; [done|]. intros <-. congruence.
      * apply lookup_delete_Some in Hj as [_ Hj]. eauto.
    + intros a b ka kb p. cbn. intros (_ & Ha)%lookup_delete_Some (_ & Hb)%lookup_delete_Some. by apply I1.
  - intros h Hh o [Ho Hne]%Hown. apply Hne. apply (inv_own y I o (OSock i) h Ho). by exists k.
Qed.

(** * The network *)

Lemma seg_step_sock k b t forget data acked : sock_ok k -> sock_ok (seg_step k b t forget data acked).
Proof.
  intros Hok. unfold seg_step. case_match eqn:Hc; [|done]. apply andb_true_iff in Hc as [[Hn _]%andb_true_iff _].
  unfold sock_ok, seg_tuple in *; cbn. destruct (sk_state k), b; try done; naive_solver.
Qed.

Lemma seg_step_queued p k b t forget data acked :
  queued_ok p k -> queued_ok p (seg_step k b t forget data acked).
Proof.
  intros [Hl Ht]. unfold seg_step. case_match eqn:Hc; [|done]. apply andb_true_iff in Hc as [[Hn Ha]%andb_true_iff _].
  unfold queued_ok, seg_tuple, listen_accepts in *; cbn. split.
  - destruct (sk_state k), b; try done; naive_solver.
  - intros t'. destruct (sk_state k) eqn:Hs; try (destruct b; try done; destruct forget; naive_solver).
    cbn in Ha. apply andb_true_iff in Ha as [_ Hp]. apply Z.eqb_eq in Hp. rewrite Hl in Hp by auto.
    destruct b; try done; naive_solver.
Qed.

Lemma on_tcp_inv y h f :
  net_inv y -> (forall k, sock_ok k -> sock_ok (f k)) -> (forall p k, queued_ok p k -> queued_ok p (f k)) ->
  net_inv (mkNS (ns_socks y) (on_tcp h f (ns_net y))).
Proof.
  intros I Hs Hq. unfold on_tcp. destruct (n_set (ns_net y) !! h) as [[[k| |]|]|] eqn:Hk; try (by destruct y).
  apply (inv_put y h k); [done|done| |].
  - apply Hs. by apply (inv_sock y I h).
  - intros p Ho. apply Hq. by apply (inv_queue y I p h).
Qed.

(** A socket for an incoming connection is added to the queue of its port. *)
Lemma incoming_inv y dst : net_inv y -> net_inv (mkNS (ns_socks y) (incoming_tcp_packet dst (ns_net y))).
Proof.
  intros I. unfold incoming_tcp_packet.
  destruct (n_listen (ns_net y) !! ep_port dst) as [e|] eqn:He; [|by destruct y].
  case_match; [by destruct y|]. case_match eqn:Hlen; [by destruct y|]. apply Nat.leb_gt in Hlen.
  destruct (inv_entry y I _ e He) as (Hp & Hp0 & Hle & Hnd). unfold sk_do_listen. rewrite Hp.
  rewrite (proj2 (Z.eqb_neq _ 0) Hp0). cbn [is_open new_tcp_socket sk_state].
  set (k := mkSock Listen None (listen_endpoint e) [] []).
  destruct (set_add k (n_set (ns_net y))) as [h s'] eqn:Ha.
  destruct (inv_add y k h s' I) as (I' & Hl & Hun); [by right|done|].
  apply (inv_queue_upd _ (ep_port dst) e (syn_queue e ++ [h]) I'); [done| | |].
  - rewrite length_app. cbn. lia.
  - apply NoDup_app. split; [done|]. split; [|apply NoDup_singleton].
    intros x Hx ->%list_elem_of_singleton. apply (Hun (OQueue (ep_port dst))). by exists e.
  - intros x [Hx| ->%list_elem_of_singleton]%elem_of_app; [by left|]. right. split; [done|].
    exists k. split; [done|]. by split.
Qed.

Lemma net_event_inv y ev : net_inv y -> net_inv (mkNS (ns_socks y) (net_event ev (ns_net y))).
Proof.
  intros I. destruct ev as [dst|h b t forget data acked|h|h|src dst group data|h sent] eqn:Hev; cbn [net_event].
  - by apply incoming_inv.
  - apply on_tcp_inv; [done|intros; by apply seg_step_sock|intros; by apply seg_step_queued].
  - apply on_tcp_inv; [done| |]; unfold expire_step, sock_ok, queued_ok; intros; case_bool_decide; naive_solver.
  - apply on_tcp_inv; [done| |]; unfold forget_step, sock_ok, queued_ok; intros; case_bool_decide; naive_solver.
  - destruct (udp_event_tcp ev (ns_net y)) as (s' & He & Hs); [by subst|]. subst ev. cbn [net_event] in He.
    rewrite He. by apply inv_tcp_same.
  - destruct (udp_event_tcp ev (ns_net y)) as (s' & He & Hs); [by subst|]. subst ev. cbn [net_event] in He.
    rewrite He. by apply inv_tcp_same.
Qed.

Lemma poll_inv evs y : net_inv y -> net_inv (mkNS (ns_socks y) (poll_interfaces evs (ns_net y))).
Proof.
  unfold poll_interfaces. revert y. induction evs as [|ev evs IH]; intros y I; cbn [fold_left]; [by destruct y|].
  apply (IH (mkNS (ns_socks y) (net_event ev (ns_net y)))). by apply net_event_inv.
Qed.

(** * Ephemeral ports *)

Definition next_port (p : Z) : Z := if p =? PORT_END then PORT_START else p + 1.

Lemma next_port_iter n p :
  PORT_START <= p <= PORT_END ->
  Nat.iter n next_port p = PORT_START + (p - PORT_START + Z.of_nat n) mod 16384.
Proof.
  unfold PORT_START, PORT_END. intros Hp. induction n as [|n IH]; cbn [Nat.iter nat_rect].
  - rewrite Z.mod_small by lia. lia.
  - fold (Nat.iter n next_port p). rewrite IH. unfold next_port, PORT_START, PORT_END.
    case_match eqn:Hc.
    + apply Z.eqb_eq in Hc. replace (p - 0xc000 + Z.of_nat (S n)) with (p - 0xc000 + Z.of_nat n + 1) by lia.
      rewrite Z.add_mod by lia. replace ((p - 0xc000 + Z.of_nat n) mod 16384) with 16383 by lia. done.
    + apply Z.eqb_neq in Hc. replace (p - 0xc000 + Z.of_nat (S n)) with (p - 0xc000 + Z.of_nat n + 1) by lia.
      pose proof (Z.mod_pos_bound (p - 0xc000 + Z.of_nat n) 16384 ltac:(lia)).
      rewrite (Z.add_mod _ 1) by lia. rewrite (Z.mod_small 1) by lia. rewrite (Z.mod_small (_ mod _ + 1)); lia.
Qed.

(** The loop takes the first port after the current one that is free. *)
Lemma port_loop_spec m n :
  (exists j, (j < m)%nat
     /\ n_listen n !! Nat.iter j next_port (n_curr n) = None
     /\ (forall i, (i < j)%nat -> n_listen n !! Nat.iter i next_port (n_curr n) <> None)
     /\ port_loop m n = Ret (Ok (Nat.iter j next_port (n_curr n)),
                             mkNet (n_set n) (n_listen n) (Nat.iter (S j) next_port (n_curr n))))
  \/ ((forall i, (i < m)%nat -> n_listen n !! Nat.iter i next_port (n_curr n) <> None)
      /\ port_loop m n = Ret (Err AddrInUse, mkNet (n_set n) (n_listen n) (Nat.iter m next_port (n_curr n)))).
Proof.
  revert n. induction m as [|m IH]; intros n.
  - right. split; [lia|]. by destruct n.
  - cbn [port_loop]. fold (next_port (n_curr n)). unfold can_listen. cbn [n_listen].
    destruct (n_listen n !! n_curr n) as [e|] eqn:He.
    + set (n1 := mkNet (n_set n) (n_listen n) (next_port (n_curr n))).
      assert (Hit : forall i, Nat.iter i next_port (n_curr n1) = Nat.iter (S i) next_port (n_curr n)).
      { intros i. by rewrite Nat.iter_succ_r. }
      destruct (IH n1) as [(j & Hj & Hf & Hb & Hr)|(Hb & Hr)].
      * left. exists (S j). rewrite !Hit in Hf, Hr. split; [lia|]. split; [done|]. split; [|by rewrite Hr, Hit].
        intros [|i] Hi; [cbn; congruence|]. rewrite <- Hit. apply Hb. lia.
      * right. split; [|by rewrite Hr, Hit].
        intros [|i] Hi; [cbn; congruence|]. rewrite <- Hit. apply Hb. lia.
    + left. exists 0%nat. split; [lia|]. split; [done|]. split; [lia|done].
Qed.

Lemma ephemeral_iter_range j p : PORT_START <= p <= PORT_END -> PORT_START <= Nat.iter j next_port p <= PORT_END.
Proof.
  intros Hp. rewrite next_port_iter by done. unfold PORT_START, PORT_END in *.
  pose proof (Z.mod_pos_bound (p - 0xc000 + Z.of_nat j) 16384 ltac:(lia)). lia.
Qed.

(** Every port of the range is tried once. *)
Lemma ephemeral_iter_all p q :
  PORT_START <= p <= PORT_END -> PORT_START <= q <= PORT_END ->
  exists j, (j < Z.to_nat (PORT_END - PORT_START + 1))%nat /\ Nat.iter j next_port p = q.
Proof.
  intros Hp Hq. exists (Z.to_nat ((q - p) mod 16384)). rewrite next_port_iter by done.
  unfold PORT_START, PORT_END in *.
  pose proof (Z.mod_pos_bound (q - p) 16384 ltac:(lia)). split; [lia|].
  rewrite Z2Nat.id by lia. rewrite Z.add_mod_idemp_r by lia.
  replace (p - 0xc000 + (q - p)) with (q - 0xc000) by lia. rewrite Z.mod_small; lia.
Qed.

Lemma ephemeral_result n :
  PORT_START <= n_curr n <= PORT_END ->
  exists r c, get_ephemeral_port n = Ret (r, mkNet (n_set n) (n_listen n) c)
    /\ PORT_START <= c <= PORT_END
    /\ match r with
       | Ok p => PORT_START <= p <= PORT_END /\ n_listen n !! p = None
       | Err e => e = AddrInUse /\ forall p, PORT_START <= p <= PORT_END -> n_listen n !! p <> None
       end.
Proof.
  intros Hc. unfold get_ephemeral_port.
  destruct (port_loop_spec (Z.to_nat (PORT_END - PORT_START + 1)) n) as [(j & _ & Hf & _ & Hr)|(Hb & Hr)];
    rewrite Hr; do 2 eexists; (split; [done|]); (split; [by apply ephemeral_iter_range|]).
  - split; [by apply ephemeral_iter_range|done].
  - split; [done|]. intros p Hp. destruct (ephemeral_iter_all (n_curr n) p Hc Hp) as (j & Hj & <-). by apply Hb.
Qed.

(** * The queue of incoming connections *)

Lemma find_connected_spec s i q :
  (forall h, h ∈ q -> exists k, s !! h = Some (Some (Tcp k))) ->
  (find_connected s i q = Ret None /\
     forall h k, h ∈ q -> s !! h = Some (Some (Tcp k)) -> tcp_connected k = false)
  \/ exists q1 h k q2, q = q1 ++ h :: q2
     /\ (forall h' k', h' ∈ q1 -> s !! h' = Some (Some (Tcp k')) -> tcp_connected k' = false)
     /\ s !! h = Some (Some (Tcp k)) /\ tcp_connected k = true
     /\ find_connected s i q = match sk_tuple k with
                               | Some t => Ret (Some ((i + length q1)%nat, t))
                               | None => Panic
                               end.
Proof.
  revert i. induction q as [|h q IH]; intros i Hl.
  - left. split; [done|]. intros h k []%elem_of_nil.
  - destruct (Hl h) as [k Hk]; [left|]. cbn [find_connected]. unfold is_connected, get_addr_tuple, set_get.
    rewrite Hk. destruct (tcp_connected k) eqn:Hc.
    + right. exists [], h, k, q. split; [done|]. split; [by intros ? ? []%elem_of_nil|].
      rewrite Nat.add_0_r. split; [done|]. split; [done|]. by destruct (sk_tuple k).
    + destruct (IH (S i)) as [[-> Hn]|(q1 & h1 & k1 & q2 & -> & Hn & Hk1 & Hc1 & ->)].
      { intros h' Hh'. apply Hl. by right. }
      * left. split; [done|]. intros h' k' [->|Hin]%elem_of_cons Hk'; [congruence|by apply (Hn h')].
      * right. exists (h :: q1), h1, k1, q2. split; [done|]. split.
        { intros h' k' [->|Hin]%elem_of_cons Hk'; [congruence|by apply (Hn h')]. }
        split; [done|]. split; [done|]. cbn [length]. by rewrite Nat.add_succ_r.
Qed.

Lemma any_connected_total s q :
  (forall h, h ∈ q -> exists k, s !! h = Some (Some (Tcp k))) -> exists b, any_connected s q = Ret b.
Proof.
  induction q as [|h q IH]; intros Hl; [by exists false|]. cbn [any_connected]. unfold is_connected, set_get.
  destruct (Hl h) as [k ->]; [left|]. destruct (tcp_connected k); [by exists true|].
  apply IH. intros h' Hh'. apply Hl. by right.
Qed.

(** What is left of a queue: the first element takes the place of the one removed. *)
Definition queue_rest (q1 q2 : list nat) : list nat :=
  match q1 with [] => q2 | x :: q1' => q1' ++ x :: q2 end.

Lemma swap_remove_front_spec q1 h q2 :
  swap_remove_front (length q1) (q1 ++ h :: q2) = Some (h, queue_rest q1 q2).
Proof.
  unfold swap_remove_front. rewrite list_lookup_middle by done.
  destruct q1 as [|x q1]; cbn [length app queue_rest]; [done|].
  replace (length q1) with (length q1 + 0)%nat by lia. by rewrite insert_app_r.
Qed.

Lemma queue_rest_perm q1 h q2 : q1 ++ h :: q2 ≡ₚ h :: queue_rest q1 q2.
Proof. destruct q1 as [|x q1]; cbn; [done|]. rewrite <- !Permutation_middle. by rewrite Permutation_swap. Qed.

(** [accept]: nothing to take, the first connection of the queue, or a panic when the
    peer has reset that connection. *)
Lemma lt_accept_cases y p :
  net_inv y ->
  (exists e, lt_accept p (ns_net y) = Ret (Err e, ns_net y))
  \/ (lt_accept p (ns_net y) = Panic /\ reset_first y p)
  \/ exists e q1 h q2 k t,
       n_listen (ns_net y) !! p = Some e /\ syn_queue e = q1 ++ h :: q2
       /\ (forall h' k', h' ∈ q1 -> live y h' k' -> tcp_connected k' = false)
       /\ live y h k /\ tcp_connected k = true /\ sk_tuple k = Some t
       /\ lt_accept p (ns_net y) =
            Ret (Ok (h, t), with_listen (<[p := mkLTE (listen_endpoint e) (queue_rest q1 q2)]>
                                           (n_listen (ns_net y))) (ns_net y)).
Proof.
  intros I. unfold lt_accept. destruct (n_listen (ns_net y) !! p) as [e|] eqn:He; [|eauto].
  destruct (find_connected_spec (n_set (ns_net y)) 0 (syn_queue e)) as [[-> _]|(q1 & h & k & q2 & Hq & Hn & Hk & Hc & ->)].
  { intros h Hh. apply (inv_live y I (OQueue p)). by exists e. }
  - eauto.
  - destruct (sk_tuple k) as [t|] eqn:Ht.
    + right; right. exists e, q1, h, q2, k, t. cbn [Nat.add]. rewrite Hq, swap_remove_front_spec. done.
    + right; left. split; [done|]. exists e, q1, h, k, q2. split_and!; try done.
      destruct (inv_sock y I h k Hk Ht) as [|Hs]; [done|]. unfold tcp_connected in Hc. by rewrite Hs in Hc.
Qed.

(** The connection that is taken leaves the queue and is owned by nobody. *)
Lemma inv_take y p e q1 h q2 k :
  net_inv y -> n_listen (ns_net y) !! p = Some e -> syn_queue e = q1 ++ h :: q2 -> live y h k ->
  let y' := mkNS (ns_socks y) (with_listen (<[p := mkLTE (listen_endpoint e) (queue_rest q1 q2)]>
                                              (n_listen (ns_net y))) (ns_net y)) in
  net_inv y' /\ unowned y' h.
Proof.
  intros I He Hq Hk y'. destruct (inv_entry y I p e He) as (_ & _ & Hlen & Hnd).
  pose proof (queue_rest_perm q1 h q2) as Hp. rewrite <- Hq in Hp.
  rewrite Hp in Hnd. apply NoDup_cons in Hnd as [Hni Hnd]. apply Permutation_length in Hp as Hl. cbn in Hl.
  split.
  - apply (inv_queue_upd y p e); [done|done|lia|done|]. intros x Hx. left. rewrite Hp. by right.
  - assert (Ho : own y (OQueue p) h). { exists e. split; [done|]. rewrite Hp. by left. }
    intros [i|p'] Ho'.
    + by pose proof (inv_own y I (OSock i) (OQueue p) h Ho' Ho).
    + destruct Ho' as (e' & He' & Hin). cbn in He'. destruct (decide (p' = p)) as [->|Hne].
      * rewrite lookup_insert_eq in He'. by injection He' as <-.
      * rewrite lookup_insert_ne in He' by done.
        assert (own y (OQueue p') h) as Ho2 by (by exists e').
        pose proof (inv_own y I _ _ h Ho2 Ho). congruence.
Qed.

(** * The calls *)

(** [m] on socket [i] returns and keeps the invariant. *)
Definition keeps {A} (m : SockM A) : Prop := forall y i k,
  net_inv y -> ns_socks y !! i = Some k ->
  exists r k' n', m (k, ns_net y) = Ret (r, (k', n')) /\ net_inv (mkNS (<[i := k']> (ns_socks y)) n').

Lemma inv_sock_same y i k k' :
  net_inv y -> ns_socks y !! i = Some k -> ts_handle k' = ts_handle k -> lport k' = lport k -> state_ok k' ->
  net_inv (mkNS (<[i := k']> (ns_socks y)) (ns_net y)).
Proof.
  intros I Hi Hh Hl Hst. apply inv_sock_upd; [done|done|by rewrite Hi|].
  intros h Hk. left. exists k. split; [done|congruence].
Qed.

Lemma inv_refl y i k : net_inv y -> ns_socks y !! i = Some k -> net_inv (mkNS (<[i := k]> (ns_socks y)) (ns_net y)).
Proof. intros I Hi. apply (inv_sock_same y i k); auto. by apply (inv_state y I i). Qed.

(** A closed socket; its fields change, its handle does not. *)
Lemma inv_closed y i k k' :
  net_inv y -> ns_socks y !! i = Some k -> ts_state k = S_CLOSED -> ts_state k' = S_CLOSED ->
  ts_handle k' = ts_handle k -> net_inv (mkNS (<[i := k']> (ns_socks y)) (ns_net y)).
Proof.
  intros I Hi Hs Hs' Hh. apply (inv_sock_same y i k); try done.
  - unfold lport. by rewrite Hs, Hs'.
  - unfold state_ok. rewrite Hs'. naive_solver.
Qed.

Lemma set_ts_state_id k : set_ts_state (ts_state k) k = k.
Proof. by destruct k. Qed.

(** [bound_endpoint] and the ephemeral ports of [bind]: the next port is all that changes. *)
Lemma bound_endpoint_spec k n :
  PORT_START <= n_curr n <= PORT_END ->
  exists r c, bound_endpoint (k, n) = Ret (r, (k, mkNet (n_set n) (n_listen n) c))
    /\ PORT_START <= c <= PORT_END
    /\ forall ep, r = Ok ep -> lep_port ep <> 0.
Proof.
  intros Hc. destruct (ephemeral_result n Hc) as (r & c & Hr & Hc' & Hp).
  unfold bound_endpoint, sock_get, net, zoom, assert_. unfold_M. cbn [fst snd].
  destruct (ep_port (ts_local k) =? 0) eqn:Hz; cbn [negb fst snd].
  - rewrite Hr. destruct r as [p|e]; cbn [fst snd].
    + destruct Hp as [Hp _]. unfold PORT_START in Hp. rewrite (proj2 (Z.eqb_neq p 0)) by lia. cbn [negb].
      do 2 eexists. split; [done|]. split; [done|]. intros ep [= <-]. cbn. lia.
    + do 2 eexists. split; [done|]. split; [done|]. by intros.
  - apply Z.eqb_neq in Hz. rewrite (proj2 (Z.eqb_neq _ 0) Hz). cbn [negb]. exists (Ok (mkLep (if is_unspecified (ep_addr (ts_local k)) then None else Some (ep_addr (ts_local k))) (ep_port (ts_local k)))), (n_curr n).
    split; [by destruct n|]. split; [done|]. by intros ep [= <-].
Qed.

Lemma bind_keeps addr : v4 addr -> keeps (tcp_bind addr).
Proof.
  intros [ip Hip] y i k I Hi. unfold tcp_bind, or_else, update_state. cbn [fst snd].
  case_bool_decide as Hs; [|do 3 eexists; split; [done|]; by apply inv_refl].
  destruct (ephemeral_result (ns_net y) (inv_curr y I)) as (r & c & Hr & Hc & _).
  pose proof (inv_curr_upd y c I Hc) as I'.
  unfold sock_get, net, zoom, ensure, sock_mod, from_core_sockaddr. unfold_M. cbn [fst snd sa_ip].
  rewrite Hip. destruct (sa_port addr =? 0); cbn [fst snd].
  - rewrite Hr. destruct r as [p|e]; cbn [fst snd].
    + case_bool_decide; do 3 eexists; (split; [done|]); by apply (inv_closed _ i k _ I').
    + do 3 eexists; (split; [done|]). by apply (inv_closed _ i k _ I').
  - case_bool_decide; do 3 eexists; (split; [done|]); by apply (inv_closed y i k).
Qed.

Lemma listen_keeps : keeps tcp_listen.
Proof.
  intros y i k I Hi. unfold tcp_listen, or_else, update_state. cbn [fst snd].
  case_bool_decide as Hs; [|do 3 eexists; split; [done|]; by apply inv_refl].
  destruct (bound_endpoint_spec (set_ts_state S_BUSY k) (ns_net y) (inv_curr y I)) as (r & c & Hr & Hc & Hp).
  pose proof (inv_curr_upd y c I Hc) as I'.
  unfold sock_mod, net, zoom. unfold_M. rewrite Hr. destruct r as [ep|e].
  2:{ do 3 eexists; (split; [done|]). by apply (inv_closed _ i k _ I'). }
  specialize (Hp ep eq_refl). cbn [fst snd]. unfold lt_listen. rewrite (proj2 (Z.eqb_neq _ 0) Hp). cbn [n_listen].
  destruct (n_listen (ns_net y) !! lep_port ep) eqn:He.
  - do 3 eexists; (split; [done|]). by apply (inv_closed _ i k _ I').
  - do 3 eexists; (split; [done|]). apply (inv_listen _ i k _ ep I'); try done.
    + unfold lport. by rewrite Hs.
    + unfold state_ok. cbn. naive_solver.
Qed.

(** [connect] takes a socket of its own, or the one it has. *)
Lemma connect_handle y i k :
  net_inv y -> ns_socks y !! i = Some k ->
  exists h s', (match ts_handle k with
                | Some h => (h, n_set (ns_net y))
                | None => set_add new_tcp_socket (n_set (ns_net y))
                end) = (h, s')
    /\ net_inv (mkNS (ns_socks y) (with_set s' (ns_net y)))
    /\ (exists ks, s' !! h = Some (Some (Tcp ks)))
    /\ (own y (OSock i) h \/ unowned y h).
Proof.
  intros I Hi. destruct (ts_handle k) as [h|] eqn:Hh.
  - assert (Ho : own y (OSock i) h) by (by exists k).
    exists h, (n_set (ns_net y)). split; [done|]. split; [by destruct y as [? []]|].
    split; [by apply (inv_live y I (OSock i))|by left].
  - destruct (set_add new_tcp_socket (n_set (ns_net y))) as [h s'] eqn:Ha. exists h, s'. split; [done|].
    destruct (inv_add y new_tcp_socket h s' I) as (I' & Hl & Hun); [by left|done|]. eauto 10.
Qed.

Lemma sk_do_connect_ok source r l k k' :
  sk_do_connect source r l k = Ok k' -> exists t, sk_tuple k' = Some t /\ sk_state k' = SynSent.
Proof. unfold sk_do_connect. repeat case_match; intros; simplify_eq; cbn; eauto. Qed.

Lemma connect_on_spec source addr h k n ks :
  v4 addr -> PORT_START <= n_curr n <= PORT_END -> n_set n !! h = Some (Some (Tcp ks)) ->
  exists r k' ks' c, connect_on source addr h (k, n) = Ret (r, (k', mkNet (set_put h ks' (n_set n)) (n_listen n) c))
    /\ PORT_START <= c <= PORT_END /\ (ks' = ks \/ is_Some (sk_tuple ks')) /\ ts_state k' = ts_state k
    /\ match r with Ok _ => ts_handle k' = Some h | Err _ => k' = k end.
Proof.
  intros [ip Hip] Hc Hks. destruct (bound_endpoint_spec k n Hc) as (r & c & Hr & Hc' & _).
  assert (Hid : set_put h ks (n_set n) = n_set n) by (by apply list_insert_id).
  unfold connect_on, from_core_sockaddr, with_socket, sock_mod. rewrite Hip. unfold_M. rewrite Hr.
  destruct r as [ep|e].
  2:{ exists (Err e), k, ks, c. rewrite Hid. repeat (split; [by auto|]). done. }
  unfold set_get. cbn [n_set]. rewrite Hks. destruct (sk_do_connect _ _ ep ks) as [ks'|err] eqn:Hk.
  - destruct (sk_do_connect_ok _ _ _ _ _ Hk) as (t & Ht & _). rewrite Ht.
    do 4 eexists. split; [done|]. repeat (split; [by eauto|]). done.
  - destruct err; do 4 eexists; (split; [done|]); repeat (split; [by auto|]); done.
Qed.

Lemma connect_keeps source addr : v4 addr -> keeps (tcp_connect_start source addr).
Proof.
  intros Hv y i k I Hi. unfold tcp_connect_start, or_else, update_state. cbn [fst snd].
  case_bool_decide as Hs; [|do 3 eexists; split; [done|]; by apply inv_refl].
  destruct (connect_handle y i k I Hi) as (h & s' & Hh & I1 & (ks & Hks) & Ho).
  set (n1 := with_set s' (ns_net y)) in *.
  destruct (connect_on_spec source addr h (set_ts_state S_BUSY k) n1 ks Hv (inv_curr _ I1) Hks)
    as (r & k' & ks' & c & Hr & Hc & Hks' & Hst & Hk').
  assert (Hrun : (k0 ← sock_get;
    h ← match ts_handle k0 with
        | Some h => mret h
        | None => net (fun n => let '(h, s) := set_add new_tcp_socket (n_set n) in Ret (Ok h, with_set s n))
        end;
    connect_on source addr h) (set_ts_state S_BUSY k, ns_net y)
    = connect_on source addr h (set_ts_state S_BUSY k, n1)).
  { unfold sock_get, net, n1. unfold_M. cbn [fst snd set_ts_state ts_handle]. destruct (ts_handle k).
    - injection Hh as -> <-. by destruct y as [? []].
    - cbn [fst snd]. by rewrite Hh. }
  rewrite Hrun, Hr. pose proof (inv_curr_upd _ c (inv_put _ h ks ks' I1 Hks
    ltac:(destruct Hks' as [->|[t Ht]]; [by apply (inv_sock _ I1 h)|unfold sock_ok; congruence])
    ltac:(intros p Hq; destruct Ho as [Ho|Ho];
          [by pose proof (inv_own y I (OSock i) (OQueue p) h Ho Hq)|by destruct (Ho (OQueue p))])) Hc) as I2.
  destruct r as [u|e]; do 3 eexists; (split; [done|]).
  - apply (inv_sock_upd _ i _ I2); cbn [ns_socks].
    + split; cbn; [done|]. rewrite Hk'. eauto.
    + rewrite Hi. cbn. unfold lport. by rewrite Hs.
    + cbn. rewrite Hk'. intros h' [= <-]. destruct Ho as [Ho|Ho]; [by left|]. right. split; [done|].
      exists ks'. unfold live; cbn. unfold set_put. apply list_lookup_insert_eq. by eapply lookup_lt_Some.
  - subst k'. by apply (inv_closed _ i k _ I2).
Qed.

(** A call on the socket that [i] owns. *)
Lemma with_socket_inv {A} y i k h (f : TcpSock -> result A AxError * TcpSock) :
  net_inv y -> ns_socks y !! i = Some k -> ts_handle k = Some h ->
  (forall ks, sock_ok ks -> sock_ok (snd (f ks))) ->
  exists r n', (forall k0, with_socket h f (k0, ns_net y) = Ret (r, (k0, n'))) /\ net_inv (mkNS (ns_socks y) n').
Proof.
  intros I Hi Hh Hf. assert (Ho : own y (OSock i) h) by (by exists k).
  destruct (inv_live y I _ _ Ho) as [ks Hks].
  exists (fst (f ks)), (with_set (set_put h (snd (f ks)) (n_set (ns_net y))) (ns_net y)). split.
  - intros k0. unfold with_socket, set_get. unfold live in Hks. rewrite Hks. by destruct (f ks).
  - apply (inv_put y h ks); [done|done|apply Hf; by apply (inv_sock y I h)|].
    intros p Hq. by pose proof (inv_own y I (OSock i) (OQueue p) h Ho Hq).
Qed.

Ltac use_socket I Hi Hh :=
  match goal with
  | |- context [with_socket ?h ?f] =>
      destruct (with_socket_inv _ _ _ h f I Hi Hh) as (r & n' & Hr & I2);
      [|do 3 eexists; split; [apply Hr|by apply (inv_refl (mkNS _ n'))]]
  end.

Lemma recv_slice_ok len k d k' : sock_ok k -> recv_slice len k = Ok (d, k') -> sock_ok k'.
Proof. unfold recv_slice, sock_ok. case_match; intros; simplify_eq; auto. Qed.
Lemma send_slice_ok data k z k' : sock_ok k -> send_slice data k = Ok (z, k') -> sock_ok k'.
Proof. unfold send_slice, sock_ok. case_match; intros; simplify_eq; auto. Qed.

Lemma recv_keeps len evs :
  keeps (k ← sock_get; match ts_handle k with Some h => block_pass (recv_pass h len) evs | None => mret [] end).
Proof.
  intros y i k I Hi. unfold sock_get, block_pass. unfold_M. cbn [fst snd].
  destruct (ts_handle k) as [h|] eqn:Hh; [|do 3 eexists; split; [done|]; by apply inv_refl].
  pose proof (poll_inv evs y I) as I'. cbn [fst snd]. unfold recv_pass.
  use_socket I' Hi Hh.
  intros ks Hks. repeat case_match; cbn; try done; simplify_eq. by eapply recv_slice_ok.
Qed.

Lemma send_keeps data evs :
  keeps (k ← sock_get; match ts_handle k with Some h => block_pass (send_pass h data) evs | None => mret 0 end).
Proof.
  intros y i k I Hi. unfold sock_get, block_pass. unfold_M. cbn [fst snd].
  destruct (ts_handle k) as [h|] eqn:Hh; [|do 3 eexists; split; [done|]; by apply inv_refl].
  pose proof (poll_inv evs y I) as I'. cbn [fst snd]. unfold send_pass.
  use_socket I' Hi Hh.
  intros ks Hks. repeat case_match; cbn; try done; simplify_eq. by eapply send_slice_ok.
Qed.

(** A socket that connects becomes connected or closed. *)
Lemma poll_connect_keeps y i k :
  net_inv y -> ns_socks y !! i = Some k -> ts_state k = S_CONNECTING ->
  exists w k', poll_connect (k, ns_net y) = Ret (Ok w, (k', ns_net y))
    /\ net_inv (mkNS (<[i := k']> (ns_socks y)) (ns_net y)).
Proof.
  intros I Hi Hs. destruct (inv_state y I i k Hi) as [_ [h Hh]]; [by left|].
  destruct (inv_live y I (OSock i) h) as [ks Hks]; [by exists k|].
  unfold poll_connect, set_get. rewrite Hh. unfold live in Hks. rewrite Hks.
  assert (Hl : lport k = None) by (unfold lport; by rewrite Hs).
  destruct (sk_state ks); do 2 eexists; (split; [done|]);
    (apply (inv_sock_same y i k); [done|done|done|by rewrite Hl|]); unfold state_ok; cbn;
    rewrite ?Hs, ?Hh; naive_solver.
Qed.

Lemma connect_wait_keeps evs :
  keeps (k ← sock_get; if bool_decide (ts_state k = S_CONNECTING) then block_pass connect_wait evs else mret tt).
Proof.
  intros y i k I Hi. unfold sock_get, block_pass. unfold_M. cbn [fst snd].
  case_bool_decide as Hs; [|do 3 eexists; split; [done|]; by apply inv_refl].
  destruct (poll_connect_keeps _ i k (poll_inv evs y I) Hi Hs) as (w & k' & Hr & I').
  cbn [fst snd ns_socks ns_net] in *. unfold connect_wait, sock_get. unfold_M. rewrite Hr. cbn [fst].
  destruct w; cbn [negb fst]; [case_bool_decide|]; do 3 eexists; split; try done.
Qed.

Lemma poll_keeps : keeps tcp_poll.
Proof.
  intros y i k I Hi. unfold tcp_poll, sock_get. unfold_M. cbn [fst].
  destruct (ts_state k) eqn:Hs; try (do 3 eexists; split; [done|]; by apply inv_refl).
  - destruct (poll_connect_keeps y i k I Hi Hs) as (w & k' & -> & I'). eauto.
  - destruct (inv_state y I i k Hi) as [_ [h Hh]]; [by right|].
    unfold poll_stream, sock_get. unfold_M. cbn [fst]. rewrite Hh.
    by use_socket I Hi Hh.
  - unfold poll_listener, sock_get, net, lt_can_accept. unfold_M. cbn [fst snd].
    assert (Hl : lport k = Some (ep_port (ts_local k))) by (unfold lport; by rewrite Hs).
    destruct (proj2 (inv_listener y I (ep_port (ts_local k)))) as [e He]; [eauto|]. rewrite He.
    destruct (any_connected_total (n_set (ns_net y)) (syn_queue e)) as [b ->].
    { intros h Hh. apply (inv_live y I (OQueue (ep_port (ts_local k)))). by exists e. }
    do 3 eexists. split; [done|]. by apply inv_refl.
Qed.

Lemma remove_all_inv hs y :
  net_inv y -> NoDup hs -> (forall h, h ∈ hs -> unowned y h /\ exists k, live y h k) ->
  exists s', remove_all hs (n_set (ns_net y)) = Ret s' /\ net_inv (mkNS (ns_socks y) (with_set s' (ns_net y))).
Proof.
  revert y. induction hs as [|h hs IH]; intros y I Hnd Hl; cbn [remove_all].
  - eexists. split; [done|]. by destruct y as [? []].
  - apply NoDup_cons in Hnd as [Hni Hnd]. destruct (Hl h) as [Hun [k Hk]]; [left|].
    destruct (inv_remove y h k I Hk Hun) as (s1 & -> & I1 & Hkeep).
    destruct (IH (mkNS (ns_socks y) (with_set s1 (ns_net y))) I1 Hnd) as (s' & Hr & I').
    + intros h' Hh'. destruct (Hl h') as [Hun' [k' Hk']]; [by right|]. split; [done|].
      exists k'. apply Hkeep; [by intros ->|done].
    + eauto.
Qed.

(** The queue of a port is taken down with its sockets. *)
Lemma unlisten_inv y i k k' p :
  net_inv y -> ns_socks y !! i = Some k -> lport k = Some p -> ts_handle k' = ts_handle k -> state_ok k' ->
  lport k' = None ->
  exists n', unlisten p (ns_net y) = Ret (Ok tt, n') /\ net_inv (mkNS (<[i := k']> (ns_socks y)) n').
Proof.
  intros I Hi Hl Hh Hst Hl'. destruct (proj2 (inv_listener y I p)) as [e He]; [eauto|].
  destruct (inv_entry y I p e He) as (_ & _ & _ & Hnd).
  assert (I1 : net_inv (mkNS (ns_socks y) (with_listen (<[p := mkLTE (listen_endpoint e) []]>
                                             (n_listen (ns_net y))) (ns_net y)))).
  { apply (inv_queue_upd y p e); [done|done|cbn; lia|constructor|by intros h []%elem_of_nil]. }
  destruct (remove_all_inv (syn_queue e) _ I1 Hnd) as (s' & Hr & I2).
  { intros h Hh0. assert (Ho : own y (OQueue p) h) by (by exists e). split; [|by apply (inv_live y I (OQueue p))].
    intros [j|p'] Ho'.
    - by pose proof (inv_own y I (OSock j) (OQueue p) h Ho' Ho).
    - destruct Ho' as (e' & He' & Hin). cbn in He'. destruct (decide (p' = p)) as [->|Hne]; simplify_map_eq.
      + by apply elem_of_nil in Hin.
      + assert (own y (OQueue p') h) as Ho2 by (by exists e').
        pose proof (inv_own y I (OQueue p') (OQueue p) h Ho2 Ho). congruence. }
  cbn [ns_net with_listen n_set] in Hr. unfold unlisten. rewrite He, Hr. eexists. split; [done|].
  pose proof (inv_unlisten _ i k k' p (mkLTE (listen_endpoint e) []) I2 Hi Hl Hh Hst Hl') as I3.
  cbn in I3. rewrite lookup_insert_eq, delete_insert_eq in I3. by apply I3.
Qed.

Lemma shutdown_stream_keeps evs y i k :
  net_inv y -> ns_socks y !! i = Some k ->
  exists k' n', shutdown_stream evs (k, ns_net y) = Ret (Ok tt, (k', n'))
    /\ net_inv (mkNS (<[i := k']> (ns_socks y)) n') /\ ts_handle k' = ts_handle k /\ ts_state k' <> S_CONNECTED.
Proof.
  intros I Hi. unfold shutdown_stream, or_else, update_state. cbn [fst snd].
  case_bool_decide as Hs; [|do 2 eexists; split; [done|]; split; [by apply inv_refl|done]].
  destruct (inv_state y I i k Hi) as [_ [h Hh]]; [by right|].
  unfold sock_get, sock_mod. unfold_M. cbn [fst snd set_ts_state ts_handle]. rewrite Hh.
  destruct (with_socket_inv y i k h (fun s => (Ok tt : result unit AxError, sk_do_close s)) I Hi Hh) as (r & n' & Hr & I1).
  { intros ks Hks. unfold sk_do_close, sock_ok in *. cbn. destruct (sk_state ks) eqn:E; cbn; rewrite ?E; naive_solver. }
  assert (exists u, r = Ok u) as [u ->].
  { specialize (Hr k). unfold with_socket in Hr. destruct (set_get _ _); [|done]. injection Hr as <- _. eauto. }
  rewrite Hr. cbn [fst snd]. do 2 eexists. split; [done|]. split; [|done].
  apply (inv_sock_same _ i k _ (poll_inv evs _ I1) Hi); cbn; [by rewrite Hh|unfold lport; by rewrite Hs|].
  split; cbn; naive_solver.
Qed.

Lemma shutdown_keeps' evs y i k :
  net_inv y -> ns_socks y !! i = Some k ->
  exists k' n', tcp_shutdown evs (k, ns_net y) = Ret (Ok tt, (k', n'))
    /\ net_inv (mkNS (<[i := k']> (ns_socks y)) n') /\ ts_handle k' = ts_handle k /\ lport k' = None.
Proof.
  intros I Hi. destruct (shutdown_stream_keeps evs y i k I Hi) as (k1 & n1 & Hr & I1 & Hh & Hs1).
  unfold tcp_shutdown. unfold_M. rewrite Hr. unfold shutdown_listener, or_else, update_state. cbn [fst snd].
  case_bool_decide as Hs.
  - unfold sock_get, sock_mod, net. unfold_M. cbn [fst snd set_ts_state set_local ts_local].
    destruct (unlisten_inv _ i k1 (mkTS S_CLOSED (ts_handle k1) UNSPECIFIED_ENDPOINT (ts_peer k1) (ts_nonblock k1))
                (ep_port (ts_local k1)) I1) as (n2 & Hu & I2); try done.
    + cbn. by rewrite lookup_insert_eq.
    + unfold lport. by rewrite Hs.
    + split; cbn; naive_solver.
    + cbn [ns_net] in Hu. rewrite Hu. cbn [fst snd]. do 2 eexists. split; [done|]. split; [|done].
      pose proof (poll_inv evs _ I2) as I3. cbn in I3. by rewrite insert_insert_eq in I3.
  - do 2 eexists. split; [done|]. split; [done|]. split; [done|]. unfold lport. by rewrite bool_decide_false.
Qed.

Lemma drop_keeps evs y i k :
  net_inv y -> ns_socks y !! i = Some k ->
  exists n', tcp_drop evs (k, ns_net y) = Ret n' /\ net_inv (mkNS (delete i (ns_socks y)) n').
Proof.
  intros I Hi. destruct (shutdown_keeps' evs y i k I Hi) as (k' & n1 & Hr & I1 & Hh & Hl).
  unfold tcp_drop. rewrite Hr.
  destruct (inv_sock_delete _ i k' I1) as [I2 Hun]; [by cbn; rewrite lookup_insert_eq|done|].
  cbn [ns_socks ns_net] in I2, Hun. rewrite delete_insert_eq in I2, Hun.
  destruct (ts_handle k') as [h|] eqn:Hk; [|eauto].
  destruct (inv_live _ I1 (OSock i) h) as [ks Hks]; [exists k'; split; [by cbn; rewrite lookup_insert_eq|done]|].
  destruct (inv_remove _ h ks I2 Hks (Hun h eq_refl)) as (s' & Hs & I3 & _). cbn [ns_net] in Hs. rewrite Hs. eauto.
Qed.

Lemma accept_keeps y i j k p evs :
  net_inv y -> ns_socks y !! i = Some k -> ns_socks y !! j = None ->
  let y1 := mkNS (ns_socks y) (poll_interfaces evs (ns_net y)) in
  match block_pass (accept_pass p) evs (k, ns_net y) with
  | Ret (Ok k', (_, n')) => net_inv (mkNS (<[j := k']> (ns_socks y)) n')
  | Ret (Err _, (_, n')) => net_inv (mkNS (ns_socks y) n')
  | Panic => reset_first y1 p
  end.
Proof.
  intros I Hi Hj y1. pose proof (poll_inv evs y I : net_inv y1) as I1.
  unfold block_pass, accept_pass, net. unfold_M. cbn [fst snd]. change (poll_interfaces evs (ns_net y)) with (ns_net y1).
  destruct (lt_accept_cases y1 p I1) as [[e ->]|[[-> Hr]|(e & q1 & h & q2 & ks & t & He & Hq & _ & Hk & _ & _ & ->)]];
    cbn [fst snd]; [done|done|].
  destruct (inv_take y1 p e q1 h q2 ks I1 He Hq Hk) as [I2 Hun].
  apply (inv_sock_upd _ j _ I2); cbn [ns_socks].
  - split; cbn; [done|eauto].
  - unfold y1. cbn. by rewrite Hj.
  - intros h' [= <-]. right. split; [done|]. by exists ks.
Qed.

Lemma net_init_inv : net_inv net_init.
Proof.
  split; try done.
  - intros [i|p] o' h; cbn; intros (x & Hx & _); by rewrite lookup_empty in Hx.
  - intros [i|p] h; cbn; intros (x & Hx & _); by rewrite lookup_empty in Hx.
  - intros p. cbn. rewrite lookup_empty. split; [by intros []|].
    intros (i & k & Hx & _). by rewrite lookup_empty in Hx.
Qed.

Lemma on_sock_keeps {A} i (m : SockM A) y :
  keeps m -> net_inv y -> exists y', on_sock i m y = Ret y' /\ net_inv y'.
Proof.
  intros Hk I. unfold on_sock. destruct (ns_socks y !! i) as [k|] eqn:Hi; [|eauto].
  destruct (Hk y i k I Hi) as (r & k' & n' & -> & I'). eauto.
Qed.

(** A call on sockets that satisfy the invariant. *)
Definition accepts_reset (c : net_call) (y : NetSys) : Prop :=
  match c with
  | CAccept _ _ p evs => reset_first (mkNS (ns_socks y) (poll_interfaces evs (ns_net y))) p
  | _ => False
  end.

Lemma net_step_keeps source c y :
  net_inv y -> v4_call c ->
  match net_step source c y with Ret y' => net_inv y' | Panic => accepts_reset c y end.
Proof.
  intros I Hv.
  assert (Hsock : forall A i (m : SockM A), keeps m -> match on_sock i m y with Ret y' => net_inv y' | Panic => accepts_reset c y end).
  { intros A i m Hm. by destruct (on_sock_keeps i m y Hm I) as (y' & -> & I'). }
  destruct c as [i|i a|i|i a|i evs|i j p evs|i len evs|i data evs|i|i evs|i b|i evs|evs];
    cbn [net_step v4_call] in *; try apply Hsock.
  - destruct (ns_socks y !! i) eqn:Hi; [done|]. apply inv_sock_upd; [done| |by rewrite Hi|done].
    split; cbn; naive_solver.
  - by apply bind_keeps.
  - apply listen_keeps.
  - by apply connect_keeps.
  - apply connect_wait_keeps.
  - destruct (ns_socks y !! i) as [k|] eqn:Hi; [|done]. destruct (ns_socks y !! j) eqn:Hj; [done|].
    pose proof (accept_keeps y i j k p evs I Hi Hj) as Ha. cbn zeta in Ha.
    destruct (block_pass _ _ _) as [[[k'|e] [k0 n']]|]; done.
  - apply recv_keeps.
  - apply send_keeps.
  - apply poll_keeps.
  - intros y' i' k I' Hi. destruct (shutdown_keeps' evs y' i' k I' Hi) as (k' & n' & Hr & I'' & _). eauto.
  - intros y' i' k I' Hi. do 3 eexists. split; [done|]. apply (inv_sock_same y' i' k); try done.
    exact (inv_state y' I' i' k Hi).
  - destruct (ns_socks y !! i) as [k|] eqn:Hi; [|done].
    by destruct (drop_keeps evs y i k I Hi) as (n' & -> & I').
  - by apply poll_inv.
Qed.

(** Any sequence of socket calls with IPv4 addresses, of any number of sockets and
    threads and with any packets in between, keeps the invariant: a handle has one owner
    and a live socket, a queue holds at most 512 connections, all of its own port, and a
    port in the table has one listener. The kernel does not panic, except in [accept]
    when the first connection it takes was reset by the peer. *)
Theorem sockets_safe source cs :
  Forall v4_call cs ->
  match net_steps source cs net_init with
  | Ret y => net_inv y
  | Panic => exists cs1 c cs2 y, cs = cs1 ++ c :: cs2 /\ net_steps source cs1 net_init = Ret y /\ accepts_reset c y
  end.
Proof.
  intros Hv. generalize net_init_inv. generalize net_init as y. induction Hv as [|c cs Hc Hv IH]; intros y I; [done|].
  cbn [net_steps]. pose proof (net_step_keeps source c y I Hc) as Hs.
  destruct (net_step source c y) as [y'|] eqn:Hy.
  - specialize (IH y' Hs). destruct (net_steps source cs y'); [done|].
    destruct IH as (cs1 & c' & cs2 & y2 & -> & Hr & Ha). exists (c :: cs1), c', cs2, y2.
    cbn [net_steps app]. by rewrite Hy.
  - exists [], c, cs, y. done.
Qed.

(** * What accept returns *)

Definition poll_sys (evs : list NetEvent) (y : NetSys) : NetSys :=
  mkNS (ns_socks y) (poll_interfaces evs (ns_net y)).
(** The handshake of a connection is complete; no connection to port [p] is complete. *)
Definition handshake_done (k : TcpSock) : Prop := sk_state k <> Listen /\ sk_state k <> SynReceived.
Definition none_connected (y : NetSys) (p : Z) : Prop :=
  forall h k, own y (OQueue p) h -> live y h k -> ~ handshake_done k.
(** [accept] on port [p] with the sockets [y] hands out the connection [k'] and leaves [n']. *)
Definition accepted (y : NetSys) (p : Z) (k' : TcpSocket) (n' : NetSt) : Prop :=
  exists h ks t, own y (OQueue p) h /\ live y h ks /\ handshake_done ks /\ sk_tuple ks = Some t
    /\ ep_port (fst t) = p /\ k' = new_connected h (fst t) (snd t)
    /\ n_set n' = n_set (ns_net y)
    /\ unowned (mkNS (ns_socks y) n') h
    /\ (forall o h', h' <> h -> own y o h' <-> own (mkNS (ns_socks y) n') o h').

Lemma tcp_connected_done k : tcp_connected k = true <-> handshake_done k.
Proof. unfold tcp_connected, handshake_done. destruct (sk_state k); naive_solver. Qed.

Lemma accepted_ok y p e q1 h q2 ks t :
  net_inv y -> n_listen (ns_net y) !! p = Some e -> syn_queue e = q1 ++ h :: q2 -> live y h ks ->
  tcp_connected ks = true -> sk_tuple ks = Some t ->
  accepted y p (new_connected h (fst t) (snd t))
    (with_listen (<[p := mkLTE (listen_endpoint e) (queue_rest q1 q2)]> (n_listen (ns_net y))) (ns_net y)).
Proof.
  intros I He Hq Hk Hc Ht. destruct (inv_take y p e q1 h q2 ks I He Hq Hk) as [_ Hun].
  pose proof (queue_rest_perm q1 h q2) as Hp. rewrite <- Hq in Hp.
  assert (Ho : own y (OQueue p) h). { exists e. split; [done|]. rewrite Hp. by left. }
  exists h, ks, t. split; [done|]. split; [done|]. split; [by apply tcp_connected_done|]. split; [done|].
  split; [by apply (proj2 (inv_queue y I p h ks Ho Hk))|]. split; [done|]. split; [done|]. split; [done|].
  intros [i|p'] h' Hne; cbn; [done|]. destruct (decide (p' = p)) as [->|Hne'].
  - rewrite lookup_insert_eq, He. split; intros (e' & He' & Hin); simplify_eq.
    + eexists. split; [done|]. cbn. rewrite Hp in Hin. by apply elem_of_cons in Hin as [|].
    + exists e. split; [done|]. rewrite Hp. by right.
  - by rewrite lookup_insert_ne.
Qed.

Lemma accept_pass_spec y k e0 :
  net_inv y -> n_listen (ns_net y) !! ep_port (ts_local k) = Some e0 ->
  match accept_pass (ep_port (ts_local k)) (k, ns_net y) with
  | Ret (Ok k', (k0, n')) => k0 = k /\ accepted y (ep_port (ts_local k)) k' n'
  | Ret (Err e, st) => e = WouldBlock /\ st = (k, ns_net y) /\ none_connected y (ep_port (ts_local k))
  | Panic => reset_first y (ep_port (ts_local k))
  end.
Proof.
  set (p := ep_port (ts_local k)). intros I He0. unfold accept_pass, net. unfold_M. cbn [fst snd].
  destruct (lt_accept_cases y p I) as [[e Hr]|[[-> Hr]|(e & q1 & h & q2 & ks & t & He & Hq & _ & Hk & Hc & Ht & ->)]].
  - rewrite Hr. cbn [fst snd]. unfold lt_accept in Hr. rewrite He0 in Hr.
    destruct (find_connected_spec (n_set (ns_net y)) 0 (syn_queue e0)) as [[Hf Hn]|(q1 & h & k1 & q2 & Hq & _ & _ & _ & Hf)].
    { intros h Hh. apply (inv_live y I (OQueue p)). by exists e0. }
    + rewrite Hf in Hr. injection Hr as <-. split; [done|]. split; [done|].
      intros h ks (e' & He' & Hin) Hk Hd%tcp_connected_done. rewrite (Hn h ks) in Hd; [done| |done]. congruence.
    + rewrite Hf in Hr. destruct (sk_tuple k1); [|done]. cbn [Nat.add] in Hr.
      by rewrite Hq, swap_remove_front_spec in Hr.
  - done.
  - split; [done|]. by apply (accepted_ok y p e q1 h q2 ks t).
Qed.

Lemma poll_sys_app a b y : poll_sys b (poll_sys a y) = poll_sys (a ++ b) y.
Proof. unfold poll_sys, poll_interfaces. cbn. by rewrite fold_left_app. Qed.

Lemma poll_listen_some evs n p : is_Some (n_listen n !! p) -> is_Some (n_listen (poll_interfaces evs n) !! p).
Proof.
  unfold poll_interfaces. revert n. induction evs as [|ev evs IH]; intros n Hp; cbn [fold_left]; [done|].
  apply IH. destruct ev as [dst|h b t f d a|h|h|? ? ? ?|h s]; cbn [net_event]; [|unfold on_tcp, on_udp; by repeat case_match..].
  unfold incoming_tcp_packet. repeat case_match; try done. cbn.
  destruct (decide (p = ep_port dst)) as [->|]; [by rewrite lookup_insert_eq|by rewrite lookup_insert_ne].
Qed.

Lemma accept_loop polls y i k :
  net_inv y -> ns_socks y !! i = Some k -> ts_state k = S_LISTENING ->
  match block_loop (accept_pass (ep_port (ts_local k))) polls (k, ns_net y) with
  | None => forall pre, pre <> [] -> pre `prefix_of` polls ->
              none_connected (poll_sys (concat pre) y) (ep_port (ts_local k))
  | Some r => exists pre evs post, polls = pre ++ evs :: post /\
      let y1 := poll_sys (concat pre ++ evs) y in
      match r with
      | Ret (Ok k', (k0, n')) => k0 = k /\ accepted y1 (ep_port (ts_local k)) k' n'
      | Ret (Err _, _) => False
      | Panic => reset_first y1 (ep_port (ts_local k))
      end
  end.
Proof.
  intros I Hi Hs. revert y I Hi. induction polls as [|evs polls IH]; intros y I Hi; cbn [block_loop].
  - intros pre Hne Hp. by apply prefix_nil_inv in Hp.
  - destruct (poll_listen_some evs (ns_net y) (ep_port (ts_local k))) as [e He].
    { apply (inv_listener y I). exists i, k. split; [done|]. unfold lport. by rewrite Hs. }
    pose proof (accept_pass_spec (poll_sys evs y) k e (poll_inv evs y I) He) as Ha.
    unfold block_pass. cbn [fst snd]. change (poll_interfaces evs (ns_net y)) with (ns_net (poll_sys evs y)).
    destruct (accept_pass _ _) as [[[k'|err] st]|].
    + exists [], evs, polls. split; [done|]. by destruct st.
    + destruct Ha as (-> & -> & Hn). specialize (IH (poll_sys evs y) (poll_inv evs y I) Hi).
      destruct (block_loop _ _ _) as [r|].
      * destruct IH as (pre & evs' & post & -> & Hr). exists (evs :: pre), evs', post. split; [done|].
        rewrite poll_sys_app in Hr. cbn [concat]. by rewrite <- (assoc_L (++)).
      * intros [|ev pre] Hne Hp; [done|]. pose proof (prefix_cons_inv_1 _ _ _ _ Hp) as ->.
        apply prefix_cons_inv_2 in Hp. cbn [concat]. rewrite <- poll_sys_app.
        destruct pre as [|ev' pre]; [done|]. by apply IH.
    + exists [], evs, polls. done.
Qed.

(** C30: A blocking [accept] on a listening socket polls until a connection to its port is
    complete, and then returns the socket of one such connection, with the endpoints of
    the connection and the local port listened on. The connection leaves the queue, so
    that it is returned once, and every other handle keeps its owner. While [accept]
    waits no connection is complete after any of the polls. The call fails with no error;
    it panics when the connection it takes was reset. *)
Theorem accept_correct y i k polls :
  net_inv y -> ns_socks y !! i = Some k -> ts_state k = S_LISTENING -> ts_nonblock k = false ->
  match tcp_accept polls (k, ns_net y) with
  | None => forall pre, pre <> [] -> pre `prefix_of` polls ->
              none_connected (poll_sys (concat pre) y) (ep_port (ts_local k))
  | Some r => exists pre evs post, polls = pre ++ evs :: post /\
      let y1 := poll_sys (concat pre ++ evs) y in
      match r with
      | Ret (Ok k', (k0, n')) => k0 = k /\ accepted y1 (ep_port (ts_local k)) k' n'
      | Ret (Err _, _) => False
      | Panic => reset_first y1 (ep_port (ts_local k))
      end
  end.
Proof.
  intros I Hi Hs Hb. unfold tcp_accept, block_on. cbn [fst snd]. rewrite bool_decide_true, Hb by done.
  by apply (accept_loop polls y i k).
Qed.

(** The ephemeral port is the first free one in cyclic order from the current one, which
    moves past it; the call ends with [AddrInUse] after 16384 tries exactly when every
    port from 0xc000 to 0xffff has a listener. *)
Theorem ephemeral_port_correct n :
  PORT_START <= n_curr n <= PORT_END ->
  exists r c, get_ephemeral_port n = Ret (r, mkNet (n_set n) (n_listen n) c)
    /\ PORT_START <= c <= PORT_END
    /\ match r with
       | Ok p => PORT_START <= p <= PORT_END /\ n_listen n !! p = None
                 /\ exists j, (forall i, (i < j)%nat ->
                       n_listen n !! (PORT_START + (n_curr n - PORT_START + Z.of_nat i) mod 16384) <> None)
                    /\ p = PORT_START + (n_curr n - PORT_START + Z.of_nat j) mod 16384
                    /\ c = PORT_START + (n_curr n - PORT_START + Z.of_nat (S j)) mod 16384
       | Err e => e = AddrInUse /\ forall p, PORT_START <= p <= PORT_END -> n_listen n !! p <> None
       end.
Proof.
  intros Hc. unfold get_ephemeral_port.
  destruct (port_loop_spec (Z.to_nat (PORT_END - PORT_START + 1)) n) as [(j & _ & Hf & Hb & Hr)|(Hb & Hr)];
    rewrite Hr; do 2 eexists; (split; [done|]); (split; [by apply ephemeral_iter_range|]).
  - split; [by apply ephemeral_iter_range|]. split; [done|]. exists j.
    rewrite <- !next_port_iter by done. split; [|done]. intros i Hi. rewrite <- next_port_iter by done. by apply Hb.
  - split; [done|]. intros p Hp. destruct (ephemeral_iter_all (n_curr n) p Hc Hp) as (j & Hj & <-). by apply Hb.
Qed.

(** * The byte stream of a connection *)

(** The bytes a poll delivers to the socket [h]. *)
Fixpoint delivered (h : nat) (evs : list NetEvent) (n : NetSt) : list Z :=
  match evs with
  | [] => []
  | ev :: evs' =>
      match ev, n_set n !! h with
      | Segment h' b t forget data acked, Some (Some (Tcp k)) =>
          if bool_decide (h' = h) then drop (length (sk_rx k)) (sk_rx (seg_step k b t forget data acked)) else []
      | _, _ => []
      end ++ delivered h evs' (net_event ev n)
  end.
(** A sequence of [recv] passes of [len] bytes with the polls before them: the bytes they
    return, the bytes delivered and the final state. *)
Fixpoint recv_run (h : nat) (calls : list (list NetEvent * nat)) (k : TcpSocket) (n : NetSt)
  : outcome (list Z * list Z * NetSt) :=
  match calls with
  | [] => Ret ([], [], n)
  | (evs, len) :: calls' =>
      match block_pass (recv_pass h len) evs (k, n) with
      | Panic => Panic
      | Ret (r, (_, n')) =>
          match recv_run h calls' k n' with
          | Panic => Panic
          | Ret (got, del, n2) =>
              Ret (match r with Ok d => d | Err _ => [] end ++ got, delivered h evs n ++ del, n2)
          end
      end
  end.

(** [got] has been read of [all]: what is left is in the buffer, or the socket has been
    taken down after TIME-WAIT and its buffer is gone. *)
Definition stream (h : nat) (got all : list Z) (n : NetSt) : Prop :=
  exists k, n_set n !! h = Some (Some (Tcp k)) /\
    (got ++ sk_rx k = all \/ (got `prefix_of` all /\ sk_state k = Closed /\ sk_rx k = [])).

Lemma incoming_lookup dst n h k :
  n_set n !! h = Some (Some (Tcp k)) -> n_set (incoming_tcp_packet dst n) !! h = Some (Some (Tcp k)).
Proof.
  intros Hk. unfold incoming_tcp_packet. destruct (n_listen n !! ep_port dst) as [e|]; [|done].
  case_match; [done|]. case_match; [done|]. case_match; [|done].
  destruct (set_add _ (n_set n)) as [h0 s0] eqn:Ha. cbn.
  apply set_add_spec in Ha as (Hfree & _ & Hne). apply Hne; [|done]. intros ->. destruct Hfree; congruence.
Qed.

Lemma on_tcp_lookup h' f n h k :
  n_set n !! h = Some (Some (Tcp k)) ->
  n_set (on_tcp h' f n) !! h = Some (Some (Tcp (if bool_decide (h' = h) then f k else k))).
Proof.
  intros Hk. unfold on_tcp. case_bool_decide as Hh.
  - subst h'. rewrite Hk. cbn. apply list_lookup_insert_eq. by eapply lookup_lt_Some.
  - repeat case_match; try done. cbn. by rewrite list_lookup_insert_ne.
Qed.

Lemma seg_step_rx k b t forget data acked :
  exists d, sk_rx (seg_step k b t forget data acked) = sk_rx k ++ d /\
    (sk_state k = Closed -> d = [] /\ seg_step k b t forget data acked = k).
Proof.
  unfold seg_step. case_match eqn:Hc; [|exists []; by rewrite app_nil_r].
  exists data. split; [done|]. intros Hs. by rewrite Hs in Hc.
Qed.

Lemma stream_event h got all ev n :
  stream h got all n -> stream h got (all ++ delivered h [ev] n) (net_event ev n).
Proof.
  intros (k & Hk & Hs). cbn [delivered]. rewrite app_nil_r, Hk.
  destruct ev as [dst|h' b t forget data acked|h'|h'|src dst group data|h' sent] eqn:Hev; rewrite ?app_nil_r;
    try (destruct (udp_event_tcp ev n) as (s' & He & Hse); [by subst|]; subst ev; rewrite He; exists k;
         split; [by apply Hse|done]); subst ev; cbn [net_event].
  - exists k. split; [by apply incoming_lookup|done].
  - eexists. split; [by apply on_tcp_lookup|]. case_bool_decide; [|by rewrite app_nil_r].
    destruct (seg_step_rx k b t forget data acked) as (d & Hd & Hcl). rewrite Hd, drop_app_length.
    destruct Hs as [<-|(Hp & Hst & Hrx)]; [left; by rewrite (assoc_L (++))|].
    destruct (Hcl Hst) as [-> ->]. rewrite !app_nil_r. by right.
  - eexists. split; [by apply on_tcp_lookup|]. case_bool_decide; [|done]. unfold expire_step.
    case_bool_decide as Ht; [|done]. right. split; [|done].
    destruct Hs as [<-|(Hp & _)]; [by apply prefix_app_r|done].
  - eexists. split; [by apply on_tcp_lookup|]. case_bool_decide; [|done]. unfold forget_step.
    case_bool_decide as Ht; [|done]. cbn. destruct Hs as [|(Hp & Hst & Hrx)]; [by left|by right].
Qed.

Lemma stream_poll h evs got all n :
  stream h got all n -> stream h got (all ++ delivered h evs n) (poll_interfaces evs n).
Proof.
  unfold poll_interfaces. revert all n. induction evs as [|ev evs IH]; intros all n Hs; cbn [fold_left].
  - by rewrite app_nil_r.
  - pose proof (IH _ _ (stream_event h got all ev n Hs)) as H. cbn [delivered] in *.
    by rewrite app_nil_r, <- (assoc_L (++)) in H.
Qed.

Lemma stream_recv h len got all k n :
  stream h got all n ->
  exists r n', recv_pass h len (k, n) = Ret (r, (k, n'))
    /\ stream h (got ++ match r with Ok d => d | Err _ => [] end) all n'
    /\ (r = Ok [] -> (0 < len)%nat -> got = all).
Proof.
  intros (ks & Hk & Hs). unfold recv_pass, with_socket, set_get. rewrite Hk.
  assert (Hsame : stream h (got ++ []) all (with_set (set_put h ks (n_set n)) n)).
  { exists ks. split; [|by rewrite app_nil_r]. cbn. apply list_lookup_insert_eq. by eapply lookup_lt_Some. }
  destruct (is_active ks) eqn:Ha; cbn [negb]; [|do 2 eexists; by repeat split].
  assert (Hall : got ++ sk_rx ks = all).
  { destruct Hs as [|(_ & Hst & _)]; [done|]. unfold is_active in Ha. by rewrite Hst in Ha. }
  destruct (may_recv ks) eqn:Hm; cbn [negb].
  - destruct (sk_rx ks) as [|x rx] eqn:Hrx; cbn [length Nat.ltb Nat.leb].
    + do 2 eexists. by repeat split.
    + unfold recv_slice. rewrite Hm, Hrx. do 2 eexists. split; [done|]. split.
      * eexists. split; [cbn; apply list_lookup_insert_eq; by eapply lookup_lt_Some|].
        left. cbn [sk_rx]. by rewrite <- (assoc_L (++)), take_drop.
      * intros [= Ht] Hl. destruct len; [lia|done].
  - do 2 eexists. split; [done|]. split; [done|]. intros _ _. unfold may_recv in Hm.
    destruct (sk_rx ks); [by rewrite app_nil_r in Hall|]. by destruct (sk_state ks).
Qed.

Lemma recv_run_stream h calls k n got all :
  stream h got all n ->
  exists d del n', recv_run h calls k n = Ret (d, del, n') /\ stream h (got ++ d) (all ++ del) n'.
Proof.
  revert n got all. induction calls as [|[evs len] calls IH]; intros n got all Hs; cbn [recv_run].
  - do 3 eexists. split; [done|]. by rewrite !app_nil_r.
  - unfold block_pass. cbn [fst snd].
    destruct (stream_recv h len got _ k _ (stream_poll h evs got all n Hs)) as (r & n1 & -> & Hs1 & _).
    destruct (IH _ _ _ Hs1) as (d & del & n2 & -> & Hs2).
    do 3 eexists. split; [done|]. by rewrite !(assoc_L (++)).
Qed.

(** C31: Whatever packets arrive between them, the bytes that the [recv] calls of a connection
    return are, in order, a prefix of what was in its buffer and what the network
    delivered; and a [recv] that then reports the end of the stream has lost nothing:
    every byte delivered has been returned. *)
Theorem recv_stream h k ks n calls evs len :
  n_set n !! h = Some (Some (Tcp ks)) -> (0 < len)%nat ->
  exists got del n' r n2,
    recv_run h calls k n = Ret (got, del, n')
    /\ got `prefix_of` sk_rx ks ++ del
    /\ block_pass (recv_pass h len) evs (k, n') = Ret (r, (k, n2))
    /\ (r = Ok [] -> got = sk_rx ks ++ del ++ delivered h evs n').
Proof.
  intros Hk Hl. destruct (recv_run_stream h calls k n [] (sk_rx ks)) as (got & del & n' & Hr & Hs).
  { exists ks. split; [done|]. by left. }
  destruct (stream_recv h len got _ k _ (stream_poll h evs _ _ n' Hs)) as (r & n2 & Hr2 & _ & Hend).
  exists got, del, n', r, n2. split; [done|]. split.
  - destruct Hs as (k' & _ & [<-|[Hp _]]); [by apply prefix_app_r|done].
  - split; [done|]. intros Hz. rewrite (Hend Hz Hl). by rewrite (assoc_L (++)).
Qed.

(** * Demonstrations *)

Module NetDemo.
(** The host 10.0.2.15 and a peer. *)
Definition host : Z := 0x0a00020f.
Definition peer : IpEndpoint := mkEp 0x0a000202 40000.
Definition source : Z -> option Z := fun _ => Some host.
Definition server : SocketAddr := mkAddr (V4 0) 5555.
Definition link : IpEndpoint * IpEndpoint := (mkEp host 5555, peer).
(** A server listens and a connection is established. *)
Definition listening : list net_call := [CNew 0; CBind 0 server; CListen 0].
Definition handshake : list NetEvent :=
  [Syn (mkEp host 5555); Segment 0 SynReceived link false [] 0; Segment 0 Established link false [] 0].
(** The connection is accepted, read, closed by both sides. *)
Definition session : list net_call :=
  listening ++ [CAccept 0 1 5555 handshake; CPoll 1;
    CRecv 1 2 [Segment 0 Established link false [7; 8; 9] 0]; CSend 1 [1; 2] [];
    CShutdown 1 [Segment 0 FinWait2 link false [] 2]; CDrop 1 []; CDrop 0 []].
(** A client connects. *)
Definition client : list net_call :=
  [CNew 5; CConnect 5 (mkAddr (V4 0x0a000202) 80);
   CConnectWait 5 [Segment 0 Established link false [] 0]; CPoll 5].
(** The peer resets the connection before it is accepted. *)
Definition reset : list net_call :=
  listening ++ [CNetPoll handshake; CNetPoll [Segment 0 Closed link true [] 0]; CAccept 0 1 5555 []].
(** A failed [connect], and the socket is closed. *)
Definition bad_connect : list net_call := [CNew 0; CConnect 0 (mkAddr (V4 0x0a000202) 0); CDrop 0 []].

(** A connection with a byte in its buffer, two reads and the end of the stream. *)
Definition stream_sock : TcpSock := mkSock Established (Some link) (mkLep None 0) [1] [].
Definition before : NetSt := mkNet [Some (Tcp stream_sock)] ∅ PORT_START.
Definition reads : list (list NetEvent * nat) :=
  [([Segment 0 Established link false [2; 3] 0], 2%nat); ([Segment 0 Established link false [4] 0], 8%nat)].
Definition fin : list NetEvent := [Segment 0 CloseWait link false [] 0].
Definition after : NetSt :=
  match recv_run 0 reads tcp_new before with Ret (_, _, n) => n | Panic => before end.

Definition run (cs : list net_call) : NetSys :=
  match net_steps source cs net_init with Ret y => y | Panic => net_init end.
Definition listener : TcpSocket := mkTS S_LISTENING None (mkEp 0 5555) UNSPECIFIED_ENDPOINT false.
End NetDemo.

Lemma steps_inv source cs y y' :
  Forall v4_call cs -> net_inv y -> net_steps source cs y = Ret y' -> net_inv y'.
Proof.
  intros Hv. revert y. induction Hv as [|c cs Hc Hv IH]; intros y I; cbn [net_steps]; [by intros [= <-]|].
  pose proof (net_step_keeps source c y I Hc). destruct (net_step source c y); [by apply IH|done].
Qed.

Lemma demo_listening : net_inv (NetDemo.run NetDemo.listening).
Proof.
  apply (steps_inv NetDemo.source NetDemo.listening net_init).
  - repeat constructor. by exists 0.
  - apply net_init_inv.
  - vm_compute. reflexivity.
Qed.

Lemma sockets_safe_witness :
  Forall v4_call (NetDemo.session ++ NetDemo.client) /\ net_inv (NetDemo.run (NetDemo.session ++ NetDemo.client))
  /\ (ts_state <$> ns_socks (NetDemo.run (NetDemo.session ++ NetDemo.client)) !! 5%nat) = Some S_CONNECTED.
Proof.
  assert (Hv : Forall v4_call (NetDemo.session ++ NetDemo.client)).
  { repeat constructor; eexists; reflexivity. }
  split; [exact Hv|]. split; [|vm_compute; reflexivity].
  pose proof (sockets_safe NetDemo.source _ Hv) as H. unfold NetDemo.run.
  destruct (net_steps NetDemo.source (NetDemo.session ++ NetDemo.client) net_init) as [y|] eqn:Hy; [exact H|].
  exfalso. revert Hy. vm_compute. discriminate.
Defined.

Lemma accept_correct_witness :
  exists k' n', tcp_accept [NetDemo.handshake] (NetDemo.listener, ns_net (NetDemo.run NetDemo.listening))
                  = Some (Ret (Ok k', (NetDemo.listener, n')))
    /\ accepted (poll_sys NetDemo.handshake (NetDemo.run NetDemo.listening)) 5555 k' n'.
Proof.
  pose proof (accept_correct (NetDemo.run NetDemo.listening) 0 NetDemo.listener [NetDemo.handshake]
    demo_listening eq_refl eq_refl eq_refl) as H.
  destruct (tcp_accept _ _) as [[[[k'|e] [k0 n']]|]|] eqn:Hr.
  - destruct H as ([|a pre] & evs & post & Hp & H); [|exfalso; injection Hp; by destruct pre].
    injection Hp as <- <-. destruct H as [-> H]. exists k', n'. split; [reflexivity|exact H].
  - by destruct H as (? & ? & ? & _ & H).
  - exfalso. revert Hr. vm_compute. discriminate.
  - exfalso. revert Hr. vm_compute. discriminate.
Defined.

Lemma ephemeral_port_correct_witness :
  exists n, PORT_START <= n_curr n <= PORT_END /\ n_listen n !! n_curr n <> None
    /\ get_ephemeral_port n = Ret (Ok PORT_START, mkNet (n_set n) (n_listen n) (PORT_START + 1)).
Proof.
  set (n := mkNet [] {[PORT_END := mkLTE (mkLep None PORT_END) []]} PORT_END).
  exists n. split; [unfold n, PORT_START, PORT_END; cbn; lia|]. split; [by vm_compute|].
  destruct (ephemeral_port_correct n) as (r & c & Hr & _); [unfold n, PORT_START, PORT_END; cbn; lia|].
  rewrite Hr. revert Hr. vm_compute. intros [= <- <-]. reflexivity.
Defined.

Lemma recv_stream_witness :
  exists n2, recv_run 0 NetDemo.reads tcp_new NetDemo.before = Ret ([1; 2; 3; 4], [2; 3; 4], NetDemo.after)
    /\ block_pass (recv_pass 0 4) NetDemo.fin (tcp_new, NetDemo.after) = Ret (Ok [], (tcp_new, n2))
    /\ [1; 2; 3; 4] = sk_rx NetDemo.stream_sock ++ [2; 3; 4] ++ delivered 0 NetDemo.fin NetDemo.after.
Proof.
  assert (Hrun : recv_run 0 NetDemo.reads tcp_new NetDemo.before = Ret ([1; 2; 3; 4], [2; 3; 4], NetDemo.after)).
  { vm_compute. reflexivity. }
  destruct (recv_stream 0 tcp_new NetDemo.stream_sock NetDemo.before NetDemo.reads NetDemo.fin 4 eq_refl ltac:(lia))
    as (got & del & n' & r & n2 & Hr & _ & Hr2 & Hend).
  rewrite Hrun in Hr. injection Hr as <- <- <-. exists n2. split; [exact Hrun|].
  assert (Hok : r = Ok []).
  { clear Hend. revert Hr2. generalize r n2. vm_compute. intros r0 n0 H0. by injection H0. }
  split; [rewrite Hr2, Hok; reflexivity|exact (Hend Hok)].
Defined.

(** A connection that the peer resets before it is accepted makes [accept] panic. *)
Example accept_reset_panics : net_steps NetDemo.source NetDemo.reset net_init = Panic.
Proof. vm_compute. reflexivity. Qed.

(** Every failed [connect] leaves a socket of 128 KiB of buffers in the socket set: no
    [TcpSocket] is open and two sockets are in the set. *)
Example connect_failure_leaks :
  exists s, net_steps NetDemo.source (NetDemo.bad_connect ++ NetDemo.bad_connect) net_init
            = Ret (mkNS ∅ (mkNet s ∅ (PORT_START + 2))) /\ s = [Some (Tcp new_tcp_socket); Some (Tcp new_tcp_socket)].
Proof. eexists. split; vm_compute; reflexivity. Qed.
