(* ===== verification/Udp.v ===== *)
(** UDP sockets (arceos/modules/axnet/src/smoltcp_impl/udp.rs) over the packet buffers of
    smoltcp: binding, sending and receiving datagrams, the wait of a blocking call, and
    the UDP sockets of a system beside its TCP sockets. *)
From S2P Require Import Prelude.
From S2P Require Import Errno.
From S2P Require Import IoMpx.
From S2P Require Import PacketBuffer.
From S2P Require Import Net.
From S2P Require Import NetTheorems.

(** * Calls of smoltcp (socket/udp.rs) *)

Inductive BindError := BindInvalidState | BindUnaddressable.
Inductive SendError := SendUnaddressable | BufferFull.

Definition udp_is_open (u : UdpSock) : bool := negb (lep_port (us_endpoint u) =? 0).
Definition udp_can_send (u : UdpSock) : bool := negb (pb_is_full (us_tx u)).
Definition udp_can_recv (u : UdpSock) : bool := negb (pb_is_empty (us_rx u)).
Definition udp_do_bind (ep : IpListenEndpoint) (u : UdpSock) : result UdpSock BindError :=
  if lep_port ep =? 0 then Err BindUnaddressable else
  if udp_is_open u then Err BindInvalidState else Ok (mkUdp ep (us_rx u) (us_tx u)).
Definition udp_do_close (u : UdpSock) : UdpSock :=
  mkUdp (mkLep None 0) (pb_reset (us_rx u)) (pb_reset (us_tx u)).
(** [send_slice]; a packet that does not fit can still leave padding behind. *)
Definition udp_send_slice (data : list Z) (remote : IpEndpoint) (u : UdpSock) : result unit SendError * UdpSock :=
  if (lep_port (us_endpoint u) =? 0) || is_unspecified (ep_addr remote) || (ep_port remote =? 0)
  then (Err SendUnaddressable, u) else
  let '(ok, tx) := pb_enqueue remote data (us_tx u) in
  (if ok then Ok tt else Err BufferFull, mkUdp (us_endpoint u) (us_rx u) tx).
(** [recv_slice] and [peek_slice] into [len] bytes; [None] is [Err(Exhausted)]. *)
Definition udp_recv_slice (len : nat) (u : UdpSock) : outcome (option (list Z * IpEndpoint) * UdpSock) :=
  match pb_dequeue (us_rx u) with
  | Panic => Panic
  | Ret (r, rx) => Ret ((fun p => (take len p.2, p.1)) <$> r, mkUdp (us_endpoint u) rx (us_tx u))
  end.
Definition udp_peek_slice (len : nat) (u : UdpSock) : outcome (option (list Z * IpEndpoint) * UdpSock) :=
  match pb_peek (us_rx u) with
  | Panic => Panic
  | Ret (r, rx) => Ret ((fun p => (take len p.2, p.1)) <$> r, mkUdp (us_endpoint u) rx (us_tx u))
  end.

(** * [UdpSocket] *)

Record UdpSocket := mkUS {
  uk_handle : nat;
  uk_local : option IpEndpoint;
  uk_peer : option IpEndpoint;
  uk_nonblock : bool;
}.
Definition set_uk_local (e : option IpEndpoint) (k : UdpSocket) : UdpSocket :=
  mkUS (uk_handle k) e (uk_peer k) (uk_nonblock k).
Definition set_uk_peer (e : option IpEndpoint) (k : UdpSocket) : UdpSocket :=
  mkUS (uk_handle k) (uk_local k) e (uk_nonblock k).
Definition set_nonblocking (b : bool) (k : UdpSocket) : UdpSocket :=
  mkUS (uk_handle k) (uk_local k) (uk_peer k) b.

(** A socket, the global state and the next ephemeral port of UDP. *)
Record UdpSt := mkUSt { ut_sock : UdpSocket; ut_net : NetSt; ut_curr : Z }.
Definition UdpM (A : Type) : Type := M UdpSt AxError A.
Definition usock : UdpM UdpSocket := fun st => Ret (Ok (ut_sock st), st).
Definition usock_mod (f : UdpSocket -> UdpSocket) : UdpM unit :=
  modify (fun st => mkUSt (f (ut_sock st)) (ut_net st) (ut_curr st)).
Definition unet_mod (f : NetSt -> NetSt) : UdpM unit :=
  modify (fun st => mkUSt (ut_sock st) (f (ut_net st)) (ut_curr st)).

(** [new]. *)
Definition udp_new (n : NetSt) : UdpSocket * NetSt :=
  let '(h, s) := set_add_sock (Udp new_udp_socket) (n_set n) in (mkUS h None None false, with_set s n).

(** [with_socket_mut] on the socket's handle: it panics when the handle has no UDP socket. *)
Definition with_udp {A} (f : UdpSock -> outcome (result A AxError * UdpSock)) : UdpM A := fun st =>
  let h := uk_handle (ut_sock st) in
  match n_set (ut_net st) !! h with
  | Some (Some (Udp u)) =>
      match f u with
      | Panic => Panic
      | Ret (r, u') =>
          Ret (r, mkUSt (ut_sock st) (with_set (<[h := Some (Udp u')]> (n_set (ut_net st))) (ut_net st)) (ut_curr st))
      end
  | _ => Panic
  end.

(** [local_addr], [remote_endpoint], [peer_addr]. *)
Definition udp_local_addr (k : UdpSocket) : result SocketAddr AxError :=
  match uk_local k with Some e => Ok (into_core_sockaddr e) | None => Err NotConnected end.
Definition remote_endpoint : UdpM IpEndpoint := k ← usock; ok_or (uk_peer k) NotConnected.
Definition udp_peer_addr (k : UdpSocket) : result SocketAddr AxError :=
  match uk_peer k with Some e => Ok (into_core_sockaddr e) | None => Err NotConnected end.

(** [get_ephemeral_port]: the next port, used or not. *)
Definition udp_ephemeral_port : UdpM Z := fun st =>
  let port := ut_curr st in
  Ret (Ok port, mkUSt (ut_sock st) (ut_net st) (if port =? PORT_END then PORT_START else port + 1)).

(** [bind]. *)
Definition udp_bind (addr : SocketAddr) : UdpM unit :=
  port ← (if sa_port addr =? 0 then udp_ephemeral_port else mret (sa_port addr));
  k ← usock;
  _ ← ensure (negb (bool_decide (is_Some (uk_local k)))) InvalidInput;
  match from_core_sockaddr (mkAddr (sa_ip addr) port) with
  | Panic => panic
  | Ret local =>
      let endpoint := mkLep (if is_unspecified (ep_addr local) then None else Some (ep_addr local)) (ep_port local) in
      _ ← with_udp (fun u => Ret match udp_do_bind endpoint u with
                                 | Ok u' => (Ok tt, u')
                                 | Err BindInvalidState => (Err AlreadyExists, u)
                                 | Err BindUnaddressable => (Err InvalidInput, u)
                                 end);
      usock_mod (set_uk_local (Some local))
  end.

(** [connect]. *)
Definition udp_connect (addr : SocketAddr) : UdpM unit :=
  k ← usock;
  _ ← match uk_local k with
      | None => udp_bind (into_core_sockaddr UNSPECIFIED_ENDPOINT)
      | Some _ => mret tt
      end;
  match from_core_sockaddr addr with
  | Panic => panic
  | Ret e => usock_mod (set_uk_peer (Some e))
  end.

(** [block_on]: a blocking socket polls the interfaces before every pass; [None] while
    the call still waits. *)
Definition udp_pass {A} (f : UdpM A) (evs : list NetEvent) : UdpM A :=
  _ ← unet_mod (poll_interfaces evs); f.
Fixpoint udp_block_loop {A} (f : UdpM A) (polls : list (list NetEvent)) (st : UdpSt)
  : option (outcome (result A AxError * UdpSt)) :=
  match polls with
  | [] => None
  | evs :: polls' =>
      match udp_pass f evs st with
      | Ret (Err WouldBlock, st') => udp_block_loop f polls' st'
      | r => Some r
      end
  end.
Definition udp_block_on {A} (f : UdpM A) (polls : list (list NetEvent)) (st : UdpSt)
  : option (outcome (result A AxError * UdpSt)) :=
  if uk_nonblock (ut_sock st) then Some (f st) else udp_block_loop f polls st.

(** The closures of [send_impl] and [recv_impl], and the two. *)
Definition udp_send_pass (data : list Z) (remote : IpEndpoint) : UdpM Z :=
  with_udp (fun u => Ret (
    if udp_can_send u then
      match udp_send_slice data remote u with
      | (Ok _, u') => (Ok (Z.of_nat (length data)), u')
      | (Err BufferFull, u') => (Err WouldBlock, u')
      | (Err SendUnaddressable, u') => (Err ConnectionRefused, u')
      end
    else (Err WouldBlock, u))).
Definition udp_recv_pass {A} (op : UdpSock -> outcome (result A AxError * UdpSock)) : UdpM A :=
  with_udp (fun u => if udp_can_recv u then op u else Ret (Err WouldBlock, u)).
Definition if_bound {A} (m : UdpSt -> option (outcome (result A AxError * UdpSt))) (st : UdpSt)
  : option (outcome (result A AxError * UdpSt)) :=
  match uk_local (ut_sock st) with
  | None => Some (Ret (Err NotConnected, st))
  | Some _ => m st
  end.
Definition send_impl (data : list Z) (remote : IpEndpoint) (polls : list (list NetEvent)) :=
  if_bound (udp_block_on (udp_send_pass data remote) polls).
Definition recv_impl {A} (op : UdpSock -> outcome (result A AxError * UdpSock)) (polls : list (list NetEvent)) :=
  if_bound (udp_block_on (udp_recv_pass op) polls).

(** [send_to], [send]. *)
Definition ip_unspecified (ip : IpAddr) : bool := match ip with V4 a => a =? 0 | V6 a => a =? 0 end.
Definition udp_send_to (data : list Z) (addr : SocketAddr) (polls : list (list NetEvent)) (st : UdpSt)
  : option (outcome (result Z AxError * UdpSt)) :=
  if (sa_port addr =? 0) || ip_unspecified (sa_ip addr) then Some (Ret (Err InvalidInput, st)) else
  match from_core_sockaddr addr with
  | Panic => Some Panic
  | Ret remote => send_impl data remote polls st
  end.
Definition udp_send (data : list Z) (polls : list (list NetEvent)) (st : UdpSt)
  : option (outcome (result Z AxError * UdpSt)) :=
  match uk_peer (ut_sock st) with
  | None => Some (Ret (Err NotConnected, st))
  | Some remote => send_impl data remote polls st
  end.

(** The operations of [recv_from], [peek_from] and [recv]. *)
Definition recv_from_op (len : nat) (u : UdpSock) : outcome (result (list Z * SocketAddr) AxError * UdpSock) :=
  match udp_recv_slice len u with
  | Panic => Panic
  | Ret (Some (d, e), u') => Ret (Ok (d, into_core_sockaddr e), u')
  | Ret (None, u') => Ret (Err BadState, u')
  end.
Definition peek_from_op (len : nat) (u : UdpSock) : outcome (result (list Z * SocketAddr) AxError * UdpSock) :=
  match udp_peek_slice len u with
  | Panic => Panic
  | Ret (Some (d, e), u') => Ret (Ok (d, into_core_sockaddr e), u')
  | Ret (None, u') => Ret (Err BadState, u')
  end.
(** A datagram from elsewhere is dropped and the call tries again. *)
Definition from_peer (remote e : IpEndpoint) : bool :=
  (is_unspecified (ep_addr remote) || (ep_addr remote =? ep_addr e))
  && ((ep_port remote =? 0) || (ep_port remote =? ep_port e)).
Definition recv_op (len : nat) (remote : IpEndpoint) (u : UdpSock) : outcome (result (list Z) AxError * UdpSock) :=
  match udp_recv_slice len u with
  | Panic => Panic
  | Ret (Some (d, e), u') => Ret (if from_peer remote e then Ok d else Err WouldBlock, u')
  | Ret (None, u') => Ret (Err BadState, u')
  end.
Definition udp_recv_from (len : nat) := recv_impl (recv_from_op len).
Definition udp_peek_from (len : nat) := recv_impl (peek_from_op len).
Definition udp_recv (len : nat) (polls : list (list NetEvent)) (st : UdpSt)
  : option (outcome (result (list Z) AxError * UdpSt)) :=
  match uk_peer (ut_sock st) with
  | None => Some (Ret (Err NotConnected, st))
  | Some remote => recv_impl (recv_op len remote) polls st
  end.

(** [shutdown], [poll] and [Drop]. *)
Definition udp_shutdown (evs : list NetEvent) : UdpM unit :=
  _ ← with_udp (fun u => Ret (Ok tt, udp_do_close u));
  unet_mod (poll_interfaces evs).
Definition udp_poll : UdpM PollState :=
  k ← usock;
  match uk_local k with
  | None => mret (mkPoll false false)
  | Some _ => with_udp (fun u => Ret (Ok (mkPoll (udp_can_recv u) (udp_can_send u)), u))
  end.
Definition udp_drop (evs : list NetEvent) (st : UdpSt) : outcome NetSt :=
  match udp_shutdown evs st with
  | Panic => Panic
  | Ret (_, st') =>
      match set_remove (uk_handle (ut_sock st')) (n_set (ut_net st')) with
      | Ret s => Ret (with_set s (ut_net st'))
      | Panic => Panic
      end
  end.

(** * Datagrams *)

(** The datagram that an event stores in the buffer of the socket [h]. *)
Definition stored (h : nat) (ev : NetEvent) (n : NetSt) : list (IpEndpoint * list Z) :=
  match ev, n_set n !! h with
  | Datagram src dst group data, Some (Some (Udp u)) =>
      if negb (ep_port dst =? 0) && bool_decide (udp_taker dst group (n_set n) = Some h)
         && fst (pb_enqueue src data (us_rx u))
      then [(src, data)] else []
  | _, _ => []
  end.
Fixpoint stored_all (h : nat) (evs : list NetEvent) (n : NetSt) : list (IpEndpoint * list Z) :=
  match evs with
  | [] => []
  | ev :: evs' => stored h ev n ++ stored_all h evs' (net_event ev n)
  end.

(** The buffers of a UDP socket: 8 packets and 64 KiB each. *)
Record udp_ok (u : UdpSock) : Prop := {
  uo_rx : pb_ok (us_rx u);
  uo_tx : pb_ok (us_tx u);
  uo_rx_size : rg_capacity (pb_meta (us_rx u)) = 8%nat /\ Z.of_nat (rg_capacity (pb_payload (us_rx u))) = UDP_RX_BUF_LEN;
  uo_tx_size : rg_capacity (pb_meta (us_tx u)) = 8%nat /\ Z.of_nat (rg_capacity (pb_payload (us_tx u))) = UDP_TX_BUF_LEN;
}.
Definition rx_queue (u : UdpSock) : list (IpEndpoint * list Z) := packets (us_rx u).
Definition tx_queue (u : UdpSock) : list (IpEndpoint * list Z) := packets (us_tx u).
Definition udp_at (n : NetSt) (h : nat) (u : UdpSock) : Prop := n_set n !! h = Some (Some (Udp u)).

Lemma new_udp_ok : udp_ok new_udp_socket.
Proof.
  assert (Hb : (0 < Z.to_nat UDP_RX_BUF_LEN)%nat /\ (0 < Z.to_nat UDP_TX_BUF_LEN)%nat)
    by (unfold UDP_RX_BUF_LEN, UDP_TX_BUF_LEN; lia).
  destruct Hb. split; cbn [us_rx us_tx new_udp_socket]; [by apply pb_new_ok; [lia|]..| |];
    unfold pb_new, rg_capacity; cbn [pb_meta pb_payload rg_storage]; rewrite !length_replicate; (split; [done|]);
    by apply Z2Nat.id.
Qed.

Lemma udp_process_ok src data u :
  udp_ok u -> udp_ok (udp_process src data u)
  /\ rx_queue (udp_process src data u) = rx_queue u ++ (if fst (pb_enqueue src data (us_rx u)) then [(src, data)] else []).
Proof.
  intros [Hr Ht [Hr1 Hr2] Hts]. pose proof (pb_enqueue_spec src data (us_rx u) Hr) as He. unfold udp_process, rx_queue.
  destruct (pb_enqueue src data (us_rx u)) as [ok b]. destruct He as (Hok & Hp & Hc1 & Hc2 & _). cbn [fst snd us_rx].
  split; [|done]. split; cbn [us_rx us_tx]; [done|done|by rewrite Hc1, Hc2|done].
Qed.

Lemma udp_dispatch_ok sent u :
  udp_ok u -> udp_ok (udp_dispatch sent u)
  /\ tx_queue u = (if sent then take 1 (tx_queue u) else []) ++ tx_queue (udp_dispatch sent u).
Proof.
  intros [Hr Ht Hrs [Ht1 Ht2]]. unfold udp_dispatch, tx_queue. destruct sent.
  - destruct (pb_dequeue_spec _ Ht) as (b & -> & Hok & Hp & Hc1 & Hc2). cbn [us_tx]. rewrite Hp.
    split; [|by destruct (packets (us_tx u))]. split; cbn [us_rx us_tx]; [done|done|done|by rewrite Hc1, Hc2].
  - destruct (pb_dequeue_padding_spec _ Ht) as (b & -> & Hok & Hp & [Hc1 Hc2] & _). cbn [us_tx]. rewrite Hp.
    split; [|done]. split; cbn [us_rx us_tx]; [done|done|done|by rewrite Hc1, Hc2].
Qed.

(** An event: TCP traffic leaves UDP sockets alone; a datagram is appended to the queue
    of the socket that takes it; a transmission takes the first datagram. *)
Lemma udp_event ev n h u :
  udp_at n h u -> udp_ok u ->
  exists u' sent, udp_at (net_event ev n) h u' /\ udp_ok u' /\ us_endpoint u' = us_endpoint u
    /\ rx_queue u' = rx_queue u ++ stored h ev n /\ tx_queue u = sent ++ tx_queue u'.
Proof.
  intros Hu Hok. unfold stored. rewrite Hu.
  assert (Hsame : forall n', udp_at n' h u -> exists u' sent, udp_at n' h u' /\ udp_ok u' /\ us_endpoint u' = us_endpoint u
    /\ rx_queue u' = rx_queue u ++ [] /\ tx_queue u = sent ++ tx_queue u').
  { intros n' Hn'. exists u, []. by rewrite app_nil_r. }
  assert (Htcp : forall h' f, udp_at (on_tcp h' f n) h u).
  { intros h' f. unfold on_tcp. destruct (n_set n !! h') as [[[k| |]|]|] eqn:Hk; try done.
    unfold udp_at. cbn. rewrite list_lookup_insert_ne; [done|]. intros ->. congruence. }
  destruct ev as [dst|h' b t f d a|h'|h'|src dst group data|h' sent]; cbn [net_event]; try (by apply Hsame).
  - apply Hsame. unfold incoming_tcp_packet. destruct (n_listen n !! ep_port dst) as [e|]; [|done].
    case_match; [done|]. case_match; [done|]. case_match; [|done]. destruct (set_add _ (n_set n)) as [h0 s0] eqn:Ha.
    apply set_add_spec in Ha as (Hfree & _ & Hne). apply Hne; [|done]. intros ->. unfold udp_at in Hu. destruct Hfree; congruence.
  - destruct (Z.eqb_spec (ep_port dst) 0); cbn [negb andb]; [by apply Hsame|].
    pose proof (process_udp_spec src dst group data (n_set n)) as Hp. destruct (udp_taker dst group (n_set n)) as [h0|].
    2:{ rewrite Hp. apply Hsame. exact Hu. }
    destruct Hp as (v & Hv & _ & ->). case_bool_decide as E; cbn [andb].
    + injection E as ->. assert (v = u) as -> by (unfold udp_at in Hu; congruence).
      destruct (udp_process_ok src data u Hok) as [Hok' Hq]. exists (udp_process src data u), [].
      split; [|done]. unfold udp_at. cbn. apply list_lookup_insert_eq. by eapply lookup_lt_Some.
    + apply Hsame. unfold udp_at. cbn. rewrite list_lookup_insert_ne; [done|congruence].
  - unfold on_udp. destruct (n_set n !! h') as [[[|v|]|]|] eqn:Hv; try (by apply Hsame).
    destruct (decide (h' = h)) as [->|Hne].
    + assert (v = u) as -> by (unfold udp_at in Hu; congruence). destruct (udp_dispatch_ok sent u Hok) as [Hok' Hq].
      exists (udp_dispatch sent u). eexists. rewrite app_nil_r. split; [|split; [exact Hok'|]; split; [done|]; split; [done|exact Hq]].
      unfold udp_at. cbn. apply list_lookup_insert_eq. by eapply lookup_lt_Some.
    + apply Hsame. unfold udp_at. cbn. by rewrite list_lookup_insert_ne.
Qed.

Lemma udp_polls evs n h u :
  udp_at n h u -> udp_ok u ->
  exists u' sent, udp_at (poll_interfaces evs n) h u' /\ udp_ok u' /\ us_endpoint u' = us_endpoint u
    /\ rx_queue u' = rx_queue u ++ stored_all h evs n /\ tx_queue u = sent ++ tx_queue u'.
Proof.
  unfold poll_interfaces. revert n u. induction evs as [|ev evs IH]; intros n u Hu Hok; cbn [fold_left stored_all].
  - exists u, []. by rewrite app_nil_r.
  - destruct (udp_event ev n h u Hu Hok) as (u1 & s1 & Hu1 & Hok1 & He1 & Hq1 & Ht1).
    destruct (IH _ _ Hu1 Hok1) as (u2 & s2 & Hu2 & Hok2 & He2 & Hq2 & Ht2). exists u2, (s1 ++ s2).
    split; [done|]. split; [done|]. split; [congruence|]. split; [by rewrite Hq2, Hq1, (assoc_L (++))|].
    by rewrite Ht1, Ht2, (assoc_L (++)).
Qed.

(** A sequence of [recv_from] passes of [len] bytes with the polls before them: the
    datagrams they return, those stored meanwhile and the final state. *)
Fixpoint recv_from_run (calls : list (list NetEvent * nat)) (st : UdpSt)
  : outcome (list (nat * (list Z * SocketAddr)) * list (IpEndpoint * list Z) * UdpSt) :=
  match calls with
  | [] => Ret ([], [], st)
  | (evs, len) :: calls' =>
      match udp_pass (udp_recv_pass (recv_from_op len)) evs st with
      | Panic => Panic
      | Ret (r, st') =>
          match recv_from_run calls' st' with
          | Panic => Panic
          | Ret (got, del, st2) =>
              Ret (match r with Ok x => [(len, x)] | Err _ => [] end ++ got,
                   stored_all (uk_handle (ut_sock st)) evs (ut_net st) ++ del, st2)
          end
      end
  end.
(** What [recv_from] of [len] bytes gives of a datagram. *)
Definition datagram_of (g : nat * (list Z * SocketAddr)) (d : IpEndpoint * list Z) : Prop :=
  g.2 = (take g.1 d.2, into_core_sockaddr d.1).

Lemma udp_recv_slice_spec len u :
  udp_ok u ->
  exists u', udp_recv_slice len u = Ret ((fun p => (take len p.2, p.1)) <$> head (rx_queue u), u')
    /\ udp_ok u' /\ rx_queue u' = tail (rx_queue u) /\ tx_queue u' = tx_queue u /\ us_endpoint u' = us_endpoint u.
Proof.
  intros [Hr Ht [Hr1 Hr2] Hts]. unfold udp_recv_slice.
  destruct (pb_dequeue_spec _ Hr) as (b & -> & Hok & Hp & Hc1 & Hc2). eexists. split; [done|].
  split; [|done]. split; cbn [us_rx us_tx]; [done|done|by rewrite Hc1, Hc2|done].
Qed.

(** A socket whose buffer is said to be empty has no datagram. *)
Lemma udp_no_recv u : udp_ok u -> udp_can_recv u = false -> rx_queue u = [].
Proof.
  intros _ Hc. unfold udp_can_recv, pb_is_empty, rg_is_empty in Hc. apply negb_false_iff, Nat.eqb_eq in Hc.
  unfold rx_queue, packets, ring_list. by rewrite Hc.
Qed.

(** The state after a call on the socket [u] of a handle. *)
Definition put_udp (st : UdpSt) (u : UdpSock) : UdpSt :=
  mkUSt (ut_sock st) (with_set (<[uk_handle (ut_sock st) := Some (Udp u)]> (n_set (ut_net st))) (ut_net st)) (ut_curr st).
Lemma put_udp_at st u u' : udp_at (ut_net st) (uk_handle (ut_sock st)) u -> udp_at (ut_net (put_udp st u')) (uk_handle (ut_sock st)) u'.
Proof. intros Hu. unfold udp_at. cbn. apply list_lookup_insert_eq. by eapply lookup_lt_Some. Qed.
Lemma with_udp_at {A} (f : UdpSock -> outcome (result A AxError * UdpSock)) st u r u' :
  udp_at (ut_net st) (uk_handle (ut_sock st)) u -> f u = Ret (r, u') -> with_udp f st = Ret (r, put_udp st u').
Proof. intros Hu Hf. unfold with_udp. by rewrite Hu, Hf. Qed.

(** One pass of [recv_from]. *)
Lemma recv_from_pass len evs st u :
  udp_at (ut_net st) (uk_handle (ut_sock st)) u -> udp_ok u ->
  exists r st' u' ds, udp_pass (udp_recv_pass (recv_from_op len)) evs st = Ret (r, st')
    /\ ut_sock st' = ut_sock st /\ udp_at (ut_net st') (uk_handle (ut_sock st)) u' /\ udp_ok u'
    /\ rx_queue u ++ stored_all (uk_handle (ut_sock st)) evs (ut_net st) = ds ++ rx_queue u'
    /\ Forall2 datagram_of (match r with Ok x => [(len, x)] | Err _ => [] end) ds.
Proof.
  intros Hu Hok. destruct (udp_polls evs _ _ u Hu Hok) as (u1 & sent & Hu1 & Hok1 & _ & Hq1 & _). rewrite <- Hq1.
  unfold udp_pass, unet_mod, udp_recv_pass. unfold_M. set (st1 := mkUSt _ _ _).
  destruct (udp_can_recv u1) eqn:Hc.
  - destruct (udp_recv_slice_spec len u1 Hok1) as (u2 & Hs & Hok2 & Hq2 & _).
    rewrite (with_udp_at _ st1 u1 (match head (rx_queue u1) with
        | Some p => Ok (take len p.2, into_core_sockaddr p.1) | None => Err BadState end) u2 Hu1).
    2:{ rewrite Hc. unfold recv_from_op. rewrite Hs. by destruct (head (rx_queue u1)). }
    exists (match head (rx_queue u1) with Some p => Ok (take len p.2, into_core_sockaddr p.1) | None => Err BadState end).
    exists (put_udp st1 u2), u2, (take 1 (rx_queue u1)). split; [done|]. split; [done|].
    split; [by apply (put_udp_at st1 u1)|]. split; [done|]. rewrite Hq2.
    destruct (rx_queue u1) as [|d q]; [by repeat constructor|]. split; [done|]. by repeat constructor.
  - rewrite (with_udp_at _ st1 u1 (Err WouldBlock) u1 Hu1) by (by rewrite Hc). do 2 eexists. exists u1, [].
    split; [done|]. split; [done|]. split; [by apply (put_udp_at st1 u1)|]. split; [done|]. split; [done|constructor].
Qed.


(** * Sending *)

Definition sendable (st : UdpSt) (u : UdpSock) (remote : IpEndpoint) : Prop :=
  udp_at (ut_net st) (uk_handle (ut_sock st)) u /\ udp_ok u /\ udp_is_open u = true
  /\ ep_addr remote <> 0 /\ ep_port remote <> 0.

(** One try of a send: the whole datagram is queued, or nothing. *)
Lemma send_try data remote u :
  udp_ok u -> udp_is_open u = true -> ep_addr remote <> 0 -> ep_port remote <> 0 ->
  exists ok u', (if udp_can_send u then
      match udp_send_slice data remote u with
      | (Ok _, u') => (Ok (Z.of_nat (length data)), u')
      | (Err BufferFull, u') => (Err WouldBlock, u')
      | (Err SendUnaddressable, u') => (Err ConnectionRefused, u')
      end
    else (Err WouldBlock, u)) = (if ok : bool then Ok (Z.of_nat (length data)) else Err WouldBlock, u')
    /\ udp_ok u' /\ us_endpoint u' = us_endpoint u /\ rx_queue u' = rx_queue u
    /\ tx_queue u' = tx_queue u ++ (if ok then [(remote, data)] else [])
    /\ (Z.of_nat (length data) <= UDP_TX_BUF_LEN -> rg_len (pb_meta (us_tx u)) = 0%nat -> ok = true)
    /\ (UDP_TX_BUF_LEN < Z.of_nat (length data) -> ok = false).
Proof.
  intros Hok Ho Ha Hp. destruct (udp_can_send u) eqn:Hc.
  - unfold udp_send_slice, is_unspecified. unfold udp_is_open in Ho. apply negb_true_iff in Ho. rewrite Ho.
    rewrite (proj2 (Z.eqb_neq _ _) Ha), (proj2 (Z.eqb_neq _ _) Hp). cbn [orb].
    destruct Hok as [Hr Ht Hrs [Ht1 Ht2]]. pose proof (pb_enqueue_spec remote data (us_tx u) Ht) as He.
    destruct (pb_enqueue remote data (us_tx u)) as [ok b]. destruct He as (Hokb & Hpk & Hc1 & Hc2 & Hfit & Hbig).
    exists ok, (mkUdp (us_endpoint u) (us_rx u) b). split; [by destruct ok|].
    split; [split; cbn [us_rx us_tx]; [done|done|done|by rewrite Hc1, Hc2]|].
    split; [done|]. split; [done|]. split; [done|]. rewrite <- Ht2. split; [intros; apply Hfit; lia|].
    intros. apply Hbig. lia.
  - exists false, u. rewrite app_nil_r. repeat (split; [done|]). split; [|done]. intros _ Hz.
    unfold udp_can_send, pb_is_full, rg_is_full, rg_window in Hc. rewrite Hz, (proj1 (uo_tx_size u Hok)) in Hc. done.
Qed.

(** Eight transmissions empty the buffer. *)
Lemma transmit_all h m n u :
  udp_at n h u -> udp_ok u ->
  exists u', udp_at (poll_interfaces (replicate m (Transmit h true)) n) h u' /\ udp_ok u'
    /\ (rg_len (pb_meta (us_tx u')) <= rg_len (pb_meta (us_tx u)) - m)%nat.
Proof.
  unfold poll_interfaces. revert n u. induction m as [|m IH]; intros n u Hu Hok; cbn [replicate fold_left net_event].
  - exists u. split; [done|]. split; [done|lia].
  - destruct (udp_dispatch_ok true u Hok) as [Hok1 _].
    destruct (IH (on_udp h (udp_dispatch true) n) (udp_dispatch true u)) as (u' & Hu' & Hok' & Hl); [|done|].
    { unfold on_udp. unfold udp_at in *. rewrite Hu. cbn. apply list_lookup_insert_eq. by eapply lookup_lt_Some. }
    exists u'. split; [done|]. split; [done|]. unfold udp_dispatch in Hl. cbn [us_tx] in Hl.
    destruct (pb_dequeue_spec _ (uo_tx u Hok)) as (b & Hd & _). rewrite Hd in Hl. apply pb_dequeue_len in Hd. lia.
Qed.

Lemma transmit_drained evs n h u u1 :
  evs = replicate 8 (Transmit h true) -> udp_at n h u -> udp_ok u -> udp_at (poll_interfaces evs n) h u1 ->
  rg_len (pb_meta (us_tx u1)) = 0%nat.
Proof.
  intros Hevs Hu Hok Hu1. pose proof (ro_len _ (po_meta _ (uo_tx u Hok))) as Hm.
  rewrite (proj1 (uo_tx_size u Hok)) in Hm. generalize dependent 8%nat. intros m -> Hm.
  destruct (transmit_all h m n u Hu Hok) as (u1' & Hu1' & _ & Hl).
  assert (u1' = u1) as -> by (unfold udp_at in *; congruence). lia.
Qed.
Lemma udp_pass_eq {A} (f : UdpM A) evs st :
  udp_pass f evs st = f (mkUSt (ut_sock st) (poll_interfaces evs (ut_net st)) (ut_curr st)).
Proof. done. Qed.

(** The loop of a blocking send. *)
Lemma send_loop data remote polls st u :
  sendable st u remote ->
  let r := udp_block_loop (udp_send_pass data remote) polls st in
  (r = None \/ exists st' u' old, r = Some (Ret (Ok (Z.of_nat (length data)), st'))
      /\ udp_at (ut_net st') (uk_handle (ut_sock st)) u' /\ udp_ok u'
      /\ old `suffix_of` tx_queue u /\ tx_queue u' = old ++ [(remote, data)])
  /\ (UDP_TX_BUF_LEN < Z.of_nat (length data) -> r = None)
  /\ (Z.of_nat (length data) <= UDP_TX_BUF_LEN ->
      replicate 8 (Transmit (uk_handle (ut_sock st)) true) ∈ polls -> r <> None).
Proof.
  intros Hs r. unfold r; clear r. revert st u Hs.
  induction polls as [|evs polls IH]; intros st u (Hu & Hok & Ho & Ha & Hp); cbn [udp_block_loop].
  { split; [by left|]. split; [done|]. by intros _ Hin%elem_of_nil. }
  rewrite udp_pass_eq. set (st1 := mkUSt _ _ _).
  assert (H1 : exists u1 sent, udp_at (ut_net st1) (uk_handle (ut_sock st1)) u1 /\ udp_ok u1
      /\ us_endpoint u1 = us_endpoint u /\ tx_queue u = sent ++ tx_queue u1).
  { destruct (udp_polls evs _ _ u Hu Hok) as (u1 & sent & Hu1 & Hok1 & He1 & _ & Hq1). by exists u1, sent. }
  destruct H1 as (u1 & sent & Hu1 & Hok1 & He1 & Hq1).
  assert (Ho1 : udp_is_open u1 = true) by (unfold udp_is_open in *; by rewrite He1).
  assert (Hemp : evs = replicate 8 (Transmit (uk_handle (ut_sock st)) true) -> rg_len (pb_meta (us_tx u1)) = 0%nat).
  { intros Hevs. apply (transmit_drained evs (ut_net st) (uk_handle (ut_sock st)) u u1); done. }
  destruct (send_try data remote u1 Hok1 Ho1 Ha Hp) as (ok & u2 & Htry & Hok2 & He2 & _ & Hq2 & Hfit & Hbig).
  assert (Hpass : udp_send_pass data remote st1 =
      Ret (if ok then Ok (Z.of_nat (length data)) else Err WouldBlock, put_udp st1 u2)).
  { apply (with_udp_at _ st1 u1); [done|]. by rewrite Htry. }
  rewrite Hpass. clear Htry Hpass. destruct ok.
  - split; [right|split; [by intros ?%Hbig|done]]. exists (put_udp st1 u2), u2, (tx_queue u1).
    split; [done|]. split; [by apply (put_udp_at st1 u1)|]. split; [done|]. split; [by exists sent|done].
  - destruct (IH (put_udp st1 u2) u2) as (H1 & H2 & H3).
    { split; [by apply (put_udp_at st1 u1)|]. split; [done|]. unfold udp_is_open in *. by rewrite He2. }
    rewrite app_nil_r in Hq2. split; [|split; [done|]].
    + destruct H1 as [H1|(st' & u' & old & H1 & Hu' & Hok' & Hsuf & Hq')]; [by left|right].
      exists st', u', old. split; [done|]. split; [done|]. split; [done|]. split; [|done].
      rewrite Hq1. apply suffix_app_r. by rewrite <- Hq2.
    + intros Hle [<-|Hin]%elem_of_cons; [|by apply H3]. specialize (Hfit Hle (Hemp eq_refl)). done.
Qed.

(** A blocking [send_to] on a bound socket queues the whole datagram after those that were
    waiting and returns its length; it returns once the device has taken the packets in
    front of it; it fails in no other way. A datagram that is larger than the buffer is
    never sent: the call does not return. *)
Theorem udp_send_to_correct data ip port polls st u :
  ip <> 0 -> port <> 0 -> uk_nonblock (ut_sock st) = false -> is_Some (uk_local (ut_sock st)) ->
  udp_at (ut_net st) (uk_handle (ut_sock st)) u -> udp_ok u -> udp_is_open u = true ->
  let r := udp_send_to data (mkAddr (V4 ip) port) polls st in
  (r = None \/ exists st' u' old, r = Some (Ret (Ok (Z.of_nat (length data)), st'))
      /\ udp_at (ut_net st') (uk_handle (ut_sock st)) u' /\ udp_ok u'
      /\ old `suffix_of` tx_queue u /\ tx_queue u' = old ++ [(mkEp ip port, data)])
  /\ (UDP_TX_BUF_LEN < Z.of_nat (length data) -> r = None)
  /\ (Z.of_nat (length data) <= UDP_TX_BUF_LEN ->
      replicate 8 (Transmit (uk_handle (ut_sock st)) true) ∈ polls -> r <> None).
Proof.
  intros Hip Hport Hnb [e Hl] Hu Hok Ho. unfold udp_send_to, ip_unspecified. cbn [sa_port sa_ip from_core_sockaddr].
  rewrite (proj2 (Z.eqb_neq _ _) Hip), (proj2 (Z.eqb_neq _ _) Hport). cbn [orb].
  unfold send_impl, if_bound, udp_block_on. rewrite Hl, Hnb. by apply send_loop.
Qed.

(** * TCP calls leave UDP sockets alone *)

(** The UDP sockets are there, with their endpoints; datagrams come and go. *)
Definition udp_frame (n n' : NetSt) : Prop :=
  forall h u, udp_at n h u -> udp_ok u -> exists u', udp_at n' h u' /\ udp_ok u' /\ us_endpoint u' = us_endpoint u.
Definition frames {A} (m : SockM A) : Prop := forall k n r k' n', m (k, n) = Ret (r, (k', n')) -> udp_frame n n'.
Create HintDb frame.

#[export] Instance udp_frame_refl : Reflexive udp_frame.
Proof. intros n h u. eauto. Qed.
#[export] Instance udp_frame_trans : Transitive udp_frame.
Proof.
  intros n1 n2 n3 H1 H2 h u Hu Hok. destruct (H1 h u Hu Hok) as (u2 & Hu2 & Hok2 & He2).
  destruct (H2 h u2 Hu2 Hok2) as (u3 & Hu3 & Hok3 & He3). exists u3. split; [done|]. split; [done|congruence].
Qed.
Lemma same_set_frame n n' : n_set n' = n_set n -> udp_frame n n'.
Proof. intros E h u Hu Hok. exists u. unfold udp_at in *. by rewrite E. Qed.
Lemma poll_frame evs n : udp_frame n (poll_interfaces evs n).
Proof. intros h u Hu Hok. destruct (udp_polls evs n h u Hu Hok) as (u' & _ & ? & ? & ? & _). eauto. Qed.
(** A slot without a UDP socket changes. *)
Lemma insert_frame h x n n' :
  (forall u, ~ udp_at n h u) -> n_set n' = <[h := x]> (n_set n) -> udp_frame n n'.
Proof.
  intros Hn E h' u Hu Hok. exists u. split; [|done]. unfold udp_at in *. rewrite E, list_lookup_insert_ne; [done|].
  intros ->. by apply (Hn u).
Qed.
Lemma add_frame z h s' n n' : set_add_sock z (n_set n) = (h, s') -> n_set n' = s' -> udp_frame n n'.
Proof.
  intros Ha E h' u Hu Hok. exists u. split; [|done]. apply set_add_sock_spec in Ha as (Hf & _ & Hne).
  unfold udp_at in *. rewrite E. apply Hne; [|done]. intros ->. destruct Hf; congruence.
Qed.

Lemma frames_mret {A} (a : A) : frames (mret a).
Proof. intros k n r k' n' [= _ _ <-]. done. Qed.
Lemma frames_throw {A} e : frames (throw e : SockM A).
Proof. intros k n r k' n' [= _ _ <-]. done. Qed.
Lemma frames_panic {A} : frames (panic : SockM A).
Proof. intros k n r k' n' [=]. Qed.
Lemma frames_get : frames sock_get.
Proof. intros k n r k' n' [= _ _ <-]. done. Qed.
Lemma frames_mod f : frames (sock_mod f).
Proof. intros k n r k' n' [= _ _ <-]. done. Qed.
Lemma frames_ensure b e : frames (ensure b e : SockM unit).
Proof. intros k n r k' n'. unfold ensure. destruct b; [apply frames_mret|apply frames_throw]. Qed.
Lemma frames_assert b : frames (assert_ b : SockM unit).
Proof. intros k n r k' n'. unfold assert_. destruct b; [apply frames_mret|apply frames_panic]. Qed.
Lemma frames_unwrap {A} (o : option A) : frames (unwrap o : SockM A).
Proof. intros k n r k' n'. unfold unwrap. destruct o; [apply frames_mret|apply frames_panic]. Qed.
Lemma frames_bind {A B} (m : SockM A) (f : A -> SockM B) :
  frames m -> (forall a, frames (f a)) -> frames (a ← m; f a).
Proof.
  intros Hm Hf k n r k' n'. unfold_M. destruct (m (k, n)) as [[[a|e] [k1 n1]]|] eqn:E; [| |done].
  - intros Hr. transitivity n1; [by apply (Hm _ _ _ _ _ E)|by apply (Hf _ _ _ _ _ _ Hr)].
  - intros [= _ _ <-]. by apply (Hm _ _ _ _ _ E).
Qed.
Lemma frames_net {A} (m : NetM A) : (forall n r n', m n = Ret (r, n') -> udp_frame n n') -> frames (net m).
Proof.
  intros Hm k n r k' n'. unfold net, zoom. cbn. destruct (m n) as [[r0 n0]|] eqn:E; [|done].
  intros [= _ _ <-]. by apply (Hm _ _ _ E).
Qed.
Lemma frames_poll evs : frames (modify (fun st => (fst st, poll_interfaces evs (snd st)))).
Proof. intros k n r k' n' [= _ _ <-]. apply poll_frame. Qed.
Lemma frames_with_socket {A} h (f : TcpSock -> result A AxError * TcpSock) : frames (with_socket h f).
Proof.
  intros k n r k' n'. unfold with_socket, set_get. destruct (n_set n !! h) as [[[s|u|]|]|] eqn:Hs; try done.
  destruct (f s) as [r0 s']. intros [= _ _ <-]. eapply insert_frame; [|done]. intros u Hu. unfold udp_at in Hu. congruence.
Qed.
Lemma frames_update {A} r0 s1 s2 (m : SockM A) : frames m -> frames (or_else r0 (update_state s1 s2 m)).
Proof.
  intros Hm k n r k' n'. unfold or_else, update_state. cbn [fst snd]. case_bool_decide; [|by intros [= _ _ <-]].
  destruct (m _) as [[[a|e] [k1 n1]]|] eqn:E; [| |done]; intros [= _ _ <-]; by apply (Hm _ _ _ _ _ E).
Qed.
Lemma frames_pass {A} (f : SockM A) evs : frames f -> frames (block_pass f evs).
Proof.
  intros Hf k n r k' n'. unfold block_pass. cbn [fst snd]. intros Hr. transitivity (poll_interfaces evs n).
  - apply poll_frame.
  - by apply (Hf _ _ _ _ _ Hr).
Qed.
#[export] Hint Resolve frames_mret frames_throw frames_panic frames_get frames_mod frames_ensure frames_assert
  frames_unwrap frames_bind frames_poll frames_with_socket frames_update frames_pass : frame.

Lemma port_loop_frame m n r n' : port_loop m n = Ret (r, n') -> udp_frame n n'.
Proof.
  revert n. induction m as [|m IH]; intros n; cbn [port_loop]; [by intros [= _ <-]|].
  destruct (can_listen _ _); [intros [= _ <-]; by apply same_set_frame|].
  intros Hr. apply IH in Hr. etransitivity; [|done]. by apply same_set_frame.
Qed.
Lemma frames_ephemeral : frames (net get_ephemeral_port).
Proof. apply frames_net. intros n r n'. apply port_loop_frame. Qed.
Lemma frames_listen ep : frames (net (lt_listen ep)).
Proof.
  apply frames_net. intros n r n'. unfold lt_listen. repeat case_match; try done; intros [= _ <-]; by apply same_set_frame.
Qed.
Lemma frames_accept p : frames (net (lt_accept p)).
Proof.
  apply frames_net. intros n r n'. unfold lt_accept. repeat case_match; try done; intros [= _ <-]; by apply same_set_frame.
Qed.
Lemma frames_can_accept p : frames (net (lt_can_accept p)).
Proof. apply frames_net. intros n r n'. unfold lt_can_accept. repeat case_match; try done; by intros [= _ <-]. Qed.
Lemma frames_poll_connect : frames poll_connect.
Proof. intros k n r k' n'. unfold poll_connect. repeat case_match; try done; by intros [= _ _ <-]. Qed.
Lemma frames_add : frames (net (fun n => let '(h, s) := set_add new_tcp_socket (n_set n) in Ret (Ok h, with_set s n))).
Proof.
  apply frames_net. intros n r n'. destruct (set_add _ _) as [h s] eqn:Ha. intros [= _ <-].
  by eapply add_frame.
Qed.
#[export] Hint Resolve frames_ephemeral frames_listen frames_accept frames_can_accept frames_poll_connect frames_add : frame.

(** The branches of a call. *)
Ltac frames_tac := repeat (intros; first [progress (eauto with frame)|apply frames_bind|apply frames_update|apply frames_pass|case_match]).

Lemma frames_bound_endpoint : frames bound_endpoint.
Proof. unfold bound_endpoint. frames_tac. Qed.
#[export] Hint Resolve frames_bound_endpoint : frame.
Lemma frames_tcp_bind a : frames (tcp_bind a).
Proof. unfold tcp_bind. frames_tac. Qed.
Lemma frames_tcp_listen : frames tcp_listen.
Proof. unfold tcp_listen. frames_tac. Qed.
Lemma frames_connect source a : frames (tcp_connect_start source a).
Proof. unfold tcp_connect_start, connect_on. frames_tac. Qed.
Lemma frames_connect_wait : frames connect_wait.
Proof. unfold connect_wait. frames_tac. Qed.
Lemma frames_accept_pass p : frames (accept_pass p).
Proof. unfold accept_pass. frames_tac. Qed.
Lemma frames_tcp_poll : frames tcp_poll.
Proof. unfold tcp_poll, poll_stream, poll_listener. frames_tac. Qed.
Lemma frames_shutdown_stream evs : frames (shutdown_stream evs).
Proof. unfold shutdown_stream. frames_tac. Qed.

Lemma remove_all_other hs s s' h : remove_all hs s = Ret s' -> h ∉ hs -> s' !! h = s !! h.
Proof.
  revert s. induction hs as [|h' hs IH]; intros s; cbn [remove_all]; [by intros [= <-]|].
  unfold set_remove. destruct (s !! h') as [[x|]|]; try done. intros Hr Hn.
  rewrite (IH _ Hr) by set_solver. rewrite list_lookup_insert_ne; [done|set_solver].
Qed.
(** The queue of a port has only TCP sockets. *)
Lemma unlisten_frame y p r n' : net_inv y -> unlisten p (ns_net y) = Ret (r, n') -> udp_frame (ns_net y) n'.
Proof.
  intros I. unfold unlisten. destruct (n_listen (ns_net y) !! p) as [e|] eqn:He; [|by intros [= _ <-]].
  destruct (remove_all _ _) as [s|] eqn:Hr; [|done]. intros [= _ <-] h u Hu Hok. exists u. split; [|done].
  unfold udp_at in *. cbn. rewrite (remove_all_other _ _ _ h Hr); [done|]. intros Hin.
  destruct (inv_live y I (OQueue p) h) as [k Hk]; [by exists e|]. unfold live in Hk. congruence.
Qed.
Lemma shutdown_frame evs y i k r k' n' :
  net_inv y -> ns_socks y !! i = Some k -> tcp_shutdown evs (k, ns_net y) = Ret (r, (k', n')) -> udp_frame (ns_net y) n'.
Proof.
  intros I Hi. destruct (shutdown_stream_keeps evs y i k I Hi) as (k1 & n1 & Hr & I1 & _ & _).
  unfold tcp_shutdown. unfold_M. rewrite Hr. pose proof (frames_shutdown_stream _ _ _ _ _ _ Hr) as Hf1.
  intros Hl. transitivity n1; [done|]. revert Hl. unfold shutdown_listener, or_else, update_state. cbn [fst snd].
  case_bool_decide; [|by intros [= _ _ <-]]. unfold sock_get, sock_mod, net. unfold_M. cbn [fst snd].
  destruct (unlisten _ n1) as [[[a|e] n2]|] eqn:Hu; [| |done]; apply (unlisten_frame _ _ _ _ I1) in Hu; intros [= _ _ <-]; [|done].
  transitivity n2; [done|apply poll_frame].
Qed.
Lemma drop_frame evs y i k n' :
  net_inv y -> ns_socks y !! i = Some k -> tcp_drop evs (k, ns_net y) = Ret n' -> udp_frame (ns_net y) n'.
Proof.
  intros I Hi. destruct (shutdown_keeps' evs y i k I Hi) as (k' & n1 & Hr & I1 & Hh & Hl).
  unfold tcp_drop. rewrite Hr. pose proof (shutdown_frame _ _ _ _ _ _ _ I Hi Hr) as Hf.
  destruct (ts_handle k') as [h|] eqn:Hk; [|by intros [= <-]].
  destruct (inv_live _ I1 (OSock i) h) as [ks Hks]; [exists k'; split; [by cbn; rewrite lookup_insert_eq|done]|].
  unfold live in Hks. cbn in Hks. unfold set_remove. rewrite Hks. intros [= <-]. transitivity n1; [done|].
  eapply insert_frame; [|done]. intros u Hu. unfold udp_at in Hu. congruence.
Qed.

Lemma on_sock_frame {A} i (m : SockM A) y y' : frames m -> on_sock i m y = Ret y' -> udp_frame (ns_net y) (ns_net y').
Proof.
  intros Hm. unfold on_sock. destruct (ns_socks y !! i) as [k|]; [|by intros [= <-]].
  destruct (m _) as [[r [k' n']]|] eqn:E; [|done]. intros [= <-]. by apply (Hm _ _ _ _ _ E).
Qed.
#[export] Hint Resolve frames_tcp_bind frames_tcp_listen frames_connect frames_connect_wait frames_accept_pass
  frames_tcp_poll : frame.

Lemma net_step_frame source c y y' :
  net_inv y -> net_step source c y = Ret y' -> udp_frame (ns_net y) (ns_net y').
Proof.
  intros I. destruct c as [i|i a|i|i a|i evs|i j p evs|i len evs|i data evs|i|i evs|i b|i evs|evs]; cbn [net_step];
    try (apply on_sock_frame; unfold recv_pass, send_pass; by frames_tac).
  - destruct (ns_socks y !! i); by intros [= <-].
  - destruct (ns_socks y !! i) as [k|]; [|by intros [= <-]]. destruct (ns_socks y !! j); [by intros [= <-]|].
    destruct (block_pass _ _ _) as [[[k'|e] [k0 n']]|] eqn:E; [..|done]; intros [= <-]; revert E; apply frames_pass; eauto with frame.
  - unfold on_sock. destruct (ns_socks y !! i) as [k|] eqn:Hi; [|by intros [= <-]].
    destruct (tcp_shutdown _ _) as [[r [k' n']]|] eqn:E; [|done]. intros [= <-]. by apply (shutdown_frame _ _ _ _ _ _ _ I Hi E).
  - destruct (ns_socks y !! i) as [k|] eqn:Hi; [|by intros [= <-]].
    destruct (tcp_drop _ _) as [n'|] eqn:E; [|done]. intros [= <-]. by apply (drop_frame _ _ _ _ _ I Hi E).
  - intros [= <-]. apply poll_frame.
Qed.

(** * TCP and UDP sockets together *)

Record InetSys := mkIS { is_tcp : NetSys; is_udp : gmap nat UdpSocket; is_curr : Z }.
Definition inet_init : InetSys := mkIS net_init ∅ PORT_START.

(** A call on a TCP socket, or one on a UDP socket; of a blocking call it is one pass. *)
Inductive inet_call :=
| ITcp (c : net_call)
| UNew (i : nat)
| UBind (i : nat) (addr : SocketAddr)
| UConnect (i : nat) (addr : SocketAddr)
| USend (i : nat) (data : list Z) (remote : IpEndpoint) (evs : list NetEvent)
| URecvFrom (i len : nat) (evs : list NetEvent)
| UPeekFrom (i len : nat) (evs : list NetEvent)
| URecv (i len : nat) (remote : IpEndpoint) (evs : list NetEvent)
| UPoll (i : nat)
| UShutdown (i : nat) (evs : list NetEvent)
| USetNonblock (i : nat) (b : bool)
| UDrop (i : nat) (evs : list NetEvent).

Definition on_udp_sock {A} (i : nat) (m : UdpM A) (y : InetSys) : outcome InetSys :=
  match is_udp y !! i with
  | None => Ret y
  | Some k =>
      match m (mkUSt k (ns_net (is_tcp y)) (is_curr y)) with
      | Ret (_, st) => Ret (mkIS (mkNS (ns_socks (is_tcp y)) (ut_net st)) (<[i := ut_sock st]> (is_udp y)) (ut_curr st))
      | Panic => Panic
      end
  end.
Definition inet_step (source : Z -> option Z) (c : inet_call) (y : InetSys) : outcome InetSys :=
  match c with
  | ITcp c => match net_step source c (is_tcp y) with Ret t => Ret (mkIS t (is_udp y) (is_curr y)) | Panic => Panic end
  | UNew i =>
      match is_udp y !! i with
      | Some _ => Ret y
      | None => let '(k, n) := udp_new (ns_net (is_tcp y)) in
                Ret (mkIS (mkNS (ns_socks (is_tcp y)) n) (<[i := k]> (is_udp y)) (is_curr y))
      end
  | UBind i addr => on_udp_sock i (udp_bind addr) y
  | UConnect i addr => on_udp_sock i (udp_connect addr) y
  | USend i data remote evs => on_udp_sock i (udp_pass (udp_send_pass data remote) evs) y
  | URecvFrom i len evs => on_udp_sock i (udp_pass (udp_recv_pass (recv_from_op len)) evs) y
  | UPeekFrom i len evs => on_udp_sock i (udp_pass (udp_recv_pass (peek_from_op len)) evs) y
  | URecv i len remote evs => on_udp_sock i (udp_pass (udp_recv_pass (recv_op len remote)) evs) y
  | UPoll i => on_udp_sock i udp_poll y
  | UShutdown i evs => on_udp_sock i (udp_shutdown evs) y
  | USetNonblock i b => on_udp_sock i (usock_mod (set_nonblocking b)) y
  | UDrop i evs =>
      match is_udp y !! i with
      | None => Ret y
      | Some k => match udp_drop evs (mkUSt k (ns_net (is_tcp y)) (is_curr y)) with
                  | Ret n => Ret (mkIS (mkNS (ns_socks (is_tcp y)) n) (delete i (is_udp y)) (is_curr y))
                  | Panic => Panic
                  end
      end
  end.
Fixpoint inet_steps (source : Z -> option Z) (cs : list inet_call) (y : InetSys) : outcome InetSys :=
  match cs with
  | [] => Ret y
  | c :: cs' => match inet_step source c y with Ret y' => inet_steps source cs' y' | Panic => Panic end
  end.

(** A UDP socket has a handle of its own with a socket whose buffers are sound; one that is
    not bound is not open. *)
Definition udp_sock_ok (n : NetSt) (k : UdpSocket) : Prop :=
  exists u, udp_at n (uk_handle k) u /\ udp_ok u /\ (uk_local k = None -> udp_is_open u = false).
Record inet_inv (y : InetSys) : Prop := {
  ii_tcp : net_inv (is_tcp y);
  ii_udp : forall i k, is_udp y !! i = Some k -> udp_sock_ok (ns_net (is_tcp y)) k;
  ii_own : forall i j ki kj, is_udp y !! i = Some ki -> is_udp y !! j = Some kj -> uk_handle ki = uk_handle kj -> i = j;
  ii_curr : PORT_START <= is_curr y <= PORT_END;
}.
Definition v4_inet (c : inet_call) : Prop :=
  match c with ITcp c => v4_call c | UBind _ a | UConnect _ a => v4 a | _ => True end.

(** What a call on the socket of handle [h] keeps: the TCP sockets and the other UDP sockets. *)
Definition others (h : nat) (n n' : NetSt) : Prop :=
  (forall socks, net_inv (mkNS socks n) -> net_inv (mkNS socks n'))
  /\ forall h' u, h' <> h -> udp_at n h' u -> udp_ok u -> exists u', udp_at n' h' u' /\ udp_ok u' /\ us_endpoint u' = us_endpoint u.
#[export] Instance others_refl h : Reflexive (others h).
Proof. intros n. split; [done|]. eauto. Qed.
#[export] Instance others_trans h : Transitive (others h).
Proof.
  intros n1 n2 n3 [H1 F1] [H2 F2]. split; [by auto|]. intros h' u Hne Hu Hok.
  destruct (F1 h' u Hne Hu Hok) as (u2 & Hu2 & Hok2 & He2). destruct (F2 h' u2 Hne Hu2 Hok2) as (u3 & Hu3 & Hok3 & He3).
  exists u3. split; [done|]. split; [done|congruence].
Qed.
Lemma poll_others h evs n : others h n (poll_interfaces evs n).
Proof. split; [intros socks; apply (poll_inv evs)|]. intros h' u _. apply poll_frame. Qed.
Lemma put_others st u u' :
  udp_at (ut_net st) (uk_handle (ut_sock st)) u -> others (uk_handle (ut_sock st)) (ut_net st) (ut_net (put_udp st u')).
Proof.
  intros Hu. split.
  - intros socks I. apply (inv_tcp_same _ _ I). by eapply udp_insert_tcp.
  - intros h' v Hne Hv Hok. exists v. split; [|done]. unfold udp_at in *. cbn. by rewrite list_lookup_insert_ne.
Qed.

Definition in_range (c : Z) : Prop := PORT_START <= c <= PORT_END.
Definition udp_keeps {A} (m : UdpM A) : Prop := forall st,
  udp_sock_ok (ut_net st) (ut_sock st) -> in_range (ut_curr st) ->
  exists r st', m st = Ret (r, st') /\ uk_handle (ut_sock st') = uk_handle (ut_sock st) /\ in_range (ut_curr st')
    /\ udp_sock_ok (ut_net st') (ut_sock st') /\ others (uk_handle (ut_sock st)) (ut_net st) (ut_net st').

(** The state does not change. *)
Lemma udp_keeps_same {A} (m : UdpM A) st r :
  m st = Ret (r, st) -> udp_sock_ok (ut_net st) (ut_sock st) -> in_range (ut_curr st) ->
  exists r st', m st = Ret (r, st') /\ uk_handle (ut_sock st') = uk_handle (ut_sock st) /\ in_range (ut_curr st')
    /\ udp_sock_ok (ut_net st') (ut_sock st') /\ others (uk_handle (ut_sock st)) (ut_net st) (ut_net st').
Proof. intros Hm Hok Hc. exists r, st. split; [done|]. split; [done|]. split; [done|]. by split. Qed.
Lemma udp_keeps_mret {A} (a : A) : udp_keeps (mret a).
Proof. intros st Hok Hc. by eapply udp_keeps_same. Qed.
Lemma udp_keeps_bind {A B} (m : UdpM A) (f : A -> UdpM B) :
  udp_keeps m -> (forall a, udp_keeps (f a)) -> udp_keeps (a ← m; f a).
Proof.
  intros Hm Hf st Hok Hc. unfold_M. destruct (Hm st Hok Hc) as (r & st1 & -> & Hh1 & Hc1 & Hok1 & Ho1).
  destruct r as [a|e]; [|by exists (Err e), st1]. destruct (Hf a st1 Hok1 Hc1) as (r & st2 & -> & Hh2 & Hc2 & Hok2 & Ho2).
  exists r, st2. split; [done|]. split; [congruence|]. split; [done|]. split; [done|]. rewrite Hh1 in Ho2. by etransitivity.
Qed.
(** An operation on the socket that keeps its endpoint. *)
Lemma udp_keeps_with {A} (f : UdpSock -> outcome (result A AxError * UdpSock)) :
  (forall u, udp_ok u -> exists r u', f u = Ret (r, u') /\ udp_ok u' /\ (udp_is_open u = false -> udp_is_open u' = false)) ->
  udp_keeps (with_udp f).
Proof.
  intros Hf st (u & Hu & Hok & Hl) Hc. destruct (Hf u Hok) as (r & u' & Hr & Hok' & He).
  exists r, (put_udp st u'). split; [by apply (with_udp_at _ st u)|]. split; [done|]. split; [done|].
  split; [|by apply (put_others st u)]. exists u'. split; [by apply (put_udp_at st u)|]. split; [done|]. by auto.
Qed.
Lemma udp_keeps_poll evs : udp_keeps (unet_mod (poll_interfaces evs)).
Proof.
  intros st (u & Hu & Hok & Hl) Hc. do 2 eexists. split; [done|]. split; [done|]. split; [done|].
  split; [|apply poll_others]. destruct (poll_frame evs _ _ _ Hu Hok) as (u' & Hu' & Hok' & He).
  exists u'. split; [done|]. split; [done|]. unfold udp_is_open in *. by rewrite He.
Qed.
Lemma udp_keeps_mod f :
  (forall k, uk_handle (f k) = uk_handle k /\ (uk_local (f k) = None -> uk_local k = None)) -> udp_keeps (usock_mod f).
Proof.
  intros Hf st (u & Hu & Hok & Hl) Hc. destruct (Hf (ut_sock st)) as [Hh Hn]. do 2 eexists. split; [done|].
  split; [done|]. split; [done|]. split; [|done]. exists u. cbn [ut_sock ut_net]. rewrite Hh. by auto.
Qed.

Lemma udp_is_open_same u u' : us_endpoint u' = us_endpoint u -> udp_is_open u = false -> udp_is_open u' = false.
Proof. unfold udp_is_open. by intros ->. Qed.

Lemma send_keeps_ok data remote evs : udp_keeps (udp_pass (udp_send_pass data remote) evs).
Proof.
  apply udp_keeps_bind; [apply udp_keeps_poll|intros _]. apply udp_keeps_with. intros u Hok.
  destruct (udp_is_open u) eqn:Ho.
  2:{ destruct (udp_can_send u); [|by do 2 eexists]. unfold udp_send_slice. unfold udp_is_open in *. apply negb_false_iff in Ho.
      rewrite Ho. cbn [orb]. do 2 eexists. split; [done|]. split; [done|]. by rewrite Ho. }
  destruct (decide (ep_addr remote = 0 \/ ep_port remote = 0)) as [Hz|Hz].
  - destruct (udp_can_send u); [|by do 2 eexists]. unfold udp_send_slice, is_unspecified.
    assert ((ep_addr remote =? 0) || (ep_port remote =? 0) = true) as Hor by (destruct Hz as [-> | ->]; cbn; by rewrite ?orb_true_r).
    rewrite <- orb_assoc, Hor, orb_true_r. by do 2 eexists.
  - destruct (send_try data remote u Hok Ho) as (ok & u' & -> & Hok' & He & _); [naive_solver..|]. by do 2 eexists.
Qed.

Lemma udp_peek_slice_spec len u :
  udp_ok u ->
  exists u', udp_peek_slice len u = Ret ((fun p => (take len p.2, p.1)) <$> head (rx_queue u), u')
    /\ udp_ok u' /\ rx_queue u' = rx_queue u /\ us_endpoint u' = us_endpoint u.
Proof.
  intros [Hr Ht [Hr1 Hr2] Hts]. unfold udp_peek_slice.
  destruct (pb_peek_spec _ Hr) as (b & -> & Hok & Hp & Hc1 & Hc2). eexists. split; [done|].
  split; [|done]. split; cbn [us_rx us_tx]; [done|done|by rewrite Hc1, Hc2|done].
Qed.

Lemma recv_pass_keeps {A} (op : UdpSock -> outcome (result A AxError * UdpSock)) evs :
  (forall u, udp_ok u -> exists r u', op u = Ret (r, u') /\ udp_ok u' /\ us_endpoint u' = us_endpoint u) ->
  udp_keeps (udp_pass (udp_recv_pass op) evs).
Proof.
  intros Hop. apply udp_keeps_bind; [apply udp_keeps_poll|intros _]. apply udp_keeps_with. intros u Hok.
  destruct (udp_can_recv u); [|by do 2 eexists]. destruct (Hop u Hok) as (r & u' & -> & Hok' & He).
  do 2 eexists. split; [done|]. split; [done|by apply udp_is_open_same].
Qed.
Lemma recv_from_op_ok len u :
  udp_ok u -> exists r u', recv_from_op len u = Ret (r, u') /\ udp_ok u' /\ us_endpoint u' = us_endpoint u.
Proof.
  intros Hok. unfold recv_from_op. destruct (udp_recv_slice_spec len u Hok) as (u' & -> & Hok' & _ & _ & He).
  destruct (head (rx_queue u)); by do 2 eexists.
Qed.
Lemma peek_from_op_ok len u :
  udp_ok u -> exists r u', peek_from_op len u = Ret (r, u') /\ udp_ok u' /\ us_endpoint u' = us_endpoint u.
Proof.
  intros Hok. unfold peek_from_op. destruct (udp_peek_slice_spec len u Hok) as (u' & -> & Hok' & _ & He).
  destruct (head (rx_queue u)); by do 2 eexists.
Qed.
Lemma recv_op_ok len remote u :
  udp_ok u -> exists r u', recv_op len remote u = Ret (r, u') /\ udp_ok u' /\ us_endpoint u' = us_endpoint u.
Proof.
  intros Hok. unfold recv_op. destruct (udp_recv_slice_spec len u Hok) as (u' & -> & Hok' & _ & _ & He).
  destruct (head (rx_queue u)); by do 2 eexists.
Qed.

Lemma udp_do_close_ok u : udp_ok u -> udp_ok (udp_do_close u).
Proof.
  intros [Hr Ht [Hr1 Hr2] [Ht1 Ht2]]. destruct (pb_reset_ok _ Hr) as (Hr' & _ & Hc1 & Hc2).
  destruct (pb_reset_ok _ Ht) as (Ht' & _ & Hd1 & Hd2). unfold udp_do_close.
  split; cbn [us_rx us_tx]; [done|done|by rewrite Hc1, Hc2|by rewrite Hd1, Hd2].
Qed.
Lemma shutdown_udp_keeps evs : udp_keeps (udp_shutdown evs).
Proof.
  apply udp_keeps_bind; [|intros _; apply udp_keeps_poll]. apply udp_keeps_with. intros u Hok.
  do 2 eexists. split; [done|]. split; [by apply udp_do_close_ok|done].
Qed.
Lemma poll_udp_keeps : udp_keeps udp_poll.
Proof.
  intros st Hok Hc. unfold udp_poll, usock. unfold_M. destruct (uk_local (ut_sock st)).
  - apply (udp_keeps_with (fun u => Ret (Ok (mkPoll (udp_can_recv u) (udp_can_send u)), u))); [|done|done]. intros u Hu. by do 2 eexists.
  - by apply udp_keeps_mret.
Qed.

Lemma udp_ephemeral_keeps : udp_keeps udp_ephemeral_port.
Proof.
  intros st Hok Hc. do 2 eexists. split; [done|]. split; [done|]. split; [|by split].
  unfold in_range, PORT_START, PORT_END in *. cbn. destruct (Z.eqb_spec (ut_curr st) 65535); lia.
Qed.

(** [bind] after the choice of the port. *)
Lemma udp_bind_on (ip port : Z) :
  udp_keeps (k ← usock;
    _ ← ensure (negb (bool_decide (is_Some (uk_local k)))) InvalidInput;
    let endpoint := mkLep (if is_unspecified ip then None else Some ip) port in
    _ ← with_udp (fun u => Ret match udp_do_bind endpoint u with
                               | Ok u' => (Ok tt, u')
                               | Err BindInvalidState => (Err AlreadyExists, u)
                               | Err BindUnaddressable => (Err InvalidInput, u)
                               end);
    usock_mod (set_uk_local (Some (mkEp ip port)))).
Proof.
  intros st Hst Hc. pose proof Hst as (u & Hu & Hok & Hl). unfold usock. unfold_M.
  case_bool_decide as Hb; cbn [negb].
  { exists (Err InvalidInput), st. split; [done|]. split; [done|]. split; [done|]. by split. }
  set (f := fun u => Ret match udp_do_bind _ u with Ok u' => (Ok tt, u') | Err BindInvalidState => _ | Err BindUnaddressable => _ end).
  assert (Hf : exists r u', f u = Ret (r, u') /\ udp_ok u' /\ (r = Ok tt \/ u' = u /\ exists e, r = Err e)).
  { unfold f, udp_do_bind. cbn [lep_port]. destruct (port =? 0); [do 2 eexists; split; [done|]; eauto|].
    destruct (udp_is_open u); do 2 eexists; (split; [done|]); [eauto|]. split; [|by left]. by destruct Hok. }
  destruct Hf as (r & u' & Hf & Hok' & Hr). rewrite (with_udp_at f st u r u' Hu Hf).
  pose proof (put_udp_at st u u' Hu) as Hu'. pose proof (put_others st u u' Hu) as Ho.
  destruct Hr as [-> |[-> [e ->]]].
  - do 2 eexists. split; [done|]. split; [done|]. split; [done|]. split; [|exact Ho]. by exists u'.
  - do 2 eexists. split; [done|]. split; [done|]. split; [done|]. split; [|exact Ho]. by exists u.
Qed.
Lemma udp_bind_keeps a : v4 a -> udp_keeps (udp_bind a).
Proof.
  intros [ip Hip]. unfold udp_bind. rewrite Hip. apply udp_keeps_bind.
  - destruct (sa_port a =? 0); [apply udp_ephemeral_keeps|apply udp_keeps_mret].
  - intros port. apply (udp_bind_on ip port).
Qed.
Lemma udp_connect_keeps a : v4 a -> udp_keeps (udp_connect a).
Proof.
  intros [ip Hip]. unfold udp_connect, from_core_sockaddr. rewrite Hip. intros st Hok Hc. revert st Hok Hc.
  apply udp_keeps_bind; [intros st Hok Hc; by eapply udp_keeps_same|].
  intros k. apply udp_keeps_bind.
  - destruct (uk_local k); [apply udp_keeps_mret|]. apply udp_bind_keeps. by eexists.
  - intros _. by apply udp_keeps_mod.
Qed.

(** The system after a call on the UDP socket [i]. *)
Definition udp_post (st st' : UdpSt) : Prop :=
  uk_handle (ut_sock st') = uk_handle (ut_sock st) /\ in_range (ut_curr st')
  /\ udp_sock_ok (ut_net st') (ut_sock st') /\ others (uk_handle (ut_sock st)) (ut_net st) (ut_net st').
Lemma udp_post_inv y i k st :
  inet_inv y -> is_udp y !! i = Some k -> udp_post (mkUSt k (ns_net (is_tcp y)) (is_curr y)) st ->
  inet_inv (mkIS (mkNS (ns_socks (is_tcp y)) (ut_net st)) (<[i := ut_sock st]> (is_udp y)) (ut_curr st)).
Proof.
  intros [It Iu Io Ic] Hi (Hh & Hc & Hok & Ht & Hf).
  cbn [ut_sock ut_net ut_curr] in *. split; cbn [is_tcp is_udp is_curr ns_net]; [|..|done].
  - apply Ht. by destruct (is_tcp y).
  - intros j kj. destruct (decide (j = i)) as [->|Hne].
    + rewrite lookup_insert_eq. by intros [= <-].
    + rewrite lookup_insert_ne by done. intros Hj. destruct (Iu j kj Hj) as (u & Hu & Huok & Hl).
      destruct (Hf (uk_handle kj) u) as (u' & Hu' & Hok' & He); [|done|done|].
      * intros E. by apply Hne, (Io j i kj k).
      * exists u'. split; [done|]. split; [done|]. unfold udp_is_open in *. by rewrite He.
  - intros j1 j2 k1 k2 H1 H2 E. destruct (decide (j1 = i)) as [->|H1n], (decide (j2 = i)) as [->|H2n]; simplify_map_eq; try done.
    + rewrite Hh in E. by apply (Io i j2 k k2).
    + rewrite Hh in E. by apply (Io j1 i k1 k).
    + by apply (Io j1 j2 k1 k2).
Qed.
Lemma on_udp_sock_keeps {A} i (m : UdpM A) y :
  udp_keeps m -> inet_inv y -> exists y', on_udp_sock i m y = Ret y' /\ inet_inv y'.
Proof.
  intros Hm I. unfold on_udp_sock. destruct (is_udp y !! i) as [k|] eqn:Hi; [|by exists y].
  destruct (Hm (mkUSt k (ns_net (is_tcp y)) (is_curr y)) (ii_udp y I i k Hi) (ii_curr y I)) as (r & st & -> & Hp).
  eexists. split; [done|]. by eapply udp_post_inv.
Qed.

Lemma inet_init_inv : inet_inv inet_init.
Proof. split; [apply net_init_inv|..]; cbn; done. Qed.

(** A frame of the UDP sockets and the TCP invariant. *)
Lemma inet_frame y t :
  inet_inv y -> net_inv t -> udp_frame (ns_net (is_tcp y)) (ns_net t) -> inet_inv (mkIS t (is_udp y) (is_curr y)).
Proof.
  intros [It Iu Io Ic] It' Hf. split; cbn; try done. intros i k Hi. destruct (Iu i k Hi) as (u & Hu & Hok & Hl).
  destruct (Hf _ _ Hu Hok) as (u' & Hu' & Hok' & He). exists u'. split; [done|]. split; [done|].
  unfold udp_is_open in *. by rewrite He.
Qed.

Lemma udp_new_keeps i y :
  inet_inv y -> is_udp y !! i = None ->
  let '(k, n) := udp_new (ns_net (is_tcp y)) in
  inet_inv (mkIS (mkNS (ns_socks (is_tcp y)) n) (<[i := k]> (is_udp y)) (is_curr y)).
Proof.
  intros I Hi. unfold udp_new. destruct (set_add_sock _ _) as [h s] eqn:Ha.
  pose proof (add_frame _ _ _ _ (with_set s (ns_net (is_tcp y))) Ha eq_refl) as Hf.
  apply set_add_sock_spec in Ha as (Hfree & Hh & Hne). set (n := with_set s _) in *.
  assert (I1 : inet_inv (mkIS (mkNS (ns_socks (is_tcp y)) n) (is_udp y) (is_curr y))).
  { apply inet_frame; [done| |done]. apply inv_tcp_same; [apply I|]. intros h' k. destruct (decide (h' = h)) as [->|].
    - rewrite Hh. naive_solver.
    - by apply Hne. }
  destruct I1 as [It Iu Io Ic]. cbn [is_tcp is_udp is_curr ns_net] in *.
  assert (Hnew : forall j k, is_udp y !! j = Some k -> uk_handle k <> h).
  { intros j k Hj E. destruct (ii_udp y I j k Hj) as (u & Hu & _). unfold udp_at in Hu. rewrite E in Hu. destruct Hfree; congruence. }
  split; cbn [is_tcp is_udp is_curr ns_net]; try done.
  - intros j k Hj. destruct (decide (j = i)) as [->|Hj']; simplify_map_eq; [|by apply (Iu j)].
    exists new_udp_socket. split; [exact Hh|]. split; [apply new_udp_ok|done].
  - intros j1 j2 k1 k2 H1 H2 E. destruct (decide (j1 = i)) as [->|H1n], (decide (j2 = i)) as [->|H2n]; simplify_map_eq; try done.
    + exfalso. by eapply Hnew.
    + exfalso. by eapply Hnew.
    + by apply (Io j1 j2 k1 k2).
Qed.

Lemma udp_drop_keeps evs i k y :
  inet_inv y -> is_udp y !! i = Some k ->
  exists n, udp_drop evs (mkUSt k (ns_net (is_tcp y)) (is_curr y)) = Ret n
    /\ inet_inv (mkIS (mkNS (ns_socks (is_tcp y)) n) (delete i (is_udp y)) (is_curr y)).
Proof.
  intros [It Iu Io Ic] Hi. unfold udp_drop.
  destruct (shutdown_udp_keeps evs (mkUSt k (ns_net (is_tcp y)) (is_curr y)) (Iu i k Hi) Ic) as (r & st & -> & Hh & _ & Hok & Ht & Hf).
  cbn [ut_sock ut_net] in *. destruct Hok as (u & Hu & _ & _). rewrite Hh in Hu |- *. unfold set_remove.
  unfold udp_at in Hu. rewrite Hu. eexists. split; [done|]. split; cbn [is_tcp is_udp is_curr ns_net]; [|..|done].
  - apply (inv_tcp_same (mkNS (ns_socks (is_tcp y)) (ut_net st))); [apply Ht; by destruct (is_tcp y)|].
    intros h' k'. cbn. destruct (decide (h' = uk_handle k)) as [->|]; [|by rewrite list_lookup_insert_ne].
    rewrite list_lookup_insert_eq by (by eapply lookup_lt_Some). rewrite Hu. naive_solver.
  - intros j kj [Hne Hj]%lookup_delete_Some. destruct (Iu j kj Hj) as (v & Hv & Hvok & Hl).
    assert (Hhn : uk_handle kj <> uk_handle k) by (intros E; by apply Hne, (Io i j k kj)).
    destruct (Hf (uk_handle kj) v Hhn Hv Hvok) as (v' & Hv' & Hok' & He). exists v'. split; [|split; [done|]].
    + unfold udp_at in *. cbn. by rewrite list_lookup_insert_ne.
    + unfold udp_is_open in *. by rewrite He.
  - intros j1 j2 k1 k2 [_ H1]%lookup_delete_Some [_ H2]%lookup_delete_Some. by apply Io.
Qed.

Definition resets (c : inet_call) (y : InetSys) : Prop :=
  match c with ITcp c => accepts_reset c (is_tcp y) | _ => False end.
Lemma inet_step_keeps source c y :
  inet_inv y -> v4_inet c -> match inet_step source c y with Ret y' => inet_inv y' | Panic => resets c y end.
Proof.
  intros I Hv.
  assert (Hsock : forall A i (m : UdpM A), udp_keeps m -> match on_udp_sock i m y with Ret y' => inet_inv y' | Panic => resets c y end).
  { intros A i m Hm. by destruct (on_udp_sock_keeps i m y Hm I) as (y' & -> & I'). }
  destruct c as [c|i|i a|i a|i d e evs|i len evs|i len evs|i len e evs|i|i evs|i b|i evs]; cbn [inet_step v4_inet] in *; try apply Hsock.
  - pose proof (net_step_keeps source c (is_tcp y) (ii_tcp y I) Hv) as Hk.
    destruct (net_step source c (is_tcp y)) as [t|] eqn:E; [|done]. apply inet_frame; [done|done|].
    by apply (net_step_frame source c); [apply I|].
  - destruct (is_udp y !! i) eqn:Hi; [done|]. pose proof (udp_new_keeps i y I Hi). by destruct (udp_new _).
  - by apply udp_bind_keeps.
  - by apply udp_connect_keeps.
  - apply send_keeps_ok.
  - apply recv_pass_keeps, recv_from_op_ok.
  - apply recv_pass_keeps, peek_from_op_ok.
  - apply recv_pass_keeps, recv_op_ok.
  - apply poll_udp_keeps.
  - apply shutdown_udp_keeps.
  - by apply udp_keeps_mod.
  - destruct (is_udp y !! i) as [k|] eqn:Hi; [|done]. by destruct (udp_drop_keeps evs i k y I Hi) as (n & -> & ?).
Qed.


(** * What a connected socket receives; readiness *)

(** [recv] of a connected socket returns the first datagram, cut to the length asked for,
    and only when it is from the peer; a datagram from elsewhere is dropped and the call
    goes on waiting. *)
Lemma recv_op_spec len remote u :
  udp_ok u ->
  exists u', recv_op len remote u =
      Ret (match head (rx_queue u) with
           | Some (e, d) => if from_peer remote e then Ok (take len d) else Err WouldBlock
           | None => Err BadState
           end, u')
    /\ rx_queue u' = tail (rx_queue u) /\ udp_ok u'.
Proof.
  intros Hok. unfold recv_op. destruct (udp_recv_slice_spec len u Hok) as (u' & -> & Hok' & Hq & _ & _).
  exists u'. split; [|done]. by destruct (head (rx_queue u)) as [[e d]|].
Qed.

(** A full ring of descriptions can take the padding in front of a datagram but not the
    datagram. Once the datagrams before it are read, only padding is left: [poll] says
    that the socket is readable, and [recv_from] fails instead of waiting. *)
Lemma padding_only_fails st u len polls :
  udp_at (ut_net st) (uk_handle (ut_sock st)) u -> udp_ok u -> is_Some (uk_local (ut_sock st)) ->
  udp_can_recv u = true -> rx_queue u = [] -> uk_nonblock (ut_sock st) = true ->
  exists st', udp_poll st = Ret (Ok (mkPoll true (udp_can_send u)), st')
    /\ exists st2, udp_recv_from len polls st = Some (Ret (Err BadState, st2)).
Proof.
  intros Hu Hok [e Hl] Hc Hq Hnb. exists (put_udp st u). split.
  - unfold udp_poll, usock. unfold_M. rewrite Hl. apply (with_udp_at _ st u); [done|]. by rewrite Hc.
  - unfold udp_recv_from, recv_impl, if_bound, udp_block_on. rewrite Hl, Hnb.
    destruct (udp_recv_slice_spec len u Hok) as (u' & Hs & _). rewrite Hq in Hs. cbn in Hs.
    exists (put_udp st u'). f_equal. apply (with_udp_at _ st u); [done|]. rewrite Hc. unfold recv_from_op. by rewrite Hs.
Qed.

Module UdpDemo.
(** A ring of 4 descriptions and 16 bytes: after [enqueue] of 12 bytes and two more of one
    byte, the first is read; the next takes the last description but one; the packet
    of three bytes needs padding and fails; all the rest is read. *)
Definition put (data : list Z) (b : PacketBuffer Z) : PacketBuffer Z := snd (pb_enqueue 7 data b).
Definition get (b : PacketBuffer Z) : PacketBuffer Z := match pb_dequeue b with Ret (_, b') => b' | Panic => b end.
Definition padded : PacketBuffer Z :=
  get (get (get (put [1; 2; 3] (put [4] (get (put [5] (put [6] (put (replicate 12 0) (pb_new 4 16))))))))).

Definition source : Z -> option Z := fun _ => Some 0x0a00020f.
Definition me : IpEndpoint := mkEp 0x0a00020f 53.
Definition from : IpEndpoint := mkEp 0x0a000202 4000.
Definition bound : UdpSock := mkUdp (mkLep None 53) (us_rx new_udp_socket) (us_tx new_udp_socket).
Definition st : UdpSt := mkUSt (mkUS 0 (Some (mkEp 0 53)) None false) (mkNet [Some (Udp bound)] ∅ PORT_START) PORT_START.
Definition calls : list (list NetEvent * nat) :=
  [([Datagram from me false [1; 2; 3]; Datagram from me false [4]], 2%nat); ([], 8%nat); ([], 8%nat)].
Definition session : list inet_call :=
  [UNew 0; UBind 0 (mkAddr (V4 0) 53); ITcp (CNew 0); ITcp (CBind 0 (mkAddr (V4 0) 80)); ITcp (CListen 0);
   URecvFrom 0 16 [Datagram from me false [1; 2; 3]; Syn (mkEp 0x0a00020f 80)]; USend 0 [9] from [];
   ITcp (CDrop 0 [Transmit 0 true]); UDrop 0 []].
End UdpDemo.

Example padding_left : pb_is_empty UdpDemo.padded = false /\ packets UdpDemo.padded = [].
Proof. by vm_compute. Qed.

Lemma bound_ok : udp_ok UdpDemo.bound.
Proof. destruct new_udp_ok as [H1 H2 H3 H4]. by split. Qed.


Lemma udp_send_to_correct_witness :
  let r := udp_send_to [1; 2] (mkAddr (V4 7) 9) [replicate 8 (Transmit 0 true)] UdpDemo.st in
  (r = None \/ exists st' u' old, r = Some (Ret (Ok 2, st'))
      /\ udp_at (ut_net st') 0 u' /\ udp_ok u'
      /\ old `suffix_of` tx_queue UdpDemo.bound /\ tx_queue u' = old ++ [(mkEp 7 9, [1; 2])])
  /\ (UDP_TX_BUF_LEN < 2 -> r = None)
  /\ (2 <= UDP_TX_BUF_LEN -> replicate 8 (Transmit 0 true) ∈ [replicate 8 (Transmit 0 true)] -> r <> None).
Proof.
  apply (udp_send_to_correct [1; 2] 7 9 [replicate 8 (Transmit 0 true)] UdpDemo.st UdpDemo.bound);
    [done|done|reflexivity|by eexists|reflexivity|exact bound_ok|reflexivity].
Defined.

