(* ===== verification/SockCalls.v ===== *)
(** The socket calls of the C interface (arceos/api/arceos_posix_api/src/imp/net.rs): the
    [Socket] behind a descriptor, the addresses in memory, and the calls over the
    descriptor table, the TCP and the UDP sockets. A call that can wait takes what happens
    at each of its polls and gives [None] while it waits; the last descriptor of a socket
    that is closed drops it. *)
From S2P Require Import Prelude.
From S2P Require Import Errno.
From S2P Require Import FdTable.
From S2P Require Import IoMpx.
From S2P Require Import PacketBuffer.
From S2P Require Import Net.
From S2P Require Import NetTheorems.
From S2P Require Import Udp.

(** * Addresses in memory *)

Definition AF_INET : Z := 2.
Definition SOCK_STREAM : Z := 1.
Definition SOCK_DGRAM : Z := 2.
Definition IPPROTO_TCP : Z := 6.
Definition IPPROTO_UDP : Z := 17.
(** [size_of::<ctypes::sockaddr>()], the same as that of [sockaddr_in]. *)
Definition SOCKADDR_SIZE : Z := 16.

Record sockaddr_in := mkSin { sin_family : Z; sin_port : Z; s_addr : Z; sin_zero : list Z }.
(** Its bytes; the machine is little-endian. *)
Definition sin_bytes (s : sockaddr_in) : list Z :=
  le_put 2 (sin_family s) ++ le_put 2 (sin_port s) ++ le_put 4 (s_addr s) ++ sin_zero s.
Definition sin_of_bytes (l : list Z) : sockaddr_in :=
  mkSin (le_get (take 2 l)) (le_get (take 2 (drop 2 l))) (le_get (take 4 (drop 4 l))) (take 8 (drop 8 l)).

(** [u16::to_be], [u16::from_be]; [Ipv4Addr::octets], [Ipv4Addr::from([u8; 4])]. *)
Definition swap16 (v : Z) : Z := Z.lor (Z.shiftl (Z.land v 255) 8) (Z.land (Z.shiftr v 8) 255).
Definition octets_of (ip : Z) : list Z := rev (le_put 4 ip).
Definition ip_of_octets (l : list Z) : Z := le_get (rev l).

(** [From<SocketAddrV4> for sockaddr_in] and back. *)
Definition sockaddr_in_from (ip port : Z) : sockaddr_in :=
  mkSin AF_INET (swap16 port) (le_get (octets_of ip)) (replicate 8 0).
Definition SocketAddrV4_from (s : sockaddr_in) : SocketAddr :=
  mkAddr (V4 (ip_of_octets (le_put 4 (s_addr s)))) (swap16 (sin_port s)).

(** [into_sockaddr]: the bytes and the length; IPv6 panics. *)
Definition into_sockaddr (a : SocketAddr) : outcome (list Z * Z) :=
  match sa_ip a with
  | V4 ip => Ret (sin_bytes (sockaddr_in_from ip (sa_port a)), SOCKADDR_SIZE)
  | V6 _ => Panic
  end.
(** [from_sockaddr]. *)
Definition from_sockaddr (addr addrlen : Z) (m : bytes) : result SocketAddr LinuxError :=
  if addr =? 0 then Err EFAULT else
  if negb (addrlen =? SOCKADDR_SIZE) then Err EINVAL else
  let mid := sin_of_bytes (mem_read addr 16 m) in
  if negb (sin_family mid =? AF_INET) then Err EINVAL else Ok (SocketAddrV4_from mid).

(** * The state and code that can wait *)

(** [Socket], by the number of the socket; what a descriptor refers to. *)
Inductive Socket := SUdp (i : nat) | STcp (i : nat).
Inductive SockObj := FSock (s : Socket) | FOther.
#[export] Instance Socket_eq_dec : EqDecision Socket.
Proof. solve_decision. Defined.

(** The descriptor table, the sockets and the memory. *)
Record PSt := mkP { p_fd : FlattenObjects SockObj; p_inet : InetSys; p_mem : bytes }.
Definition set_fd (t : FlattenObjects SockObj) (st : PSt) : PSt := mkP t (p_inet st) (p_mem st).
Definition set_inet (y : InetSys) (st : PSt) : PSt := mkP (p_fd st) y (p_mem st).
Definition set_mem (m : bytes) (st : PSt) : PSt := mkP (p_fd st) (p_inet st) m.

Definition WM (A : Type) : Type := PSt -> option (outcome (result A LinuxError * PSt)).
Definition W_bind {A B} (k : A -> WM B) (m : WM A) : WM B := fun st =>
  match m st with
  | Some (Ret (Ok a, st')) => k a st'
  | Some (Ret (Err e, st')) => Some (Ret (Err e, st'))
  | Some Panic => Some Panic
  | None => None
  end.
#[export] Instance WM_mret : MRet WM := fun A a st => Some (Ret (Ok a, st)).
#[export] Instance WM_mbind : MBind WM := fun A B k m => W_bind k m.
Definition fail {A} (e : LinuxError) : WM A := fun st => Some (Ret (Err e, st)).
Definition wpanic {A} : WM A := fun _ => Some Panic.
Definition check (b : bool) (e : LinuxError) : WM unit := if b then mret tt else fail e.
Definition of_result {A} (r : result A LinuxError) : WM A := match r with Ok a => mret a | Err e => fail e end.
Definition on_fds {A} (m : FdM A) : WM A := fun st =>
  match m (p_fd st) with
  | Ret (r, t) => Some (Ret (r, set_fd t st))
  | Panic => Some Panic
  end.
Definition write_mem (a : Z) (l : list Z) : WM unit := fun st => Some (Ret (Ok tt, set_mem (mem_write a l (p_mem st)) st)).
Definition read_mem (a : Z) (len : Z) : WM (list Z) := fun st =>
  Some (Ret (Ok (mem_read a (Z.to_nat len) (p_mem st)), st)).
(** [syscall_body!]. *)
Definition wsyscall (cast : Z -> Z) (body : WM Z) (st : PSt) : option (outcome (Z * PSt)) :=
  match body st with
  | Some (Ret (r, st')) => Some (Ret (syscall_body cast r, st'))
  | Some Panic => Some Panic
  | None => None
  end.

(** A call on one socket, with the errors converted. *)
Definition tcp_call {A} (i : nat)
    (m : TcpSocket * NetSt -> option (outcome (result A AxError * (TcpSocket * NetSt)))) : WM A := fun st =>
  let y := p_inet st in
  match ns_socks (is_tcp y) !! i with
  | None => Some Panic
  | Some k =>
      match m (k, ns_net (is_tcp y)) with
      | None => None
      | Some Panic => Some Panic
      | Some (Ret (r, (k', n'))) =>
          Some (Ret (ax_result r,
                     set_inet (mkIS (mkNS (<[i := k']> (ns_socks (is_tcp y))) n') (is_udp y) (is_curr y)) st))
      end
  end.
Definition udp_call {A} (i : nat) (m : UdpSt -> option (outcome (result A AxError * UdpSt))) : WM A := fun st =>
  let y := p_inet st in
  match is_udp y !! i with
  | None => Some Panic
  | Some k =>
      match m (mkUSt k (ns_net (is_tcp y)) (is_curr y)) with
      | None => None
      | Some Panic => Some Panic
      | Some (Ret (r, u)) =>
          Some (Ret (ax_result r,
                     set_inet (mkIS (mkNS (ns_socks (is_tcp y)) (ut_net u)) (<[i := ut_sock u]> (is_udp y)) (ut_curr u)) st))
      end
  end.
(** A call that does not wait. *)
Definition now {S A} (m : M S AxError A) (s : S) : option (outcome (result A AxError * S)) := Some (m s).
Definition pure_of {S A} (f : S -> result A AxError) (s : S) : option (outcome (result A AxError * S)) := Some (Ret (f s, s)).

(** * [Socket] *)

Abbreviation polls_t := (list (list NetEvent)).
Section socket.
(** The choice of a source address ([get_source_address] of the interface). *)
Variable source : Z -> option Z.

Definition sock_send (s : Socket) (buf : list Z) (polls : polls_t) : WM Z :=
  match s with
  | SUdp i => udp_call i (udp_send buf polls)
  | STcp i => tcp_call i (tcp_send buf polls)
  end.
Definition sock_recv (s : Socket) (len : nat) (polls : polls_t) : WM (list Z) :=
  match s with
  | SUdp i => r ← udp_call i (udp_recv_from len polls); mret r.1
  | STcp i => tcp_call i (tcp_recv len polls)
  end.
Definition sock_poll (s : Socket) : WM PollState :=
  match s with
  | SUdp i => udp_call i (now udp_poll)
  | STcp i => tcp_call i (now tcp_poll)
  end.
Definition sock_local_addr (s : Socket) : WM SocketAddr :=
  match s with
  | SUdp i => udp_call i (pure_of (fun st => udp_local_addr (ut_sock st)))
  | STcp i => tcp_call i (pure_of (fun st => local_addr (fst st)))
  end.
Definition sock_peer_addr (s : Socket) : WM SocketAddr :=
  match s with
  | SUdp i => udp_call i (pure_of (fun st => udp_peer_addr (ut_sock st)))
  | STcp i => tcp_call i (pure_of (fun st => peer_addr (fst st)))
  end.
Definition sock_bind (s : Socket) (addr : SocketAddr) : WM unit :=
  match s with
  | SUdp i => udp_call i (now (udp_bind addr))
  | STcp i => tcp_call i (now (tcp_bind addr))
  end.
Definition sock_connect (s : Socket) (addr : SocketAddr) (polls : polls_t) : WM unit :=
  match s with
  | SUdp i => udp_call i (now (udp_connect addr))
  | STcp i => tcp_call i (tcp_connect source addr polls)
  end.
Definition sock_sendto (s : Socket) (buf : list Z) (addr : SocketAddr) (polls : polls_t) : WM Z :=
  match s with
  | SUdp i => udp_call i (udp_send_to buf addr polls)
  | STcp _ => fail EISCONN
  end.
Definition sock_recvfrom (s : Socket) (len : nat) (polls : polls_t) : WM (list Z * option SocketAddr) :=
  match s with
  | SUdp i => r ← udp_call i (udp_recv_from len polls); mret (r.1, Some r.2)
  | STcp i => r ← tcp_call i (tcp_recv len polls); mret (r, None)
  end.
Definition sock_listen (s : Socket) : WM unit :=
  match s with
  | SUdp _ => fail EOPNOTSUPP
  | STcp i => tcp_call i (now tcp_listen)
  end.
Definition sock_accept (s : Socket) (polls : polls_t) : WM TcpSocket :=
  match s with
  | SUdp _ => fail EOPNOTSUPP
  | STcp i => tcp_call i (tcp_accept polls)
  end.
Definition sock_shutdown (s : Socket) (evs : list NetEvent) : WM unit :=
  _ ← sock_peer_addr s;
  match s with
  | SUdp i => udp_call i (now (udp_shutdown evs))
  | STcp i => tcp_call i (now (tcp_shutdown evs))
  end.
(** [FileLike::set_nonblocking]. *)
Definition sock_set_nonblocking (s : Socket) (b : bool) : WM unit :=
  match s with
  | SUdp i => udp_call i (now (usock_mod (set_nonblocking b)))
  | STcp i => tcp_call i (now (sock_mod (fun k => mkTS (ts_state k) (ts_handle k) (ts_local k) (ts_peer k) b)))
  end.

(** [Drop] of a socket. *)
Definition sock_drop (s : Socket) (evs : list NetEvent) : WM unit := fun st =>
  let y := p_inet st in
  match s with
  | STcp i =>
      match ns_socks (is_tcp y) !! i with
      | None => Some Panic
      | Some k =>
          match tcp_drop evs (k, ns_net (is_tcp y)) with
          | Panic => Some Panic
          | Ret n => Some (Ret (Ok tt, set_inet (mkIS (mkNS (delete i (ns_socks (is_tcp y))) n) (is_udp y) (is_curr y)) st))
          end
      end
  | SUdp i =>
      match is_udp y !! i with
      | None => Some Panic
      | Some k =>
          match udp_drop evs (mkUSt k (ns_net (is_tcp y)) (is_curr y)) with
          | Panic => Some Panic
          | Ret n => Some (Ret (Ok tt, set_inet (mkIS (mkNS (ns_socks (is_tcp y)) n) (delete i (is_udp y)) (is_curr y)) st))
          end
      end
  end.

(** A new socket; [add_to_fd_table]: a socket that gets no descriptor is dropped. *)
Definition new_tcp (k : TcpSocket) : WM Socket := fun st =>
  let y := p_inet st in
  let i := fresh (dom (ns_socks (is_tcp y)) : gset nat) in
  Some (Ret (Ok (STcp i), set_inet (mkIS (mkNS (<[i := k]> (ns_socks (is_tcp y))) (ns_net (is_tcp y))) (is_udp y) (is_curr y)) st)).
Definition new_udp : WM Socket := fun st =>
  let y := p_inet st in
  let i := fresh (dom (is_udp y) : gset nat) in
  let '(k, n) := udp_new (ns_net (is_tcp y)) in
  Some (Ret (Ok (SUdp i), set_inet (mkIS (mkNS (ns_socks (is_tcp y)) n) (<[i := k]> (is_udp y)) (is_curr y)) st)).
Definition sock_add_to_fd_table (s : Socket) (evs : list NetEvent) : WM Z := fun st =>
  match on_fds (add_file_like (FSock s)) st with
  | Some (Ret (Err e, st')) => (_ ← sock_drop s evs; fail e) st'
  | r => r
  end.
(** [from_fd]. *)
Definition from_fd (fd : Z) : WM Socket :=
  f ← on_fds (get_file_like fd);
  match f with FSock s => mret s | FOther => fail EINVAL end.

(** * The calls *)

(** The address and its length are stored as [into_sockaddr] gives them. *)
Definition store_sockaddr (addr addrlen : Z) (a : SocketAddr) : WM unit :=
  match into_sockaddr a with
  | Panic => wpanic
  | Ret (b, len) => _ ← write_mem addr b; write_mem addrlen (le_put 4 len)
  end.
Definition load_sockaddr (addr addrlen : Z) : WM SocketAddr := fun st =>
  of_result (from_sockaddr addr addrlen (p_mem st)) st.

Definition sys_socket_body (domain socktype protocol : Z) (evs : list NetEvent) : WM Z :=
  let '(domain, socktype, protocol) := (as_u32 domain, as_u32 socktype, as_u32 protocol) in
  if (domain =? AF_INET) && (socktype =? SOCK_STREAM) && ((protocol =? IPPROTO_TCP) || (protocol =? 0))
  then s ← new_tcp tcp_new; sock_add_to_fd_table s evs
  else if (domain =? AF_INET) && (socktype =? SOCK_DGRAM) && ((protocol =? IPPROTO_UDP) || (protocol =? 0))
  then s ← new_udp; sock_add_to_fd_table s evs
  else fail EINVAL.
Definition sys_socket (domain socktype protocol : Z) (evs : list NetEvent) :=
  wsyscall as_i32 (sys_socket_body domain socktype protocol evs).

Definition sys_bind_body (fd addr addrlen : Z) : WM Z :=
  a ← load_sockaddr addr addrlen;
  s ← from_fd fd;
  _ ← sock_bind s a;
  mret 0.
Definition sys_bind (fd addr addrlen : Z) := wsyscall as_i32 (sys_bind_body fd addr addrlen).

Definition sys_connect_body (fd addr addrlen : Z) (polls : polls_t) : WM Z :=
  a ← load_sockaddr addr addrlen;
  s ← from_fd fd;
  _ ← sock_connect s a polls;
  mret 0.
Definition sys_connect (fd addr addrlen : Z) (polls : polls_t) := wsyscall as_i32 (sys_connect_body fd addr addrlen polls).

Definition sys_sendto_body (fd buf len addr addrlen : Z) (polls : polls_t) : WM Z :=
  _ ← check (negb (buf =? 0)) EFAULT;
  a ← load_sockaddr addr addrlen;
  data ← read_mem buf len;
  s ← from_fd fd;
  sock_sendto s data a polls.
Definition sys_sendto (fd buf len addr addrlen : Z) (polls : polls_t) :=
  wsyscall as_i64 (sys_sendto_body fd buf len addr addrlen polls).

Definition sys_send_body (fd buf len : Z) (polls : polls_t) : WM Z :=
  _ ← check (negb (buf =? 0)) EFAULT;
  data ← read_mem buf len;
  s ← from_fd fd;
  sock_send s data polls.
Definition sys_send (fd buf len : Z) (polls : polls_t) := wsyscall as_i64 (sys_send_body fd buf len polls).

Definition sys_recvfrom_body (fd buf len addr addrlen : Z) (polls : polls_t) : WM Z :=
  _ ← check (negb ((buf =? 0) || (addr =? 0) || (addrlen =? 0))) EFAULT;
  s ← from_fd fd;
  r ← sock_recvfrom s (Z.to_nat len) polls;
  _ ← write_mem buf r.1;
  _ ← match r.2 with Some a => store_sockaddr addr addrlen a | None => mret tt end;
  mret (Z.of_nat (length r.1)).
Definition sys_recvfrom (fd buf len addr addrlen : Z) (polls : polls_t) :=
  wsyscall as_i64 (sys_recvfrom_body fd buf len addr addrlen polls).

Definition sys_recv_body (fd buf len : Z) (polls : polls_t) : WM Z :=
  _ ← check (negb (buf =? 0)) EFAULT;
  s ← from_fd fd;
  r ← sock_recv s (Z.to_nat len) polls;
  _ ← write_mem buf r;
  mret (Z.of_nat (length r)).
Definition sys_recv (fd buf len : Z) (polls : polls_t) := wsyscall as_i64 (sys_recv_body fd buf len polls).

Definition sys_listen_body (fd : Z) : WM Z := s ← from_fd fd; _ ← sock_listen s; mret 0.
Definition sys_listen (fd backlog : Z) := wsyscall as_i32 (sys_listen_body fd).

Definition sys_accept_body (fd addr len : Z) (polls : polls_t) (evs : list NetEvent) : WM Z :=
  _ ← check (negb ((addr =? 0) || (len =? 0))) EFAULT;
  s ← from_fd fd;
  k ← sock_accept s polls;
  s' ← new_tcp k;
  match ax_result (peer_addr k) with
  | Err e => _ ← sock_drop s' evs; fail e
  | Ok a =>
      new_fd ← sock_add_to_fd_table s' evs;
      _ ← store_sockaddr addr len a;
      mret new_fd
  end.
Definition sys_accept (fd addr len : Z) (polls : polls_t) (evs : list NetEvent) :=
  wsyscall as_i32 (sys_accept_body fd addr len polls evs).

Definition sys_shutdown_body (fd : Z) (evs : list NetEvent) : WM Z :=
  s ← from_fd fd; _ ← sock_shutdown s evs; mret 0.
Definition sys_shutdown (fd flag : Z) (evs : list NetEvent) := wsyscall as_i32 (sys_shutdown_body fd evs).

(** [sys_getsockname] and [sys_getpeername]. *)
Definition name_body (f : Socket -> WM SocketAddr) (fd addr addrlen : Z) : WM Z :=
  _ ← check (negb ((addr =? 0) || (addrlen =? 0))) EFAULT;
  l ← read_mem addrlen 4;
  _ ← check (negb (le_get l <? SOCKADDR_SIZE)) EINVAL;
  s ← from_fd fd;
  a ← f s;
  _ ← store_sockaddr addr addrlen a;
  mret 0.
Definition sys_getsockname (fd addr addrlen : Z) := wsyscall as_i32 (name_body sock_local_addr fd addr addrlen).
Definition sys_getpeername (fd addr addrlen : Z) := wsyscall as_i32 (name_body sock_peer_addr fd addr addrlen).

(** * Descriptors of sockets (fd_ops.rs) *)

(** Some descriptor refers to the socket. *)
Definition referenced (s : Socket) (t : FlattenObjects SockObj) : bool :=
  existsb (fun o => match o with Some (FSock s') => bool_decide (s' = s) | _ => false end) (objects t).
(** [close_file_like]: the last reference drops the socket. *)
Definition close_body (fd : Z) (evs : list NetEvent) : WM Z := fun st =>
  match fo_remove (p_fd st) (fd_usize fd) with
  | None => fail EBADF st
  | Some (f, t) =>
      (_ ← match f with
           | FSock s => if referenced s t then mret tt else sock_drop s evs
           | FOther => mret tt
           end;
       mret 0) (set_fd t st)
  end.
Definition sys_close_sock (fd : Z) (evs : list NetEvent) (st : PSt) : option (outcome (Z * PSt)) :=
  if (0 <=? fd) && (fd <=? 2) then Some (Ret (0, st)) else wsyscall as_i32 (close_body fd evs) st.
Definition sys_dup_sock (fd : Z) := wsyscall as_i32 (on_fds (dup_fd fd)).
(** [F_SETFL]. *)
Definition sys_setfl_sock (fd arg : Z) :=
  wsyscall as_i32 (
    if (fd =? 0) || (fd =? 1) || (fd =? 2) then mret 0 else
    f ← on_fds (get_file_like fd);
    _ ← match f with
        | FSock s => sock_set_nonblocking s (0 <? Z.land arg O_NONBLOCK)
        | FOther => mret tt
        end;
    mret 0).
End socket.

(** * Addresses survive the way through memory *)

Lemma rev_le_put_get l n :
  length l = n -> Forall (fun b => 0 <= b < 256) l -> le_put n (le_get l) = l.
Proof.
  revert n. induction l as [|b l IH]; intros n <- Hl; [done|]. apply Forall_cons in Hl as [Hb Hl].
  cbn [length le_put le_get]. f_equal.
  - change 255 with (Z.ones 8). rewrite Z.land_ones by lia. change (2 ^ 8) with 256. lia.
  - rewrite Z.shiftr_div_pow2 by lia. change (2 ^ 8) with 256.
    replace ((b + 256 * le_get l) / 256) with (le_get l) by lia. by apply IH.
Qed.
Lemma le_put_bytes n v : Forall (fun b => 0 <= b < 256) (le_put n v).
Proof.
  revert v. induction n as [|n IH]; intros v; cbn [le_put]; constructor; [|apply IH].
  change 255 with (Z.ones 8). rewrite Z.land_ones by lia. change (2 ^ 8) with 256. lia.
Qed.
Lemma lor_shiftl a b : 0 <= a < 256 -> 0 <= b -> Z.lor (Z.shiftl b 8) a = 256 * b + a.
Proof.
  intros Ha Hb. assert (Hz : Z.land (Z.shiftl b 8) a = 0).
  { apply Z.bits_inj'. intros i Hi. rewrite Z.land_spec, Z.bits_0, Z.shiftl_spec by lia. destruct (Z.ltb_spec i 8).
    - by rewrite Z.testbit_neg_r by lia.
    - rewrite <- (Z.mod_small a (2 ^ 8)) by lia. rewrite Z.mod_pow2_bits_high by lia. by rewrite andb_false_r. }
  rewrite <- Z.lxor_lor, <- Z.add_nocarry_lxor by done. rewrite Z.shiftl_mul_pow2 by lia. lia.
Qed.
Lemma swap16_eq v : 0 <= v < 65536 -> swap16 v = 256 * (v mod 256) + v / 256.
Proof.
  intros Hv. unfold swap16. rewrite Z.shiftr_div_pow2 by lia. change 255 with (Z.ones 8). rewrite !Z.land_ones by lia.
  change (2 ^ 8) with 256. rewrite (Z.mod_small (v / 256)) by lia. apply lor_shiftl; lia.
Qed.
(** The bytes of a port in memory are in network order. *)
Lemma swap16_ok v :
  0 <= v < 65536 -> swap16 (swap16 v) = v /\ 0 <= swap16 v < 65536 /\ le_put 2 (swap16 v) = [v / 256; v mod 256].
Proof.
  intros Hv. rewrite (swap16_eq v Hv). rewrite swap16_eq by lia. split; [lia|]. split; [lia|].
  cbn [le_put]. change 255 with (Z.ones 8). rewrite Z.shiftr_div_pow2, !Z.land_ones by lia. change (2 ^ 8) with 256.
  f_equal; [lia|]. f_equal. lia.
Qed.
Lemma octets_bytes ip : length (octets_of ip) = 4%nat /\ Forall (fun b => 0 <= b < 256) (octets_of ip).
Proof.
  unfold octets_of. rewrite length_rev, length_le_put. split; [done|]. apply Forall_rev, le_put_bytes.
Qed.
Lemma ip_octets ip : 0 <= ip < 2 ^ 32 -> ip_of_octets (le_put 4 (le_get (octets_of ip))) = ip.
Proof.
  intros Hip. destruct (octets_bytes ip) as [Hl Hb]. rewrite rev_le_put_get by done.
  unfold ip_of_octets, octets_of. rewrite rev_involutive, le_get_put. apply Z.mod_small. done.
Qed.

Lemma sin_bytes_of s :
  0 <= sin_family s < 65536 -> 0 <= sin_port s < 65536 -> 0 <= s_addr s < 2 ^ 32 -> length (sin_zero s) = 8%nat ->
  length (sin_bytes s) = 16%nat /\ sin_of_bytes (sin_bytes s) = s.
Proof.
  intros Hf Hp Ha Hz. destruct s as [f p a z]. cbn [sin_family sin_port s_addr sin_zero] in *.
  unfold sin_bytes, sin_of_bytes; cbn [sin_family sin_port s_addr sin_zero].
  rewrite !length_app, !length_le_put, Hz. split; [done|].
  assert (H2 : forall v (l : list Z), take 2 (le_put 2 v ++ l) = le_put 2 v /\ drop 2 (le_put 2 v ++ l) = l) by done.
  assert (H4 : forall v (l : list Z), take 4 (le_put 4 v ++ l) = le_put 4 v /\ drop 4 (le_put 4 v ++ l) = l) by done.
  change (drop 4 (le_put 2 f ++ ?l)) with (drop 2 l). change (drop 8 (le_put 2 f ++ ?l)) with (drop 6 l).
  change (drop 6 (le_put 2 p ++ ?l)) with (drop 4 l).
  rewrite !(proj1 (H2 _ _)), !(proj2 (H2 _ _)), !(proj1 (H2 _ _)), !(proj1 (H4 _ _)), !(proj2 (H4 _ _)), !le_get_put.
  rewrite take_ge by lia. f_equal; by apply Z.mod_small.
Qed.

(** An address that a call stores is read back by [bind], [connect] or [sendto]; in
    memory it has the family, the port and the address in network order and zeros. *)
Theorem sockaddr_roundtrip ip port addr m :
  0 <= ip < 2 ^ 32 -> 0 <= port < 65536 -> addr <> 0 ->
  exists b, into_sockaddr (mkAddr (V4 ip) port) = Ret (b, SOCKADDR_SIZE)
    /\ b = [AF_INET; 0; port / 256; port mod 256] ++ octets_of ip ++ replicate 8 0
    /\ from_sockaddr addr SOCKADDR_SIZE (mem_write addr b m) = Ok (mkAddr (V4 ip) port).
Proof.
  intros Hip Hport Haddr. eexists. split; [done|]. cbn [sa_port]. destruct (swap16_ok port Hport) as (Hs & Hr & Hb).
  destruct (octets_bytes ip) as [Hl Hoct]. split.
  { unfold sin_bytes, sockaddr_in_from. cbn [sin_family sin_port s_addr sin_zero]. rewrite Hb, rev_le_put_get by done. done. }
  assert (Hin : 0 <= le_get (octets_of ip) < 2 ^ 32).
  { rewrite <- (rev_le_put_get (octets_of ip) 4) by done. rewrite le_get_put. apply Z.mod_pos_bound. lia. }
  destruct (sin_bytes_of (sockaddr_in_from ip port)) as [Hlen Hsin]; [done|done|done|done|].
  unfold from_sockaddr. rewrite (proj2 (Z.eqb_neq _ _) Haddr). cbn [negb].
  replace 16%nat with (length (sin_bytes (sockaddr_in_from ip port))) by done. rewrite mem_read_write, Hsin.
  cbn [sin_family sockaddr_in_from negb Z.eqb]. unfold SocketAddrV4_from. cbn [s_addr sin_port sockaddr_in_from].
  by rewrite Hs, ip_octets.
Qed.

(** * Whole calls on a TCP socket *)

(** A call that may wait keeps the TCP invariant and the UDP sockets, and does not panic. *)
Definition TK {A} (m : TcpSocket * NetSt -> option (outcome (result A AxError * (TcpSocket * NetSt)))) : Prop :=
  forall y i k, net_inv y -> ns_socks y !! i = Some k ->
  match m (k, ns_net y) with
  | None => True
  | Some Panic => False
  | Some (Ret (_, (k', n'))) => net_inv (mkNS (<[i := k']> (ns_socks y)) n') /\ udp_frame (ns_net y) n'
  end.

Lemma TK_now {A} (m : SockM A) : keeps m -> frames m -> TK (now m).
Proof.
  intros Hk Hf y i k I Hi. destruct (Hk y i k I Hi) as (r & k' & n' & Hr & I'). unfold now. rewrite Hr.
  split; [done|]. by apply (Hf _ _ _ _ _ Hr).
Qed.
Lemma TK_pure {A} (f : TcpSocket * NetSt -> result A AxError) : TK (pure_of f).
Proof. intros y i k I Hi. cbn. split; [by apply inv_refl|done]. Qed.

(** The wait: [P] holds of the socket as long as the call tries again. *)
Definition keeps_if {A} (P : TcpSocket -> Prop) (f : SockM A) : Prop := forall y i k,
  net_inv y -> ns_socks y !! i = Some k -> P k ->
  exists r k' n', f (k, ns_net y) = Ret (r, (k', n')) /\ net_inv (mkNS (<[i := k']> (ns_socks y)) n')
    /\ (r = Err WouldBlock -> P k').
Lemma block_on_keeps {A} P (f : SockM A) polls y i k :
  keeps_if P f -> frames f -> net_inv y -> ns_socks y !! i = Some k -> P k ->
  match block_on f polls (k, ns_net y) with
  | None => True
  | Some Panic => False
  | Some (Ret (_, (k', n'))) => net_inv (mkNS (<[i := k']> (ns_socks y)) n') /\ udp_frame (ns_net y) n'
  end.
Proof.
  intros Hk Hf I Hi HP. unfold block_on. cbn [fst]. destruct (ts_nonblock k).
  { destruct (Hk y i k I Hi HP) as (r & k' & n' & Hr & I' & _). rewrite Hr. split; [done|by apply (Hf _ _ _ _ _ Hr)]. }
  revert y k I Hi HP. induction polls as [|evs polls IH]; intros y k I Hi HP; cbn [block_loop]; [done|].
  destruct (Hk _ i k (poll_inv evs y I) Hi HP) as (r & k' & n' & Hr & I' & HP').
  unfold block_pass. cbn [fst snd ns_net ns_socks] in *. rewrite Hr.
  assert (Hfr : udp_frame (ns_net y) n').
  { transitivity (poll_interfaces evs (ns_net y)); [apply poll_frame|by apply (Hf _ _ _ _ _ Hr)]. }
  destruct r as [a|e]; [done|]. destruct (decide (e = WouldBlock)) as [->|Hne].
  - specialize (IH _ k' I' ltac:(apply lookup_insert_eq) (HP' eq_refl)). cbn [ns_net ns_socks] in IH.
    destruct (block_loop f polls (k', n')) as [[[r2 [k2 n2]]|]|]; [|done|done]. rewrite insert_insert_eq in IH.
    destruct IH as [I2 Hf2]. split; [done|]. by transitivity n'.
  - by destruct e.
Qed.

(** A pass on the socket of the handle. *)
Lemma with_socket_keeps {A} h (f : TcpSock -> result A AxError * TcpSock) :
  (forall ks, sock_ok ks -> sock_ok (snd (f ks))) -> keeps_if (fun k => ts_handle k = Some h) (with_socket h f).
Proof.
  intros Hf y i k I Hi Hh. destruct (with_socket_inv y i k h f I Hi Hh Hf) as (r & n' & Hr & I').
  exists r, k, n'. split; [apply Hr|]. split; [by apply (inv_refl (mkNS _ n'))|done].
Qed.
Lemma on_connected_TK {A} (f : nat -> SockM A) polls :
  (forall h, keeps_if (fun k => ts_handle k = Some h) (f h)) -> (forall h, frames (f h)) -> TK (on_connected f polls).
Proof.
  intros Hk Hf y i k I Hi. unfold on_connected. cbn [fst].
  assert (Hsame : forall e : AxError, net_inv (mkNS (<[i := k]> (ns_socks y)) (ns_net y)) /\ udp_frame (ns_net y) (ns_net y)).
  { intros _. split; [by apply inv_refl|done]. }
  destruct (ts_state k) eqn:Hs; try exact (Hsame NotConnected).
  destruct (inv_state y I i k Hi) as [_ [h Hh]]; [by right|]. rewrite Hh. by eapply block_on_keeps.
Qed.
Lemma tcp_recv_TK len polls : TK (tcp_recv len polls).
Proof.
  apply on_connected_TK; intros h; unfold recv_pass; [|by frames_tac]. apply with_socket_keeps.
  intros ks Hks. repeat case_match; cbn; try done; simplify_eq. by eapply recv_slice_ok.
Qed.
Lemma tcp_send_TK data polls : TK (tcp_send data polls).
Proof.
  apply on_connected_TK; intros h; unfold send_pass; [|by frames_tac]. apply with_socket_keeps.
  intros ks Hks. repeat case_match; cbn; try done; simplify_eq. by eapply send_slice_ok.
Qed.

Lemma connect_wait_keeps_if : keeps_if (fun k => ts_state k = S_CONNECTING) connect_wait.
Proof.
  intros y i k I Hi Hs. destruct (poll_connect_keeps y i k I Hi Hs) as (w & k' & Hr & I').
  unfold connect_wait, sock_get. unfold_M. rewrite Hr. cbn [fst].
  destruct w; cbn [negb].
  - case_bool_decide; by do 3 eexists.
  - do 3 eexists. split; [done|]. split; [done|]. intros _. unfold poll_connect in Hr.
    destruct (ts_handle k); [|done]. destruct (set_get _ _) as [s|]; [|done]. destruct (sk_state s); by simplify_eq.
Qed.
Lemma update_state_new {A} e s1 s2 (m : SockM A) st r st' :
  or_else (Err e) (update_state s1 s2 m) st = Ret (Ok r, st') -> ts_state (fst st') = s2.
Proof.
  unfold or_else, update_state. case_bool_decide; [|done].
  destruct (m _) as [[[a|e'] [k n]]|]; intros; by simplify_eq.
Qed.
Lemma tcp_connect_TK source addr polls : v4 addr -> TK (tcp_connect source addr polls).
Proof.
  intros Hv y i k I Hi. unfold tcp_connect. destruct (connect_keeps source addr Hv y i k I Hi) as (r & k' & n' & Hr & I').
  pose proof (frames_connect source addr _ _ _ _ _ Hr) as Hf. rewrite Hr. destruct r as [u|e]; [|by split].
  apply update_state_new in Hr. cbn [fst] in *. destruct (ts_nonblock k'); [by split|].
  pose proof (block_on_keeps _ connect_wait polls (mkNS (<[i := k']> (ns_socks y)) n') i k' connect_wait_keeps_if
    frames_connect_wait I' ltac:(apply lookup_insert_eq) Hr) as H. cbn [ns_net ns_socks] in H.
  destruct (block_on connect_wait polls (k', n')) as [[[r2 [k2 n2]]|]|]; [|done|done]. rewrite insert_insert_eq in H.
  destruct H as [I2 Hf2]. split; [done|]. by transitivity n'.
Qed.
Lemma tcp_shutdown_TK evs : TK (now (tcp_shutdown evs)).
Proof.
  intros y i k I Hi. destruct (shutdown_keeps' evs y i k I Hi) as (k' & n' & Hr & I' & _). unfold now. rewrite Hr.
  split; [done|]. by apply (shutdown_frame _ _ _ _ _ _ _ I Hi Hr).
Qed.

(** [accept], with the new socket under a free number. *)
Definition accept_post (y : NetSys) (j : nat) (k : TcpSocket) (p : Z)
    (r : option (outcome (result TcpSocket AxError * (TcpSocket * NetSt)))) : Prop :=
  match r with
  | None => True
  | Some Panic => exists evs, reset_first (poll_sys evs y) p
  | Some (Ret (Ok k', (k0, n'))) => k0 = k /\ net_inv (mkNS (<[j := k']> (ns_socks y)) n') /\ udp_frame (ns_net y) n'
                                    /\ ts_state k' = S_CONNECTED
  | Some (Ret (Err _, (k0, n'))) => k0 = k /\ net_inv (mkNS (ns_socks y) n') /\ udp_frame (ns_net y) n'
  end.
Lemma accept_pass_sock p k n r k' n' : accept_pass p (k, n) = Ret (r, (k', n')) ->
  k' = k /\ match r with Ok s => ts_state s = S_CONNECTED | Err _ => True end.
Proof.
  unfold accept_pass, net. unfold_M. cbn [fst snd]. destruct (lt_accept p n) as [[[x|e] n1]|]; [| |done]; intros; by simplify_eq.
Qed.
Lemma accept_block polls y i j k p :
  net_inv y -> ns_socks y !! i = Some k -> ns_socks y !! j = None ->
  accept_post y j k p (block_on (accept_pass p) polls (k, ns_net y)).
Proof.
  intros I Hi Hj. unfold block_on. cbn [fst].
  assert (Hpass : forall evs y, net_inv y -> ns_socks y !! i = Some k -> ns_socks y !! j = None ->
    accept_post y j k p (Some (block_pass (accept_pass p) evs (k, ns_net y)))).
  { intros evs y0 I0 Hi0 Hj0. pose proof (accept_keeps y0 i j k p evs I0 Hi0 Hj0) as Ha. cbn zeta in Ha.
    assert (Hfr : frames (block_pass (accept_pass p) evs)) by (frames_tac).
    unfold accept_post. destruct (block_pass (accept_pass p) evs (k, ns_net y0)) as [[r [k0 n']]|] eqn:E; [|by exists evs].
    destruct (accept_pass_sock p k _ _ _ _ E) as [-> Hs]. apply Hfr in E.
    destruct r; (split; [done|]); [split; [done|]; by split|by split]. }
  destruct (ts_nonblock k).
  { specialize (Hpass [] y I Hi Hj). exact Hpass. }
  revert y I Hi Hj. induction polls as [|evs polls IH]; intros y I Hi Hj; cbn [block_loop]; [done|].
  specialize (Hpass evs y I Hi Hj). destruct (block_pass (accept_pass p) evs (k, ns_net y)) as [[[s|e] [k0 n']]|] eqn:E; [done| |done].
  destruct (decide (e = WouldBlock)) as [->|Hne]; [|destruct e; done].
  destruct Hpass as (-> & I' & Hf). specialize (IH (mkNS (ns_socks y) n') I' Hi Hj). cbn [ns_net] in IH.
  assert (Hn : n' = poll_interfaces evs (ns_net y)).
  { unfold block_pass, accept_pass, net, lt_accept in E. revert E. unfold_M. cbn [fst snd].
    repeat case_match; intros; by simplify_eq. }
  unfold accept_post in *. destruct (block_loop _ _ _) as [[[[s|e] [k0 n2]]|]|]; [| | |done].
  - destruct IH as (-> & I2 & Hf2 & Hs). split; [done|]. split; [done|]. split; [by transitivity n'|done].
  - destruct IH as (-> & I2 & Hf2). split; [done|]. split; [done|by transitivity n'].
  - destruct IH as [evs' Hr]. exists (evs ++ evs'). rewrite <- poll_sys_app. subst n'. exact Hr.
Qed.

(** * Whole calls on a UDP socket *)

Definition UK {A} (m : UdpSt -> option (outcome (result A AxError * UdpSt))) : Prop := forall st,
  udp_sock_ok (ut_net st) (ut_sock st) -> in_range (ut_curr st) ->
  match m st with None => True | Some Panic => False | Some (Ret (_, st')) => udp_post st st' end.

Lemma udp_post_trans st1 st2 st3 : udp_post st1 st2 -> udp_post st2 st3 -> udp_post st1 st3.
Proof.
  intros (Hh1 & _ & _ & Ho1) (Hh2 & Hc & Hok & Ho2). split; [congruence|]. split; [done|]. split; [done|].
  rewrite Hh1 in Ho2. by etransitivity.
Qed.
Lemma UK_now {A} (m : UdpM A) : udp_keeps m -> UK (now m).
Proof. intros Hm st Hok Hc. destruct (Hm st Hok Hc) as (r & st' & Hr & Hp). unfold now. by rewrite Hr. Qed.
Lemma UK_pure {A} (f : UdpSt -> result A AxError) : UK (pure_of f).
Proof. intros st Hok Hc. cbn. split; [done|]. split; [done|]. by split. Qed.
(** The wait of a blocking call, by its passes; without a poll a call is a pass with no events. *)
Lemma UK_block {A} (f : UdpM A) polls : (forall evs, udp_keeps (udp_pass f evs)) -> UK (udp_block_on f polls).
Proof.
  intros Hf st Hok Hc. unfold udp_block_on. destruct (uk_nonblock (ut_sock st)).
  { destruct (Hf [] st Hok Hc) as (r & st' & Hr & Hp). rewrite udp_pass_eq in Hr. cbn [poll_interfaces fold_left] in Hr.
    destruct st as [k n c]. cbn [ut_sock ut_net ut_curr] in Hr. by rewrite Hr. }
  revert st Hok Hc. induction polls as [|evs polls IH]; intros st Hok Hc; cbn [udp_block_loop]; [done|].
  destruct (Hf evs st Hok Hc) as (r & st' & -> & Hp). destruct r as [a|e]; [done|].
  destruct (decide (e = WouldBlock)) as [->|]; [|by destruct e]. pose proof Hp as (_ & Hc' & Hok' & _).
  specialize (IH st' Hok' Hc'). destruct (udp_block_loop f polls st') as [[[r2 st2]|]|]; [|done|done].
  by apply (udp_post_trans _ st').
Qed.
Lemma UK_if_bound {A} (m : UdpSt -> option (outcome (result A AxError * UdpSt))) : UK m -> UK (if_bound m).
Proof.
  intros Hm st Hok Hc. unfold if_bound. destruct (uk_local (ut_sock st)); [by apply Hm|].
  split; [done|]. split; [done|]. by split.
Qed.
Lemma UK_send data remote polls : UK (send_impl data remote polls).
Proof. apply UK_if_bound, UK_block. intros evs. apply send_keeps_ok. Qed.
Lemma UK_send_to data a polls : v4 a -> UK (udp_send_to data a polls).
Proof.
  intros [ip Hip] st Hok Hc. unfold udp_send_to, from_core_sockaddr. rewrite Hip.
  destruct (_ || _); [|by apply UK_send]. split; [done|]. split; [done|]. by split.
Qed.
Lemma UK_udp_send data polls : UK (udp_send data polls).
Proof.
  intros st Hok Hc. unfold udp_send. destruct (uk_peer (ut_sock st)); [by apply UK_send|].
  split; [done|]. split; [done|]. by split.
Qed.
Lemma UK_recv_from len polls : UK (udp_recv_from len polls).
Proof. apply UK_if_bound, UK_block. intros evs. apply recv_pass_keeps, recv_from_op_ok. Qed.

(** * The invariant of the descriptors and the sockets *)

Definition sock_live (y : InetSys) (s : Socket) : Prop :=
  match s with STcp i => is_Some (ns_socks (is_tcp y) !! i) | SUdp i => is_Some (is_udp y !! i) end.
Definition has_fd (t : FlattenObjects SockObj) (s : Socket) : Prop := exists id, 0 <= id /\ fo_get t id = Some (FSock s).

(** A socket exists exactly as long as a descriptor refers to it; [extra] is a socket
    that has no descriptor yet, or no longer. *)
Record p_inv_but (extra : option Socket) (st : PSt) : Prop := {
  pi_inet : inet_inv (p_inet st);
  pi_fd : fo_wf (p_fd st);
  pi_live : forall s, sock_live (p_inet st) s <-> Some s = extra \/ has_fd (p_fd st) s;
  pi_extra : forall s, Some s = extra -> ~ has_fd (p_fd st) s;
}.
Abbreviation p_inv := (p_inv_but None).
Definition p_init : PSt := mkP fo_new inet_init (fun _ => 0).

(** [m] runs from [st]: it may wait; it panics only if [R]; it keeps the invariant, and its
    result satisfies [Q]. *)
Definition wp {A} (R : Prop) (m : WM A) (Q : A -> PSt -> Prop) (st : PSt) : Prop :=
  match m st with
  | None => True
  | Some Panic => R
  | Some (Ret (Ok a, st')) => Q a st'
  | Some (Ret (Err _, st')) => p_inv st'
  end.
Lemma wp_bind {A B} R (m : WM A) (f : A -> WM B) Q st : wp R m (fun a st' => wp R (f a) Q st') st -> wp R (a ← m; f a) Q st.
Proof. unfold wp. unfold mbind, WM_mbind, W_bind. by destruct (m st) as [[[[a|e] st']|]|]. Qed.
Lemma wp_ret {A} R (a : A) (Q : A -> PSt -> Prop) st : Q a st -> wp R (mret a) Q st.
Proof. done. Qed.
Lemma wp_fail {A} R e (Q : A -> PSt -> Prop) st : p_inv st -> wp R (fail e) Q st.
Proof. done. Qed.
Lemma wp_check R b e Q st : p_inv st -> (b = true -> Q tt st) -> wp R (check b e) Q st.
Proof. intros I HQ. unfold check. destruct b; [by apply HQ|done]. Qed.
Lemma wp_mono {A} R (m : WM A) (Q Q' : A -> PSt -> Prop) st :
  wp R m Q st -> (forall a st', Q a st' -> Q' a st') -> wp R m Q' st.
Proof. unfold wp. destruct (m st) as [[[[a|e] st']|]|]; auto. Qed.
Lemma p_inv_mem extra m st : p_inv_but extra st -> p_inv_but extra (set_mem m st).
Proof. by intros [? ? ? ?]. Qed.

(** The sockets change but stay the same ones. *)
Lemma p_inv_inet extra y st :
  p_inv_but extra st -> inet_inv y -> (forall s, sock_live y s <-> sock_live (p_inet st) s) -> p_inv_but extra (set_inet y st).
Proof. intros [Ii If Il Ie] Iy Hl. split; cbn; try done. intros s. by rewrite Hl. Qed.

Lemma insert_live {K} (m : gmap nat K) i k k' j : m !! i = Some k -> is_Some (<[i := k']> m !! j) <-> is_Some (m !! j).
Proof.
  intros Hi. destruct (decide (j = i)) as [->|]; [|by rewrite lookup_insert_ne].
  rewrite lookup_insert_eq, Hi. split; by eexists.
Qed.
Lemma wp_tcp_call {A} R i (m : TcpSocket * NetSt -> option (outcome (result A AxError * (TcpSocket * NetSt)))) st :
  p_inv st -> sock_live (p_inet st) (STcp i) -> TK m ->
  wp R (tcp_call i m) (fun _ st' => p_inv st') st.
Proof.
  intros Ip [k Hk] Hm. unfold wp, tcp_call. rewrite Hk. specialize (Hm _ i k (ii_tcp _ (pi_inet _ _ Ip)) Hk).
  destruct (m _) as [[[r [k' n']]|]|]; [|done|done]. destruct Hm as [I' Hf].
  assert (H : p_inv (set_inet (mkIS (mkNS (<[i := k']> (ns_socks (is_tcp (p_inet st)))) n') (is_udp (p_inet st)) (is_curr (p_inet st))) st)).
  { apply p_inv_inet; [done|by apply inet_frame; [apply Ip|..]|]. intros [j|j]; cbn; [done|by eapply insert_live]. }
  by destruct r.
Qed.
Lemma wp_udp_call {A} R i (m : UdpSt -> option (outcome (result A AxError * UdpSt))) st :
  p_inv st -> sock_live (p_inet st) (SUdp i) -> UK m ->
  wp R (udp_call i m) (fun _ st' => p_inv st') st.
Proof.
  intros Ip [k Hk] Hm. pose proof (pi_inet _ _ Ip) as I. unfold wp, udp_call. rewrite Hk.
  specialize (Hm (mkUSt k (ns_net (is_tcp (p_inet st))) (is_curr (p_inet st))) (ii_udp _ I i k Hk) (ii_curr _ I)).
  destruct (m _) as [[[r u]|]|]; [|done|done]. apply (udp_post_inv _ i k _ I Hk) in Hm.
  assert (H : p_inv (set_inet (mkIS (mkNS (ns_socks (is_tcp (p_inet st))) (ut_net u)) (<[i := ut_sock u]> (is_udp (p_inet st))) (ut_curr u)) st)).
  { apply p_inv_inet; [done|done|]. intros [j|j]; cbn; [by eapply insert_live|done]. }
  by destruct r.
Qed.

(** * Descriptors of sockets *)

Lemma set_fd_id st : set_fd (p_fd st) st = st.
Proof. by destruct st. Qed.
Lemma wp_from_fd R fd st : p_inv st -> wp R (from_fd fd) (fun s st' => st' = st /\ sock_live (p_inet st) s) st.
Proof.
  intros Ip. unfold from_fd. apply wp_bind. unfold wp, on_fds, get_file_like.
  destruct (fo_get (p_fd st) (fd_usize fd)) as [f|] eqn:Hf; rewrite set_fd_id; [|done].
  destruct f as [s|]; [|done]. split; [done|]. apply (pi_live _ _ Ip). right. exists (fd_usize fd). split; [|done].
  unfold fd_usize, wrap. lia.
Qed.

(** A new socket of either kind. *)
Lemma p_inv_add s y st :
  p_inv st -> inet_inv y -> ~ sock_live (p_inet st) s -> (forall s', sock_live y s' <-> s' = s \/ sock_live (p_inet st) s') ->
  p_inv_but (Some s) (set_inet y st).
Proof.
  intros [Ii If Il Ie] Iy Hn Hl. split; cbn; try done.
  - intros s'. rewrite Hl, Il. naive_solver.
  - intros s' [= ->] Hf. apply Hn, Il. by right.
Qed.
Lemma insert_new {K} (m : gmap nat K) i k j : is_Some (<[i := k]> m !! j) <-> j = i \/ is_Some (m !! j).
Proof.
  destruct (decide (j = i)) as [->|]; [rewrite lookup_insert_eq|rewrite lookup_insert_ne by done]; naive_solver.
Qed.
Lemma fresh_none {K} (m : gmap nat K) : m !! fresh (dom m : gset nat) = None.
Proof. apply not_elem_of_dom. apply is_fresh. Qed.
Lemma p_inv_new_tcp st i k y :
  p_inv st -> net_inv (mkNS (<[i := k]> (ns_socks (is_tcp (p_inet st)))) (ns_net y)) ->
  ns_socks (is_tcp (p_inet st)) !! i = None -> udp_frame (ns_net (is_tcp (p_inet st))) (ns_net y) ->
  p_inv_but (Some (STcp i)) (set_inet (mkIS (mkNS (<[i := k]> (ns_socks (is_tcp (p_inet st)))) (ns_net y))
    (is_udp (p_inet st)) (is_curr (p_inet st))) st).
Proof.
  intros Ip I Hi Hf. apply p_inv_add; [done|by apply inet_frame; [apply Ip|..]|by cbn; rewrite Hi; intros []|].
  intros [j|j]; cbn; [naive_solver|]. rewrite insert_new. naive_solver.
Qed.
Lemma wp_new_tcp R st : p_inv st -> wp R (new_tcp tcp_new) (fun s st' => p_inv_but (Some s) st') st.
Proof.
  intros Ip. unfold wp, new_tcp. set (i := fresh _).
  pose proof (fresh_none (ns_socks (is_tcp (p_inet st)))) as Hi. fold i in Hi. apply p_inv_new_tcp; [done| |done|done].
  pose proof (net_step_keeps (fun _ => None) (CNew i) _ (ii_tcp _ (pi_inet _ _ Ip)) Logic.I) as H. cbn [net_step] in H.
  by rewrite Hi in H.
Qed.
Lemma wp_new_udp R st : p_inv st -> wp R new_udp (fun s st' => p_inv_but (Some s) st') st.
Proof.
  intros Ip. unfold wp, new_udp. set (i := fresh _).
  pose proof (fresh_none (is_udp (p_inet st))) as Hi. fold i in Hi.
  pose proof (udp_new_keeps i _ (pi_inet _ _ Ip) Hi) as I. destruct (udp_new _) as [k n].
  apply p_inv_add; [done|done|by cbn; rewrite Hi; intros []|]. intros [j|j]; cbn; [|naive_solver]. rewrite insert_new. naive_solver.
Qed.

(** A socket without a descriptor is dropped. *)
Lemma p_inv_del s y st :
  p_inv_but (Some s) st -> inet_inv y -> (forall s', sock_live y s' <-> s' <> s /\ sock_live (p_inet st) s') ->
  p_inv (set_inet y st).
Proof.
  intros [Ii If Il Ie] Iy Hl. split; cbn; try done. intros s'. rewrite Hl, Il. split; [naive_solver|].
  intros [|Hf]; [done|]. split; [|by right]. intros ->. by apply (Ie s).
Qed.
Lemma delete_live {K} (m : gmap nat K) i j : is_Some (delete i m !! j) <-> j <> i /\ is_Some (m !! j).
Proof.
  destruct (decide (j = i)) as [->|Hne].
  - rewrite lookup_delete_eq. split; [by intros []|by intros [? _]].
  - rewrite lookup_delete_ne by done. naive_solver.
Qed.
Lemma wp_drop R s evs st : p_inv_but (Some s) st -> wp R (sock_drop s evs) (fun _ st' => p_inv st') st.
Proof.
  intros Ip. pose proof (pi_inet _ _ Ip) as I. unfold wp, sock_drop.
  assert (Hl : sock_live (p_inet st) s) by (apply (pi_live _ _ Ip); by left). destruct s as [i|i]; destruct Hl as [k Hk].
  - rewrite Hk. destruct (udp_drop_keeps evs i k _ I Hk) as (n & -> & I'). apply (p_inv_del (SUdp i)); [done|done|].
    intros [j|j]; cbn; [rewrite delete_live|]; naive_solver.
  - rewrite Hk. destruct (drop_keeps evs _ i k (ii_tcp _ I) Hk) as (n & Hr & I').
    pose proof (drop_frame _ _ _ _ _ (ii_tcp _ I) Hk Hr) as Hf. rewrite Hr.
    apply (p_inv_del (STcp i)); [done|by apply inet_frame|]. intros [j|j]; cbn; [|rewrite delete_live]; naive_solver.
Qed.
Lemma wp_add_to_fd R s evs st : p_inv_but (Some s) st -> wp R (sock_add_to_fd_table s evs) (fun _ st' => p_inv st') st.
Proof.
  intros Ip. unfold sock_add_to_fd_table, wp, on_fds.
  destruct (add_file_like_spec (FSock s) (p_fd st) (pi_fd _ _ Ip)) as [(fd & t' & -> & Hfd & Hwf & Hn & _ & Hg)|[-> _]].
  - destruct Ip as [Ii If Il Ie]. split; cbn; try done. intros s'. rewrite Il. split.
    + intros [[= ->]|(id & Hid & Hf)]; right.
      * exists fd. split; [lia|]. rewrite Hg by lia. by rewrite Z.eqb_refl.
      * exists id. split; [done|]. rewrite Hg by done. destruct (Z.eqb_spec id fd); [congruence|done].
    + intros [|(id & Hid & Hf)]; [done|]. rewrite Hg in Hf by done. destruct (Z.eqb_spec id fd).
      * left. congruence.
      * right. by exists id.
  - rewrite set_fd_id. apply (wp_bind R (sock_drop s evs) (fun _ => fail EMFILE) (fun _ st' => p_inv st')).
    eapply wp_mono; [by apply wp_drop|]. intros ? st' I'. by apply wp_fail.
Qed.

(** * The calls keep the invariant *)

(** The connection that [accept] takes, after some packets, has been reset. *)
Definition accept_resets (fd : Z) (st : PSt) : Prop :=
  exists i k evs, fo_get (p_fd st) (fd_usize fd) = Some (FSock (STcp i))
    /\ ns_socks (is_tcp (p_inet st)) !! i = Some k
    /\ reset_first (poll_sys evs (is_tcp (p_inet st))) (ep_port (ts_local k)).

Lemma wp_accept_new {B} (R : Prop) i k polls (f : TcpSocket -> Socket -> WM B) Q st :
  p_inv st -> ns_socks (is_tcp (p_inet st)) !! i = Some k ->
  ((exists evs, reset_first (poll_sys evs (is_tcp (p_inet st))) (ep_port (ts_local k))) -> R) ->
  (forall s k' st', p_inv_but (Some s) st' -> ts_state k' = S_CONNECTED -> wp R (f k' s) Q st') ->
  wp R (k' ← sock_accept (STcp i) polls; s ← new_tcp k'; f k' s) Q st.
Proof.
  intros Ip Hi HR Hf. pose proof (ii_tcp _ (pi_inet _ _ Ip)) as I. apply wp_bind. unfold wp at 1, sock_accept, tcp_call. rewrite Hi.
  assert (Hid : forall n, mkNS (<[i := k]> (ns_socks (is_tcp (p_inet st)))) n = mkNS (ns_socks (is_tcp (p_inet st))) n)
    by (intros n; by rewrite insert_id).
  set (j := fresh (dom (ns_socks (is_tcp (p_inet st))) : gset nat)).
  pose proof (fresh_none (ns_socks (is_tcp (p_inet st))) : _ !! j = None) as Hj.
  unfold tcp_accept. cbn [fst]. case_bool_decide as Hs.
  2:{ cbn. rewrite Hid. by destruct st as [? [[] ? ?] ?]. }
  pose proof (accept_block polls _ i j k (ep_port (ts_local k)) I Hi Hj) as Ha. unfold accept_post in Ha.
  destruct (block_on _ _ _) as [[[[k'|e] [k0 n']]|]|]; [| |by apply HR|done]; cbn [ax_result]; destruct Ha as (-> & Ha); rewrite Hid.
  - destruct Ha as (I' & Hfr & Hst). apply wp_bind. unfold wp at 1, new_tcp. cbn [p_inet set_inet is_tcp ns_socks ns_net is_udp is_curr].
    fold j. apply Hf; [|done]. apply (p_inv_new_tcp st j k' (mkNS ∅ n')); done.
  - destruct Ha as [I' Hfr]. apply p_inv_inet; [done|by apply inet_frame; [apply Ip|..]|]. by intros [|].
Qed.

(** Storing an address. *)
Lemma wp_store R a addr len (Q : unit -> PSt -> Prop) st :
  v4 a -> (forall m, Q tt (set_mem m st)) -> wp R (store_sockaddr addr len a) Q st.
Proof.
  intros [ip Hip] HQ. unfold store_sockaddr, into_sockaddr. rewrite Hip. unfold wp, mbind, WM_mbind, W_bind, write_mem.
  cbn. apply HQ.
Qed.
Lemma wp_load R addr len st : p_inv st -> wp R (load_sockaddr addr len) (fun a st' => st' = st /\ v4 a) st.
Proof.
  intros Ip. unfold wp, load_sockaddr, from_sockaddr. destruct (_ =? 0); [done|]. destruct (negb _); [done|].
  cbn zeta. destruct (negb _); [done|]. split; [done|]. by eexists.
Qed.

(** The results that are addresses. *)
Lemma udp_recv_from_v4 len polls st r st' : udp_recv_from len polls st = Some (Ret (Ok r, st')) -> v4 r.2.
Proof.
  assert (Hop : forall st r st', udp_recv_pass (recv_from_op len) st = Ret (Ok r, st') -> v4 r.2).
  { intros st0 r0 st0'. unfold udp_recv_pass, with_udp, recv_from_op. repeat case_match; intros; simplify_eq. by eexists. }
  unfold udp_recv_from, recv_impl, if_bound, udp_block_on. destruct (uk_local _); [|done]. destruct (uk_nonblock _).
  { intros [= Hr]. by eapply Hop. }
  revert st. induction polls as [|evs polls IH]; intros st; cbn [udp_block_loop]; [done|]. rewrite udp_pass_eq.
  destruct (udp_recv_pass _ _) as [[[x|e] st1]|] eqn:E; [intros; simplify_eq; by eapply Hop| |done].
  destruct e; try done. apply IH.
Qed.
Lemma local_addr_v4 k a : local_addr k = Ok a -> v4 a.
Proof. unfold local_addr. destruct (ts_state k); intros; simplify_eq; by eexists. Qed.
Lemma peer_addr_v4 k a : peer_addr k = Ok a -> v4 a.
Proof. unfold peer_addr. destruct (ts_state k); intros; simplify_eq; by eexists. Qed.

(** A call on a socket whose results satisfy [P]. *)
Lemma wp_result {A} R (m : WM A) (P : A -> Prop) st :
  wp R m (fun _ st' => p_inv st') st -> (forall a st', m st = Some (Ret (Ok a, st')) -> P a) ->
  wp R m (fun a st' => p_inv st' /\ P a) st.
Proof. unfold wp. intros Hw Hp. destruct (m st) as [[[[a|e] st']|]|]; [|done..]. split; [done|by eapply Hp]. Qed.
Lemma tcp_call_ok {A} i (m : TcpSocket * NetSt -> option (outcome (result A AxError * (TcpSocket * NetSt)))) st a st' :
  tcp_call i m st = Some (Ret (Ok a, st')) -> exists x x', m x = Some (Ret (Ok a, x')).
Proof.
  unfold tcp_call. destruct (_ !! i); [|done]. destruct (m _) as [[[[] [? ?]]|]|] eqn:E; intros; simplify_eq. eauto.
Qed.
Lemma udp_call_ok {A} i (m : UdpSt -> option (outcome (result A AxError * UdpSt))) st a st' :
  udp_call i m st = Some (Ret (Ok a, st')) -> exists x x', m x = Some (Ret (Ok a, x')).
Proof.
  unfold udp_call. destruct (_ !! i); [|done]. destruct (m _) as [[[[] ?]|]|] eqn:E; intros; simplify_eq. eauto.
Qed.

Create HintDb calls.
#[export] Hint Resolve TK_pure UK_pure tcp_recv_TK tcp_send_TK tcp_shutdown_TK UK_udp_send UK_recv_from UK_send_to tcp_connect_TK : calls.
Lemma wp_local_addr R s st :
  p_inv st -> sock_live (p_inet st) s -> wp R (sock_local_addr s) (fun a st' => p_inv st' /\ v4 a) st.
Proof.
  intros Ip Hl. apply wp_result.
  - destruct s; [apply wp_udp_call|apply wp_tcp_call]; auto with calls.
  - intros a st' H. destruct s; [apply udp_call_ok in H|apply tcp_call_ok in H]; destruct H as (x & x' & H); unfold pure_of in H.
    + injection H as H _. unfold udp_local_addr in H. case_match; simplify_eq. by eexists.
    + injection H as H _. by eapply local_addr_v4.
Qed.
Lemma wp_peer_addr R s st :
  p_inv st -> sock_live (p_inet st) s -> wp R (sock_peer_addr s) (fun a st' => p_inv st' /\ v4 a) st.
Proof.
  intros Ip Hl. apply wp_result.
  - destruct s; [apply wp_udp_call|apply wp_tcp_call]; auto with calls.
  - intros a st' H. destruct s; [apply udp_call_ok in H|apply tcp_call_ok in H]; destruct H as (x & x' & H); unfold pure_of in H.
    + injection H as H _. unfold udp_peer_addr in H. case_match; simplify_eq. by eexists.
    + injection H as H _. by eapply peer_addr_v4.
Qed.

Abbreviation wok R m st := (wp R m (fun _ st' => p_inv st') st).

(** An operation on the socket of a descriptor. *)
Lemma wp_on_fd {A} R fd (f : Socket -> WM A) st :
  p_inv st -> (forall s, sock_live (p_inet st) s -> wok R (f s) st) -> wok R (s ← from_fd fd; f s) st.
Proof. intros Ip Hf. apply wp_bind. eapply wp_mono; [by apply wp_from_fd|]. intros s st' [-> Hl]. by apply Hf. Qed.
Lemma wp_then {A B} R (m : WM A) (b : B) st : wok R m st -> wok R (_ ← m; mret b) st.
Proof. intros Hm. apply wp_bind. eapply wp_mono; [done|]. intros a st' I'. by apply wp_ret. Qed.

Lemma wp_sock_bind R s a st : p_inv st -> sock_live (p_inet st) s -> v4 a -> wok R (sock_bind s a) st.
Proof.
  intros Ip Hl Hv. destruct s; [apply wp_udp_call|apply wp_tcp_call]; try done.
  - by apply UK_now, udp_bind_keeps.
  - apply TK_now; [by apply bind_keeps|apply frames_tcp_bind].
Qed.
Lemma wp_sock_connect source R s a polls st :
  p_inv st -> sock_live (p_inet st) s -> v4 a -> wok R (sock_connect source s a polls) st.
Proof.
  intros Ip Hl Hv. destruct s; [apply wp_udp_call|apply wp_tcp_call]; try done.
  - by apply UK_now, udp_connect_keeps.
  - by apply tcp_connect_TK.
Qed.
Lemma wp_sock_listen R s st : p_inv st -> sock_live (p_inet st) s -> wok R (sock_listen s) st.
Proof.
  intros Ip Hl. destruct s; [by apply wp_fail|apply wp_tcp_call; try done]. apply TK_now; [apply listen_keeps|apply frames_tcp_listen].
Qed.
Lemma wp_sock_poll R s st : p_inv st -> sock_live (p_inet st) s -> wok R (sock_poll s) st.
Proof.
  intros Ip Hl. destruct s; [apply wp_udp_call|apply wp_tcp_call]; try done.
  - apply UK_now, poll_udp_keeps.
  - apply TK_now; [apply poll_keeps|apply frames_tcp_poll].
Qed.
Lemma wp_sock_nonblock R s b st : p_inv st -> sock_live (p_inet st) s -> wok R (sock_set_nonblocking s b) st.
Proof.
  intros Ip Hl. destruct s; [apply wp_udp_call|apply wp_tcp_call]; try done.
  apply TK_now; [|apply frames_mod]. intros y j k I Hi. do 3 eexists. split; [done|].
  apply (inv_sock_same y j k); try done. exact (inv_state y I j k Hi).
Qed.
Lemma wp_sock_shutdown R s evs st : p_inv st -> sock_live (p_inet st) s -> wok R (sock_shutdown s evs) st.
Proof.
  intros Ip Hl. apply wp_bind. assert (Hst : forall a st', sock_peer_addr s st = Some (Ret (Ok a, st')) -> sock_live (p_inet st') s).
  { intros a st'. destruct s as [i|i]; cbn [sock_peer_addr]; unfold udp_call, tcp_call, pure_of.
    - destruct (is_udp (p_inet st) !! i) as [k|] eqn:Hk; [|done]. intros [= _ <-]. cbn. by rewrite lookup_insert_eq.
    - destruct (ns_socks _ !! i) as [k|] eqn:Hk; [|done]. intros [= _ <-]. cbn. by rewrite lookup_insert_eq. }
  pose proof (wp_peer_addr R s st Ip Hl) as Hw. unfold wp in Hw |- *. destruct (sock_peer_addr s st) as [[[[a|e] st']|]|]; [|done..].
  destruct Hw as [I' _]. specialize (Hst a st' eq_refl). destruct s; [apply wp_udp_call|apply wp_tcp_call]; try done.
  - apply UK_now, shutdown_udp_keeps.
  - apply tcp_shutdown_TK.
Qed.
Lemma wp_sock_send R s data polls st : p_inv st -> sock_live (p_inet st) s -> wok R (sock_send s data polls) st.
Proof. intros Ip Hl. destruct s; [apply wp_udp_call|apply wp_tcp_call]; auto with calls. Qed.
Lemma wp_sock_sendto R s data a polls st : p_inv st -> sock_live (p_inet st) s -> v4 a -> wok R (sock_sendto s data a polls) st.
Proof. intros Ip Hl Hv. destruct s; [apply wp_udp_call; auto with calls|by apply wp_fail]. Qed.
Lemma wp_sock_recv R s len polls st : p_inv st -> sock_live (p_inet st) s -> wok R (sock_recv s len polls) st.
Proof.
  intros Ip Hl. destruct s; [|apply wp_tcp_call; auto with calls]. apply wp_bind. eapply wp_mono; [apply wp_udp_call; auto with calls|].
  intros a st' I'. by apply wp_ret.
Qed.
Lemma wp_sock_recvfrom R s len polls st :
  p_inv st -> sock_live (p_inet st) s ->
  wp R (sock_recvfrom s len polls) (fun r st' => p_inv st' /\ match r.2 with Some a => v4 a | None => True end) st.
Proof.
  intros Ip Hl. destruct s as [i|i]; apply wp_bind.
  - eapply wp_mono; [apply (wp_result R _ (fun r => v4 r.2)); [apply wp_udp_call; auto with calls|]|].
    + intros a st' H. apply udp_call_ok in H as (x & x' & H). by eapply udp_recv_from_v4.
    + intros r st' [I' Hv]. by apply wp_ret.
  - eapply wp_mono; [apply wp_tcp_call; auto with calls|]. intros r st' I'. by apply wp_ret.
Qed.

(** * Sequences of calls *)

Inductive p_call :=
| PSocket (domain socktype protocol : Z) (evs : list NetEvent)
| PBind (fd addr addrlen : Z)
| PConnect (fd addr addrlen : Z) (polls : polls_t)
| PSendto (fd buf len addr addrlen : Z) (polls : polls_t)
| PSend (fd buf len : Z) (polls : polls_t)
| PRecvfrom (fd buf len addr addrlen : Z) (polls : polls_t)
| PRecv (fd buf len : Z) (polls : polls_t)
| PListen (fd backlog : Z)
| PAccept (fd addr len : Z) (polls : polls_t) (evs : list NetEvent)
| PShutdown (fd flag : Z) (evs : list NetEvent)
| PGetsockname (fd addr addrlen : Z)
| PGetpeername (fd addr addrlen : Z)
| PClose (fd : Z) (evs : list NetEvent)
| PDup (fd : Z)
| PSetfl (fd arg : Z).

Definition p_step (source : Z -> option Z) (c : p_call) : PSt -> option (outcome (Z * PSt)) :=
  match c with
  | PSocket d t p evs => sys_socket d t p evs
  | PBind fd addr len => sys_bind fd addr len
  | PConnect fd addr len polls => sys_connect source fd addr len polls
  | PSendto fd buf n addr len polls => sys_sendto fd buf n addr len polls
  | PSend fd buf n polls => sys_send fd buf n polls
  | PRecvfrom fd buf n addr len polls => sys_recvfrom fd buf n addr len polls
  | PRecv fd buf n polls => sys_recv fd buf n polls
  | PListen fd b => sys_listen fd b
  | PAccept fd addr len polls evs => sys_accept fd addr len polls evs
  | PShutdown fd flag evs => sys_shutdown fd flag evs
  | PGetsockname fd addr len => sys_getsockname fd addr len
  | PGetpeername fd addr len => sys_getpeername fd addr len
  | PClose fd evs => sys_close_sock fd evs
  | PDup fd => sys_dup_sock fd
  | PSetfl fd arg => sys_setfl_sock fd arg
  end.
(** The values of the calls of a program; it stops at a call that still waits. *)
Fixpoint p_steps (source : Z -> option Z) (cs : list p_call) (st : PSt) : outcome (list Z * PSt) :=
  match cs with
  | [] => Ret ([], st)
  | c :: cs' =>
      match p_step source c st with
      | None => Ret ([], st)
      | Some Panic => Panic
      | Some (Ret (v, st')) =>
          match p_steps source cs' st' with Ret (vs, st2) => Ret (v :: vs, st2) | Panic => Panic end
      end
  end.

Definition panics (c : p_call) (st : PSt) : Prop :=
  match c with PAccept fd _ _ _ _ => accept_resets fd st | _ => False end.
Lemma wsyscall_wp cast (R : Prop) body st :
  wok R body st -> match wsyscall cast body st with None => True | Some Panic => R | Some (Ret (_, st')) => p_inv st' end.
Proof. unfold wp, wsyscall. by destruct (body st) as [[[[a|e] st']|]|]. Qed.

Lemma accept_ok fd addr len polls evs st : p_inv st -> wok (accept_resets fd st) (sys_accept_body fd addr len polls evs) st.
Proof.
  intros Ip. apply wp_bind, wp_check; [done|intros _]. unfold from_fd. apply wp_bind, wp_bind. unfold wp at 1, on_fds, get_file_like.
  destruct (fo_get (p_fd st) (fd_usize fd)) as [f|] eqn:Hf; rewrite set_fd_id; [|done]. destruct f as [s|]; [|done].
  apply wp_ret. assert (Hl : sock_live (p_inet st) s).
  { apply (pi_live _ _ Ip). right. exists (fd_usize fd). split; [unfold fd_usize, wrap; lia|done]. }
  destruct s as [i|i]; [apply wp_bind; by apply wp_fail|]. destruct Hl as [k Hk].
  apply (wp_accept_new _ i k); [done|done|intros [evs' Hr]; by exists i, k, evs'|].
  intros s' k' st' I' Hs. unfold peer_addr. rewrite Hs. cbn [ax_result]. apply wp_bind.
  eapply wp_mono; [by apply wp_add_to_fd|]. intros fd' st2 I2. apply wp_bind. apply wp_store; [by eexists|].
  intros m. by apply p_inv_mem.
Qed.

Lemma referenced_spec s t : fo_wf t -> referenced s t = true <-> has_fd t s.
Proof.
  intros Hwf. unfold referenced. rewrite existsb_exists. split.
  - intros (o & Hin & Ho). destruct o as [[s'|]|]; try done. apply bool_decide_eq_true in Ho as ->.
    apply list_elem_of_In, list_elem_of_lookup in Hin as [id Hid].
    assert (Hlt : (id < CAP)%nat) by (rewrite <- (proj1 Hwf); by eapply lookup_lt_Some).
    exists (Z.of_nat id). split; [lia|]. unfold fo_get. rewrite (proj2 (Z.ltb_lt _ _)) by lia. rewrite Nat2Z.id, Hid. done.
  - intros (id & Hid & Hg). pose proof (fo_get_range _ _ _ Hg).
    exists (Some (FSock s)). split; [|by apply bool_decide_eq_true].
    apply list_elem_of_In, list_elem_of_lookup. exists (Z.to_nat id). rewrite (fo_get_slot t id Hwf) by lia. by f_equal.
Qed.
Lemma close_ok R fd evs st : p_inv st -> wok R (close_body fd evs) st.
Proof.
  intros Ip. unfold wp, close_body. assert (Hid : 0 <= fd_usize fd) by (unfold fd_usize, wrap; lia).
  destruct (fo_get (p_fd st) (fd_usize fd)) as [f|] eqn:Hf.
  2:{ unfold fo_remove. by rewrite Hf. }
  destruct (fo_remove_spec _ _ _ (pi_fd _ _ Ip) Hid Hf) as (t & -> & Hwf & Hg).
  assert (Hfd : forall s, has_fd t s -> has_fd (p_fd st) s).
  { intros s (id & Hi & Hs). rewrite Hg in Hs by done. destruct (id =? fd_usize fd); [done|]. by exists id. }
  assert (Hfd' : forall s, has_fd (p_fd st) s -> FSock s = f \/ has_fd t s).
  { intros s (id & Hi & Hs). destruct (Z.eqb_spec id (fd_usize fd)) as [->|Hne]; [left; congruence|]. right. exists id.
    split; [done|]. rewrite Hg by done. by rewrite (proj2 (Z.eqb_neq _ _) Hne). }
  apply (wp_then R (match f with FSock s => if referenced s t then mret tt else sock_drop s evs | FOther => mret tt end) 0).
  destruct Ip as [Ii If Il Ie]. destruct f as [s|].
  2:{ apply wp_ret. split; cbn; try done. intros s. rewrite Il. split; [|naive_solver]. intros [|[|]%Hfd']; naive_solver. }
  destruct (referenced s t) eqn:Hr.
  - apply referenced_spec in Hr; [|done]. apply wp_ret. split; cbn; try done. intros s'. rewrite Il. split; [|naive_solver].
    intros [|[|]%Hfd']; naive_solver.
  - assert (Hn : ~ has_fd t s) by (intros Hs; apply referenced_spec in Hs; [congruence|done]).
    apply wp_drop. split; cbn; try done.
    + intros s'. rewrite Il. split; [intros [|[|]%Hfd']; naive_solver|]. intros [[= ->]|]; [|naive_solver]. right. by exists (fd_usize fd).
    + by intros s' [= ->].
Qed.
Lemma dup_ok R fd st : p_inv st -> wok R (on_fds (dup_fd fd)) st.
Proof.
  intros Ip. unfold wp, on_fds, dup_fd. unfold_M. unfold get_file_like.
  destruct (fo_get (p_fd st) (fd_usize fd)) as [f|] eqn:Hf; [|by rewrite set_fd_id].
  destruct (add_file_like_spec f (p_fd st) (pi_fd _ _ Ip)) as [(id & t' & -> & Hid & Hwf & Hn & _ & Hg)|[-> _]]; [|by rewrite set_fd_id].
  destruct Ip as [Ii If Il Ie]. split; cbn; try done. intros s. rewrite Il. split.
  - intros [|(j & Hj & Hs)]; [done|]. right. exists j. split; [done|]. rewrite Hg by done. destruct (Z.eqb_spec j id); [congruence|done].
  - intros [|(j & Hj & Hs)]; [done|]. right. rewrite Hg in Hs by done. destruct (Z.eqb_spec j id); [|by exists j].
    exists (fd_usize fd). split; [unfold fd_usize, wrap; lia|congruence].
Qed.

Lemma name_ok R f fd addr len st :
  p_inv st -> (forall s, sock_live (p_inet st) s -> wp R (f s) (fun a st' => p_inv st' /\ v4 a) st) ->
  wok R (name_body f fd addr len) st.
Proof.
  intros Ip Hf. apply wp_bind, wp_check; [done|intros _]. apply wp_bind. unfold wp at 1, read_mem.
  apply wp_bind, wp_check; [done|intros _]. apply wp_on_fd; [done|]. intros s Hl. apply wp_bind. eapply wp_mono; [by apply Hf|].
  intros a st' [I' Hv]. apply wp_then. apply wp_store; [done|]. intros m. by apply p_inv_mem.
Qed.
Lemma loaded_ok R fd addr len (f : Socket -> SocketAddr -> WM Z) st :
  p_inv st -> (forall s a, sock_live (p_inet st) s -> v4 a -> wok R (f s a) st) ->
  wok R (a ← load_sockaddr addr len; s ← from_fd fd; f s a) st.
Proof.
  intros Ip Hf. apply wp_bind. eapply wp_mono; [by apply wp_load|]. intros a st' [-> Hv]. apply wp_on_fd; [done|].
  intros s Hl. by apply Hf.
Qed.
Lemma p_step_keeps source c st :
  p_inv st -> match p_step source c st with None => True | Some Panic => panics c st | Some (Ret (_, st')) => p_inv st' end.
Proof.
  intros Ip. destruct c as [d t p evs|fd addr len|fd addr len polls|fd buf n addr len polls|fd buf n polls|fd buf n addr len polls
    |fd buf n polls|fd b|fd addr len polls evs|fd flag evs|fd addr len|fd addr len|fd evs|fd|fd arg]; cbn [p_step panics];
    try (apply wsyscall_wp).
  - unfold sys_socket_body. destruct (_ && _ && _); [|destruct (_ && _ && _); [|by apply wp_fail]]; apply wp_bind.
    + eapply wp_mono; [by apply wp_new_tcp|]. intros s st' I'. by apply wp_add_to_fd.
    + eapply wp_mono; [by apply wp_new_udp|]. intros s st' I'. by apply wp_add_to_fd.
  - apply loaded_ok; [done|]. intros s a Hl Hv. by apply wp_then, wp_sock_bind.
  - apply loaded_ok; [done|]. intros s a Hl Hv. by apply wp_then, wp_sock_connect.
  - apply wp_bind, wp_check; [done|intros _]. apply wp_bind. eapply wp_mono; [by apply wp_load|]. intros a st' [-> Hv].
    apply wp_bind. unfold wp at 1, read_mem. apply wp_on_fd; [done|]. intros s Hl. by apply wp_sock_sendto.
  - apply wp_bind, wp_check; [done|intros _]. apply wp_bind. unfold wp at 1, read_mem. apply wp_on_fd; [done|].
    intros s Hl. by apply wp_sock_send.
  - apply wp_bind, wp_check; [done|intros _]. apply wp_on_fd; [done|]. intros s Hl. apply wp_bind.
    eapply wp_mono; [by apply wp_sock_recvfrom|]. intros r st' [I' Hv]. apply wp_bind. unfold wp at 1, write_mem. apply wp_then.
    apply (p_inv_mem _ (mem_write buf r.1 (p_mem st'))) in I'. destruct r as [b [a|]]; [|by apply wp_ret].
    apply wp_store; [done|]. intros m. by apply p_inv_mem.
  - apply wp_bind, wp_check; [done|intros _]. apply wp_on_fd; [done|]. intros s Hl. apply wp_bind.
    eapply wp_mono; [by apply wp_sock_recv|]. intros r st' I'. apply wp_then. by apply p_inv_mem.
  - apply wp_on_fd; [done|]. intros s Hl. by apply wp_then, wp_sock_listen.
  - by apply accept_ok.
  - apply wp_on_fd; [done|]. intros s Hl. by apply wp_then, wp_sock_shutdown.
  - apply name_ok; [done|]. intros s Hl. by apply wp_local_addr.
  - apply name_ok; [done|]. intros s Hl. by apply wp_peer_addr.
  - unfold sys_close_sock. destruct (_ && _); [done|]. by apply wsyscall_wp, close_ok.
  - by apply dup_ok.
  - destruct (_ || _); [done|]. unfold mbind at 1. apply wp_bind.
    apply (wp_mono False (on_fds (get_file_like fd)) (fun f st' => st' = st /\ match f with FSock s => sock_live (p_inet st) s | FOther => True end)).
    + unfold wp, on_fds, get_file_like. destruct (fo_get (p_fd st) (fd_usize fd)) as [f|] eqn:Hf; rewrite set_fd_id; [|done].
      split; [done|]. destruct f as [s|]; [|done]. apply (pi_live _ _ Ip). right. exists (fd_usize fd).
      split; [unfold fd_usize, wrap; lia|done].
    + intros f st' [-> Hl]. apply wp_then. destruct f as [s|]; [by apply wp_sock_nonblock|by apply wp_ret].
Qed.

Lemma p_init_inv : p_inv p_init.
Proof.
  split; cbn [p_init p_inet p_fd]; [apply inet_init_inv|apply fo_new_wf| |done]. intros s. split.
  - destruct s as [i|i]; cbn; rewrite lookup_empty; by intros [].
  - intros [|(id & _ & Hs)]; [done|]. by rewrite fo_new_get in Hs.
Qed.


(** * A program with both kinds of sockets *)

Module SockDemo.
Definition source : Z -> option Z := fun _ => Some 0x0a00020f.
(** The address 0.0.0.0:53 is at address 100 and its length 16; the peer's is at 200. *)
Definition prog : list p_call :=
  [PSocket AF_INET SOCK_DGRAM 0 []; PBind 0 100 16; PDup 0; PClose 3 []; PSocket AF_INET SOCK_STREAM 6 [];
   PSocket 10 SOCK_STREAM 0 []; PListen 2 5; PRecv 0 300 4 [[Datagram (mkEp 7 9) (mkEp 0x0a00020f 53) false [1; 2]]];
   PSend 9 300 4 []; PAccept 0 100 200 [] []].
Definition setup : bytes := mem_write 100 (sin_bytes (sockaddr_in_from 0 53)) (fun _ => 0).
Definition start : PSt := set_mem setup p_init.
End SockDemo.
(** The descriptors and errors that the program gets: a UDP socket 0, its duplicate 1, a bad
    descriptor, a TCP socket 2, an unsupported family, and so on. *)
Example sock_demo :
  match p_steps SockDemo.source SockDemo.prog SockDemo.start with
  | Ret (vs, _) => vs = [0; 0; 1; - code EBADF; 2; - code EINVAL; 0; 2; - code EBADF; - code EOPNOTSUPP]
  | Panic => False
  end.
Proof. by vm_compute. Qed.

Lemma sockaddr_roundtrip_witness :
  exists b, into_sockaddr (mkAddr (V4 0x0a00020f) 8080) = Ret (b, SOCKADDR_SIZE)
    /\ b = [AF_INET; 0; 31; 144] ++ octets_of 0x0a00020f ++ replicate 8 0
    /\ from_sockaddr 100 SOCKADDR_SIZE (mem_write 100 b (fun _ => 0)) = Ok (mkAddr (V4 0x0a00020f) 8080).
Proof. apply (sockaddr_roundtrip 0x0a00020f 8080 100 (fun _ => 0)); lia. Defined.
