(* ===== verification/Resolve.v ===== *)
(** Name resolution: [dns_query] (arceos/modules/axnet/src/smoltcp_impl/dns.rs) with the names
    that smoltcp (socket/dns.rs) puts on the wire, the parser of IP addresses that Rust's
    standard library has, and [sys_getaddrinfo] and [sys_freeaddrinfo] of
    arceos_posix_api/src/imp/net.rs with the linked list they build and free. *)
From Stdlib Require Import Ascii.
From S2P Require Import Prelude.
From S2P Require Import Errno.
From S2P Require Import FdTable.
From S2P Require Import IoMpx.
From S2P Require Import Str.
From S2P Require Import PacketBuffer.
From S2P Require Import Net.
From S2P Require Import NetTheorems.
From S2P Require Import Udp.
From S2P Require Import SockCalls.

(** * Names on the wire ([start_query]) *)

Definition DNS_MAX_NAME_SIZE : nat := 255.
Inductive StartQueryError := NoFreeSlot | InvalidName | NameTooLong.

(** [Vec::push] and [extend_from_slice] of a vector of fixed capacity. *)
Definition vec_extend (raw l : list Z) : option (list Z) :=
  if (length raw + length l <=? DNS_MAX_NAME_SIZE)%nat then Some (raw ++ l) else None.
Fixpoint push_labels (raw : list Z) (labels : list str) : result (list Z) StartQueryError :=
  match labels with
  | [] => Ok raw
  | s :: labels' =>
      if (63 <? length s)%nat then Err InvalidName else
      if bool_decide (s = []) then Err InvalidName else
      match vec_extend raw [Z.of_nat (length s)] with
      | None => Err NameTooLong
      | Some raw1 =>
          match vec_extend raw1 (str_bytes s) with
          | None => Err NameTooLong
          | Some raw2 => push_labels raw2 labels'
          end
      end
  end.
(** Without a trailing dot. *)
Definition trim_dot (name : str) : str :=
  match last name with
  | Some c => if bool_decide (c = dot) then take (length name - 1) name else name
  | None => name
  end.
(** The name [start_query_raw] puts into the query. The queries of the socket are an owned
    vector, which grows, so [find_free_query] finds a slot. *)
Definition start_query (name : str) : result (list Z) StartQueryError :=
  if bool_decide (name = []) then Err InvalidName else
  match push_labels [] (split dot (trim_dot name)) with
  | Err e => Err e
  | Ok raw => match vec_extend raw [0] with Some raw' => Ok raw' | None => Err NameTooLong end
  end.

(** * [dns_query] *)

(** What [get_query_result] finds after a poll. *)
Inductive QueryState := QPending | QFailed | QCompleted (addresses : list Z).
Definition start_error (e : StartQueryError) : AxError :=
  match e with NoFreeSlot => ResourceBusy | InvalidName | NameTooLong => InvalidInput end.

(** The loop of [query]: the interfaces are polled, then the result is looked at. *)
Fixpoint query_loop (polls : list (list NetEvent * QueryState)) (n : NetSt)
  : option (result (list IpAddr) AxError * NetSt) :=
  match polls with
  | [] => None
  | (evs, q) :: polls' =>
      let n1 := poll_interfaces evs n in
      match q with
      | QPending => query_loop polls' n1
      | QFailed => Some (Err ConnectionRefused, n1)
      | QCompleted l => Some (Ok (V4 <$> l), n1)
      end
  end.
(** [DnsSocket::new], [query] and [Drop]. *)
Definition dns_query (name : str) (polls : list (list NetEvent * QueryState)) (n : NetSt)
  : option (outcome (result (list IpAddr) AxError * NetSt)) :=
  let '(h, s) := set_add_sock OtherSock (n_set n) in
  let n1 := with_set s n in
  let r := match start_query name with
           | Err e => Some (Err (start_error e), n1)
           | Ok _ => query_loop polls n1
           end in
  match r with
  | None => None
  | Some (res, n2) =>
      match set_remove h (n_set n2) with
      | Ret s' => Some (Ret (res, with_set s' n2))
      | Panic => Some Panic
      end
  end.

(** * [IpAddr::from_str] and [u16::from_str] of the standard library *)

Definition colon : ascii := ascii_of_nat 58.
Definition read_char (c : ascii) (s : str) : option str :=
  match s with x :: s' => if bool_decide (x = c) then Some s' else None | [] => None end.
Definition to_digit (radix : Z) (c : ascii) : option Z :=
  let n := Z.of_nat (Ascii.nat_of_ascii c) in
  let d := if (48 <=? n) && (n <=? 57) then n - 48
           else if (97 <=? n) && (n <=? 122) then n - 87
           else if (65 <=? n) && (n <=? 90) then n - 55 else 99 in
  if d <? radix then Some d else None.
(** The digits at the start of [s]; [None] when there are more than [max]. *)
Fixpoint read_digits (radix : Z) (max : nat) (acc : Z) (count : nat) (s : str) : option (Z * nat * str) :=
  match s with
  | c :: s' =>
      match to_digit radix c with
      | Some d => if (max <=? count)%nat then None else read_digits radix max (acc * radix + d) (S count) s'
      | None => Some (acc, count, s)
      end
  | [] => Some (acc, count, s)
  end.
Definition read_number (radix : Z) (max : nat) (zeros : bool) (limit : Z) (s : str) : option (Z * str) :=
  let leading := match s with c :: _ => bool_decide (c = ascii_of_nat 48) | [] => false end in
  match read_digits radix max 0 0 s with
  | Some (v, count, s') =>
      if (count =? 0)%nat then None
      else if negb zeros && leading && (1 <? count)%nat then None
      else if v <? limit then Some (v, s') else None
  | None => None
  end.
(** [read_separator]: the separator comes before every element but the first. *)
Definition read_sep {A} (c : ascii) (first : bool) (p : str -> option (A * str)) (s : str) : option (A * str) :=
  if first then p s else match read_char c s with Some s' => p s' | None => None end.
Fixpoint read_octets (k : nat) (first : bool) (acc : Z) (s : str) : option (Z * str) :=
  match k with
  | O => Some (acc, s)
  | S k' => match read_sep dot first (read_number 10 3 false 256) s with
            | Some (b, s') => read_octets k' false (acc * 256 + b) s'
            | None => None
            end
  end.
Definition read_ipv4_addr : str -> option (Z * str) := read_octets 4 true 0.

(** [read_groups]: up to [limit] groups of hexadecimal digits; the last two can be an IPv4
    address. *)
Fixpoint read_groups (limit : nat) (first : bool) (s : str) : list Z * bool * str :=
  match limit with
  | O => ([], false, s)
  | S limit' =>
      match (if (0 <? limit')%nat then read_sep colon first read_ipv4_addr s else None) with
      | Some (v, s') => ([v / 65536; v mod 65536], true, s')
      | None =>
          match read_sep colon first (read_number 16 4 true 65536) s with
          | Some (g, s') => let '(gs, v4, s2) := read_groups limit' false s' in (g :: gs, v4, s2)
          | None => ([], false, s)
          end
      end
  end.
Definition of_groups (l : list Z) : Z := fold_left (fun acc g => acc * 65536 + g) l 0.
Definition read_ipv6_addr (s : str) : option (Z * str) :=
  let '(head, head_ipv4, s1) := read_groups 8 true s in
  if (length head =? 8)%nat then Some (of_groups head, s1)
  else if head_ipv4 then None
  else match read_char colon s1 with
       | None => None
       | Some s2 =>
           match read_char colon s2 with
           | None => None
           | Some s3 =>
               let '(tail, _, s4) := read_groups (8 - (length head + 1)) true s3 in
               Some (of_groups (head ++ replicate (8 - length head - length tail) 0 ++ tail), s4)
           end
       end.
(** The whole string has to be an address. *)
Definition parse_ip (s : str) : option IpAddr :=
  match read_ipv4_addr s with
  | Some (v, []) => Some (V4 v)
  | Some _ => None
  | None => match read_ipv6_addr s with Some (v, []) => Some (V6 v) | _ => None end
  end.
(** [parse::<u16>]: an optional plus sign and digits, without overflow. *)
Fixpoint parse_dec (acc : Z) (s : str) : option Z :=
  match s with
  | [] => Some acc
  | c :: s' => match to_digit 10 c with
               | Some d => if acc * 10 + d <? 65536 then parse_dec (acc * 10 + d) s' else None
               | None => None
               end
  end.
Definition parse_u16 (s : str) : option Z :=
  let s := match s with c :: s' => if bool_decide (c = ascii_of_nat 43) then s' else s | [] => s end in
  match s with [] => None | _ => parse_dec 0 s end.

(** * [sys_getaddrinfo] *)

(** A C string; [None] is the null pointer. *)
Definition is_null (p : option str) : bool := match p with None => true | Some _ => false end.

Definition MAXADDRS : nat := 48.
(** The layout of [aibuf] (axlibc/include/netdb.h). *)
Definition AIBUF_SIZE : Z := 88.
Definition SA_OFFSET : Z := 48.
Record aibuf := mkAibuf {
  ai_family : Z; ai_socktype : Z; ai_protocol : Z; ai_addrlen : Z; ai_addr : Z; ai_next : Z;
  sa_sin : sockaddr_in; slot : Z; ref_ : Z;
}.
Definition node_ptr (base : Z) (i : nat) : Z := base + AIBUF_SIZE * Z.of_nat i.
Definition set_addr (a : Z) (b : aibuf) : aibuf :=
  mkAibuf (ai_family b) (ai_socktype b) (ai_protocol b) (ai_addrlen b) a (ai_next b) (sa_sin b) (slot b) (ref_ b).
Definition set_next (a : Z) (b : aibuf) : aibuf :=
  mkAibuf (ai_family b) (ai_socktype b) (ai_protocol b) (ai_addrlen b) (ai_addr b) a (sa_sin b) (slot b) (ref_ b).
Definition set_ref (r : Z) (b : aibuf) : aibuf :=
  mkAibuf (ai_family b) (ai_socktype b) (ai_protocol b) (ai_addrlen b) (ai_addr b) (ai_next b) (sa_sin b) (slot b) r.

(** The loop over the addresses; the vector, which starts at [base], does not move, for it
    has its full capacity from the start. *)
Definition push_addr (base port : Z) (out : list aibuf) (i : nat) (ip : IpAddr) : outcome (list aibuf) :=
  match ip with
  | V6 _ => Panic
  | V4 ip =>
      let b := mkAibuf AF_INET SOCK_STREAM IPPROTO_TCP 16 0 0 (sockaddr_in_from ip port) (Z.of_nat i) 0 in
      let out := out ++ [b] in
      let out := alter (set_addr (node_ptr base i + SA_OFFSET)) i out in
      Ret (if (0 <? i)%nat then alter (set_next (node_ptr base i)) (i - 1)%nat out else out)
  end.
Fixpoint push_addrs (base port : Z) (out : list aibuf) (i : nat) (ips : list IpAddr) : outcome (list aibuf) :=
  match ips with
  | [] => Ret out
  | ip :: ips' =>
      match push_addr base port out i ip with
      | Ret out' => push_addrs base port out' (S i) ips'
      | Panic => Panic
      end
  end.
Definition build_list (base port : Z) (ips : list IpAddr) : outcome (list aibuf) :=
  match push_addrs base port [] 0 (take MAXADDRS ips) with
  | Ret out => Ret (alter (set_ref (Z.of_nat (length out))) 0%nat out)
  | Panic => Panic
  end.

(** The addresses that are asked for: [None] while the query waits. *)
Definition LOCALHOST : IpAddr := V4 0x7f000001.
Definition lookup_name (name : result str LinuxError) (polls : list (list NetEvent * QueryState)) (n : NetSt)
  : option (outcome (result (list IpAddr) LinuxError * NetSt)) :=
  match name with
  | Ok domain =>
      match parse_ip domain with
      | Some a => Some (Ret (Ok [a], n))
      | None =>
          match dns_query domain polls n with
          | Some (Ret (r, n')) => Some (Ret (ax_result r, n'))
          | Some Panic => Some Panic
          | None => None
          end
      end
  | Err _ => Some (Ret (Ok [LOCALHOST], n))
  end.
(** The result, and the list that [res] points to. *)
Definition sys_getaddrinfo (nodename servname : option str) (res base : Z) (polls : list (list NetEvent * QueryState)) (n : NetSt)
  : option (outcome (Z * list aibuf * NetSt)) :=
  let name := char_ptr_to_str nodename in
  let port := char_ptr_to_str servname in
  if is_null nodename && is_null servname then Some (Ret (0, [], n))
  else if res =? 0 then Some (Ret (syscall_body as_i32 (Err EFAULT), [], n))
  else
    let port := match port with Ok p => default 0 (parse_u16 p) | Err _ => 0 end in
    match lookup_name name polls n with
    | None => None
    | Some Panic => Some Panic
    | Some (Ret (Err e, n')) => Some (Ret (syscall_body as_i32 (Err e), [], n'))
    | Some (Ret (Ok ips, n')) =>
        if bool_decide (ips = []) then Some (Ret (0, [], n'))
        else match build_list base port ips with
             | Panic => Some Panic
             | Ret out => Some (Ret (syscall_body as_i32 (Ok (Z.of_nat (length out))), out, n'))
             end
    end.

(** [sys_freeaddrinfo] of a list: the number of elements of the vector it frees. *)
Definition sys_freeaddrinfo (out : list aibuf) : outcome Z :=
  match out with
  | [] => Ret 0
  | b :: _ => if (slot b =? 0) && (0 <? ref_ b) then Ret (ref_ b) else Panic
  end.

(** * Names on the wire are bounded and decode to the labels *)

(** The labels of a name on the wire: a length and that many bytes each, up to a zero. *)
Fixpoint read_name (fuel : nat) (raw : list Z) : option (list (list Z)) :=
  match fuel, raw with
  | S fuel', n :: rest =>
      if n =? 0 then if bool_decide (rest = []) then Some [] else None
      else if (length rest <? Z.to_nat n)%nat then None
      else (fun l => take (Z.to_nat n) rest :: l) <$> read_name fuel' (drop (Z.to_nat n) rest)
  | _, _ => None
  end.
Definition label_ok (s : str) : Prop := (1 <= length s <= 63)%nat.
Definition wire (labels : list str) : list Z := concat ((fun s => Z.of_nat (length s) :: str_bytes s) <$> labels).

Lemma vec_extend_spec raw l :
  vec_extend raw l = if (length raw + length l <=? DNS_MAX_NAME_SIZE)%nat then Some (raw ++ l) else None.
Proof. done. Qed.
Lemma push_labels_spec labels raw :
  match push_labels raw labels with
  | Ok raw' => raw' = raw ++ wire labels /\ Forall label_ok labels
               /\ (labels <> [] -> (length raw' <= DNS_MAX_NAME_SIZE)%nat)
  | Err InvalidName => ~ Forall label_ok labels
  | Err NameTooLong => (DNS_MAX_NAME_SIZE < length (raw ++ wire labels))%nat
  | Err NoFreeSlot => False
  end.
Proof.
  revert raw. induction labels as [|s labels IH]; intros raw; cbn [push_labels].
  { unfold wire. cbn. by rewrite app_nil_r. }
  destruct (Nat.ltb_spec 63 (length s)).
  { intros Hf. apply Forall_cons in Hf as [Hs _]. unfold label_ok in Hs. lia. }
  case_bool_decide as Hs.
  { intros Hf. apply Forall_cons in Hf as [Hs' _]. subst s. unfold label_ok in Hs'. cbn in Hs'. lia. }
  assert (Hl : (1 <= length s)%nat) by (destruct s; [done|cbn; lia]).
  assert (Hw : wire (s :: labels) = (Z.of_nat (length s) :: str_bytes s) ++ wire labels) by done. rewrite Hw.
  rewrite vec_extend_spec. cbn [length]. destruct (Nat.leb_spec (length raw + 1) DNS_MAX_NAME_SIZE).
  2:{ rewrite length_app. cbn [length app]. lia. }
  rewrite vec_extend_spec, length_app, length_str_bytes. cbn [length].
  destruct (Nat.leb_spec (length raw + 1 + length s) DNS_MAX_NAME_SIZE).
  2:{ rewrite !length_app. cbn [length]. rewrite length_str_bytes. lia. }
  specialize (IH ((raw ++ [Z.of_nat (length s)]) ++ str_bytes s)). rewrite <- !(assoc_L (++)) in *. cbn [app] in *.
  destruct (push_labels _ labels) as [raw'|[]]; [|done| |done].
  - destruct IH as (-> & Hf & Hb). split; [done|]. split; [by constructor|]. intros _.
    destruct labels as [|s' labels]; [|by apply Hb]. unfold wire in *. cbn in *. rewrite app_nil_r, length_app. cbn [length].
    rewrite length_str_bytes. lia.
  - intros Hf. apply Forall_cons in Hf as [_ Hf]. done.
Qed.
Lemma read_name_wire labels fuel :
  Forall label_ok labels -> (length labels < fuel)%nat ->
  read_name fuel (wire labels ++ [0]) = Some (str_bytes <$> labels).
Proof.
  revert fuel. induction labels as [|s labels IH]; intros fuel Hf Hl; (destruct fuel as [|fuel]; [lia|]); [done|].
  apply Forall_cons in Hf as [Hs Hf]. unfold label_ok in Hs.
  assert (Hw : wire (s :: labels) ++ [0] = Z.of_nat (length s) :: str_bytes s ++ (wire labels ++ [0]))
    by (unfold wire; cbn; by rewrite <- (assoc_L (++))). rewrite Hw. cbn [read_name].
  rewrite (proj2 (Z.eqb_neq _ 0)) by lia. rewrite Nat2Z.id, length_app, length_str_bytes.
  destruct (Nat.ltb_spec (length s + length (wire labels ++ [0])) (length s)); [lia|].
  rewrite take_app_length', drop_app_length' by (by rewrite length_str_bytes). rewrite IH by (done || cbn in Hl; lia). done.
Qed.
Lemma labels_wire labels : Forall label_ok labels -> (length labels <= length (wire labels))%nat.
Proof.
  induction 1 as [|s labels Hs Hf IH]; [done|]. assert (Hw : wire (s :: labels) = (Z.of_nat (length s) :: str_bytes s) ++ wire labels) by done.
  rewrite Hw, length_app. cbn [length]. lia.
Qed.

(** C35: A query is started exactly for a name whose labels have 1 to 63 bytes and whose wire
    form fits in 255 bytes; the bytes sent then decode to the labels of the name. *)
Theorem start_query_bounds name :
  name <> [] ->
  let labels := split dot (trim_dot name) in
  match start_query name with
  | Ok raw => (length raw <= 255)%nat /\ Forall label_ok labels /\ read_name (S (length raw)) raw = Some (str_bytes <$> labels)
  | Err InvalidName => ~ Forall label_ok labels
  | Err NameTooLong => (255 < length (wire labels) + 1)%nat
  | Err NoFreeSlot => False
  end.
Proof.
  intros Hne labels. unfold start_query. rewrite bool_decide_false by done. fold labels.
  pose proof (push_labels_spec labels []) as Hp. destruct (push_labels [] labels) as [raw|[]]; [| | |].
  - destruct Hp as (-> & Hf & Hb). cbn [app] in *. rewrite vec_extend_spec. cbn [length].
    destruct (Nat.leb_spec (length (wire labels) + 1) DNS_MAX_NAME_SIZE) as [Hle|Hgt]; [|exact Hgt].
    rewrite length_app. cbn [length]. split; [exact Hle|]. split; [done|]. apply read_name_wire; [done|].
    pose proof (labels_wire labels Hf). lia.
  - done.
  - done.
  - cbn [app] in Hp. unfold DNS_MAX_NAME_SIZE in Hp. lia.
Qed.

(** * A query leaves the sockets as they are *)

Lemma other_event ev n h :
  n_set n !! h = Some (Some OtherSock) -> n_set (net_event ev n) !! h = Some (Some OtherSock).
Proof.
  intros Hh. assert (Htcp : forall h' f, n_set (on_tcp h' f n) !! h = Some (Some OtherSock)).
  { intros h' f. unfold on_tcp. destruct (n_set n !! h') as [[[k| |]|]|] eqn:Hk; try done. cbn.
    rewrite list_lookup_insert_ne; [done|]. intros ->. congruence. }
  destruct ev as [dst|h' b t f d a|h'|h'|src dst group data|h' sent]; cbn [net_event]; try done.
  - unfold incoming_tcp_packet. destruct (n_listen n !! ep_port dst) as [e|]; [|done].
    case_match; [done|]. case_match; [done|]. case_match; [|done]. destruct (set_add _ (n_set n)) as [h0 s0] eqn:Ha.
    apply set_add_spec in Ha as (Hfree & _ & Hne). apply Hne; [|done]. intros ->. destruct Hfree; congruence.
  - destruct (ep_port dst =? 0); [done|]. cbn. pose proof (process_udp_spec src dst group data (n_set n)) as Hp.
    destruct (udp_taker dst group (n_set n)); [|by rewrite Hp]. destruct Hp as (u & Hu & _ & ->).
    rewrite list_lookup_insert_ne; [done|]. intros ->. congruence.
  - unfold on_udp. destruct (n_set n !! h') as [[[|u|]|]|] eqn:Hu; try done. cbn.
    rewrite list_lookup_insert_ne; [done|]. intros ->. congruence.
Qed.
Lemma other_polls evs n h :
  n_set n !! h = Some (Some OtherSock) -> n_set (poll_interfaces evs n) !! h = Some (Some OtherSock).
Proof.
  unfold poll_interfaces. revert n. induction evs as [|ev evs IH]; intros n Hh; cbn [fold_left]; [done|]. by apply IH, other_event.
Qed.
(** What a query keeps: the TCP invariant, the UDP sockets and its own slot. *)
Definition query_keeps (h : nat) (n n' : NetSt) : Prop :=
  (forall socks, net_inv (mkNS socks n) -> net_inv (mkNS socks n')) /\ udp_frame n n' /\ n_set n' !! h = Some (Some OtherSock).
Lemma query_loop_keeps polls n h r n' :
  n_set n !! h = Some (Some OtherSock) -> query_loop polls n = Some (r, n') -> query_keeps h n n'.
Proof.
  revert n. induction polls as [|[evs q] polls IH]; intros n Hh; cbn [query_loop]; [done|].
  assert (H1 : query_keeps h n (poll_interfaces evs n)).
  { split; [intros socks; apply (poll_inv evs)|]. split; [apply poll_frame|by apply other_polls]. }
  destruct q; [|by intros [= _ <-]|by intros [= _ <-]]. intros Hq. destruct H1 as (H1 & H2 & H3).
  destruct (IH _ H3 Hq) as (H4 & H5 & H6). split; [by auto|]. split; [by etransitivity|done].
Qed.
(** A slot of another protocol appears or goes. *)
Lemma other_slot y h s' x x' :
  inet_inv y -> n_set (ns_net (is_tcp y)) !! h = x -> s' !! h = x' ->
  (forall k, x <> Some (Some (Tcp k)) /\ x' <> Some (Some (Tcp k))) -> (forall u, x <> Some (Some (Udp u))) ->
  (forall h' z, h' <> h -> s' !! h' = Some (Some z) <-> n_set (ns_net (is_tcp y)) !! h' = Some (Some z)) ->
  inet_inv (mkIS (mkNS (ns_socks (is_tcp y)) (with_set s' (ns_net (is_tcp y)))) (is_udp y) (is_curr y)).
Proof.
  intros I Hx Hx' Ht Hu Hne. apply inet_frame; [done| |].
  - apply inv_tcp_same; [apply I|]. intros h' k. destruct (decide (h' = h)) as [->|]; [|by apply Hne].
    rewrite Hx, Hx'. destruct (Ht k). split; intros; done.
  - intros h' u Hh' Hok. exists u. split; [|done]. unfold udp_at in *. cbn. apply Hne; [|done]. intros ->. by apply (Hu u); rewrite <- Hx.
Qed.

(** A name query that returns has kept every TCP and UDP socket sound, and the socket it
    made for the query is gone; it does not panic. *)
Lemma dns_query_safe name polls y :
  inet_inv y ->
  match dns_query name polls (ns_net (is_tcp y)) with
  | None => True
  | Some Panic => False
  | Some (Ret (_, n')) => inet_inv (mkIS (mkNS (ns_socks (is_tcp y)) n') (is_udp y) (is_curr y))
  end.
Proof.
  intros I. unfold dns_query. destruct (set_add_sock OtherSock (n_set (ns_net (is_tcp y)))) as [h s] eqn:Ha.
  apply set_add_sock_spec in Ha as (Hfree & Hh & Hne).
  assert (I1 : inet_inv (mkIS (mkNS (ns_socks (is_tcp y)) (with_set s (ns_net (is_tcp y)))) (is_udp y) (is_curr y))).
  { eapply (other_slot y h s); [done|done|exact Hh| | |by intros h' z Hn; apply Hne].
    - intros k. split; [|done]. destruct Hfree as [-> | ->]; done.
    - intros u. destruct Hfree as [-> | ->]; done. }
  set (n1 := with_set s _) in *.
  assert (Hk : forall r n2, match start_query name with Err e => Some (Err (start_error e), n1) | Ok _ => query_loop polls n1 end
      = Some (r, n2) -> query_keeps h n1 n2).
  { intros r n2. destruct (start_query name); [by apply query_loop_keeps|]. intros [= _ <-]. done. }
  destruct (match start_query name with Err _ => _ | Ok _ => _ end) as [[r n2]|]; [|done].
  destruct (Hk r n2 eq_refl) as (H1 & H2 & H3). unfold set_remove. rewrite H3.
  assert (I2 : inet_inv (mkIS (mkNS (ns_socks (is_tcp y)) n2) (is_udp y) (is_curr y))).
  { apply (inet_frame _ (mkNS (ns_socks (is_tcp y)) n2) I1); [|done]. apply H1, (ii_tcp _ I1). }
  apply (other_slot _ h (<[h := None]> (n_set n2)) _ _ I2 H3 ltac:(apply list_lookup_insert_eq; by eapply lookup_lt_Some)); [done|done|].
  intros h' z Hn. cbn. by rewrite list_lookup_insert_ne.
Qed.

(** * The list of [sys_getaddrinfo] *)

(** Element [j] of the list of [m] addresses. *)
Definition node (base port : Z) (m : nat) (j : nat) (ip : Z) : aibuf :=
  mkAibuf AF_INET SOCK_STREAM IPPROTO_TCP 16 (node_ptr base j + SA_OFFSET)
    (if (S j <? m)%nat then node_ptr base (S j) else 0) (sockaddr_in_from ip port) (Z.of_nat j) 0.
Lemma push_addr_spec base port l ip :
  push_addr base port (imap (node base port (length l)) l) (length l) (V4 ip)
  = Ret (imap (node base port (S (length l))) (l ++ [ip])).
Proof.
  cbn [push_addr]. f_equal. apply list_eq. intros j. rewrite list_lookup_imap.
  set (b := mkAibuf _ _ _ _ _ _ _ _ _). set (out := imap _ l ++ [b]).
  assert (Hout : forall j, out !! j = if (j <? length l)%nat then (node base port (length l) j) <$> (l !! j)
                                   else if (j =? length l)%nat then Some b else None).
  { intros i. unfold out. destruct (Nat.ltb_spec i (length l)).
    - rewrite lookup_app_l by (rewrite length_imap; lia). apply list_lookup_imap.
    - rewrite lookup_app_r by (rewrite length_imap; lia). rewrite length_imap. destruct (Nat.eqb_spec i (length l)) as [->|].
      + by rewrite Nat.sub_diag.
      + apply lookup_ge_None_2. cbn. lia. }
  assert (Hend : (if (0 <? length l)%nat then alter (set_next (node_ptr base (length l))) (length l - 1)%nat
      (alter (set_addr (node_ptr base (length l) + SA_OFFSET)) (length l) out)
      else alter (set_addr (node_ptr base (length l) + SA_OFFSET)) (length l) out) !! j
    = if (j =? length l)%nat then Some (set_addr (node_ptr base (length l) + SA_OFFSET) b)
      else if (S j =? length l)%nat then set_next (node_ptr base (length l)) <$> (out !! j) else out !! j).
  { destruct (Nat.ltb_spec 0 (length l)).
    - destruct (Nat.eqb_spec j (length l)) as [->|Hj].
      + rewrite list_lookup_alter_ne, list_lookup_alter_eq by lia. rewrite Hout, Nat.ltb_irrefl, Nat.eqb_refl. done.
      + destruct (Nat.eqb_spec (S j) (length l)) as [Hs|Hs].
        * replace (length l - 1)%nat with j by lia. rewrite list_lookup_alter_eq, list_lookup_alter_ne by lia. done.
        * by rewrite !list_lookup_alter_ne by lia.
    - destruct (Nat.eqb_spec j (length l)) as [->|Hj].
      + rewrite list_lookup_alter_eq, Hout, Nat.ltb_irrefl, Nat.eqb_refl. done.
      + rewrite list_lookup_alter_ne by lia. destruct (Nat.eqb_spec (S j) (length l)); [lia|done]. }
  rewrite Hend, Hout. clear Hend Hout out. destruct (Nat.eqb_spec j (length l)) as [->|Hj].
  - rewrite lookup_app_r, Nat.sub_diag by lia. cbn. unfold node. rewrite Nat.ltb_irrefl. done.
  - destruct (Nat.ltb_spec j (length l)) as [Hlt|].
    + rewrite lookup_app_l by lia. destruct (lookup_lt_is_Some_2 l j Hlt) as [x ->]. cbn [fmap option_fmap option_map]. unfold node.
      destruct (Nat.eqb_spec (S j) (length l)) as [Hs|Hs].
      * rewrite <- Hs, Nat.ltb_irrefl, (proj2 (Nat.ltb_lt (S j) (S (S j)))) by lia. reflexivity.
      * rewrite (proj2 (Nat.ltb_lt (S j) (length l))), (proj2 (Nat.ltb_lt (S j) (S (length l)))) by lia. reflexivity.
    + rewrite (lookup_ge_None_2 (l ++ [ip])) by (rewrite length_app; cbn; lia). by destruct (S j =? length l)%nat.
Qed.
Lemma push_addrs_spec base port l ips :
  push_addrs base port (imap (node base port (length l)) l) (length l) (V4 <$> ips)
  = Ret (imap (node base port (length (l ++ ips))) (l ++ ips)).
Proof.
  revert l. induction ips as [|ip ips IH]; intros l; cbn [fmap list_fmap push_addrs].
  - by rewrite app_nil_r.
  - rewrite push_addr_spec. specialize (IH (l ++ [ip])). rewrite length_app, Nat.add_1_r in IH. cbn [length] in IH.
    rewrite IH. by rewrite <- (assoc_L (++)).
Qed.

(** The addresses that a program finds from the pointer [p] on, in the memory of the list. *)
Fixpoint walk (fuel : nat) (base : Z) (out : list aibuf) (p : Z) : list SocketAddr :=
  match fuel with
  | O => []
  | S fuel' =>
      if p =? 0 then []
      else match out !! Z.to_nat ((p - base) / AIBUF_SIZE) with
           | Some b => if ai_addr b =? p + SA_OFFSET then SocketAddrV4_from (sa_sin b) :: walk fuel' base out (ai_next b) else []
           | None => []
           end
  end.
Lemma node_ptr_index base j : Z.to_nat ((node_ptr base j - base) / AIBUF_SIZE) = j.
Proof. unfold node_ptr, AIBUF_SIZE. replace (base + 88 * Z.of_nat j - base) with (Z.of_nat j * 88) by lia. rewrite Z.div_mul by lia. lia. Qed.

Lemma walk_nodes base port out l fuel j :
  0 < base -> 0 <= port < 65536 -> Forall (fun ip => 0 <= ip < 2 ^ 32) l ->
  (forall i ip, l !! i = Some ip -> exists b, out !! i = Some b /\ ai_addr b = node_ptr base i + SA_OFFSET
      /\ ai_next b = (if (S i <? length l)%nat then node_ptr base (S i) else 0) /\ sa_sin b = sockaddr_in_from ip port) ->
  (j < length l)%nat -> (length l <= j + fuel)%nat ->
  walk fuel base out (node_ptr base j) = (fun ip => mkAddr (V4 ip) port) <$> drop j l.
Proof.
  intros Hb Hport Hl Hout. revert j. induction fuel as [|fuel IH]; intros j Hj Hf; [lia|]. cbn [walk].
  assert (Hnz : (node_ptr base j =? 0) = false) by (apply Z.eqb_neq; unfold node_ptr, AIBUF_SIZE; lia). rewrite Hnz, node_ptr_index.
  destruct (lookup_lt_is_Some_2 l j Hj) as [ip Hip]. destruct (Hout j ip Hip) as (b & -> & -> & -> & ->). rewrite Z.eqb_refl.
  rewrite (drop_S _ _ _ Hip). cbn [fmap list_fmap]. f_equal.
  - unfold SocketAddrV4_from. cbn [s_addr sin_port sockaddr_in_from]. destruct (swap16_ok port Hport) as [-> _].
    rewrite ip_octets; [done|]. rewrite Forall_lookup in Hl. by apply (Hl j).
  - destruct (Nat.ltb_spec (S j) (length l)).
    + apply IH; lia.
    + rewrite drop_ge by lia. destruct fuel; [done|]. by rewrite Z.eqb_refl || done.
Qed.


(** * Examples *)

Example parse_ip_examples :
  parse_ip ($"10.0.2.15") = Some (V4 0x0a00020f) /\ parse_ip ($"::1") = Some (V6 1)
  /\ parse_ip ($"1:2:3:4:5:6:7:8") = Some (V6 0x00010002000300040005000600070008)
  /\ parse_ip ($"::ffff:10.0.2.15") = Some (V6 0xffff0a00020f)
  /\ parse_ip ($"01.2.3.4") = None /\ parse_ip ($"1.2.3.256") = None /\ parse_ip ($"host") = None.
Proof. by vm_compute. Qed.

(** An IPv6 literal as the node name panics the kernel. *)
Lemma getaddrinfo_ipv6_panics res base polls n :
  res <> 0 -> sys_getaddrinfo (Some ($"::1")) None res base polls n = Some Panic.
Proof.
  intros Hres. unfold sys_getaddrinfo. cbn [is_null andb]. rewrite (proj2 (Z.eqb_neq _ _) Hres).
  assert (Hn : char_ptr_to_str (Some ($"::1")) = Ok ($"::1")) by (by vm_compute). rewrite Hn.
  assert (Hp : parse_ip ($"::1") = Some (V6 1)) by (by vm_compute). unfold lookup_name. by rewrite Hp.
Qed.
(** A node name that is not UTF-8 resolves to the local host. *)
Lemma getaddrinfo_bad_name res base polls n :
  res <> 0 -> exists out, sys_getaddrinfo (Some [ascii_of_nat 255]) None res base polls n = Some (Ret (1, out, n))
    /\ (fun b => SocketAddrV4_from (sa_sin b)) <$> out = [mkAddr LOCALHOST 0].
Proof.
  intros Hres. eexists. unfold sys_getaddrinfo. cbn [is_null andb]. rewrite (proj2 (Z.eqb_neq _ _) Hres).
  assert (Hn : char_ptr_to_str (Some [ascii_of_nat 255]) = Err EINVAL) by (by vm_compute). rewrite Hn. cbn. by vm_compute.
Qed.

Lemma start_query_bounds_witness :
  ($"a.rust-lang.org.") <> [] /\ match start_query ($"a.rust-lang.org.") with
  | Ok raw => (length raw <= 255)%nat /\ Forall label_ok (split dot (trim_dot ($"a.rust-lang.org.")))
              /\ read_name (S (length raw)) raw = Some (str_bytes <$> split dot (trim_dot ($"a.rust-lang.org.")))
  | Err InvalidName => ~ Forall label_ok (split dot (trim_dot ($"a.rust-lang.org.")))
  | Err NameTooLong => (255 < length (wire (split dot (trim_dot ($"a.rust-lang.org.")))) + 1)%nat
  | Err NoFreeSlot => False
  end /\ start_query ($"a.rust-lang.org.") <> Err InvalidName.
Proof.
  split; [done|]. split; [|by vm_compute]. apply (start_query_bounds ($"a.rust-lang.org.")). done.
Defined.

