(* ===== verification/Fs.v ===== *)
(** The file system layer: the interface of the mounted file systems
    (src/vendor/axfs_vfs), the root directory with its mount points and the path
    operations (src/arceos/modules/axfs/src/root.rs), open files and directories with
    capabilities and cursors (fops.rs), and the [std::fs]-like API (api/). *)
From stdpp Require Import functions.
From S2P Require Import Prelude.
From S2P Require Import Errno.
From S2P Require Import Str.

(** * The interface of file systems *)

Inductive VfsNodeType := TFifo | TCharDevice | TDir | TBlockDevice | TFile | TSymLink | TSocket.
#[export] Instance VfsNodeType_eq_dec : EqDecision VfsNodeType.
Proof. solve_decision. Defined.
Definition VfsNodeType_code (t : VfsNodeType) : Z :=
  match t with
  | TFifo => 1 | TCharDevice => 2 | TDir => 4 | TBlockDevice => 6 | TFile => 8 | TSymLink => 10 | TSocket => 12
  end.

(** [VfsNodeAttr]; permissions are the bits of [VfsNodePerm]. *)
Record VfsNodeAttr := mkAttr { at_perm : Z; at_ty : VfsNodeType; at_size : Z; at_blocks : Z }.
Definition at_is_dir (a : VfsNodeAttr) : bool := bool_decide (at_ty a = TDir).
Definition at_is_file (a : VfsNodeAttr) : bool := bool_decide (at_ty a = TFile).
Definition owner_readable (perm : Z) : bool := negb (Z.land perm 256 =? 0).
Definition owner_writable (perm : Z) : bool := negb (Z.land perm 128 =? 0).
Definition owner_executable (perm : Z) : bool := negb (Z.land perm 64 =? 0).

Record VfsDirEntry := mkDirEntry { de_name : str; de_ty : VfsNodeType }.
(** [VfsDirEntry::new]: a name of more than 63 bytes panics; [de_name] is what
    [name_as_bytes] returns, the bytes before the first zero. *)
Definition name_as_bytes (name : str) : str := default name ((fun n => take n name) <$> find_char (Ascii.ascii_of_nat 0) name).
Definition dir_entry_new {S E} (name : str) (ty : VfsNodeType) : M S E VfsDirEntry :=
  _ ← assert_ (length name <=? 63)%nat; mret (mkDirEntry (name_as_bytes name) ty).
Fixpoint dir_entries_new {S E} (l : list (str * VfsNodeType)) : M S E (list VfsDirEntry) :=
  match l with
  | [] => mret []
  | (name, ty) :: l => e ← dir_entry_new name ty; es ← dir_entries_new l; mret (e :: es)
  end.

(** The operations of [VfsOps] and [VfsNodeOps] on the state [V] of the mounted file
    systems: [N] are node references and [F] file systems. [v_read_at] returns the
    bytes it stores in a buffer of the given length. *)
Class Vfs (V N F : Type) := {
  v_root_dir : F -> N;
  v_mount : F -> str -> N -> M V AxError unit;
  v_open : N -> M V AxError unit;
  v_get_attr : N -> M V AxError VfsNodeAttr;
  v_read_at : N -> Z -> nat -> M V AxError (list Z);
  v_write_at : N -> Z -> list Z -> M V AxError Z;
  v_fsync : N -> M V AxError unit;
  v_truncate : N -> Z -> M V AxError unit;
  v_lookup : N -> str -> M V AxError N;
  v_create : N -> str -> VfsNodeType -> M V AxError unit;
  v_remove : N -> str -> M V AxError unit;
  v_rename : N -> str -> str -> M V AxError unit;
  v_read_dir : N -> Z -> nat -> M V AxError (list VfsDirEntry);
}.

(** * The root directory (root.rs) *)

(** A node reference of the kernel: ROOT_DIR or a node of a mounted file system. *)
Inductive Node (N : Type) := NRoot | NFs (n : N).
Arguments NRoot {N}.
Arguments NFs {N} n.

(** [RootDirectory] with CURRENT_DIR, CURRENT_DIR_PATH and the file systems. *)
Record Fs (V N F : Type) := mkFs {
  main_fs : F;
  mounts : list (str * F);
  current_dir_node : Node N;
  current_dir_path : str;
  fs_vfs : V;
}.
Arguments mkFs {V N F}.
Arguments main_fs {V N F}.
Arguments mounts {V N F}.
Arguments current_dir_node {V N F}.
Arguments current_dir_path {V N F}.
Arguments fs_vfs {V N F}.

Section fs.
Context {V N F : Type} `{Vfs V N F}.

Definition FsM (A : Type) : Type := M (Fs V N F) AxError A.
Definition set_vfs (v : V) (s : Fs V N F) : Fs V N F :=
  mkFs (main_fs s) (mounts s) (current_dir_node s) (current_dir_path s) v.
Definition on_vfs {A} (m : M V AxError A) : FsM A := zoom fs_vfs set_vfs m.

(** [RootDirectory::mount]. *)
Definition root_mount (path : str) (fs : F) : FsM unit :=
  _ ← ensure (negb (bool_decide (path = [slash]))) InvalidInput;
  _ ← ensure (starts_with path [slash]) InvalidInput;
  s ← get;
  _ ← ensure (negb (existsb (fun mp => bool_decide (mp.1 = path)) (mounts s))) InvalidInput;
  _ ← on_vfs (v_create (v_root_dir (main_fs s)) path TDir);
  point ← on_vfs (v_lookup (v_root_dir (main_fs s)) path);
  _ ← on_vfs (v_mount fs path point);
  modify (fun s => mkFs (main_fs s) (mounts s ++ [(path, fs)]) (current_dir_node s) (current_dir_path s) (fs_vfs s)).

(** [_umount] and [contains]. *)
Definition root_umount (path : str) (s : Fs V N F) : Fs V N F :=
  mkFs (main_fs s) (filter (fun mp => mp.1 <> path) (mounts s)) (current_dir_node s) (current_dir_path s) (fs_vfs s).
Definition root_contains (s : Fs V N F) (path : str) : bool :=
  existsb (fun mp => bool_decide (mp.1 = path)) (mounts s).

(** The loop of [lookup_mounted_fs] from index [i]: the best match so far. *)
Fixpoint best_mount (path : str) (mps : list (str * F)) (i idx max_len : nat) : nat * nat :=
  match mps with
  | [] => (idx, max_len)
  | mp :: mps' =>
      if starts_with path (drop 1 mp.1) && (max_len <? length mp.1 - 1)%nat
      then best_mount path mps' (S i) i (length mp.1 - 1)
      else best_mount path mps' (S i) idx max_len
  end.
(** [lookup_mounted_fs]: the file system and the path in it. The recursion on the
    prefix [./] shortens the path, so its length is enough fuel. *)
Fixpoint lookup_mounted_fs (fuel : nat) (s : Fs V N F) (path : str) : option (F * str) :=
  match fuel with
  | O => None
  | S fuel =>
      let path := trim_char slash path in
      match strip_prefix path [dot; slash] with
      | Some rest => lookup_mounted_fs fuel s rest
      | None =>
          let '(idx, max_len) := best_mount path (mounts s) 0 0 0 in
          if (max_len =? 0)%nat then Some (main_fs s, path)
          else match mounts s !! idx with
               | Some mp => Some (mp.2, drop max_len path)
               | None => None
               end
      end
  end.
Definition in_mounted {A} (path : str) (f : F -> str -> FsM A) : FsM A :=
  s ← get;
  fr ← unwrap (lookup_mounted_fs (S (length path)) s path);
  f fr.1 fr.2.

(** The operations of a node: those of [RootDirectory] or of the file system. *)
Definition node_get_attr (n : Node N) : FsM VfsNodeAttr :=
  match n with
  | NRoot => s ← get; on_vfs (v_get_attr (v_root_dir (main_fs s)))
  | NFs n => on_vfs (v_get_attr n)
  end.
Definition node_lookup (n : Node N) (path : str) : FsM (Node N) :=
  match n with
  | NRoot => in_mounted path (fun fs rest => n' ← on_vfs (v_lookup (v_root_dir fs) rest); mret (NFs n'))
  | NFs n => n' ← on_vfs (v_lookup n path); mret (NFs n')
  end.
Definition node_create (n : Node N) (path : str) (ty : VfsNodeType) : FsM unit :=
  match n with
  | NRoot => in_mounted path (fun fs rest =>
      if decide (rest = []) then mret tt else on_vfs (v_create (v_root_dir fs) rest ty))
  | NFs n => on_vfs (v_create n path ty)
  end.
Definition node_remove (n : Node N) (path : str) : FsM unit :=
  match n with
  | NRoot => in_mounted path (fun fs rest =>
      if decide (rest = []) then throw PermissionDenied else on_vfs (v_remove (v_root_dir fs) rest))
  | NFs n => on_vfs (v_remove n path)
  end.
Definition node_rename (n : Node N) (src dst : str) : FsM unit :=
  match n with
  | NRoot => in_mounted src (fun fs rest =>
      if decide (rest = []) then throw PermissionDenied else on_vfs (v_rename (v_root_dir fs) rest dst))
  | NFs n => on_vfs (v_rename n src dst)
  end.
(** The file operations of [RootDirectory] fail ([impl_vfs_dir_default]); its [open]
    and [read_dir] are the defaults of the trait. *)
Definition node_open (n : Node N) : FsM unit :=
  match n with NRoot => mret tt | NFs n => on_vfs (v_open n) end.
Definition node_read_at (n : Node N) (off : Z) (len : nat) : FsM (list Z) :=
  match n with NRoot => throw IsADirectory | NFs n => on_vfs (v_read_at n off len) end.
Definition node_write_at (n : Node N) (off : Z) (buf : list Z) : FsM Z :=
  match n with NRoot => throw IsADirectory | NFs n => on_vfs (v_write_at n off buf) end.
Definition node_fsync (n : Node N) : FsM unit :=
  match n with NRoot => throw IsADirectory | NFs n => on_vfs (v_fsync n) end.
Definition node_truncate (n : Node N) (size : Z) : FsM unit :=
  match n with NRoot => throw IsADirectory | NFs n => on_vfs (v_truncate n size) end.
Definition node_read_dir (n : Node N) (start : Z) (len : nat) : FsM (list VfsDirEntry) :=
  match n with NRoot => throw Unsupported | NFs n => on_vfs (v_read_dir n start len) end.

(** [init_rootfs] after the main file system was created, with the file systems to
    mount at /dev, /tmp, /proc and /sys. *)
Definition init_rootfs (main devfs ramfs procfs sysfs : F) (v : V) : outcome (Fs V N F) :=
  let root := mkFs main [] NRoot [slash] v in
  match (_ ← root_mount ($"/dev") devfs; _ ← root_mount ($"/tmp") ramfs;
         _ ← root_mount ($"/proc") procfs; root_mount ($"/sys") sysfs) root with
  | Ret (Ok _, s) => Ret s
  | _ => Panic
  end.

(** [parent_node_of]. *)
Definition parent_node_of (dir : option (Node N)) (path : str) (s : Fs V N F) : Node N :=
  if starts_with path [slash] then NRoot else default (current_dir_node s) dir.
(** [absolute_path]. *)
Definition absolute_path (path : str) (s : Fs V N F) : str :=
  if starts_with path [slash] then canonicalize path else canonicalize (current_dir_path s ++ path).

Definition fs_lookup (dir : option (Node N)) (path : str) : FsM (Node N) :=
  _ ← ensure (negb (bool_decide (path = []))) NotFound;
  s ← get;
  node ← node_lookup (parent_node_of dir path s) path;
  if ends_with path [slash] then
    attr ← node_get_attr node;
    if negb (at_is_dir attr) then throw NotADirectory else mret node
  else mret node.

Definition fs_create_file (dir : option (Node N)) (path : str) : FsM (Node N) :=
  _ ← ensure (negb (bool_decide (path = []))) NotFound;
  _ ← ensure (negb (ends_with path [slash])) NotADirectory;
  s ← get;
  let parent := parent_node_of dir path s in
  _ ← node_create parent path TFile;
  node_lookup parent path.

Definition fs_create_dir (dir : option (Node N)) (path : str) : FsM unit :=
  r ← attempt (fs_lookup dir path);
  match r with
  | Ok _ => throw AlreadyExists
  | Err NotFound => s ← get; node_create (parent_node_of dir path s) path TDir
  | Err e => throw e
  end.

Definition fs_remove_file (dir : option (Node N)) (path : str) : FsM unit :=
  node ← fs_lookup dir path;
  attr ← node_get_attr node;
  if at_is_dir attr then throw IsADirectory
  else if negb (owner_writable (at_perm attr)) then throw PermissionDenied
  else s ← get; node_remove (parent_node_of dir path s) path.

Definition fs_remove_dir (dir : option (Node N)) (path : str) : FsM unit :=
  _ ← ensure (negb (bool_decide (path = []))) NotFound;
  let path_check := trim_char slash path in
  _ ← ensure (negb (bool_decide (path_check = []))) DirectoryNotEmpty;
  _ ← ensure (negb (bool_decide (path_check = [dot]) || bool_decide (path_check = [dot; dot]) ||
                    ends_with path_check [slash; dot] || ends_with path_check [slash; dot; dot])) InvalidInput;
  s ← get;
  _ ← ensure (negb (root_contains s (absolute_path path s))) PermissionDenied;
  node ← fs_lookup dir path;
  attr ← node_get_attr node;
  if negb (at_is_dir attr) then throw NotADirectory
  else if negb (owner_writable (at_perm attr)) then throw PermissionDenied
  else s ← get; node_remove (parent_node_of dir path s) path.

Definition set_cwd (node : Node N) (path : str) (s : Fs V N F) : Fs V N F :=
  mkFs (main_fs s) (mounts s) node path (fs_vfs s).

(** [set_current_dir]. *)
Definition set_current_dir (path : str) : FsM unit :=
  s ← get;
  let abs := absolute_path path s in
  let abs_path := if ends_with abs [slash] then abs else abs ++ [slash] in
  if decide (abs_path = [slash]) then modify (set_cwd NRoot [slash])
  else
    node ← fs_lookup None abs_path;
    attr ← node_get_attr node;
    if negb (at_is_dir attr) then throw NotADirectory
    else if negb (owner_executable (at_perm attr)) then throw PermissionDenied
    else modify (set_cwd node abs_path).

Definition fs_rename (old new : str) : FsM unit :=
  s ← get;
  r ← attempt (node_lookup (parent_node_of None new s) new);
  _ ← (if is_ok r then fs_remove_file None new else mret tt);
  s ← get;
  node_rename (parent_node_of None old s) old new.

(** * Open files and directories (fops.rs) *)

Definition CAP_READ : Z := 1.
Definition CAP_WRITE : Z := 2.
Definition CAP_EXECUTE : Z := 4.

(** [File] and [Directory]; the node is wrapped with its capabilities. *)
Record File := mkFile { f_node : Node N; f_cap : Z; f_is_append : bool; f_offset : Z }.
Record Directory := mkDirectory { d_node : Node N; d_cap : Z; d_entry_idx : Z }.
End fs.
Arguments File : clear implicits.
Arguments Directory : clear implicits.

Record OpenOptions := mkOpts {
  oo_read : bool;
  oo_write : bool;
  oo_execute : bool;
  oo_append : bool;
  oo_truncate : bool;
  oo_create : bool;
  oo_create_new : bool;
  oo_directory : bool;
}.
(** [OpenOptions::new]. *)
Definition oo_new : OpenOptions := mkOpts false false false false false false false false.
(** [OpenOptions::is_valid]. *)
Definition oo_is_valid (o : OpenOptions) : bool :=
  if negb (oo_read o) && negb (oo_write o) && negb (oo_append o) && negb (oo_directory o) then false
  else match oo_write o, oo_append o with
       | true, false => true
       | false, false => negb (oo_truncate o || oo_create o || oo_create_new o)
       | _, true => negb (oo_truncate o && negb (oo_create_new o))
       end.
(** [From<&OpenOptions> for Cap] and [perm_to_cap]. *)
Definition opts_cap (o : OpenOptions) : Z :=
  let c := if oo_read o then CAP_READ else 0 in
  let c := if oo_write o || oo_append o then Z.lor c CAP_WRITE else c in
  if oo_execute o then Z.lor c CAP_EXECUTE else c.
Definition perm_to_cap (perm : Z) : Z :=
  let c := if owner_readable perm then CAP_READ else 0 in
  let c := if owner_writable perm then Z.lor c CAP_WRITE else c in
  if owner_executable perm then Z.lor c CAP_EXECUTE else c.
(** [Cap::contains]. *)
Definition cap_contains (cap other : Z) : bool := Z.land cap other =? other.

(** [u64::checked_add_signed]. *)
Definition checked_add_signed (a off : Z) : option Z :=
  if (0 <=? a + off) && (a + off <? USIZE) then Some (a + off) else None.
Inductive SeekFrom := SeekStart (pos : Z) | SeekCurrent (off : Z) | SeekEnd (off : Z).

Section fops.
Context {V N F : Type} `{Vfs V N F}.
Notation FsM := (FsM (V := V) (N := N) (F := F)).

(** [access_node]. *)
Definition file_access (f : File N) (cap : Z) : FsM (Node N) :=
  if cap_contains (f_cap f) cap then mret (f_node f) else throw PermissionDenied.
Definition dir_access (d : Directory N) (cap : Z) : FsM (Node N) :=
  if cap_contains (d_cap d) cap then mret (d_node d) else throw PermissionDenied.

(** [File::_open_at]. *)
Definition file_open_at (dir : option (Node N)) (path : str) (o : OpenOptions) : FsM (File N) :=
  _ ← ensure (oo_is_valid o) InvalidInput;
  r ← attempt (fs_lookup dir path);
  node ← (if oo_create o || oo_create_new o then
            match r with
            | Ok node => if oo_create_new o then throw AlreadyExists else mret node
            | Err NotFound => fs_create_file dir path
            | Err e => throw e
            end
          else try_ r);
  attr ← node_get_attr node;
  if at_is_dir attr && (oo_create o || oo_create_new o || oo_write o || oo_append o || oo_truncate o)
  then throw IsADirectory
  else
    let cap := opts_cap o in
    if negb (cap_contains (perm_to_cap (at_perm attr)) cap) then throw PermissionDenied
    else
      _ ← node_open node;
      _ ← (if oo_truncate o then node_truncate node 0 else mret tt);
      mret (mkFile node cap (oo_append o) 0).
Definition file_open (path : str) (o : OpenOptions) : FsM (File N) := file_open_at None path o.

Definition file_truncate (f : File N) (size : Z) : FsM unit :=
  node ← file_access f CAP_WRITE; node_truncate node size.
Definition file_get_attr (f : File N) : FsM VfsNodeAttr :=
  node ← file_access f 0; node_get_attr node.
Definition file_flush (f : File N) : FsM unit :=
  node ← file_access f CAP_WRITE; node_fsync node.

Definition set_offset (f : File N) (off : Z) : File N :=
  mkFile (f_node f) (f_cap f) (f_is_append f) off.

(** [read] into a buffer of [len] bytes, and [read_at]. *)
Definition file_read (f : File N) (len : nat) : FsM (list Z * File N) :=
  node ← file_access f CAP_READ;
  data ← node_read_at node (f_offset f) len;
  mret (data, set_offset f (f_offset f +w Z.of_nat (length data))).
Definition file_read_at (f : File N) (off : Z) (len : nat) : FsM (list Z) :=
  node ← file_access f CAP_READ; node_read_at node off len.

(** [write] and [write_at]. *)
Definition file_write (f : File N) (buf : list Z) : FsM (Z * File N) :=
  off ← (if f_is_append f then attr ← file_get_attr f; mret (at_size attr) else mret (f_offset f));
  node ← file_access f CAP_WRITE;
  n ← node_write_at node off buf;
  mret (n, set_offset f (off +w n)).
Definition file_write_at (f : File N) (off : Z) (buf : list Z) : FsM Z :=
  node ← file_access f CAP_WRITE; node_write_at node off buf.

(** [seek]. *)
Definition file_seek (f : File N) (pos : SeekFrom) : FsM (Z * File N) :=
  attr ← file_get_attr f;
  off ← ok_or (match pos with
               | SeekStart p => Some p
               | SeekCurrent o => checked_add_signed (f_offset f) o
               | SeekEnd o => checked_add_signed (at_size attr) o
               end) InvalidInput;
  mret (off, set_offset f off).

(** [Directory::_open_dir_at]. *)
Definition dir_open_at (dir : option (Node N)) (path : str) (o : OpenOptions) : FsM (Directory N) :=
  _ ← ensure (oo_read o) InvalidInput;
  _ ← ensure (negb (oo_create o || oo_create_new o || oo_write o || oo_append o || oo_truncate o)) InvalidInput;
  node ← fs_lookup dir path;
  attr ← node_get_attr node;
  if negb (at_is_dir attr) then throw NotADirectory
  else
    let cap := opts_cap o in
    if negb (cap_contains (perm_to_cap (at_perm attr)) cap) then throw PermissionDenied
    else _ ← node_open node; mret (mkDirectory node cap 0).
Definition dir_open (path : str) (o : OpenOptions) : FsM (Directory N) := dir_open_at None path o.

(** [access_at] and the operations relative to an open directory. *)
Definition access_at (d : Directory N) (path : str) : FsM (option (Node N)) :=
  if starts_with path [slash] then mret None
  else n ← dir_access d CAP_EXECUTE; mret (Some n).
Definition d_open_dir_at (d : Directory N) (path : str) (o : OpenOptions) : FsM (Directory N) :=
  at_ ← access_at d path; dir_open_at at_ path o.
Definition d_open_file_at (d : Directory N) (path : str) (o : OpenOptions) : FsM (File N) :=
  at_ ← access_at d path; file_open_at at_ path o.
Definition d_create_file (d : Directory N) (path : str) : FsM (Node N) :=
  at_ ← access_at d path; fs_create_file at_ path.
Definition d_create_dir (d : Directory N) (path : str) : FsM unit :=
  at_ ← access_at d path; fs_create_dir at_ path.
Definition d_remove_file (d : Directory N) (path : str) : FsM unit :=
  at_ ← access_at d path; fs_remove_file at_ path.
Definition d_remove_dir (d : Directory N) (path : str) : FsM unit :=
  at_ ← access_at d path; fs_remove_dir at_ path.

(** [Directory::read_dir] into [len] entries. *)
Definition d_read_dir (d : Directory N) (len : nat) : FsM (list VfsDirEntry * Directory N) :=
  node ← dir_access d CAP_READ;
  es ← node_read_dir node (d_entry_idx d) len;
  mret (es, mkDirectory (d_node d) (d_cap d) (d_entry_idx d +w Z.of_nat (length es))).

(** * The API (api/) *)

Definition opts_read : OpenOptions := mkOpts true false false false false false false false.
Definition opts_create : OpenOptions := mkOpts false true false false true true false false.
(** [api::File::open], [api::File::create], [metadata]. *)
Definition api_open (path : str) : FsM (File N) := file_open path opts_read.
Definition api_create (path : str) : FsM (File N) := file_open path opts_create.
Definition api_metadata (path : str) : FsM VfsNodeAttr := f ← api_open path; file_get_attr f.

(** [Read::read_to_end] (axio): reads of 32 bytes until one returns nothing. *)
Fixpoint read_to_end (fuel : nat) (f : File N) (acc : list Z) : FsM (list Z) :=
  match fuel with
  | O => panic
  | S fuel =>
      r ← file_read f 32;
      if decide (r.1 = []) then mret acc else read_to_end fuel r.2 (acc ++ r.1)
  end.
(** [api::read], with enough rounds for the size of the file, and [api::write] by way
    of [Write::write_all] (axio). *)
Definition api_read (fuel : nat) (path : str) : FsM (list Z) :=
  f ← api_open path;
  _ ← attempt (E' := AxError) (file_get_attr f);
  read_to_end fuel f [].
Fixpoint write_all (fuel : nat) (f : File N) (buf : list Z) : FsM unit :=
  match fuel, buf with
  | _, [] => mret tt
  | O, _ => panic
  | S fuel, _ =>
      r ← file_write f buf;
      if r.1 =? 0 then throw WriteZero else write_all fuel r.2 (drop (Z.to_nat r.1) buf)
  end.
Definition api_write (path : str) (contents : list Z) : FsM unit :=
  f ← api_create path; write_all (length contents) f contents.
(** [absolute_path_exists]. *)
Definition absolute_path_exists (path : str) (s : Fs V N F) : outcome bool :=
  match fs_lookup None path s with
  | Ret (r, _) => Ret (is_ok r)
  | Panic => Panic
  end.
(** [DirBuilder::create]. *)
Definition dir_builder_create (recursive : bool) (path : str) : FsM unit :=
  if recursive then throw Unsupported else fs_create_dir None path.

(** [ReadDir] and its [next]; the entries of the buffer up to [buf_end] are
    [rd_buf]. *)
Record ReadDir := mkReadDir { rd_inner : Directory N; rd_pos : nat; rd_buf : list VfsDirEntry; rd_end_of_stream : bool }.
Definition read_dir_new (path : str) : FsM ReadDir :=
  d ← dir_open path opts_read; mret (mkReadDir d 0 [] false).
Fixpoint read_dir_next (fuel : nat) (rd : ReadDir) : FsM (option (result VfsDirEntry AxError) * ReadDir) :=
  if rd_end_of_stream rd then mret (None, rd)
  else match fuel with
  | O => panic
  | S fuel =>
      let take_one (rd : ReadDir) :=
        match rd_buf rd !! rd_pos rd with
        | None => panic
        | Some e =>
            let rd' := mkReadDir (rd_inner rd) (S (rd_pos rd)) (rd_buf rd) false in
            if decide (de_name e = [dot]) then read_dir_next fuel rd'
            else if decide (de_name e = [dot; dot]) then read_dir_next fuel rd'
            else mret (Some (Ok e), rd')
        end in
      if (length (rd_buf rd) <=? rd_pos rd)%nat then
        r ← attempt (d_read_dir (rd_inner rd) 31);
        match r with
        | Ok ([], d) => mret (None, mkReadDir d (rd_pos rd) (rd_buf rd) true)
        | Ok (es, d) => take_one (mkReadDir d 0 es false)
        | Err e => mret (Some (Err e), mkReadDir (rd_inner rd) (rd_pos rd) (rd_buf rd) true)
        end
      else take_one rd
  end.
End fops.
Arguments ReadDir : clear implicits.

(** What the file theorems rely on of a file system: every regular file has a
    content, which [read_at] reads and [write_at] overwrites, filling holes with
    zeros; the size is the length of the content. *)
Definition overwrite (l : list Z) (off : nat) (buf : list Z) : list Z :=
  take off (l ++ replicate (off - length l) 0) ++ buf ++ drop (off + length buf) l.
Class VfsFileLaws (V N F : Type) `{Vfs V N F} := {
  content : V -> N -> option (list Z);
  law_read : forall v n l off len, content v n = Some l -> 0 <= off -> off + Z.of_nat len < 2 ^ 64 ->
    v_read_at n off len v = Ret (Ok (take len (drop (Z.to_nat off) l)), v);
  law_write : forall v n l off buf r v', content v n = Some l -> 0 <= off ->
    Z.of_nat (length l) < 2 ^ 63 -> off + Z.of_nat (length buf) < 2 ^ 63 ->
    v_write_at n off buf v = Ret (Ok r, v') ->
    r = Z.of_nat (length buf) /\ content v' n = Some (overwrite l (Z.to_nat off) buf) /\
    forall n', n' <> n -> content v' n' = content v n';
  law_attr : forall v n l, content v n = Some l ->
    exists a, v_get_attr n v = Ret (Ok a, v) /\ at_size a = Z.of_nat (length l);
}.
