(* ===== verification/FsTheorems.v ===== *)
(** Theorems on the file system layer of [Fs]: mount points, working directory,
    capabilities, cursors, and whole-file reads. *)
From stdpp Require Import functions.
From S2P Require Import Prelude.
From S2P Require Import Errno.
From S2P Require Import Str.
From S2P Require Import Fs.

(** ** Mount points *)

Section mounts.
Context {F : Type}.

(** The mount point matches the path: the code compares whole characters, not
    components. *)
Definition matches (path : str) (mp : str * F) : Prop :=
  starts_with path (drop 1 mp.1) = true /\ (0 < length mp.1 - 1)%nat.

Lemma best_mount_spec path mps i idx m :
  let r := best_mount path mps i idx m in
  (m <= r.2)%nat /\
  (forall j mp, mps !! j = Some mp -> matches path mp -> (length mp.1 - 1 <= r.2)%nat) /\
  (r = (idx, m) \/
   exists j (mp : str * F), mps !! j = Some mp /\ r = ((i + j)%nat, (length mp.1 - 1)%nat) /\ matches path mp).
Proof.
  revert i idx m. induction mps as [|mp mps IH]; intros i idx m; cbn [best_mount]; cbv zeta in *.
  - split_and!; [done|done|by left].
  - destruct (starts_with path (drop 1 mp.1)) eqn:Hs; cbn [andb]; [destruct (Nat.ltb_spec m (length mp.1 - 1)) as [Hm|Hm]|].
    + destruct (IH (S i) i (length mp.1 - 1)%nat) as (H1 & H2 & H3). split_and!; [lia| |].
      * intros [|j] q Hq Hmq; cbn in Hq; [injection Hq as <-; lia|by eapply H2].
      * right. destruct H3 as [H3|(j & q & Hq & Hr & Hmq)].
        -- exists 0%nat, mp. rewrite H3. split_and!; [done|f_equal; lia|split; [done|lia]].
        -- exists (S j), q. rewrite Hr. split_and!; [done|f_equal; lia|done].
    + destruct (IH (S i) idx m) as (H1 & H2 & H3). split_and!; [done| |].
      * intros [|j] q Hq Hmq; cbn in Hq; [injection Hq as <-; lia|by eapply H2].
      * destruct H3 as [H3|(j & q & Hq & Hr & Hmq)]; [by left|right].
        exists (S j), q. rewrite Hr. split_and!; [done|f_equal; lia|done].
    + destruct (IH (S i) idx m) as (H1 & H2 & H3). split_and!; [done| |].
      * intros [|j] q Hq Hmq; cbn in Hq; [injection Hq as <-; destruct Hmq; congruence|by eapply H2].
      * destruct H3 as [H3|(j & q & Hq & Hr & Hmq)]; [by left|right].
        exists (S j), q. rewrite Hr. split_and!; [done|f_equal; lia|done].
Qed.
End mounts.

Section fs_theorems.
Context {V N F : Type} `{Vfs V N F}.

(** The path that is compared with the mount points: outer slashes and leading [./]
    are removed. *)
Fixpoint mount_key (fuel : nat) (path : str) : str :=
  let path := trim_char slash path in
  match fuel, strip_prefix path [dot; slash] with
  | S fuel, Some rest => mount_key fuel rest
  | _, _ => path
  end.

(** C13: [lookup_mounted_fs] always finds a file system, the one mounted at the longest
    mount point that is a prefix of the path, and gives it the rest of the path; if
    no mount point is a prefix it is the main file system. *)
Theorem lookup_mounted_longest (s : Fs V N F) path :
  let key := mount_key (length path) path in
  exists fs rest, lookup_mounted_fs (S (length path)) s path = Some (fs, rest) /\
    ((fs = main_fs s /\ rest = key /\ (forall mp, mp ∈ mounts s -> ~ matches key mp)) \/
     (exists mp, mp ∈ mounts s /\ matches key mp /\ fs = mp.2 /\ key = drop 1 mp.1 ++ rest /\
        forall mp', mp' ∈ mounts s -> matches key mp' -> (length mp'.1 <= length mp.1)%nat)).
Proof.
  cbn zeta. assert (forall fuel path, (length path <= fuel)%nat ->
    lookup_mounted_fs (S fuel) s path =
    let key := mount_key fuel path in
    let '(idx, max_len) := best_mount key (mounts s) 0 0 0 in
    if (max_len =? 0)%nat then Some (main_fs s, key)
    else match mounts s !! idx with Some mp => Some (mp.2, drop max_len key) | None => None end) as Heq.
  { induction fuel as [|fuel IH]; intros p Hp; cbn [lookup_mounted_fs mount_key]; cbv zeta;
      destruct (strip_prefix (trim_char slash p) [dot; slash]) as [rest|] eqn:E; try done.
    - exfalso. destruct p; [|cbn in Hp; lia]. done.
    - rewrite <- IH; [done|]. unfold strip_prefix in E. case_match eqn:Hs; [|done]. injection E as <-.
      apply starts_with_spec in Hs as [s' Hs]. pose proof (trim_char_length slash p) as Hl. rewrite Hs in Hl |- *.
      cbn in Hl |- *. rewrite drop_0. lia. }
  rewrite (Heq (length path) path) by done. cbv zeta. set (key := mount_key _ _).
  destruct (best_mount_spec key (mounts s) 0 0 0) as (H1 & H2 & H3).
  destruct (best_mount key (mounts s) 0 0 0) as [idx m]. cbn in H1, H2, H3.
  destruct (Nat.eqb_spec m 0) as [->|Hm].
  - exists (main_fs s), key. split; [done|]. left. split_and!; [done|done|]. intros mp [j Hj]%list_elem_of_lookup Hmp.
    pose proof (H2 j mp Hj Hmp). destruct Hmp. lia.
  - destruct H3 as [[= -> ->]|(j & mp & Hj & [= -> ->] & Hmp)]; [done|]. rewrite Hj.
    exists mp.2, (drop (length mp.1 - 1) key). split; [done|]. right. exists mp.
    split_and!; [by eapply list_elem_of_lookup_2|done|done| |].
    + destruct Hmp as [Hs _]. apply starts_with_spec in Hs as [s' Hs]. rewrite Hs at 1 2. f_equal.
      rewrite drop_app_length'; [done|]. by rewrite length_drop.
    + intros mp' [j' Hj']%list_elem_of_lookup Hmp'. pose proof (H2 j' mp' Hj' Hmp'). destruct Hmp, Hmp'. lia.
Qed.

(** ** Code that only changes the mounted file systems *)

Notation FsM := (FsM (V := V) (N := N) (F := F)).
Definition vfs_only {A} (m : FsM A) : Prop :=
  forall s r s', m s = Ret (r, s') -> exists v, s' = set_vfs v s.

Lemma vfs_only_same (s : Fs V N F) : exists v, s = set_vfs v s.
Proof. exists (fs_vfs s). by destruct s. Qed.
Lemma vfs_only_ret {A} (a : A) : vfs_only (M_ret a).
Proof. intros s r s' [= <- <-]. apply vfs_only_same. Qed.
Lemma vfs_only_throw {A} e : vfs_only (A := A) (throw e).
Proof. intros s r s' [= <- <-]. apply vfs_only_same. Qed.
Lemma vfs_only_get : vfs_only get.
Proof. intros s r s' [= <- <-]. apply vfs_only_same. Qed.
Lemma vfs_only_bind {A B} (m : FsM A) (k : A -> FsM B) :
  vfs_only m -> (forall a, vfs_only (k a)) -> vfs_only (M_bind k m).
Proof.
  intros Hm Hk s r s'. unfold M_bind. destruct (m s) as [[[a|e] s1]|] eqn:E; [| |done].
  - intros E2. destruct (Hm _ _ _ E) as [v ->]. destruct (Hk a _ _ _ E2) as [v' ->]. by exists v'.
  - intros [= <- <-]. by eapply Hm.
Qed.
Lemma vfs_only_on_vfs {A} (m : M V AxError A) : vfs_only (on_vfs m).
Proof. intros s r s'. unfold on_vfs, zoom. destruct (m (fs_vfs s)) as [[]|]; [|done]. intros [= <- <-]. eauto. Qed.
Lemma vfs_only_attempt {A} (m : FsM A) : vfs_only m -> vfs_only (attempt m).
Proof.
  intros Hm s r s'. unfold attempt. destruct (m s) as [[]|] eqn:E; [|done]. intros [= <- <-]. by eapply Hm.
Qed.
Lemma vfs_only_ensure b e : vfs_only (ensure b e).
Proof. destruct b; [apply vfs_only_ret|apply vfs_only_throw]. Qed.
Lemma vfs_only_unwrap {A} (o : option A) : vfs_only (unwrap o).
Proof. destruct o; [apply vfs_only_ret|done]. Qed.
End fs_theorems.

(** Decides [vfs_only] for a body of binds and branches. *)
Create HintDb vfs_only.
Ltac vfs_only :=
  repeat first
    [ assumption
    | solve [auto with vfs_only nocore]
    | apply vfs_only_ret | apply vfs_only_throw | apply vfs_only_get | apply vfs_only_on_vfs
    | apply vfs_only_ensure | apply vfs_only_unwrap | apply vfs_only_attempt
    | apply vfs_only_bind; [|intros ?]
    | case_match ].

Section fs_cwd.
Context {V N F : Type} `{Vfs V N F}.
Notation FsM := (FsM (V := V) (N := N) (F := F)).

Lemma vfs_only_node_lookup n path : vfs_only (V := V) (N := N) (F := F) (node_lookup n path).
Proof. unfold node_lookup, in_mounted. vfs_only. Qed.
Lemma vfs_only_node_get_attr n : vfs_only (V := V) (N := N) (F := F) (node_get_attr n).
Proof. unfold node_get_attr. vfs_only. Qed.
#[local] Hint Resolve vfs_only_node_lookup vfs_only_node_get_attr : vfs_only.
Lemma vfs_only_fs_lookup dir path : vfs_only (V := V) (N := N) (F := F) (fs_lookup dir path).
Proof. unfold fs_lookup. vfs_only. Qed.

(** ** The working directory *)

(** The root, or a canonical path with a final slash. *)
Definition dir_path (st : list str) : str := render true st ++ (if decide (st = []) then [] else [slash]).
Definition cwd_ok (p : str) : Prop := exists st, Forall name_ok st /\ p = dir_path st.

Lemma cwd_absolute p q : cwd_ok p -> starts_with (p ++ q) [slash] = true.
Proof. intros (st & _ & ->). done. Qed.

Lemma absolute_path_ok (s : Fs V N F) path :
  cwd_ok (current_dir_path s) -> exists st, Forall name_ok st /\ absolute_path path s = render true st.
Proof.
  intros Hc. unfold absolute_path. destruct (starts_with path [slash]) eqn:E.
  - destruct (canonicalize_eq path) as [-> Hn]. rewrite E. eauto.
  - destruct (canonicalize_eq (current_dir_path s ++ path)) as [-> Hn].
    rewrite (cwd_absolute _ path Hc). eauto.
Qed.

Lemma add_slash st : Forall name_ok st ->
  (if ends_with (render true st) [slash] then render true st else render true st ++ [slash]) = dir_path st.
Proof.
  intros Hst. unfold dir_path. destruct st as [|p st _] using rev_ind; [done|].
  rewrite (decide_False (P := st ++ [p] = [])) by (by destruct st).
  apply Forall_app in Hst as [_ Hp]. inversion_clear Hp. destruct (join_last st p) as (t & c & E & Hc); [done|].
  unfold render. rewrite E, app_assoc, ends_with_snoc. by destruct (Ascii.eqb_spec slash c).
Qed.

(** The working directory is always an absolute canonical path with a final
    slash: [set_current_dir] keeps it so, sets it to the normal form of its argument
    when it succeeds, and leaves it alone when it fails. *)
Theorem set_current_dir_correct path (s s' : Fs V N F) r :
  cwd_ok (current_dir_path s) -> set_current_dir path s = Ret (r, s') ->
  cwd_ok (current_dir_path s') /\
  match r with
  | Ok _ => exists st, absolute_path path s = render true st /\ current_dir_path s' = dir_path st
  | Err _ => current_dir_path s' = current_dir_path s /\ current_dir_node s' = current_dir_node s
  end.
Proof.
  intros Hc. destruct (absolute_path_ok s path Hc) as (st & Hst & Ha). unfold set_current_dir. unfold_M.
  rewrite Ha, add_slash by done. assert (cwd_ok (dir_path st)) as Hd by (by exists st).
  case_decide as E.
  - intros [= <- <-]. split; [by exists []|]. exists st. split; [done|]. by symmetry.
  - destruct (fs_lookup None (dir_path st) s) as [[[node|e] s1]|] eqn:E1; [| |done].
    2: { intros [= <- <-]. destruct (vfs_only_fs_lookup _ _ _ _ _ E1) as [v ->]. done. }
    destruct (vfs_only_fs_lookup _ _ _ _ _ E1) as [v ->].
    destruct (node_get_attr node _) as [[[attr|e] s2]|] eqn:E2; [| |done];
      destruct (vfs_only_node_get_attr _ _ _ _ E2) as [v' ->]; [|by intros [= <- <-]].
    destruct (negb _); [by intros [= <- <-]|]. destruct (negb _); [by intros [= <- <-]|].
    intros [= <- <-]. cbn. eauto.
Qed.
End fs_cwd.

(** ** Capabilities *)

Lemma opts_cap_write o : cap_contains (opts_cap o) CAP_WRITE = oo_write o || oo_append o.
Proof. destruct o as [[] [] [] [] ? ? ? ?]; reflexivity. Qed.
Lemma opts_cap_read o : cap_contains (opts_cap o) CAP_READ = oo_read o.
Proof. destruct o as [[] [] [] [] ? ? ? ?]; reflexivity. Qed.

Section files.
Context {V N F : Type} `{Vfs V N F}.
Notation St := (Fs V N F).

Lemma open_file_fields dir path o (s s' : St) f :
  file_open_at dir path o s = Ret (Ok f, s') ->
  oo_is_valid o = true /\ f_cap f = opts_cap o /\ f_is_append f = oo_append o /\ f_offset f = 0.
Proof.
  unfold file_open_at. unfold_M. destruct (oo_is_valid o); [|done].
  repeat (case_match; try done); intros; simplify_eq; done.
Qed.

(** C23: A file opened without write access is never modified: whatever the options and
    the state of the system are later, writing, truncating and flushing it fail with
    [PermissionDenied] and change nothing; a file opened without read access
    cannot be read. *)
Theorem open_mode_enforced dir path o (s0 s1 : St) f :
  file_open_at dir path o s0 = Ret (Ok f, s1) ->
  (oo_write o = false -> oo_append o = false -> forall (s : St) buf size off,
     file_write f buf s = Ret (Err PermissionDenied, s) /\
     file_write_at f off buf s = Ret (Err PermissionDenied, s) /\
     file_truncate f size s = Ret (Err PermissionDenied, s) /\
     file_flush f s = Ret (Err PermissionDenied, s)) /\
  (oo_read o = false -> forall (s : St) off len,
     file_read f len s = Ret (Err PermissionDenied, s) /\
     file_read_at f off len s = Ret (Err PermissionDenied, s)).
Proof.
  intros Ho. destruct (open_file_fields _ _ _ _ _ _ Ho) as (_ & Hc & Ha & _).
  pose proof (opts_cap_write o) as Hw. pose proof (opts_cap_read o) as Hr. rewrite <- Hc in Hw, Hr. split.
  - intros E1 E2 s buf size off. rewrite E1, E2 in Hw. cbn in Hw.
    unfold file_write, file_write_at, file_truncate, file_flush, file_access. unfold_M.
    by rewrite Hw, Ha, E2.
  - intros E s off len. rewrite E in Hr. unfold file_read, file_read_at, file_access. unfold_M. by rewrite Hr.
Qed.

Context `{!VfsFileLaws V N F}.

Lemma overwrite_read l off buf : take (length buf) (drop off (overwrite l off buf)) = buf.
Proof.
  unfold overwrite. assert (length (take off (l ++ replicate (off - length l) 0)) = off) as Hl.
  { rewrite length_take, length_app, length_replicate. lia. }
  rewrite drop_app_length' by done. by rewrite take_app_length.
Qed.

Lemma overwrite_end l buf : overwrite l (length l) buf = l ++ buf.
Proof.
  unfold overwrite. rewrite Nat.sub_diag, app_nil_r. cbn. rewrite firstn_all, drop_ge by lia. by rewrite app_nil_r.
Qed.

(** An open regular file with the given content. *)
Record opened (f : File N) (n : N) (l : list Z) (s : St) : Prop := {
  op_node : f_node f = NFs n;
  op_content : content (fs_vfs s) n = Some l;
  op_size : Z.of_nat (length l) < 2 ^ 63;
  op_offset : 0 <= f_offset f < 2 ^ 63;
}.

Lemma cap_contains_0 c : cap_contains c 0 = true.
Proof. unfold cap_contains. by rewrite Z.land_0_r. Qed.

Lemma get_attr_opened f n l s : opened f n l s ->
  exists a, file_get_attr f s = Ret (Ok a, s) /\ at_size a = Z.of_nat (length l).
Proof.
  intros [Hn Hc _ _]. destruct (law_attr _ _ _ Hc) as (a & Ha & Hs). exists a. split; [|done].
  unfold file_get_attr, file_access. unfold_M. rewrite cap_contains_0, Hn. cbn. unfold on_vfs, zoom.
  rewrite Ha. by destruct s.
Qed.

Lemma file_read_opened f n l s len :
  opened f n l s -> cap_contains (f_cap f) CAP_READ = true -> Z.of_nat len < 2 ^ 63 ->
  let data := take len (drop (Z.to_nat (f_offset f)) l) in
  file_read f len s = Ret (Ok (data, set_offset f (f_offset f +w Z.of_nat (length data))), s).
Proof.
  intros [Hn Hc _ Ho] Hr Hlen. unfold file_read, file_access. unfold_M. rewrite Hr, Hn. cbn. unfold on_vfs, zoom.
  rewrite (law_read _ _ _ _ _ Hc) by lia. by destruct s.
Qed.

(** Where a write goes. *)
Definition write_pos (f : File N) (l : list Z) : Z :=
  if f_is_append f then Z.of_nat (length l) else f_offset f.

Lemma file_write_opened f n l s buf r f' s' :
  opened f n l s -> write_pos f l + Z.of_nat (length buf) < 2 ^ 63 ->
  file_write f buf s = Ret (Ok (r, f'), s') ->
  r = Z.of_nat (length buf) /\ f' = set_offset f (write_pos f l + r) /\
  content (fs_vfs s') n = Some (overwrite l (Z.to_nat (write_pos f l)) buf) /\
  (forall n', n' <> n -> content (fs_vfs s') n' = content (fs_vfs s) n').
Proof.
  intros Hop Hlen. pose proof Hop as [Hn Hc Hs Ho]. unfold file_write, write_pos, file_access in *. unfold_M.
  destruct (get_attr_opened _ _ _ _ Hop) as (a & Ha & Hsz).
  assert (forall off, 0 <= off -> off + Z.of_nat (length buf) < 2 ^ 63 ->
    match (if cap_contains (f_cap f) CAP_WRITE then fun s0 : St => Ret (Ok (f_node f), s0)
           else fun s0 => Ret (Err PermissionDenied, s0)) s with
    | Ret (Ok node, s1) => match node_write_at node off buf s1 with
        | Ret (Ok w, s2) => Ret (Ok (w, set_offset f (off +w w)), s2)
        | Ret (Err e, s2) => Ret (Err e, s2) | Panic => Panic end
    | Ret (Err e, s1) => Ret (Err e, s1) | Panic => Panic end = Ret (Ok (r, f'), s') ->
    r = Z.of_nat (length buf) /\ f' = set_offset f (off + r) /\
    content (fs_vfs s') n = Some (overwrite l (Z.to_nat off) buf) /\
    (forall n', n' <> n -> content (fs_vfs s') n' = content (fs_vfs s) n')) as Hw.
  { intros off Hp Hl. destruct (cap_contains _ _); [|done]. rewrite Hn. cbn. unfold on_vfs, zoom.
    destruct (v_write_at n off buf (fs_vfs s)) as [[[w|e] v']|] eqn:E; [|done..]. intros [= <- <- <-].
    destruct (law_write _ _ _ _ _ _ _ Hc Hp Hs Hl E) as (-> & E2 & E3). cbn. split_and!; try done.
    f_equal. apply wrap_small. lia. }
  destruct (f_is_append f); cbn in Hlen |- *.
  - rewrite Ha, Hsz. intros E. apply Hw; [lia|done|]. exact E.
  - intros E. apply Hw; [lia|done|]. exact E.
Qed.


(** A file opened for appending grows at its end: the bytes written follow the old
    content, whatever the cursor was. *)
Theorem append_writes_at_end f n l (s s' : St) buf r f' :
  opened f n l s -> f_is_append f = true -> Z.of_nat (length l) + Z.of_nat (length buf) < 2 ^ 63 ->
  file_write f buf s = Ret (Ok (r, f'), s') ->
  content (fs_vfs s') n = Some (l ++ buf) /\ f_offset f' = Z.of_nat (length (l ++ buf)).
Proof.
  intros Hop Ha Hlen Hw. assert (write_pos f l = Z.of_nat (length l)) as Hp by (unfold write_pos; by rewrite Ha).
  destruct (file_write_opened _ _ _ _ _ _ _ _ Hop ltac:(by rewrite Hp) Hw) as (-> & -> & Hc & _).
  rewrite Hp in *. rewrite Nat2Z.id, overwrite_end in Hc. split; [done|]. cbn. rewrite length_app. lia.
Qed.

(** The rounds of [read_to_end]: 32 bytes each, and a last empty one. *)
Lemma read_to_end_ok fuel f n l (s : St) acc :
  opened f n l s -> cap_contains (f_cap f) CAP_READ = true ->
  let rest := drop (Z.to_nat (f_offset f)) l in
  (length rest <= 32 * fuel)%nat -> read_to_end (S fuel) f acc s = Ret (Ok (acc ++ rest), s).
Proof.
  revert f acc. induction fuel as [|fuel IH]; intros f acc Hop Hr rest Hl; cbn [read_to_end]; unfold_M;
    rewrite (file_read_opened _ _ _ _ _ Hop) by (done || lia); fold rest.
  - destruct rest; [|cbn in Hl; lia]. by rewrite app_nil_r.
  - case_decide as E; cbn [fst] in E.
    + assert (rest = []) as ->; [|by rewrite app_nil_r]. by destruct rest.
    + set (data := take 32 rest) in *. assert (length data = Nat.min 32 (length rest)) as Hd by apply length_take.
      assert (0 < length rest)%nat by (destruct rest; [by destruct E|cbn; lia]).
      assert (length rest = length l - Z.to_nat (f_offset f))%nat as Hre by apply length_drop.
      pose proof Hop as [H1 H2 H3 H4].
      assert (f_offset f +w Z.of_nat (length data) = f_offset f + Z.of_nat (length data)) as ->.
      { apply wrap_small. lia. }
      specialize (IH (set_offset f (f_offset f + Z.of_nat (length data))) (acc ++ data)). cbn zeta in IH.
      cbn [f_offset set_offset snd fst] in IH |- *.
      assert (drop (Z.to_nat (f_offset f + Z.of_nat (length data))) l = drop 32 rest) as Hdr.
      { unfold rest. rewrite drop_drop. destruct (decide (32 <= length rest)%nat); [f_equal; lia|].
        rewrite !drop_ge by lia. done. }
      rewrite Hdr in IH. etrans; [apply IH|].
      * constructor; [done|done|done|cbn; lia].
      * done.
      * rewrite length_drop. lia.
      * rewrite <- app_assoc. unfold data. by rewrite take_drop.
Qed.

(** [read_to_end] terminates and returns the whole file: a file of [len] bytes needs
    [len / 32 + 2] reads. *)
Theorem read_to_end_whole f n l (s : St) :
  opened f n l s -> cap_contains (f_cap f) CAP_READ = true -> f_offset f = 0 ->
  read_to_end (length l / 32 + 2) f [] s = Ret (Ok l, s).
Proof.
  intros Hop Hr Ho. replace (length l / 32 + 2)%nat with (S (length l / 32 + 1)) by lia.
  rewrite (read_to_end_ok _ _ _ _ _ _ Hop Hr); rewrite Ho; [done|]. cbn [Z.to_nat]. rewrite drop_0.
  pose proof (Nat.div_mod_eq (length l) 32). pose proof (Nat.mod_upper_bound (length l) 32). lia.
Qed.
End files.
