(* ===== verification/Ramfs.v ===== *)
(** The RAM file system (src/vendor/axfs_ramfs), which is mounted at /tmp and, filled
    by axfs/src/mounts.rs, at /proc and /sys: an implementation of the interface [Vfs]
    that satisfies its file laws. Nodes live in a heap indexed by numbers. *)
From S2P Require Import Prelude.
From S2P Require Import Errno.
From S2P Require Import Str.
From S2P Require Import Fs.
From S2P Require Import FsTheorems.

(** [FileNode] with its content; [DirNode] with its parent and the [BTreeMap] of its
    children, in the order of their names. *)
Inductive RNode := FileNode (content : list Z) | DirNode (parent : option Z) (children : list (str * Z)).
Record RamHeap := mkRamHeap { h_nodes : gmap Z RNode; h_next : Z }.

Definition set_node (n : Z) (x : RNode) (h : RamHeap) : RamHeap := mkRamHeap (<[n := x]> (h_nodes h)) (h_next h).

(** The order of names: that of their bytes. *)
Fixpoint str_lt (a b : str) : bool :=
  match a, b with
  | [], [] => false
  | [], _ => true
  | _, [] => false
  | c :: a', d :: b' =>
      let x := Ascii.nat_of_ascii c in let y := Ascii.nat_of_ascii d in
      if (x <? y)%nat then true else if (y <? x)%nat then false else str_lt a' b'
  end.
Definition child (name : str) (cs : list (str * Z)) : option Z :=
  match list_find (fun c => c.1 = name) cs with Some (_, c) => Some c.2 | None => None end.
Fixpoint add_child (name : str) (n : Z) (cs : list (str * Z)) : list (str * Z) :=
  match cs with
  | [] => [(name, n)]
  | c :: cs' => if str_lt name c.1 then (name, n) :: cs else c :: add_child name n cs'
  end.

(** [split_path]. *)
Definition split_path (path : str) : str * option str :=
  let t := trim_start_char slash path in
  match find_char slash t with
  | None => (t, None)
  | Some n => (take n t, Some (drop (S n) t))
  end.
Definition is_dots (name : str) : bool :=
  bool_decide (name = []) || bool_decide (name = [dot]) || bool_decide (name = [dot; dot]).

Definition RM (A : Type) : Type := M RamHeap AxError A.
Definition get_node (n : Z) : RM RNode := h ← get; unwrap (h_nodes h !! n).

(** The walk of [lookup], [create] and [remove]: the next node for a component. *)
Definition walk_step (n : Z) (parent : option Z) (cs : list (str * Z)) (name : str) : RM Z :=
  if decide (name = [] \/ name = [dot]) then mret n
  else if decide (name = [dot; dot]) then ok_or parent NotFound
  else ok_or (child name cs) NotFound.

(** [lookup]; each component shortens the path. *)
Fixpoint r_lookup (fuel : nat) (n : Z) (path : str) : RM Z :=
  match fuel with
  | O => panic
  | S fuel =>
      x ← get_node n;
      match x with
      | FileNode _ => throw NotADirectory
      | DirNode parent cs =>
          let '(name, rest) := split_path path in
          n' ← walk_step n parent cs name;
          match rest with Some rest => r_lookup fuel n' rest | None => mret n' end
      end
  end.

(** [DirNode::create_node] in directory [n]. *)
Definition create_node (n : Z) (name : str) (ty : VfsNodeType) : RM unit := fun h =>
  match h_nodes h !! n with
  | Some (DirNode parent cs) =>
      match child name cs with
      | Some _ => Ret (Err AlreadyExists, h)
      | None =>
          let new := match ty with
                     | TFile => Some (FileNode [])
                     | TDir => Some (DirNode (Some n) [])
                     | _ => None
                     end in
          match new with
          | None => Ret (Err Unsupported, h)
          | Some x =>
              Ret (Ok tt, mkRamHeap (<[h_next h := x]> (<[n := DirNode parent (add_child name (h_next h) cs)]> (h_nodes h)))
                            (h_next h + 1))
          end
      end
  | _ => Panic
  end.
Fixpoint r_create (fuel : nat) (n : Z) (path : str) (ty : VfsNodeType) : RM unit :=
  match fuel with
  | O => panic
  | S fuel =>
      x ← get_node n;
      match x with
      | FileNode _ => throw NotADirectory
      | DirNode parent cs =>
          let '(name, rest) := split_path path in
          match rest with
          | Some rest => n' ← walk_step n parent cs name; r_create fuel n' rest ty
          | None => if is_dots name then mret tt else create_node n name ty
          end
      end
  end.

(** [DirNode::remove_node]. *)
Definition remove_node (n : Z) (name : str) : RM unit := fun h =>
  match h_nodes h !! n with
  | Some (DirNode parent cs) =>
      match child name cs with
      | None => Ret (Err NotFound, h)
      | Some c =>
          match h_nodes h !! c with
          | Some (DirNode _ (_ :: _)) => Ret (Err DirectoryNotEmpty, h)
          | _ => Ret (Ok tt, set_node n (DirNode parent (filter (fun c => c.1 <> name) cs)) h)
          end
      end
  | _ => Panic
  end.
Fixpoint r_remove (fuel : nat) (n : Z) (path : str) : RM unit :=
  match fuel with
  | O => panic
  | S fuel =>
      x ← get_node n;
      match x with
      | FileNode _ => throw NotADirectory
      | DirNode parent cs =>
          let '(name, rest) := split_path path in
          match rest with
          | Some rest => n' ← walk_step n parent cs name; r_remove fuel n' rest
          | None => if is_dots name then throw InvalidInput else remove_node n name
          end
      end
  end.

(** [get_attr]: files are 0o666, directories 0o755 and of size 4096. *)
Definition r_get_attr (n : Z) : RM VfsNodeAttr :=
  x ← get_node n;
  mret match x with
       | FileNode l => mkAttr 438 TFile (Z.of_nat (length l)) 0
       | DirNode _ _ => mkAttr 493 TDir 4096 0
       end.

(** [FileNode::read_at], [write_at] and [truncate]; the ends are computed modulo 2^64
    and a range that is not in order panics. *)
Definition r_read_at (n off : Z) (len : nat) : RM (list Z) :=
  x ← get_node n;
  match x with
  | FileNode l =>
      let size := Z.of_nat (length l) in
      let start := Z.min size off in
      let end_ := Z.min size (off +w Z.of_nat len) in
      if end_ <? start then panic else mret (take (Z.to_nat (end_ - start)) (drop (Z.to_nat start) l))
  | DirNode _ _ => throw IsADirectory
  end.
Definition r_resize (l : list Z) (size : Z) : list Z :=
  if size <? Z.of_nat (length l) then take (Z.to_nat size) l
  else l ++ replicate (Z.to_nat size - length l) 0.
Definition r_write_at (n off : Z) (buf : list Z) : RM Z :=
  x ← get_node n;
  match x with
  | FileNode l =>
      let end_ := off +w Z.of_nat (length buf) in
      let l1 := if Z.of_nat (length l) <? end_ then r_resize l end_ else l in
      if (end_ <? off) || (Z.of_nat (length l1) <? end_) then panic
      else
        _ ← modify (set_node n (FileNode
              (take (Z.to_nat off) l1 ++ buf ++ drop (Z.to_nat end_) l1)));
        mret (Z.of_nat (length buf))
  | DirNode _ _ => throw IsADirectory
  end.
Definition r_truncate (n size : Z) : RM unit :=
  x ← get_node n;
  match x with
  | FileNode l => modify (set_node n (FileNode (r_resize l size)))
  | DirNode _ _ => throw IsADirectory
  end.

(** [DirNode::read_dir]: entries [start, start + len) of [.], [..] and the children. *)
Definition r_read_dir (n start : Z) (len : nat) : RM (list VfsDirEntry) :=
  x ← get_node n;
  h ← get;
  match x with
  | FileNode _ => throw NotADirectory
  | DirNode _ cs =>
      let ty c := match h_nodes h !! c with Some (FileNode _) => TFile | _ => TDir end in
      let all := ([dot], TDir) :: ([dot; dot], TDir) :: ((fun c => (c.1, ty c.2)) <$> cs) in
      dir_entries_new (take len (drop (Z.to_nat start) all))
  end.

(** [RamFileSystem::mount]: the parent of the root becomes that of the mount point. *)
Definition r_mount (fs : Z) (path : str) (point : Z) : RM unit :=
  x ← get_node point;
  r ← get_node fs;
  match r with
  | DirNode _ cs =>
      modify (set_node fs (DirNode (match x with DirNode p _ => p | FileNode _ => None end) cs))
  | FileNode _ => panic
  end.

#[export] Instance ramfs_vfs : Vfs RamHeap Z Z := {
  v_root_dir := fun fs => fs;
  v_mount := r_mount;
  v_open := fun _ => mret tt;
  v_get_attr := r_get_attr;
  v_read_at := r_read_at;
  v_write_at := r_write_at;
  v_fsync := fun n => x ← get_node n; match x with FileNode _ => throw InvalidInput | _ => throw IsADirectory end;
  v_truncate := r_truncate;
  v_lookup := fun n path => r_lookup (S (length path)) n path;
  v_create := fun n path ty => r_create (S (length path)) n path ty;
  v_remove := fun n path => r_remove (S (length path)) n path;
  v_rename := fun _ _ _ => throw Unsupported;
  v_read_dir := r_read_dir;
}.

(** A new file system in the heap: its root. *)
Definition ramfs_new : RamHeap -> Z * RamHeap := fun h =>
  (h_next h, mkRamHeap (<[h_next h := DirNode None []]> (h_nodes h)) (h_next h + 1)).

(** A text as bytes. *)
Definition text (s : string) : list Z := (fun c => Z.of_nat (Ascii.nat_of_ascii c)) <$> lit s.
Definition mk (root : Z) (path : string) (ty : VfsNodeType) : RM unit := v_create root (lit path) ty.
Definition mk_file (root : Z) (path content : string) : RM unit :=
  _ ← mk root path TFile;
  n ← v_lookup root (lit path);
  _ ← v_write_at n 0 (text content); mret tt.

(** The contents of /proc and /sys (mounts.rs); the texts end with a newline. *)
Definition newline : string := String (Ascii.ascii_of_nat 10) EmptyString.
Definition procfs (root : Z) : RM unit :=
  _ ← mk root "sys" TDir; _ ← mk root "sys/net" TDir; _ ← mk root "sys/net/core" TDir;
  _ ← mk_file root "sys/net/core/somaxconn" ("4096" ++ newline);
  _ ← mk root "sys/vm" TDir;
  _ ← mk_file root "sys/vm/overcommit_memory" ("0" ++ newline);
  _ ← mk root "self" TDir; mk root "self/stat" TFile.
Definition sysfs (root : Z) : RM unit :=
  _ ← mk root "kernel" TDir; _ ← mk root "kernel/mm" TDir;
  _ ← mk root "kernel/mm/transparent_hugepage" TDir;
  _ ← mk_file root "kernel/mm/transparent_hugepage/enabled" ("always [madvise] never" ++ newline);
  _ ← mk root "devices" TDir; _ ← mk root "devices/system" TDir;
  _ ← mk root "devices/system/clocksource" TDir;
  _ ← mk root "devices/system/clocksource/clocksource0" TDir;
  mk_file root "devices/system/clocksource/clocksource0/current_clocksource" ("tsc" ++ newline).

(** ** The file laws *)

Definition r_content (h : RamHeap) (n : Z) : option (list Z) :=
  match h_nodes h !! n with Some (FileNode l) => Some l | _ => None end.

Lemma r_content_node h n l : r_content h n = Some l -> h_nodes h !! n = Some (FileNode l).
Proof. unfold r_content. repeat case_match; congruence. Qed.

Lemma r_overwrite (l buf : list Z) off :
  0 <= off -> let end_ := off + Z.of_nat (length buf) in
  let l1 := if Z.of_nat (length l) <? end_ then r_resize l end_ else l in
  take (Z.to_nat off) l1 ++ buf ++ drop (Z.to_nat end_) l1 = overwrite l (Z.to_nat off) buf.
Proof.
  intros Ho end_ l1. unfold overwrite. replace (Z.to_nat end_) with (Z.to_nat off + length buf)%nat by lia.
  unfold l1, r_resize. destruct (Z.ltb_spec (Z.of_nat (length l)) end_) as [Hlt|Hge].
  - rewrite (proj2 (Z.ltb_ge _ _)) by lia.
    replace (Z.to_nat end_) with (Z.to_nat off + length buf)%nat by lia.
    rewrite !(drop_ge _ (Z.to_nat off + length buf)) by (rewrite ?length_app, ?length_replicate; lia).
    f_equal. rewrite !take_app. f_equal.
    rewrite !take_replicate. f_equal. lia.
  - replace (Z.to_nat off - length l)%nat with 0%nat by lia. cbn. by rewrite app_nil_r.
Qed.

#[export] Program Instance ramfs_laws : VfsFileLaws RamHeap Z Z := { content := r_content }.
Next Obligation.
  intros h n l off len Hc Ho Hb. cbn. unfold r_read_at, get_node. unfold_M.
  rewrite (r_content_node _ _ _ Hc). cbn. unfold wadd. rewrite wrap_small by lia.
  rewrite (proj2 (Z.ltb_ge _ _)) by lia. do 3 f_equal.
  destruct (decide (off <= Z.of_nat (length l))) as [Hle|Hgt].
  - rewrite (Z.min_r (Z.of_nat (length l)) off) by done.
    destruct (decide (off + Z.of_nat len <= Z.of_nat (length l))).
    + f_equal. lia.
    + rewrite !take_ge; [done|rewrite length_drop; lia..].
  - rewrite !drop_ge by lia. by rewrite !take_nil.
Qed.
Next Obligation.
  intros h n l off buf r h' Hc Ho Hl Hb. cbn. unfold r_write_at, get_node. unfold_M.
  rewrite (r_content_node _ _ _ Hc). cbn. unfold wadd. rewrite wrap_small by lia.
  case_match eqn:E; [done|]. intros [= <- <-]. split; [done|]. rewrite r_overwrite by done. split.
  - unfold r_content. cbn. by rewrite lookup_insert_eq.
  - intros n' Hn. unfold r_content. cbn. by rewrite lookup_insert_ne.
Qed.
Next Obligation.
  intros h n l Hc. cbn. unfold r_get_attr, get_node. unfold_M. rewrite (r_content_node _ _ _ Hc). cbn. eauto.
Qed.

(** ** A system with RAM file systems *)

Module FsDemo.
(** Five file systems: the main one, and those of /dev, /tmp, /proc and /sys. *)
Definition heap : RamHeap :=
  mkRamHeap (list_to_map ((fun n => (n, DirNode None [])) <$> [0; 1; 2; 3; 4])) 5.
Definition filled : RamHeap :=
  match (_ ← procfs 3; sysfs 4) heap with Ret (_, h) => h | Panic => heap end.
Definition none : Fs RamHeap Z Z := mkFs 0 [] NRoot [] heap.
Definition booted : Fs RamHeap Z Z :=
  match init_rootfs 0 1 2 3 4 filled with Ret s => s | Panic => none end.
Definition opts_rw : OpenOptions := mkOpts true true false false false true false false.
Definition opts_app : OpenOptions := mkOpts false true false true false true false false.
(** A file of 5 bytes opened for reading and writing, and for appending. *)
Definition made : Fs RamHeap Z Z :=
  match api_write ($"/tmp/log") (text "hello") booted with Ret (_, s) => s | Panic => none end.
Definition node : Z := 26.
Definition rw : File Z := mkFile (NFs node) 3 false 2.
Definition app : File Z := mkFile (NFs node) 2 true 0.
Definition state_after {A} (r : outcome (result A AxError * Fs RamHeap Z Z)) : Fs RamHeap Z Z :=
  match r with Ret (_, s) => s | Panic => none end.
End FsDemo.

(** The file systems of a booted kernel: /proc and /sys are populated and mounted,
    and a file can be read through its path. *)
Example boot_reads_proc :
  is_ok (match api_read 4 ($"/proc/sys/net/core/somaxconn") FsDemo.booted with Ret (r, _) => r | Panic => Err Io end)
    = true /\
  api_read 4 ($"/proc//./sys/net/core/somaxconn") FsDemo.booted = Ret (Ok (text ("4096" ++ newline)), FsDemo.booted).
Proof. vm_compute. split; reflexivity. Qed.

Lemma demo_opened off cap app : 0 <= off < 2 ^ 63 ->
  opened (mkFile (NFs FsDemo.node) cap app off) FsDemo.node (text "hello") FsDemo.made.
Proof. constructor; [done|vm_compute; reflexivity|vm_compute; reflexivity|done]. Qed.

Lemma set_current_dir_correct_witness :
  cwd_ok (current_dir_path (FsDemo.state_after (set_current_dir ($"/proc/sys/./vm/../net") FsDemo.booted))).
Proof.
  pose (s' := FsDemo.state_after (set_current_dir ($"/proc/sys/./vm/../net") FsDemo.booted)).
  apply (set_current_dir_correct ($"/proc/sys/./vm/../net") FsDemo.booted s' (Ok tt)).
  - exists []. split; [constructor|vm_compute; reflexivity].
  - vm_compute. reflexivity.
Defined.

Lemma open_mode_enforced_witness :
  exists f : File Z, forall (s : Fs RamHeap Z Z) buf, file_write f buf s = Ret (Err PermissionDenied, s).
Proof.
  exists (mkFile (NFs 8) 1 false 0). intros s buf.
  refine (proj1 (proj1 (open_mode_enforced None ($"/proc/sys/net/core/somaxconn") opts_read
    FsDemo.booted FsDemo.booted (mkFile (NFs 8) 1 false 0) _) eq_refl eq_refl s buf 0 0)).
  vm_compute. reflexivity.
Defined.


Lemma append_writes_at_end_witness :
  exists s', file_write FsDemo.app (text "!") FsDemo.made = Ret (Ok (1, mkFile (NFs FsDemo.node) 2 true 6), s') /\
    content (fs_vfs s') FsDemo.node = Some (text "hello!").
Proof.
  assert (exists s', file_write FsDemo.app (text "!") FsDemo.made = Ret (Ok (1, mkFile (NFs FsDemo.node) 2 true 6), s'))
    as [s' E] by (eexists; vm_compute; reflexivity).
  exists s'. split; [exact E|].
  exact (proj1 (append_writes_at_end FsDemo.app FsDemo.node (text "hello") FsDemo.made s' (text "!") 1
    (mkFile (NFs FsDemo.node) 2 true 6) (demo_opened 0 2 true ltac:(lia)) eq_refl eq_refl E)).
Defined.

Lemma read_to_end_whole_witness :
  read_to_end 2 (mkFile (NFs FsDemo.node) 1 false 0) [] FsDemo.made = Ret (Ok (text "hello"), FsDemo.made).
Proof.
  exact (read_to_end_whole (mkFile (NFs FsDemo.node) 1 false 0) FsDemo.node (text "hello") FsDemo.made
    (demo_opened 0 1 false ltac:(lia)) eq_refl eq_refl).
Defined.

(** A path that only begins with the characters of a mount point is taken to be inside
    it: a file /devices of the main file system cannot be reached once /dev is
    mounted. *)
Example mount_prefix_of_name :
  lookup_mounted_fs 20 FsDemo.booted ($"/devices/cpu") = Some (1, $"ices/cpu").
Proof. vm_compute. reflexivity. Qed.
