(* ===== verification/Disk.v ===== *)
(** The disk with a cursor of axfs/src/dev.rs, which turns the blocks of a device into a
    byte stream, and the readers, writers and seeks that the FAT and ext4 adapters
    (axfs/src/fs/fatfs.rs, lwext4_rust.rs) build from it. A block device is an interface
    with its documented behaviour; the RAM disk of axdriver_block implements it. *)
From S2P Require Import Prelude.
From S2P Require Import Fs.

(** [DevError]. *)
Inductive DevError :=
| DE_AlreadyExists | DE_Again | DE_BadState | DE_InvalidParam | DE_Io | DE_NoMemory
| DE_ResourceBusy | DE_Unsupported.

Abbreviation BLOCK_SIZE := 512.

(** [BlockDriverOps]: [read_block] fills a buffer of the given length. *)
Class BlockDevice (D : Type) := {
  num_blocks : D -> Z;
  block_size : D -> Z;
  read_block : Z -> Z -> D -> result (list Z) DevError * D;
  write_block : Z -> list Z -> D -> result unit DevError * D;
}.

(** What the documentation of a block device promises: its blocks are the bytes
    [bd_bytes]; a block inside the device is read and written, one outside is an
    error. *)
Class BlockDeviceLaws (D : Type) `{BlockDevice D} := {
  bd_bytes : D -> bytes;
  bd_wf : D -> Prop;
  bd_size d : bd_wf d -> 0 <= num_blocks d /\ num_blocks d * BLOCK_SIZE < USIZE;
  bd_block_size d : block_size d = BLOCK_SIZE;
  bd_read id d : bd_wf d -> 0 <= id < num_blocks d ->
    exists d', read_block id BLOCK_SIZE d = (Ok (mem_read (id * BLOCK_SIZE) 512 (bd_bytes d)), d') /\
      bd_wf d' /\ num_blocks d' = num_blocks d /\ (forall p, bd_bytes d' p = bd_bytes d p);
  bd_write id data d : bd_wf d -> 0 <= id < num_blocks d -> length data = 512%nat ->
    exists d', write_block id data d = (Ok tt, d') /\ bd_wf d' /\ num_blocks d' = num_blocks d /\
      (forall p, bd_bytes d' p = mem_write (id * BLOCK_SIZE) data (bd_bytes d) p);
  bd_read_end id d : bd_wf d -> num_blocks d <= id -> id * BLOCK_SIZE + BLOCK_SIZE < USIZE ->
    exists e d', read_block id BLOCK_SIZE d = (Err e, d');
}.

Section disk.
Context {D : Type} `{BlockDevice D}.

(** [Disk]. *)
Record Disk := mkDisk { block_id : Z; d_offset : Z; dev : D }.

(** [Disk::new]: the [assert_eq!] on the block size. *)
Definition disk_new (d : D) : outcome Disk :=
  if block_size d =? BLOCK_SIZE then Ret (mkDisk 0 0 d) else Panic.

(** [size], [position], [set_position]. *)
Definition disk_size (d : Disk) : Z := wrap (num_blocks (dev d) * BLOCK_SIZE).
Definition position (d : Disk) : Z := wrap (block_id d * BLOCK_SIZE) +w d_offset d.
Definition set_position (pos : Z) (d : Disk) : Disk :=
  mkDisk (pos / BLOCK_SIZE) (pos mod BLOCK_SIZE) (dev d).

(** Calls of the device. *)
Definition dev_read_block (id : Z) : M Disk DevError (list Z) := fun d =>
  let '(r, d') := read_block id BLOCK_SIZE (dev d) in Ret (r, mkDisk (block_id d) (d_offset d) d').
Definition dev_write_block (id : Z) (data : list Z) : M Disk DevError unit := fun d =>
  let '(r, d') := write_block id data (dev d) in Ret (r, mkDisk (block_id d) (d_offset d) d').

(** The cursor after a whole block, and after a part of a block. *)
Definition next_block (d : Disk) : Disk := mkDisk (block_id d +w 1) (d_offset d) (dev d).
Definition advance (count : Z) (d : Disk) : Disk :=
  let offset := d_offset d +w count in
  if BLOCK_SIZE <=? offset then mkDisk (block_id d +w 1) (offset -w BLOCK_SIZE) (dev d)
  else mkDisk (block_id d) offset (dev d).

(** [read_one] returns the number of bytes read and the buffer. *)
Definition read_one (buf : list Z) : M Disk DevError (Z * list Z) :=
  d ← get;
  if (d_offset d =? 0) && (BLOCK_SIZE <=? Z.of_nat (length buf)) then
    data ← dev_read_block (block_id d);
    _ ← modify next_block;
    mret (BLOCK_SIZE, overlay 0 data buf)
  else
    let start := d_offset d in
    let count := Z.min (Z.of_nat (length buf)) (BLOCK_SIZE -w d_offset d) in
    data ← dev_read_block (block_id d);
    _ ← assert_ (start + count <=? BLOCK_SIZE);
    _ ← modify (advance count);
    mret (count, overlay 0 (take (Z.to_nat count) (drop (Z.to_nat start) data)) buf).

(** [write_one] returns the number of bytes written. *)
Definition write_one (buf : list Z) : M Disk DevError Z :=
  d ← get;
  if (d_offset d =? 0) && (BLOCK_SIZE <=? Z.of_nat (length buf)) then
    _ ← dev_write_block (block_id d) (take 512 buf);
    _ ← modify next_block;
    mret BLOCK_SIZE
  else
    let start := d_offset d in
    let count := Z.min (Z.of_nat (length buf)) (BLOCK_SIZE -w d_offset d) in
    data ← dev_read_block (block_id d);
    _ ← assert_ (start + count <=? BLOCK_SIZE);
    _ ← dev_write_block (block_id d) (overlay start (take (Z.to_nat count) buf) data);
    _ ← modify (advance count);
    mret count.

(** [read_offset], [write_offset]. *)
Definition read_offset (offset : Z) : M Disk DevError (list Z) := fun d =>
  match dev_read_block (offset / BLOCK_SIZE) d with
  | Ret (Err _, _) => Panic
  | r => r
  end.
Definition write_offset (offset : Z) (buf : list Z) : M Disk DevError Z := fun d =>
  if negb (Z.of_nat (length buf) =? BLOCK_SIZE) then Panic else
  if negb (offset mod BLOCK_SIZE =? 0) then Panic else
  match dev_write_block (offset / BLOCK_SIZE) buf d with
  | Ret (Ok _, d') => Ret (Ok (Z.of_nat (length buf)), d')
  | Ret (Err _, _) => Panic
  | Panic => Panic
  end.

(** ** The adapters of the file systems *)

(** The [while !buf.is_empty()] loops of the two adapters, which differ in the error
    they return; [None] when the fuel is used up. *)
Fixpoint disk_read_loop {E} (err : E) (fuel : nat) (buf : list Z) (d : Disk)
  : option (outcome (result (Z * list Z) E * Disk)) :=
  match fuel with
  | O => None
  | S fuel' =>
      match buf with
      | [] => Some (Ret (Ok (0, []), d))
      | _ =>
          match read_one buf d with
          | Panic => Some Panic
          | Ret (Err _, d') => Some (Ret (Err err, d'))
          | Ret (Ok (n, buf'), d') =>
              if n =? 0 then Some (Ret (Ok (0, buf'), d')) else
              match disk_read_loop err fuel' (drop (Z.to_nat n) buf') d' with
              | Some (Ret (Ok (k, rest), d'')) =>
                  Some (Ret (Ok (n +w k, take (Z.to_nat n) buf' ++ rest), d''))
              | r => r
              end
          end
      end
  end.
Fixpoint disk_write_loop {E} (err : E) (fuel : nat) (buf : list Z) (d : Disk)
  : option (outcome (result Z E * Disk)) :=
  match fuel with
  | O => None
  | S fuel' =>
      match buf with
      | [] => Some (Ret (Ok 0, d))
      | _ =>
          match write_one buf d with
          | Panic => Some Panic
          | Ret (Err _, d') => Some (Ret (Err err, d'))
          | Ret (Ok n, d') =>
              if n =? 0 then Some (Ret (Ok 0, d')) else
              match disk_write_loop err fuel' (drop (Z.to_nat n) buf) d' with
              | Some (Ret (Ok k, d'')) => Some (Ret (Ok (n +w k), d''))
              | r => r
              end
          end
      end
  end.

(** [Read for Disk], [Write for Disk], [Seek for Disk] of fatfs.rs. *)
Definition fat_read (fuel : nat) := disk_read_loop tt fuel.
Definition fat_write (fuel : nat) := disk_write_loop tt fuel.
Definition fat_seek (pos : SeekFrom) (d : Disk) : result Z unit * Disk :=
  let new_pos := match pos with
                 | SeekStart p => Some p
                 | SeekCurrent off => checked_add_signed (position d) off
                 | SeekEnd off => checked_add_signed (disk_size d) off
                 end in
  match new_pos with
  | Some p => (Ok p, set_position p d)
  | None => (Err tt, d)
  end.

(** [KernelDevOp for Disk] of lwext4_rust.rs; an unknown [whence] is [SEEK_SET]. *)
Definition ext4_read (fuel : nat) := disk_read_loop (-1) fuel.
Definition ext4_write (fuel : nat) := disk_write_loop (-1) fuel.
Definition ext4_seek (off whence : Z) (d : Disk) : result Z Z * Disk :=
  let w := as_u32 whence in
  let new_pos := if w =? 1 then as_i64 <$> checked_add_signed (position d) off
                 else if w =? 2 then as_i64 <$> checked_add_signed (disk_size d) off
                 else Some off in
  match new_pos with
  | Some p => (Ok p, set_position (wrap p) d)
  | None => (Err (-1), d)
  end.
End disk.
Arguments Disk : clear implicits.

(** * The RAM disk *)

(** [RamDisk]. *)
Record RamDisk := mkRamDisk { rd_size : Z; rd_data : list Z }.

(** [align_up] of ramdisk.rs; [RamDisk::new]. *)
Definition block_align_up (val : Z) : Z := Z.land ((val +w BLOCK_SIZE) -w 1) (not64 (BLOCK_SIZE - 1)).
Definition ramdisk_new (size_hint : Z) : RamDisk :=
  let size := block_align_up size_hint in mkRamDisk size (replicate (Z.to_nat size) 0).

(** [read_block], [write_block]; the size is checked before the length. *)
Definition ramdisk_check (block_id len : Z) (d : RamDisk) : result Z DevError :=
  let offset := wrap (block_id * BLOCK_SIZE) in
  if rd_size d <? offset +w len then Err DE_Io else
  if negb (len mod BLOCK_SIZE =? 0) then Err DE_InvalidParam else Ok offset.
Definition ramdisk_read_block (block_id len : Z) (d : RamDisk) : result (list Z) DevError * RamDisk :=
  match ramdisk_check block_id len d with
  | Ok offset => (Ok (take (Z.to_nat len) (drop (Z.to_nat offset) (rd_data d))), d)
  | Err e => (Err e, d)
  end.
Definition ramdisk_write_block (block_id : Z) (buf : list Z) (d : RamDisk) : result unit DevError * RamDisk :=
  match ramdisk_check block_id (Z.of_nat (length buf)) d with
  | Ok offset => (Ok tt, mkRamDisk (rd_size d) (overlay offset buf (rd_data d)))
  | Err e => (Err e, d)
  end.

#[export] Instance RamDisk_dev : BlockDevice RamDisk := {|
  num_blocks d := rd_size d / BLOCK_SIZE;
  block_size _ := BLOCK_SIZE;
  read_block := ramdisk_read_block;
  write_block := ramdisk_write_block;
|}.

(** * Properties *)

Lemma mem_read_ext pa n m m' :
  (forall i, (i < n)%nat -> m (pa + Z.of_nat i) = m' (pa + Z.of_nat i)) -> mem_read pa n m = mem_read pa n m'.
Proof.
  intros E. apply list_eq. intros i. destruct (decide (i < n)%nat).
  - rewrite !mem_read_lookup by done. f_equal. by apply E.
  - by rewrite !lookup_ge_None_2 by (rewrite mem_read_length; lia).
Qed.

Lemma mem_read_app pa n k m :
  mem_read pa (n + k) m = mem_read pa n m ++ mem_read (pa + Z.of_nat n) k m.
Proof.
  apply list_eq. intros i. destruct (decide (i < n)%nat).
  - rewrite lookup_app_l by (rewrite mem_read_length; lia). by rewrite !mem_read_lookup by lia.
  - rewrite lookup_app_r, mem_read_length by (rewrite mem_read_length; lia). destruct (decide (i < n + k)%nat).
    + rewrite !mem_read_lookup by lia. f_equal. f_equal. lia.
    + by rewrite !lookup_ge_None_2 by (rewrite mem_read_length; lia).
Qed.

Lemma mem_read_take_drop pa n m s k :
  (s + k <= n)%nat -> take k (drop s (mem_read pa n m)) = mem_read (pa + Z.of_nat s) k m.
Proof.
  intros Hle. replace n with (s + (k + (n - s - k)))%nat by lia. rewrite !mem_read_app.
  rewrite drop_app_length' by (by rewrite mem_read_length).
  by rewrite take_app_length' by (by rewrite mem_read_length).
Qed.

(** Two adjacent writes are one. *)
Lemma mem_write_app pa b1 b2 m a :
  mem_write (pa + Z.of_nat (length b1)) b2 (mem_write pa b1 m) a = mem_write pa (b1 ++ b2) m a.
Proof.
  unfold mem_write. rewrite length_app.
  destruct (Z.leb_spec pa a), (Z.leb_spec (pa + Z.of_nat (length b1)) a),
    (Z.ltb_spec a (pa + Z.of_nat (length b1))),
    (Z.ltb_spec a (pa + Z.of_nat (length b1) + Z.of_nat (length b2))),
    (Z.ltb_spec a (pa + Z.of_nat (length b1 + length b2))); cbn; try lia; try done.
  - rewrite lookup_app_r by lia. do 2 f_equal. lia.
  - by rewrite lookup_app_l by lia.
Qed.

Lemma mem_write_ext pa buf m m' a : m a = m' a -> mem_write pa buf m a = mem_write pa buf m' a.
Proof. intros E. unfold mem_write. by rewrite E. Qed.

(** Overwriting a part of a block that was read changes just that part. *)
Lemma mem_write_overlay pa s src m a n :
  0 <= s -> (Z.to_nat s + length src <= n)%nat ->
  mem_write pa (overlay s src (mem_read pa n m)) m a = mem_write (pa + s) src m a.
Proof.
  intros Hs Hle. assert (Hlen : length (overlay s src (mem_read pa n m)) = n).
  { unfold overlay. rewrite !length_app, length_take, length_drop, mem_read_length. lia. }
  unfold mem_write. rewrite Hlen.
  destruct (Z.leb_spec pa a), (Z.ltb_spec a (pa + Z.of_nat n)), (Z.leb_spec (pa + s) a),
    (Z.ltb_spec a (pa + s + Z.of_nat (length src))); cbn; try lia; try done; unfold overlay.
  - rewrite lookup_app_r, length_take, mem_read_length by (rewrite length_take, mem_read_length; lia).
    rewrite lookup_app_l by lia. do 2 f_equal. lia.
  - rewrite lookup_app_r, length_take, mem_read_length by (rewrite length_take, mem_read_length; lia).
    rewrite lookup_app_r, lookup_drop by lia. rewrite mem_read_lookup by lia. cbn. f_equal. lia.
  - rewrite lookup_app_l by (rewrite length_take, mem_read_length; lia).
    rewrite lookup_take_lt by lia. rewrite mem_read_lookup by lia. cbn. f_equal. lia.
Qed.

#[local] Arguments mem_read : simpl never.
#[local] Arguments mem_write : simpl never.
#[local] Arguments take : simpl never.
#[local] Arguments drop : simpl never.

Section disk_props.
Context {D : Type} `{BlockDeviceLaws D}.
Implicit Types d : Disk D.

(** The byte position of the cursor, and the well-formed disks. *)
Definition cursor d : Z := block_id d * BLOCK_SIZE + d_offset d.
Record disk_wf d : Prop := {
  dw_dev : bd_wf (dev d);
  dw_block : 0 <= block_id d;
  dw_offset : 0 <= d_offset d < BLOCK_SIZE;
}.

(** [n] bytes from the cursor are inside the device. *)
Definition room d (n : nat) : Prop := cursor d + Z.of_nat n <= num_blocks (dev d) * BLOCK_SIZE.

(** The disk after [n] bytes, whose contents are [c]. *)
Record moved d (n : nat) (c : bytes) d' : Prop := {
  mv_wf : disk_wf d';
  mv_cursor : cursor d' = cursor d + Z.of_nat n;
  mv_blocks : num_blocks (dev d') = num_blocks (dev d);
  mv_bytes : forall p, bd_bytes (dev d') p = c p;
}.

Lemma advance_spec d (n : nat) dv :
  disk_wf d -> bd_wf dv -> num_blocks dv = num_blocks (dev d) -> room d n -> d_offset d + Z.of_nat n <= BLOCK_SIZE ->
  moved d n (bd_bytes dv) (advance (Z.of_nat n) (mkDisk (block_id d) (d_offset d) dv)).
Proof.
  intros [Hdev Hb Ho] Hdv Hnb Hroom Hn. destruct (bd_size _ Hdev) as [Hs1 Hs2]. unfold room, cursor in Hroom.
  unfold advance. cbn. rewrite wadd_small by lia.
  destruct (Z.leb_spec BLOCK_SIZE (d_offset d + Z.of_nat n)).
  - rewrite wadd_small, wsub_small by lia. split; [split|..]; unfold cursor; cbn; done || lia.
  - split; [split|..]; unfold cursor; cbn; done || lia.
Qed.

Lemma next_block_spec d dv :
  disk_wf d -> bd_wf dv -> num_blocks dv = num_blocks (dev d) -> room d 512 -> d_offset d = 0 ->
  moved d 512 (bd_bytes dv) (next_block (mkDisk (block_id d) (d_offset d) dv)).
Proof.
  intros [Hdev Hb Ho] Hdv Hnb Hroom Hz. destruct (bd_size _ Hdev) as [Hs1 Hs2]. unfold room, cursor in Hroom.
  unfold next_block. cbn. rewrite wadd_small by lia. split; [split|..]; unfold cursor; cbn; done || lia.
Qed.

(** [read_one] returns at least one byte, those under the cursor. *)
Lemma read_one_spec buf d :
  disk_wf d -> buf <> [] -> room d 1 ->
  exists n d', read_one buf d = Ret (Ok (Z.of_nat n, mem_read (cursor d) n (bd_bytes (dev d)) ++ drop n buf), d') /\
    (0 < n <= length buf)%nat /\ room d n /\ moved d n (bd_bytes (dev d)) d'.
Proof.
  intros Hwf Hne Hroom. assert (Hl : (0 < length buf)%nat) by (destruct buf; cbn in *; [done|lia]).
  pose proof Hwf as [Hdev Hb Ho]. destruct (bd_size _ Hdev) as [Hs1 Hs2]. unfold room, cursor in Hroom.
  destruct (bd_read (block_id d) (dev d) Hdev ltac:(lia)) as (dv & Hrd & Hdv & Hnb & Hbytes).
  unfold read_one, dev_read_block. unfold_M. unfold get. cbn [fst snd].
  assert (Hmv : forall n d', moved d n (bd_bytes dv) d' -> moved d n (bd_bytes (dev d)) d').
  { intros n d' [? ? ? Hp]. split; try done. intros p. by rewrite Hp. }
  destruct ((d_offset d =? 0) && (BLOCK_SIZE <=? Z.of_nat (length buf))) eqn:Hc.
  - apply andb_true_iff in Hc as [Hz%Z.eqb_eq Hlen%Z.leb_le]. rewrite Hrd. cbn.
    exists 512%nat. eexists. split; [|split; [lia|split; [unfold room, cursor; lia|]]].
    2: { apply Hmv, next_block_spec; try done. unfold room, cursor. lia. }
    unfold overlay, cursor. cbn. rewrite mem_read_length, Hz, Z.add_0_r. done.
  - rewrite Hrd. cbn. rewrite wsub_small by lia.
    set (n := Z.to_nat (Z.min (Z.of_nat (length buf)) (BLOCK_SIZE - d_offset d))).
    replace (Z.min (Z.of_nat (length buf)) (BLOCK_SIZE - d_offset d)) with (Z.of_nat n) by lia.
    destruct (Z.leb_spec (d_offset d + Z.of_nat n) BLOCK_SIZE); [|lia]. cbn.
    exists n. eexists. split; [|split; [lia|split; [unfold room, cursor; lia|]]].
    2: { apply Hmv, advance_spec; try done. unfold room, cursor. lia. }
    unfold overlay, cursor. rewrite mem_read_take_drop, mem_read_length by lia.
    by rewrite Z2Nat.id by lia.
Qed.

(** [write_one] writes at least one byte at the cursor. *)
Lemma write_one_spec buf d :
  disk_wf d -> buf <> [] -> room d 1 ->
  exists n d', write_one buf d = Ret (Ok (Z.of_nat n), d') /\ (0 < n <= length buf)%nat /\ room d n /\
    moved d n (mem_write (cursor d) (take n buf) (bd_bytes (dev d))) d'.
Proof.
  intros Hwf Hne Hroom. assert (Hl : (0 < length buf)%nat) by (destruct buf; cbn in *; [done|lia]).
  pose proof Hwf as [Hdev Hb Ho]. destruct (bd_size _ Hdev) as [Hs1 Hs2]. unfold room, cursor in Hroom.
  assert (Hmv : forall n c dv d', (forall p, bd_bytes dv p = c p) -> moved d n (bd_bytes dv) d' -> moved d n c d').
  { intros n c dv d' Hc [? ? ? Hp]. split; try done. intros p. by rewrite Hp. }
  unfold write_one, dev_read_block, dev_write_block. unfold_M. unfold get. cbn [fst snd].
  destruct ((d_offset d =? 0) && (BLOCK_SIZE <=? Z.of_nat (length buf))) eqn:Hc.
  - apply andb_true_iff in Hc as [Hz%Z.eqb_eq Hlen%Z.leb_le].
    destruct (bd_write (block_id d) (take 512 buf) (dev d) Hdev) as (dv & Hwr & Hdv & Hnb & Hbytes);
      [lia|rewrite length_take; lia|]. rewrite Hwr. cbn.
    exists 512%nat. eexists. split; [done|]. split; [lia|]. split; [unfold room, cursor; lia|].
    eapply Hmv; [|apply next_block_spec; try done; unfold room, cursor; lia].
    intros p. rewrite Hbytes. unfold cursor. by rewrite Hz, Z.add_0_r.
  - destruct (bd_read (block_id d) (dev d) Hdev ltac:(lia)) as (d1 & Hrd & Hd1 & Hn1 & Hb1).
    rewrite Hrd. cbn. rewrite wsub_small by lia.
    set (n := Z.to_nat (Z.min (Z.of_nat (length buf)) (BLOCK_SIZE - d_offset d))).
    replace (Z.min (Z.of_nat (length buf)) (BLOCK_SIZE - d_offset d)) with (Z.of_nat n) by lia.
    destruct (Z.leb_spec (d_offset d + Z.of_nat n) BLOCK_SIZE); [|lia]. cbn.
    destruct (bd_write (block_id d) (overlay (d_offset d) (take n buf)
      (mem_read (block_id d * BLOCK_SIZE) 512 (bd_bytes (dev d)))) d1 Hd1) as (dv & Hwr & Hdv & Hnb & Hbytes); [lia| |].
    { unfold overlay. rewrite !length_app, !length_take, length_drop, mem_read_length. lia. }
    rewrite Hwr. cbn. exists n. eexists. split; [done|]. split; [lia|]. split; [unfold room, cursor; lia|].
    eapply Hmv; [|apply advance_spec; try done; [congruence|unfold room, cursor; lia]].
    intros p. rewrite Hbytes, (mem_write_ext _ _ _ (bd_bytes (dev d)) p (Hb1 p)). unfold cursor.
    apply mem_write_overlay; [lia|rewrite length_take; lia].
Qed.

Lemma room_le d n k : (k <= n)%nat -> room d n -> room d k.
Proof. unfold room. lia. Qed.

Lemma cursor_room d n k d' c : moved d n c d' -> room d (n + k) -> room d' k.
Proof. intros [_ Hc Hb _]. unfold room. rewrite Hc, Hb. lia. Qed.

Lemma moved_trans d n c d1 k c' d2 : moved d n c d1 -> moved d1 k c' d2 -> moved d (n + k) c' d2.
Proof. intros [_ C1 B1 _] [W C2 B2 P]. split; [done| | |done]; rewrite ?C2, ?C1, ?B2, ?B1; lia || done. Qed.

Lemma moved_bytes d n c c' d' : (forall p, c p = c' p) -> moved d n c d' -> moved d n c' d'.
Proof. intros E [? ? ? P]. split; try done. intros p. by rewrite P. Qed.

Lemma room_len d n : disk_wf d -> room d n -> Z.of_nat n < USIZE.
Proof.
  intros [Hdev Hb Ho] Hr. destruct (bd_size _ Hdev). unfold room, cursor in Hr. lia.
Qed.

(** The loops read and write everything: one pass per byte is enough. *)
Lemma disk_read_loop_spec {E} (err : E) fuel buf d :
  disk_wf d -> room d (length buf) -> (length buf < fuel)%nat ->
  exists d', disk_read_loop err fuel buf d =
      Some (Ret (Ok (Z.of_nat (length buf), mem_read (cursor d) (length buf) (bd_bytes (dev d))), d')) /\
    moved d (length buf) (bd_bytes (dev d)) d'.
Proof.
  revert buf d. induction fuel as [|fuel IH]; intros buf d Hwf Hroom Hf; [lia|].
  destruct (decide (buf = [])) as [->|Hne].
  { exists d. split; [done|]. split; try done. cbn. lia. }
  cbn [disk_read_loop]. destruct (read_one_spec buf d Hwf Hne) as (n & d1 & -> & Hn & _ & Hm).
  { eapply room_le; [|done]. destruct buf; [done|cbn; lia]. }
  destruct buf as [|x buf0] eqn:Eb; [done|]. rewrite <- Eb in *. clear Hne.
  destruct (Z.eqb_spec (Z.of_nat n) 0); [lia|]. rewrite Nat2Z.id.
  rewrite drop_app_length', take_app_length' by (by rewrite mem_read_length).
  assert (Hl : length buf = (n + length (drop n buf))%nat) by (rewrite length_drop; lia).
  rewrite Hl in Hroom. pose proof (cursor_room _ _ _ _ _ Hm Hroom) as Hroom1.
  destruct (IH (drop n buf) d1) as (d2 & -> & Hm2); [apply Hm|done|rewrite length_drop; lia|].
  exists d2. split.
  - pose proof (room_len _ _ Hwf Hroom). rewrite wadd_small by lia.
    assert (Erd : mem_read (cursor d1) (length (drop n buf)) (bd_bytes (dev d1)) =
      mem_read (cursor d + Z.of_nat n) (length (drop n buf)) (bd_bytes (dev d))).
    { rewrite (mv_cursor _ _ _ _ Hm). apply mem_read_ext. intros i _. apply Hm. }
    by rewrite Erd, Hl, mem_read_app, Nat2Z.inj_add.
  - rewrite Hl. eapply moved_trans; [done|]. eapply moved_bytes; [|done]. apply Hm.
Qed.

Lemma disk_write_loop_spec {E} (err : E) fuel buf d :
  disk_wf d -> room d (length buf) -> (length buf < fuel)%nat ->
  exists d', disk_write_loop err fuel buf d = Some (Ret (Ok (Z.of_nat (length buf)), d')) /\
    moved d (length buf) (mem_write (cursor d) buf (bd_bytes (dev d))) d'.
Proof.
  revert buf d. induction fuel as [|fuel IH]; intros buf d Hwf Hroom Hf; [lia|].
  destruct (decide (buf = [])) as [->|Hne].
  { exists d. split; [done|]. split; try done; [cbn; lia|]. intros p. rewrite mem_write_out; [done|cbn; lia]. }
  cbn [disk_write_loop]. destruct (write_one_spec buf d Hwf Hne) as (n & d1 & -> & Hn & _ & Hm).
  { eapply room_le; [|done]. destruct buf; [done|cbn; lia]. }
  destruct buf as [|x buf0] eqn:Eb; [done|]. rewrite <- Eb in *. clear Hne.
  destruct (Z.eqb_spec (Z.of_nat n) 0); [lia|]. rewrite Nat2Z.id.
  assert (Hl : length buf = (n + length (drop n buf))%nat) by (rewrite length_drop; lia).
  rewrite Hl in Hroom. pose proof (cursor_room _ _ _ _ _ Hm Hroom) as Hroom1.
  destruct (IH (drop n buf) d1) as (d2 & -> & Hm2); [apply Hm|done|rewrite length_drop; lia|].
  exists d2. split.
  - pose proof (room_len _ _ Hwf Hroom). rewrite wadd_small by lia. by rewrite Hl, Nat2Z.inj_add.
  - rewrite Hl. eapply moved_trans; [done|]. eapply moved_bytes; [|done]. intros p. cbn beta.
    rewrite (mem_write_ext _ _ _ (mem_write (cursor d) (take n buf) (bd_bytes (dev d))) p (mv_bytes _ _ _ _ Hm p)).
    rewrite (mv_cursor _ _ _ _ Hm). replace (Z.of_nat n) with (Z.of_nat (length (take n buf))) by (rewrite length_take; lia).
    by rewrite mem_write_app, take_drop.
Qed.

(** Seeking to a byte of the device. *)
Lemma fat_seek_spec p d :
  disk_wf d -> 0 <= p -> exists d', fat_seek (SeekStart p) d = (Ok p, d') /\ disk_wf d' /\
    cursor d' = p /\ dev d' = dev d.
Proof.
  intros [Hdev Hb Ho] Hp. eexists. split; [reflexivity|]. cbn [set_position fat_seek].
  unfold cursor. split; [split|]; cbn; try done; [lia|lia|]. split; [lia|done].
Qed.

(** The disk is a byte store: bytes written through the cursor, at any position and
    across any number of blocks, are read back after seeking to where they were
    written; every other byte of the device keeps its value; and the two
    operations end after at most one pass per byte. *)
Theorem disk_roundtrip d p buf buf0 :
  disk_wf d -> 0 <= p -> p + Z.of_nat (length buf) <= num_blocks (dev d) * BLOCK_SIZE ->
  length buf0 = length buf ->
  exists d1 d2 d3 d4,
    fat_seek (SeekStart p) d = (Ok p, d1) /\
    fat_write (S (length buf)) buf d1 = Some (Ret (Ok (Z.of_nat (length buf)), d2)) /\
    fat_seek (SeekStart p) d2 = (Ok p, d3) /\
    fat_read (S (length buf)) buf0 d3 = Some (Ret (Ok (Z.of_nat (length buf), buf), d4)) /\
    position d4 = wrap (p + Z.of_nat (length buf)) /\
    forall a, ~ (p <= a < p + Z.of_nat (length buf)) -> bd_bytes (dev d4) a = bd_bytes (dev d) a.
Proof.
  intros Hwf Hp Hend Hlen.
  destruct (fat_seek_spec p d Hwf Hp) as (d1 & Hs1 & Hw1 & Hc1 & Hd1).
  destruct (disk_write_loop_spec tt (S (length buf)) buf d1 Hw1) as (d2 & Hwr & Hm2); [unfold room; rewrite Hc1, Hd1; lia|lia|].
  destruct (fat_seek_spec p d2 (mv_wf _ _ _ _ Hm2) Hp) as (d3 & Hs3 & Hw3 & Hc3 & Hd3).
  destruct (disk_read_loop_spec tt (S (length buf)) buf0 d3 Hw3) as (d4 & Hrd & Hm4).
  { unfold room. rewrite Hc3, Hd3, (mv_blocks _ _ _ _ Hm2), Hd1. lia. }
  { lia. }
  exists d1, d2, d3, d4. split; [done|]. split; [done|]. split; [done|]. split; [|split].
  - assert (E : mem_read p (length buf) (bd_bytes (dev d2)) = buf).
    { rewrite <- (mem_read_write p buf (bd_bytes (dev d1))) at 2. apply mem_read_ext. intros i _.
      by rewrite (mv_bytes _ _ _ _ Hm2), Hc1. }
    unfold fat_read. by rewrite Hrd, Hlen, Hc3, Hd3, E.
  - pose proof (mv_cursor _ _ _ _ Hm4) as Hc. rewrite Hc3, Hlen in Hc. rewrite <- Hc. unfold position, cursor, wadd, wrap.
    by rewrite Zplus_mod_idemp_l.
  - intros a Ha. rewrite (mv_bytes _ _ _ _ Hm4), Hd3, (mv_bytes _ _ _ _ Hm2), Hc1, Hd1. by apply mem_write_out.
Qed.

(** A read at the end of the device is an error. *)
Lemma read_one_end buf d :
  disk_wf d -> cursor d = num_blocks (dev d) * BLOCK_SIZE ->
  num_blocks (dev d) * BLOCK_SIZE + BLOCK_SIZE < USIZE ->
  exists e d', read_one buf d = Ret (Err e, d').
Proof.
  intros [Hdev Hb Ho] Hc Hs. unfold cursor in Hc.
  destruct (bd_read_end (block_id d) (dev d) Hdev ltac:(lia) ltac:(lia)) as (e & d' & Hrd).
  unfold read_one, dev_read_block. unfold_M. unfold get. cbn [fst snd].
  destruct ((d_offset d =? 0) && (BLOCK_SIZE <=? Z.of_nat (length buf))); rewrite Hrd; by eexists _, _.
Qed.

(** A read that crosses the end of the device fails as a whole: the bytes before the
    end, which the device has delivered, are not reported. *)
Theorem disk_read_past_end buf d k :
  disk_wf d -> (k < length buf)%nat -> cursor d + Z.of_nat k = num_blocks (dev d) * BLOCK_SIZE ->
  num_blocks (dev d) * BLOCK_SIZE + BLOCK_SIZE < USIZE ->
  exists d1 d2, fat_read (S (length buf)) buf d = Some (Ret (Err tt, d1)) /\
    ext4_read (S (length buf)) buf d = Some (Ret (Err (-1), d2)).
Proof.
  assert (Hgen : forall E (err : E) fuel buf d k, disk_wf d -> (k < length buf < fuel)%nat ->
    cursor d + Z.of_nat k = num_blocks (dev d) * BLOCK_SIZE ->
    num_blocks (dev d) * BLOCK_SIZE + BLOCK_SIZE < USIZE ->
    exists d1, disk_read_loop err fuel buf d = Some (Ret (Err err, d1))).
  { clear. intros E err. induction fuel as [|fuel IH]; intros buf d k Hwf Hk Hc Hs; [lia|].
    destruct buf as [|x buf0] eqn:Eb; [cbn in Hk; lia|]. rewrite <- Eb in *.
    assert (Hne : buf <> []) by by rewrite Eb.
    replace (disk_read_loop err (S fuel) buf d) with (match read_one buf d with
      | Panic => Some Panic
      | Ret (Err _, d') => Some (Ret (Err err, d'))
      | Ret (Ok (n, buf'), d') =>
          if n =? 0 then Some (Ret (Ok (0, buf'), d')) else
          match disk_read_loop err fuel (drop (Z.to_nat n) buf') d' with
          | Some (Ret (Ok (k, rest), d'')) => Some (Ret (Ok (n +w k, take (Z.to_nat n) buf' ++ rest), d''))
          | r => r
          end
      end) by (by rewrite Eb).
    destruct (decide (k = 0%nat)) as [->|Hk0].
    { destruct (read_one_end buf d Hwf ltac:(lia) Hs) as (e & d' & ->). by exists d'. }
    destruct (read_one_spec buf d Hwf Hne ltac:(unfold room; lia)) as (n & d1 & -> & Hn & Hr & Hm).
    destruct (Z.eqb_spec (Z.of_nat n) 0); [lia|]. rewrite Nat2Z.id.
    rewrite drop_app_length' by (by rewrite mem_read_length). unfold room in Hr.
    destruct (IH (drop n buf) d1 (k - n)%nat) as (d2 & ->); [apply Hm|rewrite length_drop; lia| | |by exists d2];
      rewrite ?(mv_cursor _ _ _ _ Hm), (mv_blocks _ _ _ _ Hm); lia. }
  intros Hwf Hk Hc Hs.
  destruct (Hgen unit tt (S (length buf)) buf d k Hwf ltac:(lia) Hc Hs) as (d1 & H1).
  destruct (Hgen Z (-1) (S (length buf)) buf d k Hwf ltac:(lia) Hc Hs) as (d2 & H2).
  by exists d1, d2.
Qed.
End disk_props.

(** ** The RAM disk implements the interface *)

Definition ramdisk_bytes (d : RamDisk) : bytes := fun p =>
  if p <? 0 then 0 else default 0 (rd_data d !! Z.to_nat p).
Definition ramdisk_wf (d : RamDisk) : Prop :=
  0 <= rd_size d < USIZE /\ rd_size d mod BLOCK_SIZE = 0 /\ Z.of_nat (length (rd_data d)) = rd_size d.

Lemma ramdisk_check_in id d :
  ramdisk_wf d -> 0 <= id < rd_size d / BLOCK_SIZE -> ramdisk_check id BLOCK_SIZE d = Ok (id * BLOCK_SIZE).
Proof.
  intros (Hs & Hm & Hl) Hid. unfold ramdisk_check. rewrite wrap_small by lia. rewrite wadd_small by lia.
  by destruct (Z.ltb_spec (rd_size d) (id * BLOCK_SIZE + BLOCK_SIZE)); [lia|].
Qed.

#[export] Instance RamDisk_laws : BlockDeviceLaws RamDisk.
Proof.
  refine {| bd_bytes := ramdisk_bytes; bd_wf := ramdisk_wf |}.
  - intros d (Hs & Hm & Hl). cbn. lia.
  - done.
  - intros id d Hwf Hid. exists d. split; [|done]. cbn in *. unfold ramdisk_read_block.
    rewrite ramdisk_check_in by done. do 2 f_equal. destruct Hwf as (Hs & Hm & Hl).
    apply list_eq. intros i. destruct (decide (i < 512)%nat) as [Hi|Hi].
    + rewrite mem_read_lookup by done. unfold ramdisk_bytes.
      destruct (Z.ltb_spec (id * BLOCK_SIZE + Z.of_nat i) 0); [lia|].
      rewrite lookup_take_lt by lia. rewrite lookup_drop.
      replace (Z.to_nat (id * BLOCK_SIZE + Z.of_nat i)) with (Z.to_nat (id * BLOCK_SIZE) + i)%nat by lia.
      destruct (lookup_lt_is_Some_2 (rd_data d) (Z.to_nat (id * BLOCK_SIZE) + i)) as [x ->]; [lia|done].
    + rewrite !lookup_ge_None_2; [done|rewrite mem_read_length; lia|rewrite length_take; lia].
  - intros id data d Hwf Hid Hlen. cbn in *. unfold ramdisk_write_block. rewrite Hlen.
    change (Z.of_nat 512) with BLOCK_SIZE. rewrite ramdisk_check_in by done.
    eexists. split; [done|]. destruct Hwf as (Hs & Hm & Hl).
    assert (Hlo : length (overlay (id * BLOCK_SIZE) data (rd_data d)) = length (rd_data d)).
    { unfold overlay. rewrite !length_app, length_take, length_drop. lia. }
    split; [split_and!; cbn; rewrite ?Hlo; lia|]. split; [done|]. intros p.
    unfold ramdisk_bytes, mem_write. cbn. rewrite Hlen. unfold overlay.
    destruct (Z.ltb_spec p 0), (Z.leb_spec (id * BLOCK_SIZE) p), (Z.ltb_spec p (id * BLOCK_SIZE + Z.of_nat 512));
      cbn; try lia; try done; f_equal.
    + rewrite lookup_app_r, length_take by (rewrite length_take; lia). rewrite lookup_app_l by lia. f_equal. lia.
    + rewrite lookup_app_r, length_take by (rewrite length_take; lia). rewrite lookup_app_r, lookup_drop by lia. f_equal. lia.
    + rewrite lookup_app_l by (rewrite length_take; lia). by rewrite lookup_take_lt by lia.
  - intros id d (Hs & Hm & Hl) Hid Hb. cbn in *. exists DE_Io, d. unfold ramdisk_read_block, ramdisk_check.
    rewrite wrap_small by lia. rewrite wadd_small by lia.
    by destruct (Z.ltb_spec (rd_size d) (id * BLOCK_SIZE + BLOCK_SIZE)); [|lia].
Defined.

(** ** A concrete disk of two blocks *)
Module DiskDemo.
Definition disk : Disk RamDisk := mkDisk 0 0 (ramdisk_new 1000).
End DiskDemo.

Lemma demo_disk_wf : disk_wf DiskDemo.disk.
Proof.
  split; [|cbn; lia..]. change (bd_wf (dev DiskDemo.disk)) with (ramdisk_wf (dev DiskDemo.disk)).
  split; [split; vm_compute; congruence|]. split; vm_compute; reflexivity.
Qed.

Lemma disk_roundtrip_witness :
  exists d1 d2 d3 d4,
    fat_seek (SeekStart 510) DiskDemo.disk = (Ok 510, d1) /\
    fat_write 6 [1; 2; 3; 4; 5] d1 = Some (Ret (Ok 5, d2)) /\
    fat_seek (SeekStart 510) d2 = (Ok 510, d3) /\
    fat_read 6 [0; 0; 0; 0; 0] d3 = Some (Ret (Ok (5, [1; 2; 3; 4; 5]), d4)) /\ position d4 = 515.
Proof.
  destruct (disk_roundtrip DiskDemo.disk 510 [1; 2; 3; 4; 5] [0; 0; 0; 0; 0] demo_disk_wf)
    as (d1 & d2 & d3 & d4 & H1 & H2 & H3 & H4 & H5 & _); [lia|vm_compute; congruence|done|].
  exists d1, d2, d3, d4. split; [exact H1|]. split; [exact H2|]. split; [exact H3|]. split; [exact H4|exact H5].
Defined.

Lemma disk_read_past_end_witness :
  exists d1 d2, fat_read 6 [0; 0; 0; 0; 0] (set_position 1020 DiskDemo.disk) = Some (Ret (Err tt, d1)) /\
    ext4_read 6 [0; 0; 0; 0; 0] (set_position 1020 DiskDemo.disk) = Some (Ret (Err (-1), d2)).
Proof.
  apply (disk_read_past_end [0; 0; 0; 0; 0] (set_position 1020 DiskDemo.disk) 4); [|cbn; lia|vm_compute; reflexivity..].
  split; [apply demo_disk_wf|vm_compute; congruence|vm_compute; split; congruence].
Defined.
