(* ===== verification/Ext4.v ===== *)
(** The ext4 file system as the kernel mounts it: the adapter to the file system interface
    (src/arceos/modules/axfs/src/fs/lwext4_rust.rs) and the file object of the lwext4_rust
    crate (src/vendor/lwext4_rust/src/file.rs), with the descriptor calls of lwext4 that
    do not touch the disk. The rest of the C library is a parameter. *)
From Stdlib Require Import Ascii.
From S2P Require Import Prelude.
From S2P Require Import Errno Str Fs.

(** * The C library *)

(** [ext4_file]; [mp] tells whether its mount point is set. *)
Record ext4_file := mkE4 { mp : bool; inode : Z; e4_flags : Z; fsize : Z; fpos : Z }.
Definition ext4_null : ext4_file := mkE4 false 0 0 0 0.
Definition set_fpos (p : Z) (f : ext4_file) : ext4_file := mkE4 (mp f) (inode f) (e4_flags f) (fsize f) p.

Definition EOK : Z := 0.
Definition EINVAL_ : Z := 22.
Definition ENOENT_ : Z := 2.
Definition SEEK_SET : Z := 0.
Definition SEEK_CUR : Z := 1.
Definition SEEK_END : Z := 2.

(** [ext4_fseek], [ext4_fsize] and [ext4_fclose] of ext4.c. *)
Definition ext4_fseek (f : ext4_file) (offset origin : Z) : Z * ext4_file :=
  if origin =? SEEK_SET then
    if (offset <? 0) || (fsize f <? offset) then (EINVAL_, f) else (EOK, set_fpos offset f)
  else if origin =? SEEK_CUR then
    if ((offset <? 0) && (fpos f <? - offset)) || ((0 <? offset) && (fsize f -w fpos f <? offset)) then (EINVAL_, f)
    else (EOK, set_fpos (fpos f +w offset) f)
  else if origin =? SEEK_END then
    if (offset <? 0) || (fsize f <? offset) then (EINVAL_, f) else (EOK, set_fpos (fsize f -w offset) f)
  else (EINVAL_, f).
Definition ext4_fsize (f : ext4_file) : Z := fsize f.
Definition ext4_fclose (f : ext4_file) : ext4_file := ext4_null.

(** The calls that work on the disk [L]; a number is a return code. *)
Class Ext4Lib (L : Type) := {
  ext4_fopen : str -> str -> L -> Z * ext4_file * L;
  ext4_fread : ext4_file -> nat -> L -> Z * list Z * ext4_file;
  ext4_fwrite : ext4_file -> list Z -> L -> Z * Z * ext4_file * L;
  ext4_ftruncate : ext4_file -> Z -> L -> Z * ext4_file * L;
  ext4_inode_exist : str -> Z -> L -> Z;
  ext4_mode_get : str -> L -> Z * Z;
  ext4_fremove : str -> L -> Z * L;
  ext4_frename : str -> str -> L -> Z * L;
  ext4_dir_mk : str -> L -> Z * L;
  ext4_dir_rm : str -> L -> Z * L;
  (** [ext4_dir_open] and [ext4_dir_entry_next] until the end: names and types. *)
  ext4_dir_list : str -> L -> list (str * Z);
}.

(** * [Ext4File] (lwext4_rust/src/file.rs) *)

Inductive InodeTypes :=
| EXT4_DE_UNKNOWN | EXT4_DE_REG_FILE | EXT4_DE_DIR | EXT4_DE_CHRDEV | EXT4_DE_BLKDEV
| EXT4_DE_FIFO | EXT4_DE_SOCK | EXT4_DE_SYMLINK
| EXT4_INODE_MODE_FIFO | EXT4_INODE_MODE_CHARDEV | EXT4_INODE_MODE_DIRECTORY | EXT4_INODE_MODE_BLOCKDEV
| EXT4_INODE_MODE_FILE | EXT4_INODE_MODE_SOFTLINK | EXT4_INODE_MODE_SOCKET | EXT4_INODE_MODE_TYPE_MASK.
#[export] Instance InodeTypes_eq_dec : EqDecision InodeTypes.
Proof. solve_decision. Defined.

(** [types as i32]. *)
Definition inode_code (t : InodeTypes) : Z :=
  match t with
  | EXT4_DE_UNKNOWN => 0 | EXT4_DE_REG_FILE => 1 | EXT4_DE_DIR => 2 | EXT4_DE_CHRDEV => 3
  | EXT4_DE_BLKDEV => 4 | EXT4_DE_FIFO => 5 | EXT4_DE_SOCK => 6 | EXT4_DE_SYMLINK => 7
  | EXT4_INODE_MODE_FIFO => 0x1000 | EXT4_INODE_MODE_CHARDEV => 0x2000 | EXT4_INODE_MODE_DIRECTORY => 0x4000
  | EXT4_INODE_MODE_BLOCKDEV => 0x6000 | EXT4_INODE_MODE_FILE => 0x8000 | EXT4_INODE_MODE_SOFTLINK => 0xA000
  | EXT4_INODE_MODE_SOCKET => 0xC000 | EXT4_INODE_MODE_TYPE_MASK => 0xF000
  end.
(** [From<usize> for InodeTypes]. *)
Definition inode_types : list InodeTypes :=
  [EXT4_DE_UNKNOWN; EXT4_DE_REG_FILE; EXT4_DE_DIR; EXT4_DE_CHRDEV; EXT4_DE_BLKDEV; EXT4_DE_FIFO; EXT4_DE_SOCK; EXT4_DE_SYMLINK;
   EXT4_INODE_MODE_FIFO; EXT4_INODE_MODE_CHARDEV; EXT4_INODE_MODE_DIRECTORY; EXT4_INODE_MODE_BLOCKDEV;
   EXT4_INODE_MODE_FILE; EXT4_INODE_MODE_SOFTLINK; EXT4_INODE_MODE_SOCKET; EXT4_INODE_MODE_TYPE_MASK].
Definition inode_from (num : Z) : InodeTypes :=
  default EXT4_DE_UNKNOWN (List.find (fun t => inode_code t =? num) inode_types).

Record Ext4File := mkEf { file_desc : ext4_file; file_path : str; this_type : InodeTypes }.

Definition O_RDONLY : Z := 0.
Definition O_WRONLY : Z := 1.
Definition O_RDWR : Z := 2.
Definition O_CREAT : Z := 64.
Definition O_TRUNC : Z := 512.

Definition flags_to_cstring (flags : Z) : str :=
  if flags =? O_RDONLY then $"rb" else if flags =? O_RDWR then $"r+"
  else if flags =? 0x241 then $"wb" else if flags =? 0x441 then $"ab"
  else if flags =? 0x242 then $"w+" else if flags =? 0x442 then $"a+"
  else $"r+".

(** [CString::new(path).expect(..)]: a string with a zero byte panics. *)
Definition CString_new {S E} (s : str) : M S E str := assert_ (negb (bool_decide (ascii_of_nat 0 ∈ s))) ;; mret s.

Section ext4.
Context {L : Type} `{Ext4Lib L}.

(** Operations on one file object and the disk; errors are the codes of the library. *)
Definition E4 (A : Type) : Type := M (Ext4File * L) Z A.

Definition call {E A} (g : Ext4File * L -> result A E * (Ext4File * L)) : M (Ext4File * L) E A := fun st => Ret (g st).

Definition Ext4File_new {S E} (path : str) (types : InodeTypes) : M S E Ext4File :=
  p ← CString_new path; mret (mkEf ext4_null p types).
Definition get_path {E} : M (Ext4File * L) E str := call (fun st => (Ok (file_path (fst st)), st)).
Definition get_type {E} : M (Ext4File * L) E InodeTypes := call (fun st => (Ok (this_type (fst st)), st)).

(** A call that returns a code: [Ok(EOK)] or the code. *)
Definition rc_result (r : Z) : result Z Z := if r =? EOK then Ok EOK else Err r.
Definition set_desc (d : ext4_file) (f : Ext4File) : Ext4File := mkEf d (file_path f) (this_type f).

Definition ef_open (path : str) (flags : Z) : E4 Z :=
  c ← CString_new path;
  call (fun '(f, l) => let '(r, d, l) := ext4_fopen c (flags_to_cstring flags) l in (rc_result r, (set_desc d f, l))).
Definition ef_close : E4 Z := call (fun '(f, l) =>
  (Ok 0, (if mp (file_desc f) then set_desc (ext4_fclose (file_desc f)) f else f, l))).
Definition check_inode_exist {E} (path : str) (types : InodeTypes) : M (Ext4File * L) E bool :=
  c ← CString_new path;
  call (fun st => (Ok (ext4_inode_exist c (inode_code types) (snd st) =? EOK), st)).
Definition ef_rename (path new_path : str) : E4 Z :=
  c ← CString_new path; c' ← CString_new new_path;
  call (fun '(f, l) => let '(r, l) := ext4_frename c c' l in (rc_result r, (f, l))).
(** A missing file counts as removed. *)
Definition rm_result (r : Z) : result Z Z := if (r =? EOK) || (r =? ENOENT_) then Ok EOK else Err r.
Definition ef_remove (path : str) : E4 Z :=
  c ← CString_new path;
  call (fun '(f, l) => let '(r, l) := ext4_fremove c l in (rm_result r, (f, l))).
Definition ef_size {E} : M (Ext4File * L) E Z := call (fun st => (Ok (ext4_fsize (file_desc (fst st))), st)).
(** [file_seek]: an offset behind the end is moved to the end. *)
Definition ef_seek (offset seek_type : Z) : E4 Z := fun '(f, l) =>
  let size := as_i64 (ext4_fsize (file_desc f)) in
  let offset := if size <? offset then size else offset in
  let '(r, d) := ext4_fseek (file_desc f) offset seek_type in
  Ret (rc_result r, (set_desc d f, l)).
Definition ef_read (len : nat) : E4 (list Z) := fun '(f, l) =>
  let '(r, bs, d) := ext4_fread (file_desc f) len l in
  Ret (if r =? EOK then Ok bs else Err r, (set_desc d f, l)).
Definition ef_write (buf : list Z) : E4 Z := fun '(f, l) =>
  let '(r, n, d, l) := ext4_fwrite (file_desc f) buf l in
  Ret (if r =? EOK then Ok n else Err r, (set_desc d f, l)).
Definition ef_truncate (size : Z) : E4 Z := fun '(f, l) =>
  let '(r, d, l) := ext4_ftruncate (file_desc f) size l in
  Ret (rc_result r, (set_desc d f, l)).
Definition ef_mode_get : E4 Z := fun '(f, l) =>
  let '(r, mode) := ext4_mode_get (file_path f) l in
  Ret (if r =? EOK then Ok mode else Err r, (f, l)).
Definition mode_type (mode : Z) : InodeTypes :=
  let types := Z.land mode (0xFFFFFFFF - 0x1FF) in
  if types =? 0x1000 then EXT4_INODE_MODE_FIFO else if types =? 0x2000 then EXT4_INODE_MODE_CHARDEV
  else if types =? 0x4000 then EXT4_INODE_MODE_DIRECTORY else if types =? 0x6000 then EXT4_INODE_MODE_BLOCKDEV
  else if types =? 0x8000 then EXT4_INODE_MODE_FILE else if types =? 0xA000 then EXT4_INODE_MODE_SOFTLINK
  else if types =? 0xC000 then EXT4_INODE_MODE_SOCKET else if types =? 0xF000 then EXT4_INODE_MODE_TYPE_MASK
  else EXT4_INODE_MODE_FILE.
(** [file_type_get]: the mode is unwrapped. *)
Definition ef_type_get {E} : M (Ext4File * L) E InodeTypes :=
  r ← attempt ef_mode_get;
  match r with Ok mode => mret (mode_type mode) | Err _ => panic end.
Definition dir_mk (path : str) : E4 Z :=
  c ← CString_new path; call (fun '(f, l) => let '(r, l) := ext4_dir_mk c l in (rc_result r, (f, l))).
Definition dir_rm (path : str) : E4 Z :=
  c ← CString_new path; call (fun '(f, l) => let '(r, l) := ext4_dir_rm c l in (rm_result r, (f, l))).
(** The buffer of a name has 255 bytes and a final zero is stored behind the name. *)
Fixpoint dir_names {S E} (des : list (str * Z)) : M S E (list (str * InodeTypes)) :=
  match des with
  | [] => mret []
  | (name, ty) :: des =>
      _ ← assert_ (length name <? 255)%nat;
      rest ← dir_names des;
      mret ((name ++ [ascii_of_nat 0], inode_from ty) :: rest)
  end.
Definition lwext4_dir_entries : E4 (list (str * InodeTypes)) := fun st =>
  if bool_decide (this_type (fst st) = EXT4_DE_DIR) then dir_names (ext4_dir_list (file_path (fst st)) (snd st)) st
  else throw (-1) st.

(** * [FileWrapper] (axfs/src/fs/lwext4_rust.rs) *)

(** [replace("//", "/")], from left to right. *)
Fixpoint replace_slashes (s : str) : str :=
  match s with
  | c :: ((d :: s') as t) =>
      if Ascii.eqb c slash && Ascii.eqb d slash then slash :: replace_slashes s' else c :: replace_slashes t
  | _ => s
  end.

(** [path_deal_with] for the directory [dir]: every call it makes is on a shorter path. *)
Fixpoint path_loop (fuel : nat) (dir path : str) : option str :=
  match fuel with
  | O => None
  | S fuel =>
      let p := trim_char slash path in
      if bool_decide (p = []) || bool_decide (p = [dot]) then Some []
      else match strip_prefix p [dot; slash] with
           | Some rest => path_loop fuel dir rest
           | None =>
               let rest_p := replace_slashes p in
               if bool_decide (p <> rest_p) then path_loop fuel dir rest_p
               else Some (trim_end_char slash dir ++ [slash] ++ p)
           end
  end.
Definition path_deal_with (dir path : str) : option str := path_loop (S (length path)) dir path.

(** Operations of the adapter: [map_err(|e| e.try_into().unwrap())] of a library call. *)
Definition X4 (A : Type) : Type := M (Ext4File * L) AxError A.
Definition ax {A} (m : E4 A) : X4 A :=
  r ← attempt m;
  match r with
  | Ok a => mret a
  | Err e => match AxError_try_from e with Ok x => throw x | Err _ => panic end
  end.
(** The path of the wrapper put before a relative one. *)
Definition full_path (path : str) : X4 str :=
  dir ← get_path; unwrap (path_deal_with dir path).

(** The types of nodes and the sizes of blocks. *)
Definition attr_type (t : InodeTypes) : VfsNodeType :=
  match t with
  | EXT4_INODE_MODE_FIFO => TFifo | EXT4_INODE_MODE_CHARDEV => TCharDevice | EXT4_INODE_MODE_DIRECTORY => TDir
  | EXT4_INODE_MODE_BLOCKDEV => TBlockDevice | EXT4_INODE_MODE_FILE => TFile | EXT4_INODE_MODE_SOFTLINK => TSymLink
  | EXT4_INODE_MODE_SOCKET => TSocket | _ => TFile
  end.
Definition create_type (t : VfsNodeType) : InodeTypes :=
  match t with
  | TFifo => EXT4_DE_FIFO | TCharDevice => EXT4_DE_CHRDEV | TDir => EXT4_DE_DIR | TBlockDevice => EXT4_DE_BLKDEV
  | TFile => EXT4_DE_REG_FILE | TSymLink => EXT4_DE_SYMLINK | TSocket => EXT4_DE_SOCK
  end.
Definition BLOCK_SIZE : Z := 512.

Definition x_get_attr : X4 VfsNodeAttr :=
  r ← attempt ef_mode_get;
  let perm := match r with Ok p => p | Err _ => 0x1ED end in
  let perm := Z.land (as_u16 perm) 0x1FF in
  t ← ef_type_get;
  let vtype := attr_type t in
  size ← (if bool_decide (vtype = TFile) then
            path ← get_path;
            _ ← ax (ef_open path O_RDONLY);
            fsize ← ef_size;
            _ ← attempt (E':=AxError) ef_close;
            mret fsize
          else mret 0);
  mret (mkAttr perm vtype size ((size +w (BLOCK_SIZE -w 1)) / BLOCK_SIZE)).

Definition x_create (path : str) (ty : VfsNodeType) : X4 unit :=
  fpath ← full_path path;
  if bool_decide (fpath = []) then mret tt else
  let types := create_type ty in
  found ← check_inode_exist fpath types;
  if found : bool then mret tt
  else if bool_decide (types = EXT4_DE_DIR) then _ ← ax (dir_mk fpath); mret tt
  else
    r ← attempt (ef_open fpath (Z.lor O_WRONLY (Z.lor O_CREAT O_TRUNC)));
    match r with
    | Ok _ => _ ← ax ef_close; mret tt
    | Err _ => panic
    end.

Definition x_remove (path : str) : X4 unit :=
  fpath ← full_path path;
  _ ← assert_ (negb (bool_decide (fpath = [])));
  found ← check_inode_exist fpath EXT4_DE_DIR;
  if found : bool then _ ← ax (dir_rm fpath); mret tt else _ ← ax (ef_remove fpath); mret tt.

(** [trim_end_matches(|c| c != '/')]. *)
Fixpoint drop_name (s : str) : str :=
  match s with [] => [] | c :: s' => if Ascii.eqb c slash then s else drop_name s' end.
Definition x_parent : X4 (option Ext4File) :=
  t ← get_type;
  if bool_decide (t = EXT4_DE_DIR) then
    path ← get_path;
    let path := reverse (drop_name (reverse (trim_end_char slash path))) in
    if bool_decide (path = []) then mret None else f ← Ext4File_new path EXT4_DE_DIR; mret (Some f)
  else mret None.

(** One entry of [read_dir]. *)
Definition x_entry (name : str) (t : InodeTypes) : X4 VfsDirEntry :=
  ty ← (if bool_decide (t = EXT4_DE_DIR) then mret TDir
        else if bool_decide (t = EXT4_DE_REG_FILE) then mret TFile
        else if bool_decide (t = EXT4_DE_SYMLINK) then mret TSymLink
        else panic);
  name ← unwrap (from_utf8 name);
  dir_entry_new name ty.
Fixpoint x_entries (l : list (str * InodeTypes)) : X4 (list VfsDirEntry) :=
  match l with
  | [] => mret []
  | (name, t) :: l => e ← x_entry name t; es ← x_entries l; mret (e :: es)
  end.
Definition x_read_dir (start : Z) (len : nat) : X4 (list VfsDirEntry) :=
  r ← attempt lwext4_dir_entries;
  match r with
  | Ok l => x_entries (take len (drop (Z.to_nat start) l))
  | Err _ => panic
  end.

(** [lookup]: [None] is the node itself. *)
Definition x_lookup (path : str) : X4 (option Ext4File) :=
  fpath ← full_path path;
  if bool_decide (fpath = []) then mret None else
  is_dir ← check_inode_exist fpath EXT4_DE_DIR;
  if is_dir : bool then f ← Ext4File_new fpath EXT4_DE_DIR; mret (Some f) else
  is_file ← check_inode_exist fpath EXT4_DE_REG_FILE;
  if is_file : bool then f ← Ext4File_new fpath EXT4_DE_REG_FILE; mret (Some f) else throw NotFound.

(** [read_at] and [write_at]: the file is opened, read or written, and closed; a failing
    seek returns without closing it. *)
Definition x_read_at (offset : Z) (len : nat) : X4 (list Z) :=
  path ← get_path;
  _ ← ax (ef_open path O_RDONLY);
  _ ← ax (ef_seek (as_i64 offset) SEEK_SET);
  r ← attempt (E':=AxError) (ef_read len);
  _ ← attempt (E':=AxError) ef_close;
  ax (try_ r).
Definition x_write_at (offset : Z) (buf : list Z) : X4 Z :=
  path ← get_path;
  _ ← ax (ef_open path O_RDWR);
  _ ← ax (ef_seek (as_i64 offset) SEEK_SET);
  r ← attempt (E':=AxError) (ef_write buf);
  _ ← attempt (E':=AxError) ef_close;
  ax (try_ r).
Definition x_truncate (size : Z) : X4 unit :=
  path ← get_path;
  _ ← ax (ef_open path (Z.lor O_RDWR (Z.lor O_CREAT O_TRUNC)));
  t ← attempt (E':=AxError) (ef_truncate size);
  _ ← attempt (E':=AxError) ef_close;
  _ ← ax (try_ t); mret tt.
(** [rename]: the paths are passed on as they are. *)
Definition x_rename (src dst : str) : X4 unit := _ ← ax (ef_rename src dst); mret tt.
Definition x_drop : X4 unit := _ ← attempt (E':=AxError) ef_close; mret tt.
End ext4.

(** * Paths *)

(** The non-empty components of a path, and what remains after leading dots. *)
Definition ne_comps (l : list str) : list str := filter (fun p => p <> []) l.
Definition comps (s : str) : list str := ne_comps (split slash s).
Fixpoint drop_dots (l : list str) : list str :=
  match l with
  | p :: l' => if bool_decide (p = [dot]) then drop_dots l' else l
  | [] => []
  end.

Lemma ne_nil l : ne_comps ([] :: l) = ne_comps l.
Proof. unfold ne_comps. by rewrite filter_cons_False by auto. Qed.
Lemma ne_cons c p l : ne_comps ((c :: p) :: l) = (c :: p) :: ne_comps l.
Proof. unfold ne_comps. by rewrite filter_cons_True. Qed.
Lemma ne_same p l l' : ne_comps l = ne_comps l' -> ne_comps (p :: l) = ne_comps (p :: l').
Proof. intros E. destruct p; [by rewrite !ne_nil|by rewrite !ne_cons, E]. Qed.

Lemma split_cons c s : c <> slash -> exists p rest, split slash s = p :: rest /\ split slash (c :: s) = (c :: p) :: rest.
Proof.
  intros Hc. cbn. destruct (Ascii.eqb_spec c slash); [done|]. pose proof (split_nonempty slash s).
  destruct (split slash s) as [|p rest]; [done|]. by exists p, rest.
Qed.
Lemma split_slash s : split slash (slash :: s) = [] :: split slash s.
Proof. cbn. by destruct (Ascii.eqb_spec slash slash). Qed.
Lemma comps_slash s : comps (slash :: s) = comps s.
Proof. unfold comps. by rewrite split_slash, ne_nil. Qed.

Lemma split_app_slash s t : exists l p, split slash s = l ++ [p] /\ split slash (s ++ slash :: t) = l ++ p :: split slash t.
Proof.
  induction s as [|c s (l & p & E1 & E2)].
  - exists [], []. split; [done|]. cbn [app]. apply split_slash.
  - destruct (decide (c = slash)) as [->|Hc].
    + exists ([] :: l), p. cbn [app]. by rewrite !split_slash, E1, E2.
    + destruct (split_cons c s Hc) as (q & rest & Q1 & Q2). destruct (split_cons c (s ++ slash :: t) Hc) as (q' & rest' & Q1' & Q2').
      cbn [app]. rewrite Q2, Q2'. rewrite E1 in Q1. rewrite E2 in Q1'. destruct l as [|x l]; cbn in Q1, Q1'.
      * exists [], (c :: p). by simplify_eq.
      * exists ((c :: x) :: l), p. by simplify_eq.
Qed.
Lemma comps_snoc s : comps (s ++ [slash]) = comps s.
Proof.
  unfold comps. destruct (split_app_slash s []) as (l & p & -> & ->). unfold ne_comps. by rewrite !filter_app.
Qed.

Lemma comps_trim_start s : comps (trim_start_char slash s) = comps s.
Proof. induction s as [|c s IH]; [done|]. cbn [trim_start_char]. destruct (Ascii.eqb_spec c slash) as [->|]; [|done]. by rewrite IH, comps_slash. Qed.
Lemma comps_trim_end s : comps (trim_end_char slash s) = comps s.
Proof.
  unfold trim_end_char. rewrite <- (reverse_involutive s) at 2. generalize (reverse s). clear s. intros s.
  induction s as [|c s IH]; [done|]. cbn [trim_start_char]. destruct (Ascii.eqb_spec c slash) as [->|]; [|done].
  by rewrite IH, reverse_cons, comps_snoc.
Qed.
Lemma comps_trim s : comps (trim_char slash s) = comps s.
Proof. unfold trim_char. by rewrite comps_trim_end, comps_trim_start. Qed.

(** Squeezing double slashes. *)
Lemma replace_slashes_cons c d s :
  replace_slashes (c :: d :: s) =
    if Ascii.eqb c slash && Ascii.eqb d slash then slash :: replace_slashes s else c :: replace_slashes (d :: s).
Proof. done. Qed.

Lemma replace_slashes_length s : (length (replace_slashes s) < length s)%nat \/ replace_slashes s = s.
Proof.
  induction s as [s IH] using (well_founded_induction (Wf_nat.well_founded_ltof _ length)). unfold Wf_nat.ltof in IH.
  destruct s as [|c [|d s]]; [by right..|]. rewrite replace_slashes_cons. destruct (_ && _).
  - left. destruct (IH s) as [Hs| ->]; cbn; lia.
  - destruct (IH (d :: s)) as [Hs| ->]; cbn in *; [lia|left; lia|by right].
Qed.

Lemma replace_slashes_split s :
  exists p rest rest', split slash s = p :: rest /\ split slash (replace_slashes s) = p :: rest' /\
    ne_comps rest = ne_comps rest'.
Proof.
  induction s as [s IH] using (well_founded_induction (Wf_nat.well_founded_ltof _ length)). unfold Wf_nat.ltof in IH.
  destruct s as [|c [|d s]]; [by eexists _, _, _|..].
  { pose proof (split_nonempty slash [c]). cbn [replace_slashes]. destruct (split slash [c]) as [|p rest] eqn:E; [done|]. by exists p, rest, rest. }
  rewrite replace_slashes_cons. destruct (Ascii.eqb_spec c slash) as [->|Hc]; [destruct (Ascii.eqb_spec d slash) as [->|Hd]|]; cbn [andb].
  - destruct (IH s) as (p & r & r' & E1 & E2 & E3); [cbn; lia|]. rewrite !split_slash, E1, E2. eexists [], _, _. split; [done|]. split; [done|].
    rewrite ne_nil. by apply ne_same.
  - destruct (IH (d :: s)) as (p & r & r' & E1 & E2 & E3); [cbn; lia|]. rewrite !split_slash, E1, E2. eexists [], _, _. split; [done|]. split; [done|].
    by apply ne_same.
  - destruct (IH (d :: s)) as (p & r & r' & E1 & E2 & E3); [cbn; lia|].
    destruct (split_cons c (d :: s) Hc) as (q & u & Q1 & ->). destruct (split_cons c (replace_slashes (d :: s)) Hc) as (q' & u' & Q1' & ->).
    rewrite E1 in Q1. rewrite E2 in Q1'. simplify_eq. by eexists _, _, _.
Qed.
Lemma comps_replace s : comps (replace_slashes s) = comps s.
Proof.
  destruct (replace_slashes_split s) as (p & r & r' & E1 & E2 & E3). unfold comps. rewrite E1, E2. by apply ne_same.
Qed.

(** A path without double slashes that neither starts nor ends with one is made of
    non-empty components. *)
Lemma clean_split n c t :
  (length t < n)%nat -> c <> slash -> last (c :: t) <> Some slash -> replace_slashes (c :: t) = c :: t -> [] ∉ split slash (c :: t).
Proof.
  revert c t. induction n as [|n IH]; [lia|]. intros c t Hn Hc Hl Hr.
  destruct t as [|d t].
  { destruct (split_cons c [] Hc) as (p & rest & E1 & ->). cbn in E1. injection E1 as <- <-. intros Hin. by apply list_elem_of_singleton in Hin. }
  assert (replace_slashes (d :: t) = d :: t) as Hr'.
  { rewrite replace_slashes_cons in Hr. destruct (Ascii.eqb_spec c slash); [done|]. cbn [andb] in Hr. by injection Hr. }
  destruct (split_cons c (d :: t) Hc) as (p & rest & E1 & ->). rewrite not_elem_of_cons. split; [done|].
  destruct (decide (d = slash)) as [->|Hd].
  - rewrite split_slash in E1. injection E1 as <- <-. destruct t as [|e t]; [done|]. rewrite replace_slashes_cons in Hr'.
    destruct (Ascii.eqb_spec slash slash) as [_|]; [|done]. destruct (Ascii.eqb_spec e slash) as [->|He]; cbn [andb] in Hr'.
    + injection Hr' as Hr'. destruct (replace_slashes_length t) as [Hlt|Heq]; apply (f_equal length) in Hr'; cbn in *; rewrite ?Heq in Hr'; lia.
    + injection Hr' as Hr'. apply IH; [cbn in Hn; lia|done|exact Hl|done].
  - assert ([] ∉ split slash (d :: t)) as Hin by (apply IH; [cbn in Hn; lia|done|exact Hl|done]). rewrite E1 in Hin. set_solver.
Qed.

Lemma ne_all l : [] ∉ l -> ne_comps l = l.
Proof.
  induction l as [|p l IH]; [done|]. intros [Hp Hl]%not_elem_of_cons. destruct p as [|c p]; [done|]. by rewrite ne_cons, IH.
Qed.

Lemma join_split s : join (split slash s) = s.
Proof.
  induction s as [|c s IH]; [done|]. destruct (decide (c = slash)) as [->|Hc].
  - rewrite split_slash, join_cons by apply split_nonempty. by rewrite IH.
  - destruct (split_cons c s Hc) as (p & rest & E1 & ->). rewrite E1 in IH. rewrite <- IH. by destruct rest.
Qed.

Lemma trim_start_head s : trim_start_char slash s = [] \/ exists c t, trim_start_char slash s = c :: t /\ c <> slash.
Proof.
  induction s as [|c s IH]; [by left|]. cbn [trim_start_char]. destruct (Ascii.eqb_spec c slash); [done|]. right. by exists c, s.
Qed.
Lemma trim_start_suffix s : exists l, s = l ++ trim_start_char slash s.
Proof.
  induction s as [|c s [l IH]]; [by exists []|]. cbn [trim_start_char]. destruct (Ascii.eqb_spec c slash); [|by exists []].
  exists (c :: l). cbn [app]. by rewrite <- IH.
Qed.

(** A trimmed path is empty, or starts and ends with something else than a slash. *)
Lemma trim_char_ends s :
  trim_char slash s = [] \/
  exists c t, trim_char slash s = c :: t /\ c <> slash /\ last (c :: t) <> Some slash.
Proof.
  unfold trim_char, trim_end_char. destruct (trim_start_head s) as [->|(c & t & -> & Hc)]; [by left|].
  destruct (trim_start_suffix (reverse (c :: t))) as [l Hl]. destruct (trim_start_head (reverse (c :: t))) as [->|(d & u & E & Hd)]; [by left|].
  rewrite E in Hl |- *. right. apply (f_equal reverse) in Hl. rewrite reverse_involutive, reverse_app in Hl.
  pose proof (reverse_cons u d) as Hrc. destruct (reverse (d :: u)) as [|c' t'] eqn:Er; [by destruct (reverse u)|].
  cbn in Hl. injection Hl as -> ->. exists c', t'. split; [done|]. split; [done|]. rewrite <- Er, reverse_cons, last_snoc. congruence.
Qed.


Lemma path_loop_correct fuel dir path :
  (length path < fuel)%nat ->
  path_loop fuel dir path = Some (match drop_dots (comps path) with [] => [] | cs => trim_end_char slash dir ++ [slash] ++ join cs end).
Proof.
  revert path. induction fuel as [|fuel IH]; [lia|]. intros path Hl. cbn [path_loop]. rewrite <- (comps_trim path).
  pose proof (trim_char_length slash path) as Ht. pose proof (trim_char_ends path) as Hends. set (p := trim_char slash path) in *. clearbody p.
  destruct (decide (p = [])) as [->|Hp]; [done|]. rewrite (bool_decide_eq_false_2 (p = [])) by done.
  destruct (decide (p = [dot])) as [->|Hdot]; [done|]. rewrite bool_decide_eq_false_2 by done. cbn [orb].
  unfold strip_prefix. destruct (starts_with p [dot; slash]) eqn:Es.
  - apply starts_with_spec in Es as [rest Hrest]. rewrite Hrest. change (drop _ _) with rest.
    rewrite IH by (apply (f_equal length) in Hrest; cbn in Hrest; lia). done.
  - destruct (decide (p <> replace_slashes p)) as [Hne|Heq].
    + rewrite bool_decide_eq_true_2 by done. rewrite <- (comps_replace p). apply IH.
      destruct (replace_slashes_length p) as [?|E]; [lia|]. by rewrite E in Hne.
    + rewrite bool_decide_eq_false_2 by done. apply dec_stable in Heq.
      destruct Hends as [?|(c & t & E & Hc & Hlast)]; [done|].
      assert (comps p = split slash p) as Hcomps.
      { apply ne_all. rewrite E. apply (clean_split (S (length t))); [lia|done|done|]. by rewrite <- E, <- Heq. }
      assert (drop_dots (comps p) = split slash p) as ->.
      { rewrite Hcomps. destruct (split slash p) as [|q rest] eqn:Eq; [done|]. cbn [drop_dots]. rewrite bool_decide_eq_false_2; [done|].
        intros ->. pose proof (join_split p) as Hj. rewrite Eq in Hj. destruct rest as [|r rest]; [done|]. rewrite join_cons in Hj by done.
        rewrite <- Hj in Es. assert (starts_with ([dot] ++ slash :: join (r :: rest)) [dot; slash] = true) as Hs by (apply starts_with_spec; by eexists).
        congruence. }
      pose proof (split_nonempty slash p) as Hsp. pose proof (join_split p) as Hj. destruct (split slash p) as [|q rest]; [done|]. by rewrite Hj.
Qed.

(** C26: A path is resolved against the directory of the node: for every path the recursion
    ends, and the result is the path of the directory followed by the non-empty components
    after the leading dots — or empty, the node itself, when there are none. *)
Theorem path_deal_with_correct dir path :
  path_deal_with dir path =
    Some (match drop_dots (comps path) with [] => [] | cs => trim_end_char slash dir ++ [slash] ++ join cs end).
Proof. apply path_loop_correct. lia. Qed.

(** * The contents of files *)

(** What the library documents: opening with "rb" and "r+" leaves the contents alone and
    fails with ENOENT for a missing file, "w+" empties the file; reading and writing work
    at the position of the descriptor, and writing succeeds while there is space;
    truncating to a larger size does nothing. [files] are the regular files of the disk
    by path. *)
Class Ext4Laws (L : Type) `{Ext4Lib L} := {
  files : L -> gmap str (list Z);
  ino_path : L -> Z -> option str;
  space : L -> nat -> Prop;
  law_open p fl c l : files l !! p = Some c -> fl = O_RDONLY \/ fl = O_RDWR ->
    exists ino l', ext4_fopen p (flags_to_cstring fl) l = (EOK, mkE4 true ino fl (Z.of_nat (length c)) 0, l') /\
      files l' = files l /\ ino_path l' ino = Some p /\ forall n, space l n -> space l' n;
  law_open_missing p fl l : files l !! p = None -> fl = O_RDONLY \/ fl = O_RDWR ->
    exists f l', ext4_fopen p (flags_to_cstring fl) l = (ENOENT_, f, l') /\ files l' = files l;
  law_open_trunc p c l : files l !! p = Some c ->
    exists ino l', ext4_fopen p ($"w+") l = (EOK, mkE4 true ino 0x242 0 0, l') /\
      files l' = <[p := []]> (files l) /\ ino_path l' ino = Some p;
  law_read f len l p c : mp f = true -> e4_flags f <> O_WRONLY -> ino_path l (inode f) = Some p -> files l !! p = Some c ->
    0 <= fpos f <= Z.of_nat (length c) ->
    exists f', ext4_fread f len l = (EOK, take len (drop (Z.to_nat (fpos f)) c), f');
  law_write f buf l p c : mp f = true -> e4_flags f = O_RDWR -> ino_path l (inode f) = Some p -> files l !! p = Some c ->
    0 <= fpos f <= Z.of_nat (length c) -> space l (length buf) ->
    exists f' l', ext4_fwrite f buf l = (EOK, Z.of_nat (length buf), f', l') /\
      files l' = <[p := take (Z.to_nat (fpos f)) c ++ buf ++ drop (Z.to_nat (fpos f) + length buf) c]> (files l);
  law_truncate f size l p c : mp f = true -> ino_path l (inode f) = Some p -> files l !! p = Some c -> 0 <= size ->
    exists f' l', ext4_ftruncate f size l = (EOK, f', l') /\ files l' = <[p := take (Z.to_nat size) c]> (files l);
}.

Section contents.
Context {L : Type} `{Ext4Laws L}.

(** A path without a zero byte, and the position a seek in a file of [n] bytes leads to. *)
Definition c_path (p : str) : Prop := ascii_of_nat 0 ∉ p.
Definition seek_pos (off : Z) (n : nat) : nat := Nat.min (Z.to_nat off) n.

Lemma CString_new_ok {S E} (p : str) (s : S) : c_path p -> CString_new (E:=E) p s = Ret (Ok p, s).
Proof. intros Hp. unfold CString_new. unfold_M. by rewrite bool_decide_eq_false_2. Qed.

Lemma ef_open_ok p fl c f l :
  c_path p -> files l !! p = Some c -> fl = O_RDONLY \/ fl = O_RDWR ->
  exists ino l', ef_open p fl (f, l) = Ret (Ok EOK, (set_desc (mkE4 true ino fl (Z.of_nat (length c)) 0) f, l')) /\
    files l' = files l /\ ino_path l' ino = Some p /\ forall n, space l n -> space l' n.
Proof.
  intros Hp Hf Hfl. destruct (law_open p fl c l Hf Hfl) as (ino & l' & E & H1 & H2 & H3). exists ino, l'. split; [|done].
  unfold ef_open, call. unfold_M. by rewrite CString_new_ok, E.
Qed.

Lemma ef_seek_ok f (l : L) off n :
  fsize (file_desc f) = Z.of_nat n -> Z.of_nat n < 2 ^ 63 -> 0 <= off < 2 ^ 63 ->
  ef_seek (as_i64 off) SEEK_SET (f, l) = Ret (Ok EOK, (set_desc (set_fpos (Z.of_nat (seek_pos off n)) (file_desc f)) f, l)).
Proof.
  intros Hs Hn Ho. change (2 ^ 63) with 9223372036854775808 in *. unfold ef_seek, ext4_fsize, ext4_fseek, seek_pos. cbv beta iota zeta.
  rewrite Hs, !as_i64_small by lia. cbn [Z.eqb SEEK_SET]. rewrite (proj2 (Z.ltb_ge _ 0)) by (destruct (Z.ltb_spec (Z.of_nat n) off); lia).
  rewrite (proj2 (Z.ltb_ge (Z.of_nat n) _)) by (destruct (Z.ltb_spec (Z.of_nat n) off); lia). cbn [orb]. do 4 f_equal.
  f_equal. destruct (Z.ltb_spec (Z.of_nat n) off); lia.
Qed.

(** Reading and writing through an open descriptor. *)
Lemma ef_read_ok f (l : L) len p c :
  mp (file_desc f) = true -> e4_flags (file_desc f) <> O_WRONLY -> ino_path l (inode (file_desc f)) = Some p -> files l !! p = Some c ->
  0 <= fpos (file_desc f) <= Z.of_nat (length c) ->
  exists d, ef_read len (f, l) = Ret (Ok (take len (drop (Z.to_nat (fpos (file_desc f))) c)), (set_desc d f, l)).
Proof.
  intros H1 H2 H3 H4 H5. destruct (law_read (file_desc f) len l p c H1 H2 H3 H4 H5) as (d & Ed). exists d. unfold ef_read. by rewrite Ed.
Qed.
Lemma ef_write_ok f (l : L) buf p c :
  mp (file_desc f) = true -> e4_flags (file_desc f) = O_RDWR -> ino_path l (inode (file_desc f)) = Some p -> files l !! p = Some c ->
  0 <= fpos (file_desc f) <= Z.of_nat (length c) -> space l (length buf) ->
  exists d l', ef_write buf (f, l) = Ret (Ok (Z.of_nat (length buf)), (set_desc d f, l')) /\
    files l' = <[p := take (Z.to_nat (fpos (file_desc f))) c ++ buf ++ drop (Z.to_nat (fpos (file_desc f)) + length buf) c]> (files l).
Proof.
  intros H1 H2 H3 H4 H5 H6. destruct (law_write (file_desc f) buf l p c H1 H2 H3 H4 H5 H6) as (d & l' & Ed & F). exists d, l'.
  unfold ef_write. by rewrite Ed.
Qed.
Lemma ef_close_ok f (l : L) :
  exists f', ef_close (f, l) = Ret (Ok 0, (f', l)) /\ mp (file_desc f') = false /\ file_path f' = file_path f.
Proof. unfold ef_close, call. eexists. split; [reflexivity|]. by destruct (mp (file_desc f)) eqn:E. Qed.


(** Truncating a file to any size empties it: it is opened with O_TRUNC. *)
Theorem ext4_truncate_empties f l p c size :
  file_path f = p -> c_path p -> files l !! p = Some c -> 0 <= size ->
  exists f' l', x_truncate size (f, l) = Ret (Ok tt, (f', l')) /\ files l' = <[p := []]> (files l).
Proof.
  intros Hp Hz Hc Hs. destruct (law_open_trunc p c l Hc) as (ino & l1 & E1 & F1 & I1).
  unfold x_truncate, get_path, call, ax. unfold_M. cbn [fst]. rewrite Hp. unfold ef_open, call. unfold_M. rewrite CString_new_ok by done.
  change (flags_to_cstring _) with ($"w+"). rewrite E1. change (rc_result EOK) with (@Ok Z Z EOK). cbv beta iota.
  assert (files l1 !! p = Some []) as Hc1 by (by rewrite F1, lookup_insert_eq).
  destruct (law_truncate (mkE4 true ino 0x242 0 0) size l1 p [] eq_refl I1 Hc1 Hs) as (d & l2 & E2 & F2).
  set (f1 := set_desc _ f). assert (ef_truncate size (f1, l1) = Ret (Ok EOK, (set_desc d f1, l2))) as ->.
  { unfold ef_truncate. cbn [f1 set_desc file_desc]. by rewrite E2. }
  destruct (ef_close_ok (set_desc d f1) l2) as (f2 & -> & _). exists f2, l2. split; [done|].
  rewrite F2, F1, take_nil. by rewrite insert_insert_eq.
Qed.

(** The codes of the library are not those of [AxError]: a missing file is reported as one
    that already exists, and codes above 22, such as ENOSPC, make the kernel panic. *)
Theorem ext4_error_codes f l p off len :
  (file_path f = p -> c_path p -> files l !! p = None ->
   exists st, x_read_at off len (f, l) = Ret (Err AlreadyExists, st) /\ files (snd st) = files l) /\
  forall A (m : E4 (L:=L) A) e st st', m st = Ret (Err e, st') -> 22 < e -> ax m st = Panic.
Proof.
  split.
  - intros Hp Hz Hc. destruct (law_open_missing p O_RDONLY l Hc ltac:(by left)) as (d & l1 & E1 & F1).
    unfold x_read_at, get_path, call, ax, ef_open, call. unfold_M. cbn [fst]. rewrite Hp, CString_new_ok by done. rewrite E1. by eexists.
  - intros A m e st st' Hm He. unfold ax. unfold_M. rewrite Hm.
    assert (AxError_try_from e = Err e) as ->; [|done]. unfold AxError_try_from.
    destruct e as [|q|q]; try lia. do 5 (destruct q as [q|q|]; try (exfalso; lia); try reflexivity).
Qed.
End contents.

(** * A disk in memory *)

Module Ext4Demo.
(** The regular files by path; the inode of a file is a code of its path. *)
Abbreviation disk := (gmap str (list Z)).
Definition ino (p : str) : Z := Zpos (encode p).
Definition path_of (i : Z) : option str := match i with Zpos q => decode q | _ => None end.

#[export] Instance disk_lib : Ext4Lib disk := {|
  ext4_fopen p fl l :=
    match l !! p with
    | Some c =>
        if bool_decide (fl = $"w+") then (EOK, mkE4 true (ino p) 0x242 0 0, <[p := []]> l)
        else (EOK, mkE4 true (ino p) (if bool_decide (fl = $"rb") then 0 else 2) (Z.of_nat (length c)) 0, l)
    | None => (ENOENT_, ext4_null, l)
    end;
  ext4_fread f len l :=
    match path_of (inode f) ≫= (fun p => l !! p) with
    | Some c => (EOK, take len (drop (Z.to_nat (fpos f)) c), f)
    | None => (ENOENT_, [], f)
    end;
  ext4_fwrite f buf l :=
    match path_of (inode f) with
    | Some p => match l !! p with
                | Some c => (EOK, Z.of_nat (length buf), f, <[p := overlay (fpos f) buf c]> l)
                | None => (ENOENT_, 0, f, l)
                end
    | None => (ENOENT_, 0, f, l)
    end;
  ext4_ftruncate f size l :=
    match path_of (inode f) with
    | Some p => match l !! p with Some c => (EOK, f, <[p := take (Z.to_nat size) c]> l) | None => (ENOENT_, f, l) end
    | None => (ENOENT_, f, l)
    end;
  ext4_inode_exist p t l := match l !! p with Some _ => if t =? 1 then EOK else ENOENT_ | None => ENOENT_ end;
  ext4_mode_get p l := match l !! p with Some _ => (EOK, 0x81A4) | None => (ENOENT_, 0) end;
  ext4_fremove p l := (EOK, delete p l);
  ext4_frename p q l := match l !! p with Some c => (EOK, <[q := c]> (delete p l)) | None => (ENOENT_, l) end;
  ext4_dir_mk p l := (EOK, l);
  ext4_dir_rm p l := (EOK, l);
  ext4_dir_list p l := (fun c => (c.1, 1)) <$> map_to_list l;
|}.

Lemma path_of_ino p : path_of (ino p) = Some p.
Proof. apply decode_encode. Qed.

#[export] Instance disk_laws : Ext4Laws disk.
Proof.
  refine {| files := fun l : disk => l; ino_path := fun _ => path_of; space := fun _ _ => True |};
    unfold ext4_fopen, ext4_fread, ext4_fwrite, ext4_ftruncate, disk_lib.
  - intros p fl c l Hc Hfl. rewrite Hc. exists (ino p), l. rewrite path_of_ino. by destruct Hfl as [->| ->].
  - intros p fl l Hc Hfl. rewrite Hc. by eexists _, l.
  - intros p c l Hc. rewrite Hc. exists (ino p), (<[p := []]> l). by rewrite path_of_ino.
  - intros f len l p c _ _ Hp Hc _. rewrite Hp. cbn [mbind option_bind]. rewrite Hc. by eexists.
  - intros f buf l p c _ _ Hp Hc _ _. rewrite Hp, Hc. by eexists _, _.
  - intros f size l p c _ Hp Hc _. rewrite Hp, Hc. by eexists _, _.
Defined.

Definition log : str := $"/log".
Definition d0 : disk := {[log := [1; 2; 3]]}.
Definition f0 : Ext4File := mkEf ext4_null log EXT4_DE_REG_FILE.
End Ext4Demo.
Import Ext4Demo.

Lemma demo_c_path : c_path log.
Proof. unfold c_path. apply (bool_decide_unpack _). vm_compute. exact I. Qed.

Lemma demo_log : files d0 !! log = Some [1; 2; 3].
Proof. apply lookup_singleton_eq. Qed.


Lemma ext4_truncate_empties_witness :
  exists f' l', x_truncate 2 (f0, d0) = Ret (Ok tt, (f', l')) /\ files l' = <[log := []]> d0.
Proof. apply (ext4_truncate_empties f0 d0 log [1; 2; 3] 2 eq_refl demo_c_path demo_log ltac:(lia)). Defined.

Example path_examples :
  path_deal_with ($"/bin") ($"./a//b/") = Some ($"/bin/a/b") /\ path_deal_with ($"/") ($"a/./b") = Some ($"/a/./b") /\
  path_deal_with ($"/bin") ($"/./") = Some [].
Proof. by vm_compute. Qed.
