(* ===== verification/Fat.v ===== *)
(** The FAT file system: files as chains of clusters, from the fatfs crate
    (src/vendor/fatfs/src/file.rs, table.rs and fs.rs) for FAT32 volumes, and the adapter of
    the kernel to them (src/arceos/modules/axfs/src/fs/fatfs.rs). FatTheorems shows
    that any sequence of operations on any number of open files does what it does on
    plain lists of bytes with a count of free clusters.

    The disk is a store of bytes whose reads and writes succeed and are complete, which
    Disk.v shows of the readers and writers of the adapter. Dates, which are constant for the
    clock the kernel passes, and the write-back of directory entries when a file is dropped
    are left out; the directories of the crate are an interface. Files that are open at the
    same time are different files: two opens of one file cache its entry each for itself. *)
From Stdlib Require Import Ascii.
From S2P Require Import Prelude.
From S2P Require Import Errno Str Fs.

(** * The volume *)

Inductive FatError :=
| FIo | FUnexpectedEof | FWriteZero | FInvalidInput | FNotFound | FAlreadyExists | FDirectoryIsNotEmpty
| FCorruptedFileSystem | FNotEnoughSpace | FInvalidFileNameLength | FUnsupportedFileNameCharacter.
Inductive FatValue := Free | Data (n : Z) | Bad | EndOfChain.
#[export] Instance FatValue_eq_dec : EqDecision FatValue.
Proof. solve_decision. Defined.

(** The fields of the boot sector that are used here, with the flags it had when the volume
    was mounted. *)
Record Bpb := mkBpb {
  bytes_per_sector : Z; sectors_per_cluster : Z; first_data_sector : Z; total_clusters : Z;
  status_dirty : bool; status_io_error : bool }.
(** The entries of the allocation table, the disk, and the cached state. *)
Record FatFs := mkFatFs {
  fat : gmap Z Z; disk : bytes; next_free_cluster : option Z; free_cluster_count : option Z;
  current_dirty : bool }.
Definition set_fat (t : gmap Z Z) (s : FatFs) : FatFs :=
  mkFatFs t (disk s) (next_free_cluster s) (free_cluster_count s) (current_dirty s).
Definition set_disk (d : bytes) (s : FatFs) : FatFs :=
  mkFatFs (fat s) d (next_free_cluster s) (free_cluster_count s) (current_dirty s).
Definition map_free_clusters (f : Z -> Z) (s : FatFs) : FatFs :=
  mkFatFs (fat s) (disk s) (next_free_cluster s) (f <$> free_cluster_count s) (current_dirty s).
Definition set_next_free_cluster (c : Z) (s : FatFs) : FatFs :=
  mkFatFs (fat s) (disk s) (Some c) (free_cluster_count s) (current_dirty s).

Definition FT (A : Type) : Type := M FatFs FatError A.

(** * The table (table.rs) *)

Definition RESERVED_FAT_ENTRIES : Z := 2.
(** Reading behind the end of the table. *)
Definition get_raw (cluster : Z) (s : FatFs) : result Z FatError :=
  match fat s !! cluster with Some r => Ok r | None => Err FUnexpectedEof end.
(** The numbers of clusters that are values with a meaning. *)
Definition special (cluster : Z) : bool := (0x0FFFFFF7 <=? cluster) && (cluster <=? 0x0FFFFFFF).
(** [Fat32::get] and [Fat32::set] on one entry. *)
Definition fat32_get (cluster raw : Z) : FatValue :=
  let val := Z.land raw 0x0FFFFFFF in
  if val =? 0 then if special cluster then Bad else Free
  else if val =? 0x0FFFFFF7 then Bad
  else if 0x0FFFFFF8 <=? val then EndOfChain
  else if special cluster then Bad else Data val.
Definition raw_value (value : FatValue) : Z :=
  match value with Free => 0 | Bad => 0x0FFFFFF7 | EndOfChain => 0x0FFFFFFF | Data n => n end.
Definition fat32_set (value : FatValue) (old : Z) : Z := Z.lor (raw_value value) (Z.land old 0xF0000000).

Definition read_fat (cluster : Z) (s : FatFs) : result FatValue FatError :=
  match get_raw cluster s with Ok r => Ok (fat32_get cluster r) | Err e => Err e end.
Definition write_fat (cluster : Z) (value : FatValue) : FT unit := fun s =>
  match get_raw cluster s with
  | Err e => throw e s
  | Ok r =>
      if bool_decide (value = Free) && special cluster then Panic
      else Ret (Ok tt, set_fat (<[cluster := fat32_set value r]> (fat s)) s)
  end.
Definition get_next_cluster (cluster : Z) (s : FatFs) : result (option Z) FatError :=
  match read_fat cluster s with Ok (Data n) => Ok (Some n) | Ok _ => Ok None | Err e => Err e end.

(** [find_free]: [k] is the number of clusters still to look at. *)
Fixpoint find_free (k : nat) (cluster : Z) (s : FatFs) : result Z FatError :=
  match k with
  | O => Err FNotEnoughSpace
  | S k =>
      match get_raw cluster s with
      | Err e => Err e
      | Ok r => if Z.land r 0x0FFFFFFF =? 0 then Ok cluster else find_free k (cluster + 1) s
      end
  end.
Definition find_free_cluster (start_cluster end_cluster : Z) (s : FatFs) : result Z FatError :=
  find_free (Z.to_nat (end_cluster - start_cluster)) start_cluster s.
Definition table_alloc_cluster (prev_cluster hint : option Z) (total_clusters : Z) : FT Z := fun s =>
  let end_cluster := as_u32 (total_clusters + RESERVED_FAT_ENTRIES) in
  let start_cluster := match hint with
                       | Some n => if n <? end_cluster then n else RESERVED_FAT_ENTRIES
                       | None => RESERVED_FAT_ENTRIES
                       end in
  (new_cluster ← try_ match find_free_cluster start_cluster end_cluster s with
                      | Ok n => Ok n
                      | Err e => if RESERVED_FAT_ENTRIES <? start_cluster
                                 then find_free_cluster RESERVED_FAT_ENTRIES start_cluster s else Err e
                      end;
   _ ← write_fat new_cluster EndOfChain;
   _ ← match prev_cluster with Some n => write_fat n (Data new_cluster) | None => mret tt end;
   mret new_cluster) s.

(** [ClusterIterator::free] and [truncate] from the cluster the iterator is at. An error of
    [next] leaves the iterator where it is. Every pass frees a cluster that was not free,
    or is the last one, so the size of the table is enough. *)
Definition iter_next (n : Z) (s : FatFs) : option Z :=
  match get_next_cluster n s with Ok o => o | Err _ => Some n end.
Fixpoint chain_free (fuel : nat) (num_free : Z) (cluster : option Z) : FT Z :=
  match cluster with
  | None => mret num_free
  | Some n =>
      match fuel with
      | O => panic
      | S fuel => fun s =>
          let next := iter_next n s in
          (_ ← write_fat n Free; chain_free fuel (as_u32 (num_free + 1)) next) s
      end
  end.
Definition chain_truncate (fuel : nat) (n : Z) : FT Z := fun s =>
  let next := iter_next n s in
  (_ ← write_fat n EndOfChain; chain_free fuel 0 next) s.

Section volume.
Context (g : Bpb).

(** * The volume (fs.rs and boot_sector.rs) *)

Definition bytes_from_sectors (sectors : Z) : Z := wrap (sectors * bytes_per_sector g).
Definition sectors_from_clusters (clusters : Z) : Z := as_u32 (clusters * sectors_per_cluster g).
Definition cluster_size : Z := as_u32 (sectors_per_cluster g * bytes_per_sector g).
Definition clusters_from_bytes (n : Z) : Z := as_u32 (((n +w cluster_size) -w 1) / cluster_size).
Definition sector_from_cluster (cluster : Z) : Z :=
  as_u32 (first_data_sector g + sectors_from_clusters (as_u32 (cluster - RESERVED_FAT_ENTRIES))).
Definition offset_from_cluster (cluster : Z) : Z := bytes_from_sectors (sector_from_cluster cluster).
Definition bytes_from_clusters (clusters : Z) : Z := bytes_from_sectors (sectors_from_clusters clusters).

(** Enough passes for every chain. *)
Definition chain_fuel : nat := Z.to_nat (total_clusters g + RESERVED_FAT_ENTRIES).
Definition truncate_cluster_chain (cluster : Z) : FT unit :=
  num_free ← chain_truncate chain_fuel cluster; modify (map_free_clusters (fun n => as_u32 (n + num_free))).
Definition free_cluster_chain (cluster : Z) : FT unit :=
  num_free ← chain_free chain_fuel 0 (Some cluster); modify (map_free_clusters (fun n => as_u32 (n + num_free))).
Definition alloc_cluster (prev_cluster : option Z) (zero : bool) : FT Z := fun s =>
  (cluster ← table_alloc_cluster prev_cluster (next_free_cluster s) (total_clusters g);
   _ ← (if zero then modify (fun s => set_disk (mem_zero (offset_from_cluster cluster) (Z.to_nat cluster_size) (disk s)) s)
        else mret tt);
   _ ← modify (set_next_free_cluster (as_u32 (cluster + 1)));
   _ ← modify (map_free_clusters (fun n => as_u32 (n - 1)));
   mret cluster) s.
(** [FsStatusFlags::encode], and [set_dirty_flag] of a FAT32 volume. *)
Definition encode_flags (dirty io_error : bool) : Z := Z.lor (if dirty then 1 else 0) (if io_error then 2 else 0).
Definition FLAGS_OFFSET : Z := 0x41.
Definition set_dirty_flag (dirty : bool) : FT unit := fun s =>
  let flag := status_dirty g || dirty in
  if Bool.eqb flag (current_dirty s) then Ret (Ok tt, s)
  else Ret (Ok tt, mkFatFs (fat s) (mem_write FLAGS_OFFSET [encode_flags flag (status_io_error g)] (disk s))
                     (next_free_cluster s) (free_cluster_count s) flag).

(** * Files (file.rs) *)

(** The directory entry a file edits; a directory has no size. *)
Record DirEntryEditor := mkEditor { e_is_dir : bool; e_size : Z; e_first : option Z }.
Record FatFile := mkFat {
  first_cluster : option Z; current_cluster : option Z; offset : Z; entry : option DirEntryEditor }.
Definition FF (A : Type) : Type := M (FatFile * FatFs) FatError A.
Definition on_fs {A} (m : FT A) : FF A := zoom snd (fun s st => (fst st, s)) m.

Definition entry_size (e : DirEntryEditor) : option Z := if e_is_dir e then None else Some (e_size e).
Definition entry_set_size (size : Z) (e : DirEntryEditor) : DirEntryEditor :=
  if e_is_dir e then e else mkEditor (e_is_dir e) size (e_first e).
Definition entry_set_first (c : option Z) (e : DirEntryEditor) : DirEntryEditor := mkEditor (e_is_dir e) (e_size e) c.
Definition ff_size (f : FatFile) : option Z := e ← entry f; entry_size e.
Definition ff_is_dir (f : FatFile) : bool := match entry f with Some e => e_is_dir e | None => false end.
Definition bytes_left_in_file (f : FatFile) : option Z := (fun s => as_u32 (s - offset f)) <$> ff_size f.
Definition at_offset (cur : option Z) (o : Z) (f : FatFile) : FatFile := mkFat (first_cluster f) cur o (entry f).
Definition ff_set_first_cluster (c : Z) (f : FatFile) : FatFile :=
  mkFat (Some c) (current_cluster f) (offset f) (entry_set_first (Some c) <$> entry f).
Definition MAX_FILE_SIZE : Z := U32 - 1.

(** [seek]. *)
Definition u32_try_from (n : Z) : option Z := if (0 <=? n) && (n <? U32) then Some n else None.
Definition seek_target (pos : SeekFrom) (f : FatFile) : option Z :=
  match pos with
  | SeekCurrent x => u32_try_from (offset f + x)
  | SeekStart x => u32_try_from x
  | SeekEnd o => s ← ff_size f; u32_try_from (s + o)
  end.
(** The loop over the clusters to skip: the cluster reached, and the new offset when the
    chain ends before it. *)
Fixpoint skip_clusters (k : nat) (i cluster new_offset : Z) (s : FatFs) : result (Z * Z) FatError :=
  match k with
  | O => Ok (cluster, new_offset)
  | S k =>
      match get_next_cluster cluster s with
      | Err e => Err e
      | Ok (Some n) => skip_clusters k (i + 1) n new_offset s
      | Ok None => Ok (cluster, as_u32 (bytes_from_clusters (i + 1)))
      end
  end.
Definition ff_seek (pos : SeekFrom) : FF Z := fun '(f, s) =>
  match seek_target pos f with
  | None => Ret (Err FInvalidInput, (f, s))
  | Some new_offset =>
      let new_offset := match ff_size f with
                        | Some size => if size <? new_offset then size else new_offset
                        | None => new_offset
                        end in
      if new_offset =? offset f then Ret (Ok (offset f), (f, s)) else
      let new_in_clusters := clusters_from_bytes new_offset in
      let old_in_clusters := clusters_from_bytes (offset f) in
      if new_offset =? 0 then Ret (Ok 0, (at_offset None 0 f, s))
      else if new_in_clusters =? old_in_clusters then Ret (Ok new_offset, (at_offset (current_cluster f) new_offset f, s))
      else match first_cluster f with
           | Some first =>
               match skip_clusters (Z.to_nat (as_u32 (new_in_clusters - 1))) 0 first new_offset s with
               | Ok (cluster, o) => Ret (Ok o, (at_offset (Some cluster) o f, s))
               | Err e => Ret (Err e, (f, s))
               end
           | None => Ret (Ok 0, (at_offset None 0 f, s))
           end
  end.

(** The cluster behind the current one. *)
Definition next_cluster : FF (option Z) := fun '(f, s) =>
  match current_cluster f with
  | None => Ret (Ok (first_cluster f), (f, s))
  | Some n => try_ (get_next_cluster n s) (f, s)
  end.

(** The cluster of the byte at the position. *)
Definition current_cluster_opt : FF (option Z) := fun '(f, s) =>
  if offset f mod cluster_size =? 0 then next_cluster (f, s) else Ret (Ok (current_cluster f), (f, s)).

(** [read] into a buffer of [len] bytes. *)
Definition ff_read (len : nat) : FF (list Z) := fun '(f, s) =>
  let offset_in_cluster := offset f mod cluster_size in
  (cur ← current_cluster_opt;
   match cur with
   | None => mret []
   | Some cluster =>
       let left_in_cluster := as_u32 (cluster_size - offset_in_cluster) in
       let left_in_file := default left_in_cluster (bytes_left_in_file f) in
       let read_size := Z.min (Z.min (Z.of_nat len) left_in_cluster) left_in_file in
       if read_size =? 0 then mret [] else
       _ ← modify (fun '(f, s) => (at_offset (Some cluster) (as_u32 (offset f + read_size)) f, s));
       mret (mem_read (offset_from_cluster cluster +w offset_in_cluster) (Z.to_nat read_size) (disk s))
   end) (f, s).

(** [update_dir_entry_after_write]. *)
Definition update_dir_entry_after_write (f : FatFile) : FatFile :=
  let grow e := match entry_size e with
                | Some s => if s <? offset f then entry_set_size (offset f) e else e
                | None => e
                end in
  mkFat (first_cluster f) (current_cluster f) (offset f) (grow <$> entry f).
(** The cluster a write goes to at the start of a cluster, allocated at the end of the chain. *)
Definition write_cluster : FF Z :=
  nx ← next_cluster;
  match nx with
  | Some n => mret n
  | None => fun '(f, s) =>
      (new_cluster ← on_fs (alloc_cluster (current_cluster f) (ff_is_dir f));
       _ ← (if bool_decide (first_cluster f = None)
            then modify (fun '(f, s) => (ff_set_first_cluster new_cluster f, s)) else mret tt);
       mret new_cluster) (f, s)
  end.
Definition write_target : FF Z := fun '(f, s) =>
  if offset f mod cluster_size =? 0 then write_cluster (f, s) else unwrap (current_cluster f) (f, s).
Definition ff_write (buf : list Z) : FF Z := fun '(f, s) =>
  let offset_in_cluster := offset f mod cluster_size in
  let left_in_cluster := as_u32 (cluster_size - offset_in_cluster) in
  let left_until_max := as_u32 (MAX_FILE_SIZE - offset f) in
  let write_size := Z.min (Z.min (Z.of_nat (length buf)) left_in_cluster) left_until_max in
  if write_size =? 0 then Ret (Ok 0, (f, s)) else
  (_ ← on_fs (set_dirty_flag true);
   cluster ← write_target;
   _ ← modify (fun '(f, s) =>
     (update_dir_entry_after_write (at_offset (Some cluster) (as_u32 (offset f + write_size)) f),
      set_disk (mem_write (offset_from_cluster cluster +w offset_in_cluster) (take (Z.to_nat write_size) buf) (disk s)) s));
   mret write_size) (f, s).

Definition ff_truncate : FF unit := fun '(f, s) =>
  match entry f with
  | None => Panic
  | Some e =>
      let e := entry_set_size (offset f) e in
      let e := if offset f =? 0 then entry_set_first None e else e in
      let f := mkFat (first_cluster f) (current_cluster f) (offset f) (Some e) in
      match current_cluster f with
      | Some n => on_fs (truncate_cluster_chain n) (f, s)
      | None =>
          match first_cluster f with
          | Some n =>
              (_ ← on_fs (free_cluster_chain n);
               modify (fun '(f, s) => (mkFat None (current_cluster f) (offset f) (entry f), s))) (f, s)
          | None => Ret (Ok tt, (f, s))
          end
      end
  end.

(** * [FileWrapper] (axfs/src/fs/fatfs.rs) *)

Definition as_vfs_err (e : FatError) : AxError :=
  match e with
  | FAlreadyExists => AlreadyExists
  | FCorruptedFileSystem => InvalidData
  | FDirectoryIsNotEmpty => DirectoryNotEmpty
  | FInvalidInput | FInvalidFileNameLength | FUnsupportedFileNameCharacter => InvalidInput
  | FNotEnoughSpace => StorageFull
  | FNotFound => NotFound
  | FUnexpectedEof => UnexpectedEof
  | FWriteZero => WriteZero
  | FIo => Io
  end.
Definition FAT_BLOCK_SIZE : Z := 512.
Definition FW (A : Type) : Type := M (FatFile * FatFs) AxError A.
Definition fw_get_attr : FW VfsNodeAttr :=
  size ← map_err as_vfs_err (ff_seek (SeekEnd 0));
  let blocks := ((size +w FAT_BLOCK_SIZE) -w 1) / FAT_BLOCK_SIZE in
  mret (mkAttr 0x1ED TFile size blocks).
Definition fw_read_at (off : Z) (len : nat) : FW (list Z) :=
  _ ← map_err as_vfs_err (ff_seek (SeekStart off)); map_err as_vfs_err (ff_read len).
Definition fw_write_at (off : Z) (buf : list Z) : FW Z :=
  _ ← map_err as_vfs_err (ff_seek (SeekStart off)); map_err as_vfs_err (ff_write buf).
Definition fw_truncate (size : Z) : FW unit :=
  _ ← map_err as_vfs_err (ff_seek (SeekStart size)); map_err as_vfs_err ff_truncate.
End volume.

(** * [DirWrapper] (axfs/src/fs/fatfs.rs) *)

(** The directories [D] of the crate on the state [V] of the volume. Entries of a listing
    are names with whether they are directories, or errors. *)
Class FatDirs (V D : Type) := {
  fd_open_file : D -> str -> V -> result FatFile FatError;
  fd_open_dir : D -> str -> V -> result D FatError;
  fd_create_file : D -> str -> M V FatError unit;
  fd_create_dir : D -> str -> M V FatError unit;
  fd_remove : D -> str -> M V FatError unit;
  fd_rename : D -> str -> D -> str -> M V FatError unit;
  fd_iter : D -> V -> list (result (str * bool) FatError);
}.
Inductive FatNode (D : Type) := NFile (f : FatFile) | NDir (d : D).
Arguments NFile {D} f.
Arguments NDir {D} d.

(** The calls of [lookup] and [create] on shorter and shorter paths: what is left when the
    slashes around the path and the dots before it are gone. *)
Fixpoint strip_dots (fuel : nat) (path : str) : option str :=
  match fuel with
  | O => None
  | S fuel =>
      let path := trim_char slash path in
      if bool_decide (path = []) || bool_decide (path = [dot]) then Some []
      else match strip_prefix path [dot; slash] with
           | Some rest => strip_dots fuel rest
           | None => Some path
           end
  end.

Section dirs.
Context {V D : Type} `{FatDirs V D}.
Definition DW (A : Type) : Type := M V AxError A.

Definition dw_get_attr : VfsNodeAttr := mkAttr 0x1ED TDir FAT_BLOCK_SIZE 1.
Definition dw_parent (d : D) (v : V) : option (FatNode D) :=
  match fd_open_dir d $".." v with Ok d' => Some (NDir d') | Err _ => None end.
Definition dw_lookup (d : D) (path : str) : DW (FatNode D) := fun v =>
  (path ← unwrap (strip_dots (S (length path)) path);
   if bool_decide (path = []) then mret (NDir d)
   else match fd_open_file d path v with
        | Ok file => mret (NFile file)
        | Err _ =>
            match fd_open_dir d path v with
            | Ok dir => mret (NDir dir)
            | Err _ => throw NotFound
            end
        end) v.
Definition dw_create (d : D) (path : str) (ty : VfsNodeType) : DW unit :=
  path ← unwrap (strip_dots (S (length path)) path);
  if bool_decide (path = []) then mret tt
  else match ty with
       | TFile => map_err as_vfs_err (fd_create_file d path)
       | TDir => map_err as_vfs_err (fd_create_dir d path)
       | _ => throw Unsupported
       end.
Fixpoint remove_loop (fuel : nat) (d : D) (path : str) : DW unit :=
  match fuel with
  | O => panic
  | S fuel =>
      let path := trim_char slash path in
      _ ← assert_ (negb (bool_decide (path = [])));
      match strip_prefix path [dot; slash] with
      | Some rest => remove_loop fuel d rest
      | None => map_err as_vfs_err (fd_remove d path)
      end
  end.
Definition dw_remove (d : D) (path : str) : DW unit := remove_loop (S (length path)) d path.
(** An error in the listing ends it. *)
Fixpoint dw_entries (l : list (result (str * bool) FatError)) : DW (list VfsDirEntry) :=
  match l with
  | Ok (name, is_dir) :: l =>
      e ← dir_entry_new name (if is_dir : bool then TDir else TFile);
      es ← dw_entries l;
      mret (e :: es)
  | _ => mret []
  end.
Definition dw_read_dir (d : D) (start_idx : Z) (len : nat) : DW (list VfsDirEntry) := fun v =>
  dw_entries (take len (drop (Z.to_nat start_idx) (fd_iter d v))) v.
Definition dw_rename (d : D) (src_path dst_path : str) : DW unit :=
  map_err as_vfs_err (fd_rename d src_path d dst_path).
End dirs.
