(* ===== verification/FatTheorems.v ===== *)
(** FAT files are lists of bytes: the allocation table as a set of disjoint chains, the
    lemmas on its operations, and the refinement of the file operations of the adapter
    (Fat.v) by operations on lists with a count of free clusters. *)
From Stdlib Require Import Ascii.
From S2P Require Import Prelude.
From S2P Require Import Errno Str Fs Fat.

(** What [BootSector::validate] leaves of a FAT32 volume. *)
Record geometry_ok (g : Bpb) : Prop := {
  geo_bytes : 512 <= bytes_per_sector g <= 4096;
  geo_cluster : 0 < sectors_per_cluster g <= 128;
  geo_first : 0 < first_data_sector g;
  geo_total : 0 <= total_clusters g < 0x0FFFFFF5;
  geo_sectors : first_data_sector g + total_clusters g * sectors_per_cluster g < U32 }.

Lemma as_u32_small n : 0 <= n < U32 -> as_u32 n = n.
Proof. intros ?. apply Z.mod_small. lia. Qed.

(** * Entries *)

Definition value_ok (v : FatValue) : Prop := match v with Data n => 0 < n < 0x0FFFFFF7 | _ => True end.
Lemma raw_value_range v : value_ok v -> 0 <= raw_value v < 2 ^ 28.
Proof. destruct v; cbn; lia. Qed.
Lemma fat32_land v old : value_ok v -> Z.land (fat32_set v old) 0x0FFFFFFF = raw_value v.
Proof.
  intros Hv. unfold fat32_set. rewrite Z.land_lor_distr_l, <- Z.land_assoc.
  change (Z.land 0xF0000000 0x0FFFFFFF) with 0. rewrite Z.land_0_r, Z.lor_0_r.
  change 0x0FFFFFFF with (Z.ones 28). rewrite Z.land_ones by lia. apply Z.mod_small, raw_value_range, Hv.
Qed.
(** What is stored in an entry is read back; the upper four bits stay. *)
Lemma fat32_get_set c v old : special c = false -> value_ok v -> fat32_get c (fat32_set v old) = v.
Proof.
  intros Hc Hv. unfold fat32_get. rewrite fat32_land, Hc by done. destruct v; cbn in *; try done.
  repeat (case_bool; bool_to_prop; try lia). done.
Qed.

Section volume.
Context (g : Bpb) (G : geometry_ok g).
Abbreviation cs := (cluster_size g).
Abbreviation ofc := (offset_from_cluster g).

Definition valid (c : Z) : Prop := RESERVED_FAT_ENTRIES <= c < total_clusters g + RESERVED_FAT_ENTRIES.
Definition data_start : Z := first_data_sector g * bytes_per_sector g.

Lemma cs_eq : cs = sectors_per_cluster g * bytes_per_sector g /\ 512 <= cs <= 524288.
Proof. destruct G. unfold cluster_size. rewrite as_u32_small by nia. nia. Qed.
Lemma cs_pos : 0 < cs < U32.
Proof. pose proof cs_eq. lia. Qed.
Lemma ofc_eq c : valid c -> ofc c = data_start + (c - 2) * cs.
Proof.
  intros Hc. destruct G, cs_eq as [Hcs _]. unfold valid, RESERVED_FAT_ENTRIES in Hc.
  unfold offset_from_cluster, sector_from_cluster, sectors_from_clusters, RESERVED_FAT_ENTRIES.
  rewrite (as_u32_small (c - 2)) by lia. rewrite (as_u32_small (_ * _)) by nia.
  rewrite as_u32_small by nia. unfold bytes_from_sectors, data_start. rewrite wrap_small by nia. rewrite Hcs. ring.
Qed.
Lemma ofc_range c : valid c -> 512 <= ofc c < 2 ^ 48.
Proof.
  intros Hc. rewrite ofc_eq by done. destruct G, cs_eq as [Hcs _]. unfold valid, data_start, RESERVED_FAT_ENTRIES in *. nia.
Qed.
Lemma ofc_apart c d i j : valid c -> valid d -> 0 <= i < cs -> 0 <= j < cs -> ofc c + i = ofc d + j -> c = d /\ i = j.
Proof. intros Hc Hd Hi Hj. rewrite !ofc_eq by done. intros E. assert (c = d) by nia. subst. lia. Qed.
Lemma cfb_eq n : 0 <= n < U32 -> clusters_from_bytes g n = (n + cs - 1) / cs.
Proof.
  intros Hn. pose proof cs_pos. unfold clusters_from_bytes. rewrite wadd_small, wsub_small by lia.
  apply as_u32_small. split; [apply Z.div_pos; lia|]. apply Z.div_lt_upper_bound; nia.
Qed.

(** * The table *)

Definition entry_of (s : FatFs) (c : Z) : FatValue :=
  match fat s !! c with Some r => fat32_get c r | None => Bad end.
Record table_ok (s : FatFs) : Prop := {
  tab_dom : forall c, valid c -> is_Some (fat s !! c);
  tab_hint : forall n, next_free_cluster s = Some n -> RESERVED_FAT_ENTRIES <= n }.
Definition upd (c : Z) (v : FatValue) (s : FatFs) : FatFs :=
  set_fat (<[c := fat32_set v (default 0 (fat s !! c))]> (fat s)) s.

Lemma valid_not_special c : valid c -> special c = false.
Proof. intros Hc. destruct G. unfold valid, RESERVED_FAT_ENTRIES in Hc. unfold special. apply andb_false_iff. left. apply Z.leb_gt. lia. Qed.
Lemma entry_of_upd c v s d : valid c -> value_ok v -> entry_of (upd c v s) d = if decide (d = c) then v else entry_of s d.
Proof.
  intros Hc Hv. unfold entry_of, upd. cbn. case_decide as E.
  - subst. rewrite lookup_insert_eq. by apply fat32_get_set; [apply valid_not_special|].
  - by rewrite lookup_insert_ne.
Qed.
Lemma upd_table_ok c v s : table_ok s -> table_ok (upd c v s).
Proof.
  intros [Hd Hh]. split; [|done]. intros d Hv. unfold upd. cbn. destruct (decide (c = d)) as [->|].
  - by rewrite lookup_insert_eq.
  - rewrite lookup_insert_ne by done. by apply Hd.
Qed.
Lemma write_fat_eq c v s : table_ok s -> valid c -> write_fat c v s = Ret (Ok tt, upd c v s).
Proof.
  intros T Hc. destruct (tab_dom s T c Hc) as [r Hr]. unfold write_fat, get_raw, upd. rewrite Hr, valid_not_special by done.
  by rewrite andb_false_r.
Qed.
Lemma read_fat_eq c s : table_ok s -> valid c -> read_fat c s = Ok (entry_of s c).
Proof. intros T Hc. destruct (tab_dom s T c Hc) as [r Hr]. unfold read_fat, get_raw, entry_of. by rewrite Hr. Qed.
Lemma raw_free c s r : valid c -> fat s !! c = Some r -> Z.land r 0x0FFFFFFF = 0 <-> entry_of s c = Free.
Proof.
  intros Hc Hr. unfold entry_of, fat32_get. rewrite Hr, valid_not_special by done.
  destruct (Z.eqb_spec (Z.land r 0x0FFFFFFF) 0); [done|]. split; [done|]. repeat case_match; done.
Qed.

(** * Allocation *)

Lemma find_free_spec s k c :
  table_ok s -> (forall d, c <= d < c + Z.of_nat k -> valid d) ->
  match find_free k c s with
  | Ok n => c <= n < c + Z.of_nat k /\ entry_of s n = Free
  | Err e => e = FNotEnoughSpace /\ forall d, c <= d < c + Z.of_nat k -> entry_of s d <> Free
  end.
Proof.
  intros T. revert c. induction k as [|k IH]; intros c Hv; cbn [find_free]; [split; [done|lia]|].
  destruct (tab_dom s T c ltac:(apply Hv; lia)) as [r Hr]. unfold get_raw. rewrite Hr.
  pose proof (raw_free c s r ltac:(apply Hv; lia) Hr) as Hf. destruct (Z.eqb_spec (Z.land r 0x0FFFFFFF) 0) as [E|E].
  - split; [lia|]. by apply Hf.
  - specialize (IH (c + 1) ltac:(intros; apply Hv; lia)). destruct (find_free k (c + 1) s).
    + destruct IH. split; [lia|done].
    + destruct IH as [-> IH]. split; [done|]. intros d Hd. destruct (decide (d = c)) as [->|]; [tauto|]. apply IH. lia.
Qed.

(** The free clusters of the volume. *)
Definition free_list (s : FatFs) : list Z :=
  filter (fun c => entry_of s c = Free) (seqZ RESERVED_FAT_ENTRIES (total_clusters g)).
Lemma elem_of_free_list s c : c ∈ free_list s <-> entry_of s c = Free /\ valid c.
Proof. unfold free_list. rewrite list_elem_of_filter, elem_of_seqZ. unfold valid. intuition lia. Qed.

Definition link_prev (prev : option Z) (c : Z) (s : FatFs) : FatFs :=
  match prev with Some n => upd n (Data c) s | None => s end.
Lemma table_alloc_spec prev s :
  table_ok s -> (forall n, prev = Some n -> valid n) ->
  match table_alloc_cluster prev (next_free_cluster s) (total_clusters g) s with
  | Ret (Ok c, s') => c ∈ free_list s /\ s' = link_prev prev c (upd c EndOfChain s)
  | Ret (Err e, s') => e = FNotEnoughSpace /\ s' = s /\ free_list s = []
  | Panic => False
  end.
Proof.
  intros T Hp. unfold table_alloc_cluster. destruct G. rewrite as_u32_small by (unfold RESERVED_FAT_ENTRIES; lia).
  set (e := total_clusters g + RESERVED_FAT_ENTRIES). set (start := match next_free_cluster s with Some _ => _ | None => _ end).
  assert (Hs : RESERVED_FAT_ENTRIES <= start <= e).
  { subst start. destruct (next_free_cluster s) as [n|] eqn:En; [|unfold e, RESERVED_FAT_ENTRIES; lia].
    pose proof (tab_hint s T n En). case_bool; bool_to_prop; unfold e, RESERVED_FAT_ENTRIES in *; lia. }
  clearbody start.
  assert (Hr : match (match find_free_cluster start e s with
                      | Ok n => Ok n
                      | Err err => if RESERVED_FAT_ENTRIES <? start then find_free_cluster RESERVED_FAT_ENTRIES start s else Err err
                      end) with
               | Ok n => n ∈ free_list s
               | Err err => err = FNotEnoughSpace /\ free_list s = []
               end).
  { unfold find_free_cluster.
    pose proof (find_free_spec s (Z.to_nat (e - start)) start T ltac:(unfold valid; fold e; lia)) as H1.
    destruct (find_free _ start s) as [n|err]; [rewrite elem_of_free_list; unfold valid; fold e; intuition lia|].
    pose proof (find_free_spec s (Z.to_nat (start - 2)) 2 T ltac:(unfold valid; fold e; unfold RESERVED_FAT_ENTRIES in *; lia)) as H2.
    assert (Hnone : (forall d, valid d -> entry_of s d <> Free) -> free_list s = []).
    { intros Hall. apply elem_of_nil_inv. intros c [Hf Hv]%elem_of_free_list. by apply (Hall c). }
    unfold RESERVED_FAT_ENTRIES in *. case_bool; bool_to_prop.
    - destruct (find_free _ 2 s) as [n|err']; [rewrite elem_of_free_list; unfold valid, RESERVED_FAT_ENTRIES; fold e; intuition lia|].
      destruct H1 as [-> H1], H2 as [-> H2]. split; [done|]. apply Hnone. intros d Hd. unfold valid, RESERVED_FAT_ENTRIES in Hd.
      destruct (decide (d < start)); [apply H2|apply H1]; lia.
    - destruct H1 as [-> H1]. split; [done|]. apply Hnone. intros d Hd. unfold valid, RESERVED_FAT_ENTRIES in Hd. apply H1. lia. }
  destruct (match find_free_cluster start e s with Ok n => _ | Err err => _ end) as [n|err]; cbn.
  - pose proof (proj1 (elem_of_free_list s n) Hr) as [_ Hn]. unfold_M. rewrite write_fat_eq by done. destruct prev as [p|]; cbn.
    + rewrite write_fat_eq by (try apply upd_table_ok; auto). done.
    + done.
  - by destruct Hr as [-> ->].
Qed.

(** * Counting free clusters *)

Lemma filter_ext_in {A} (P Q : A -> Prop) `{forall x, Decision (P x), forall x, Decision (Q x)} (l : list A) :
  (forall x, x ∈ l -> P x <-> Q x) -> filter P l = filter Q l.
Proof.
  induction l as [|x l IH]; intros Hpq; [done|]. rewrite !filter_cons, IH by (intros; apply Hpq; by right).
  pose proof (Hpq x ltac:(left)). destruct (decide (P x)), (decide (Q x)); tauto.
Qed.
Lemma filter_count {A} `{EqDecision A} (P Q : A -> Prop) `{forall x, Decision (P x), forall x, Decision (Q x)} (l : list A) n :
  NoDup l -> n ∈ l -> P n -> ~ Q n -> (forall m, m <> n -> P m <-> Q m) -> length (filter P l) = S (length (filter Q l)).
Proof.
  intros Hnd Hn HP HQ Hpq. induction Hnd as [|x l Hx Hnd IH]; [by apply not_elem_of_nil in Hn|].
  rewrite !filter_cons. apply elem_of_cons in Hn as [<-|Hn].
  - rewrite decide_True, decide_False by done. cbn [length]. do 2 f_equal. apply filter_ext_in.
    intros y Hy. apply Hpq. by intros ->.
  - assert (x <> n) by (intros ->; done). destruct (decide (P x)) as [Hp|Hp], (decide (Q x)) as [Hq|Hq]; cbn [length].
    + by rewrite IH.
    + exfalso. by apply Hq, Hpq.
    + exfalso. by apply Hp, Hpq.
    + by apply IH.
Qed.
Definition free_count (s : FatFs) : nat := length (free_list s).
Lemma valid_seqZ c : valid c -> c ∈ seqZ RESERVED_FAT_ENTRIES (total_clusters g).
Proof. rewrite elem_of_seqZ. unfold valid. lia. Qed.
Lemma free_count_take c v s :
  valid c -> value_ok v -> v <> Free -> entry_of s c = Free -> free_count s = S (free_count (upd c v s)).
Proof.
  intros Hc Hv Hne Hf. apply (filter_count _ _ _ c); [apply NoDup_seqZ|by apply valid_seqZ|done| |].
  - by rewrite entry_of_upd, decide_True.
  - intros m Hm. by rewrite entry_of_upd, decide_False.
Qed.
Lemma free_count_give c s :
  valid c -> entry_of s c <> Free -> free_count (upd c Free s) = S (free_count s).
Proof.
  intros Hc Hf. apply (filter_count _ _ _ c); [apply NoDup_seqZ|by apply valid_seqZ| |done|].
  - by rewrite entry_of_upd, decide_True.
  - intros m Hm. by rewrite entry_of_upd, decide_False.
Qed.
Lemma free_count_same s s' :
  (forall c, valid c -> entry_of s' c = Free <-> entry_of s c = Free) -> free_count s' = free_count s.
Proof.
  intros Hs. unfold free_count, free_list. f_equal. apply filter_ext_in. intros c Hc. apply Hs.
  apply elem_of_seqZ in Hc. unfold valid. lia.
Qed.

(** * Chains *)

Definition linked (s : FatFs) (l : list Z) : Prop :=
  forall i c, l !! i = Some c -> entry_of s c = match l !! S i with Some d => Data d | None => EndOfChain end.
Record chain_ok (s : FatFs) (l : list Z) : Prop := {
  ch_linked : linked s l; ch_nodup : NoDup l; ch_valid : Forall valid l }.

Lemma chain_used s l c : chain_ok s l -> c ∈ l -> entry_of s c <> Free.
Proof. intros C [i Hi]%list_elem_of_lookup_1. rewrite (ch_linked s l C i c Hi). by case_match. Qed.
Lemma chain_elem_valid s l c : chain_ok s l -> c ∈ l -> valid c.
Proof. intros C. by apply Forall_forall, C. Qed.
Lemma chain_ok_ext s s' l : (forall c, c ∈ l -> entry_of s' c = entry_of s c) -> chain_ok s l -> chain_ok s' l.
Proof.
  intros He [Hl Hn Hv]. split; [|done|done]. intros i c Hi. rewrite He by (by eapply list_elem_of_lookup_2). by apply Hl.
Qed.
Lemma chain_ok_tail s c l : chain_ok s (c :: l) -> chain_ok s l.
Proof.
  intros [Hl Hn Hv]. apply NoDup_cons in Hn as [_ Hn]. apply Forall_cons in Hv as [_ Hv]. split; [|done|done].
  intros i d Hi. exact (Hl (S i) d Hi).
Qed.
Lemma get_next_eq s l i c : table_ok s -> chain_ok s l -> l !! i = Some c -> get_next_cluster c s = Ok (l !! S i).
Proof.
  intros T C Hi. unfold get_next_cluster. rewrite read_fat_eq; [|done|].
  - rewrite (ch_linked s l C i c Hi). by destruct (l !! S i).
  - eapply chain_elem_valid; [done|by eapply list_elem_of_lookup_2].
Qed.
Lemma chain_length s l : chain_ok s l -> (length l <= chain_fuel g)%nat.
Proof.
  intros [_ Hn Hv]. assert (Hsub : l ⊆+ seqZ RESERVED_FAT_ENTRIES (total_clusters g)).
  { apply NoDup_submseteq; [done|]. intros c Hc. apply valid_seqZ. by apply (proj1 (Forall_forall _ _) Hv). }
  apply submseteq_length in Hsub. rewrite length_seqZ in Hsub. unfold chain_fuel, RESERVED_FAT_ENTRIES. lia.
Qed.

(** A cluster is put at the end of a chain. *)
Lemma valid_value c : valid c -> value_ok (Data c).
Proof. destruct G. unfold valid, RESERVED_FAT_ENTRIES. cbn. lia. Qed.
Lemma entry_of_link p c s d :
  valid c -> (forall n, p = Some n -> valid n) ->
  entry_of (link_prev p c (upd c EndOfChain s)) d
  = if decide (p = Some d) then Data c else if decide (d = c) then EndOfChain else entry_of s d.
Proof.
  intros Hc Hp. destruct p as [n|]; cbn [link_prev].
  - rewrite entry_of_upd by (try apply valid_value; auto). rewrite entry_of_upd by done.
    destruct (decide (d = n)) as [->|]; [by rewrite decide_True|]. by rewrite (decide_False (P := Some n = Some d)) by congruence.
  - rewrite entry_of_upd by done. by rewrite (decide_False (P := None = Some d)) by done.
Qed.
Lemma last_lookup_S {A} (l : list A) i x : l !! i = Some x -> l !! S i = None -> last l = Some x.
Proof. intros Hi Hn. rewrite last_lookup. apply lookup_lt_Some in Hi as Hl. apply lookup_ge_None in Hn. by replace (Nat.pred (length l)) with i by lia. Qed.
Lemma last_valid s l n : chain_ok s l -> last l = Some n -> valid n.
Proof. intros C Hl. eapply chain_elem_valid; [done|]. rewrite last_lookup in Hl. by eapply list_elem_of_lookup_2. Qed.
Lemma chain_snoc s l c :
  chain_ok s l -> c ∈ free_list s -> chain_ok (link_prev (last l) c (upd c EndOfChain s)) (l ++ [c]).
Proof.
  intros C [Hf Hv]%elem_of_free_list. assert (Hc : c ∉ l) by (intros Hc; by apply (chain_used s l c C) in Hc).
  split.
  - intros i d Hi. rewrite entry_of_link by (try done; intros; by eapply last_valid).
    apply lookup_app_Some in Hi as [Hi|[Hlen Hi]].
    + assert (Hd : d <> c) by (intros ->; by apply Hc; eapply list_elem_of_lookup_2). rewrite (decide_False (P := d = c)) by done.
      destruct (l !! S i) as [e|] eqn:E.
      * rewrite decide_False, (ch_linked s l C i d Hi), E, lookup_app_l by (try (by eapply lookup_lt_Some); rewrite last_lookup;
          intros Hl; apply (NoDup_lookup l i (Nat.pred (length l)) d (ch_nodup s l C) Hi) in Hl; apply lookup_lt_Some in E; lia).
        by rewrite E.
      * rewrite decide_True by (by eapply last_lookup_S). apply lookup_lt_Some in Hi as Hl. apply lookup_ge_None in E.
        rewrite lookup_app_r by lia. by replace (S i - length l)%nat with O by lia.
    + destruct (i - length l)%nat eqn:E; [|done]. injection Hi as <-. rewrite decide_False, decide_True by
        (try done; rewrite last_lookup; intros Hl; by apply Hc; eapply list_elem_of_lookup_2).
      rewrite lookup_ge_None_2; [done|]. rewrite length_app. cbn. lia.
  - apply NoDup_app. split; [apply C|]. split; [intros x Hx ->%list_elem_of_singleton; done|apply NoDup_singleton].
  - apply Forall_app. split; [apply C|by apply Forall_singleton].
Qed.

(** Chains are freed. *)
Definition free_all (l : list Z) (s : FatFs) : FatFs := foldl (fun s c => upd c Free s) s l.
Lemma entry_of_free_all l s d :
  Forall valid l -> entry_of (free_all l s) d = if decide (d ∈ l) then Free else entry_of s d.
Proof.
  intros Hv. revert s. induction Hv as [|c l Hc Hv IH]; intros s; cbn; [done|]. fold (free_all l (upd c Free s)).
  rewrite IH, entry_of_upd by done. destruct (decide (d ∈ l)) as [Hd|Hd]; [by rewrite decide_True by (by right)|].
  destruct (decide (d = c)) as [->|Hne]; [by rewrite decide_True by left|]. rewrite decide_False; [done|]. by intros [?|?]%elem_of_cons.
Qed.
Lemma free_all_table_ok l s : table_ok s -> table_ok (free_all l s).
Proof. revert s. induction l as [|c l IH]; intros s T; [done|]. cbn. by apply IH, upd_table_ok. Qed.
Lemma free_all_disk l s : disk (free_all l s) = disk s.
Proof. revert s. induction l as [|c l IH]; intros s; [done|]. exact (IH (upd c Free s)). Qed.
Lemma free_all_count l s : chain_ok s l -> free_count (free_all l s) = (length l + free_count s)%nat.
Proof.
  revert s. induction l as [|c l IH]; intros s C; [done|]. cbn [free_all foldl length]. fold (free_all l (upd c Free s)).
  pose proof (ch_valid _ _ C) as [Hc _]%Forall_cons. pose proof (ch_nodup _ _ C) as [Hn _]%NoDup_cons. rewrite IH.
  - rewrite free_count_give; [lia|done|]. apply (chain_used s (c :: l)); [done|by left].
  - apply (chain_ok_ext s); [|by eapply chain_ok_tail]. intros d Hd. rewrite entry_of_upd, decide_False; [done|by intros ->|done|done].
Qed.
Lemma iter_next_eq s l i c : table_ok s -> chain_ok s l -> l !! i = Some c -> iter_next c s = l !! S i.
Proof. intros T C Hi. unfold iter_next. by rewrite (get_next_eq s l i c). Qed.
Lemma chain_free_eq fuel n l s :
  table_ok s -> chain_ok s l -> (length l <= fuel)%nat -> exists n', chain_free fuel n (head l) s = Ret (Ok n', free_all l s).
Proof.
  revert fuel n s. induction l as [|c l IH]; intros fuel n s T C Hf; [by exists n; destruct fuel|].
  destruct fuel as [|fuel]; [cbn in Hf; lia|]. cbn [chain_free head]. rewrite (iter_next_eq s (c :: l) 0 c) by done. cbn [lookup list_lookup].
  pose proof (ch_valid _ _ C) as [Hc _]%Forall_cons. pose proof (ch_nodup _ _ C) as [Hn _]%NoDup_cons.
  unfold_M. rewrite write_fat_eq by done. destruct (IH fuel (as_u32 (n + 1)) (upd c Free s)) as [n' Hn'].
  - by apply upd_table_ok.
  - apply (chain_ok_ext s); [|by eapply chain_ok_tail]. intros d Hd. rewrite entry_of_upd, decide_False; [done|by intros ->|done|done].
  - cbn in Hf. lia.
  - exists n'. by replace (l !! 0%nat) with (head l) by (by destruct l).
Qed.
Lemma NoDup_take_drop {A} (l : list A) k : NoDup l -> NoDup (take k l) /\ NoDup (drop k l).
Proof. rewrite <- (take_drop k l) at 1. by intros (? & _ & ?)%NoDup_app. Qed.
Lemma drop_head {A} (l : list A) i : head (drop i l) = l !! i.
Proof. rewrite head_lookup, lookup_drop. f_equal. lia. Qed.
Lemma chain_drop s l k : chain_ok s l -> chain_ok s (drop k l).
Proof.
  intros [Hl Hn Hv]. split; [|by apply NoDup_take_drop|by apply Forall_drop]. intros i c Hi.
  rewrite lookup_drop in *. replace (k + S i)%nat with (S (k + i)) by lia. by apply Hl.
Qed.

(** The table after the chain [l] is cut behind its cluster with index [k]. *)
Definition cut (k : nat) (c : Z) (l : list Z) (s : FatFs) : FatFs := free_all (drop (S k) l) (upd c EndOfChain s).
Lemma drop_not_elem {A} (l : list A) k c : NoDup l -> l !! k = Some c -> c ∉ drop (S k) l.
Proof.
  intros Hn Hk [i Hi]%list_elem_of_lookup_1. rewrite lookup_drop in Hi. pose proof (NoDup_lookup l _ _ c Hn Hk Hi). lia.
Qed.
Lemma chain_drop_upd s l k c :
  chain_ok s l -> l !! k = Some c -> chain_ok (upd c EndOfChain s) (drop (S k) l).
Proof.
  intros C Hk. apply (chain_ok_ext s); [|by apply chain_drop]. intros d Hd.
  rewrite entry_of_upd, decide_False; [done| | |done].
  - intros ->. by apply (drop_not_elem l k c (ch_nodup _ _ C) Hk).
  - eapply chain_elem_valid; [done|by eapply list_elem_of_lookup_2].
Qed.
Lemma chain_truncate_eq fuel k c l s :
  table_ok s -> chain_ok s l -> l !! k = Some c -> (length l <= fuel)%nat ->
  exists n, chain_truncate fuel c s = Ret (Ok n, cut k c l s).
Proof.
  intros T C Hk Hf. unfold chain_truncate. rewrite (iter_next_eq s l k c) by done.
  assert (Hv : valid c) by (eapply chain_elem_valid; [done|by eapply list_elem_of_lookup_2]).
  unfold_M. rewrite write_fat_eq by done.
  destruct (chain_free_eq fuel 0 (drop (S k) l) (upd c EndOfChain s)) as [n Hn].
  - by apply upd_table_ok.
  - by apply chain_drop_upd.
  - rewrite length_drop. lia.
  - exists n. by rewrite drop_head in Hn.
Qed.
Lemma entry_of_cut k c l s d :
  chain_ok s l -> l !! k = Some c ->
  entry_of (cut k c l s) d = if decide (d ∈ drop (S k) l) then Free else if decide (d = c) then EndOfChain else entry_of s d.
Proof.
  intros C Hk. unfold cut. rewrite entry_of_free_all by (apply Forall_drop, C). case_decide; [done|]. apply entry_of_upd; [|done].
  eapply chain_elem_valid; [done|by eapply list_elem_of_lookup_2].
Qed.
Lemma chain_cut k c l s : chain_ok s l -> l !! k = Some c -> chain_ok (cut k c l s) (take (S k) l).
Proof.
  intros C Hk. split; [|by apply NoDup_take_drop, C|by apply Forall_take, C]. intros i d Hi.
  apply lookup_take_Some in Hi as [Hi Hlt]. rewrite entry_of_cut by done. rewrite decide_False.
  2:{ intros [j Hj]%list_elem_of_lookup_1. rewrite lookup_drop in Hj. pose proof (NoDup_lookup l _ _ d (ch_nodup _ _ C) Hi Hj). lia. }
  destruct (decide (i = k)) as [->|Hik].
  - rewrite Hk in Hi. injection Hi as ->. rewrite decide_True by done. by rewrite lookup_take_ge.
  - rewrite decide_False by (intros ->; pose proof (NoDup_lookup l _ _ c (ch_nodup _ _ C) Hi Hk); lia).
    rewrite (ch_linked _ _ C i d Hi), lookup_take_lt by lia. done.
Qed.
Lemma cut_count k c l s : chain_ok s l -> l !! k = Some c -> free_count (cut k c l s) = (length l - S k + free_count s)%nat.
Proof.
  intros C Hk. unfold cut. rewrite free_all_count by (by apply chain_drop_upd). rewrite length_drop. f_equal.
  assert (Hc : c ∈ l) by (by eapply list_elem_of_lookup_2). apply free_count_same. intros d Hd.
  rewrite entry_of_upd; [|by eapply chain_elem_valid|done]. case_decide as E; [|done]. subst. split; [done|]. intros Hf. by apply (chain_used s l) in Hf.
Qed.

(** * Files *)

(** The cluster of the byte before position [o]. *)
Definition cur (l : list Z) (o : Z) : option Z := if o =? 0 then None else l !! Z.to_nat ((o - 1) / cs).
(** The bytes [c] are those of the clusters [l]. *)
Definition holds (s : FatFs) (l : list Z) (c : list Z) : Prop :=
  forall i, 0 <= i < Z.of_nat (length c) ->
    exists k, l !! Z.to_nat (i / cs) = Some k /\ c !! Z.to_nat i = Some (disk s (ofc k + i mod cs)).
(** An open file with the clusters [l] and the contents [c]. *)
Record file_ok (s : FatFs) (l : list Z) (f : FatFile) (c : list Z) : Prop := {
  fi_chain : chain_ok s l;
  fi_first : first_cluster f = head l;
  fi_entry : entry f = Some (mkEditor false (Z.of_nat (length c)) (head l));
  fi_len : Z.of_nat (length l) = (Z.of_nat (length c) + cs - 1) / cs;
  fi_max : Z.of_nat (length c) < U32;
  fi_off : 0 <= offset f <= Z.of_nat (length c);
  fi_cur : current_cluster f = cur l (offset f);
  fi_bytes : holds s l c }.

Lemma ff_size_eq s l f c : file_ok s l f c -> ff_size f = Some (Z.of_nat (length c)).
Proof. intros F. unfold ff_size. by rewrite (fi_entry _ _ _ _ F). Qed.
(** Moving the position keeps the invariant. *)
Lemma file_ok_at s l f c o :
  file_ok s l f c -> 0 <= o <= Z.of_nat (length c) -> file_ok s l (at_offset (cur l o) o f) c.
Proof. intros [] Ho. by split. Qed.
Lemma at_offset_same s l f c : file_ok s l f c -> at_offset (cur l (offset f)) (offset f) f = f.
Proof. intros F. rewrite <- (fi_cur _ _ _ _ F). by destruct f. Qed.
Lemma ceil_pred o : 0 < o -> (o + cs - 1) / cs = (o - 1) / cs + 1.
Proof. intros Ho. pose proof cs_pos. replace (o + cs - 1) with (o - 1 + 1 * cs) by lia. rewrite Z.div_add by lia. lia. Qed.
(** Positions inside the file, and its end, have their clusters. *)
Lemma chain_index s l f c o :
  file_ok s l f c -> 0 <= o < Z.of_nat (length c) -> (Z.to_nat (o / cs) < length l)%nat.
Proof.
  intros F Ho. pose proof (fi_len _ _ _ _ F) as Hl. pose proof cs_pos. rewrite ceil_pred in Hl by lia.
  assert (o / cs <= (Z.of_nat (length c) - 1) / cs) by (apply Z.div_le_mono; lia).
  assert (0 <= o / cs) by (apply Z.div_pos; lia). lia.
Qed.

Lemma skip_clusters_eq s l k i j x o :
  table_ok s -> chain_ok s l -> l !! i = Some x -> (i + k < length l)%nat ->
  exists y, l !! (i + k)%nat = Some y /\ skip_clusters g k j x o s = Ok (y, o).
Proof.
  intros T C. revert i j x. induction k as [|k IH]; intros i j x Hi Hk; cbn [skip_clusters].
  - exists x. by rewrite Nat.add_0_r.
  - rewrite (get_next_eq s l i x) by done. destruct (lookup_lt_is_Some_2 l (S i) ltac:(lia)) as [y Hy]. rewrite Hy.
    destruct (IH (S i) (j + 1) y Hy ltac:(lia)) as (z & Hz & E). exists z. by replace (i + S k)%nat with (S i + k)%nat by lia.
Qed.

(** [seek] to a target [p] moves to it, or to the end of the file. *)
Lemma seek_spec s l f c pos p :
  table_ok s -> file_ok s l f c -> seek_target pos f = Some p -> 0 <= p < U32 ->
  let o := Z.min p (Z.of_nat (length c)) in
  ff_seek g pos (f, s) = Ret (Ok o, (at_offset (cur l o) o f, s)).
Proof.
  intros T F Ht Hp o. unfold ff_seek. rewrite Ht, (ff_size_eq s l f c F). pose proof (fi_max _ _ _ _ F) as Hmax. pose proof cs_pos as Hcs.
  pose proof (fi_off _ _ _ _ F) as Hoff.
  replace (if Z.of_nat (length c) <? p then Z.of_nat (length c) else p) with o by (subst o; case_bool; bool_to_prop; lia).
  assert (Ho : 0 <= o <= Z.of_nat (length c)) by lia. clearbody o. clear Ht Hp p.
  destruct (Z.eqb_spec o (offset f)) as [->|Hne]; [by rewrite (at_offset_same s l f c)|].
  rewrite !cfb_eq by lia. destruct (Z.eqb_spec o 0) as [->|H0]; [done|].
  destruct (Z.eqb_spec ((o + cs - 1) / cs) ((offset f + cs - 1) / cs)) as [E|E].
  - do 4 f_equal. rewrite (fi_cur _ _ _ _ F). unfold cur. rewrite (proj2 (Z.eqb_neq o 0)) by done.
    rewrite ceil_pred in E by lia. assert (0 <= (o - 1) / cs) by (apply Z.div_pos; lia).
    destruct (Z.eqb_spec (offset f) 0) as [E0|E0].
    + rewrite E0, Z.add_0_l, (Z.div_small (cs - 1)) in E by lia. lia.
    + rewrite ceil_pred in E by lia. do 2 f_equal. lia.
  - pose proof (chain_index s l f c (o - 1) F ltac:(lia)) as Hi. assert (Hq : 0 <= (o - 1) / cs) by (apply Z.div_pos; lia).
    rewrite ceil_pred by lia. assert ((o - 1) / cs <= o - 1) by (apply Z.div_le_upper_bound; nia). rewrite as_u32_small by lia.
    destruct l as [|x l]; [cbn in Hi; lia|]. rewrite (fi_first _ _ _ _ F). cbn [head].
    destruct (skip_clusters_eq s (x :: l) (Z.to_nat ((o - 1) / cs + 1 - 1)) 0 0 x o T (fi_chain _ _ _ _ F) eq_refl ltac:(lia)) as (y & Hy & ->).
    do 4 f_equal. unfold cur. rewrite (proj2 (Z.eqb_neq o 0)) by done. rewrite <- Hy. f_equal. lia.
Qed.

Lemma here_spec s l f c :
  table_ok s -> file_ok s l f c -> current_cluster_opt g (f, s) = Ret (Ok (l !! Z.to_nat (offset f / cs)), (f, s)).
Proof.
  intros T F. pose proof cs_pos as Hcs. pose proof (fi_off _ _ _ _ F) as Hoff. pose proof (fi_cur _ _ _ _ F) as Hc.
  unfold current_cluster_opt, next_cluster. unfold cur in Hc. destruct (Z.eqb_spec (offset f) 0) as [E0|E0].
  - rewrite E0, Z.mod_0_l, Z.div_0_l by lia. cbn. rewrite Hc, (fi_first _ _ _ _ F). by destruct l.
  - destruct (Z.eqb_spec (offset f mod cs) 0) as [Em|Em].
    + assert (Hd : (offset f - 1) / cs = offset f / cs - 1).
      { symmetry. apply (Z.div_unique _ _ _ (cs - 1)); [lia|]. rewrite (Z.div_mod (offset f) cs) at 1 by lia. lia. }
      assert (0 <= (offset f - 1) / cs) by (apply Z.div_pos; lia).
      pose proof (chain_index s l f c (offset f - 1) F ltac:(lia)) as Hi. destruct (lookup_lt_is_Some_2 l _ Hi) as [x Hx].
      rewrite Hc, Hx. rewrite (get_next_eq s l _ x T (fi_chain _ _ _ _ F) Hx). cbn. unfold_M. do 4 f_equal. lia.
    + unfold_M. rewrite Hc. do 5 f_equal. symmetry. apply (Z.div_unique _ _ _ (offset f mod cs - 1)).
      * pose proof (Z.mod_pos_bound (offset f) cs). lia.
      * rewrite (Z.div_mod (offset f) cs) at 1 by lia. lia.
Qed.

(** Inside a cluster the position keeps its cluster. *)
Lemma same_cluster o i : 0 <= o -> 0 <= i < cs - o mod cs -> (o + i) / cs = o / cs /\ (o + i) mod cs = o mod cs + i.
Proof.
  intros Ho Hi. pose proof cs_pos. pose proof (Z.mod_pos_bound o cs ltac:(lia)). pose proof (Z.div_mod o cs ltac:(lia)) as Hd.
  split; symmetry; [apply (Z.div_unique _ _ _ (o mod cs + i))|apply (Z.mod_unique _ _ (o / cs))]; lia.
Qed.
Lemma cur_after l o n : 0 <= o -> 0 < n <= cs - o mod cs -> cur l (o + n) = l !! Z.to_nat (o / cs).
Proof.
  intros Ho Hn. unfold cur. rewrite (proj2 (Z.eqb_neq _ 0)) by lia. replace (o + n - 1) with (o + (n - 1)) by lia.
  by rewrite (proj1 (same_cluster o (n - 1) Ho ltac:(lia))).
Qed.

(** The bytes of a part of a cluster. *)
Lemma holds_read s l c o n k :
  Forall valid l -> holds s l c -> 0 <= o -> 0 <= n <= cs - o mod cs -> o + n <= Z.of_nat (length c) -> l !! Z.to_nat (o / cs) = Some k ->
  mem_read (ofc k +w o mod cs) (Z.to_nat n) (disk s) = take (Z.to_nat n) (drop (Z.to_nat o) c).
Proof.
  intros Hv Hh Ho Hn Hlen Hk. pose proof cs_pos. pose proof cs_eq. pose proof (Z.mod_pos_bound o cs ltac:(lia)).
  pose proof (ofc_range k ltac:(by eapply Forall_lookup_1)). rewrite wadd_small by lia.
  apply list_eq. intros i. destruct (decide (i < Z.to_nat n)%nat) as [Hi|Hi].
  - rewrite mem_read_lookup, lookup_take_lt, lookup_drop by done.
    destruct (Hh (o + Z.of_nat i) ltac:(lia)) as (k' & Hk' & E). destruct (same_cluster o (Z.of_nat i) Ho ltac:(lia)) as [Ed Em].
    rewrite Ed, Hk in Hk'. injection Hk' as <-. rewrite Em in E. replace (Z.to_nat o + i)%nat with (Z.to_nat (o + Z.of_nat i)) by lia.
    rewrite E. do 2 f_equal. lia.
  - rewrite !lookup_ge_None_2; [done|rewrite length_take; lia|rewrite mem_read_length; lia].
Qed.
Lemma read_spec s l f c len :
  table_ok s -> file_ok s l f c ->
  let o := offset f in
  let n := Z.min (Z.min (Z.of_nat len) (cs - o mod cs)) (Z.of_nat (length c) - o) in
  ff_read g len (f, s) = Ret (Ok (take (Z.to_nat n) (drop (Z.to_nat o) c)), (at_offset (cur l (o + n)) (o + n) f, s)).
Proof.
  intros T F o n. pose proof (here_spec s l f c T F) as Hh. pose proof (fi_off _ _ _ _ F) as Hoff. fold o in Hoff. pose proof (fi_max _ _ _ _ F) as Hmax.
  pose proof cs_pos as Hcs. pose proof (Z.mod_pos_bound o cs ltac:(lia)) as Hm.
  assert (Hz : n = 0 -> Ret (Ok [], (f, s)) = Ret (Ok (take (Z.to_nat n) (drop (Z.to_nat o) c)), (at_offset (cur l (o + n)) (o + n) f, s))
               :> outcome (result (list Z) FatError * _)).
  { intros ->. rewrite Z.add_0_r. unfold o. by rewrite (at_offset_same s l f c). }
  unfold ff_read. unfold mbind, M_mbind, M_bind. rewrite Hh. fold o.
  destruct (l !! Z.to_nat (o / cs)) as [k|] eqn:Hk.
  - unfold bytes_left_in_file. rewrite (ff_size_eq s l f c F). cbn [option_map fmap option_fmap default from_option]. fold o.
    rewrite !as_u32_small by lia. change (id (Z.of_nat (length c) - o)) with (Z.of_nat (length c) - o). fold n.
    destruct (Z.eqb_spec n 0) as [E|E]; [by apply Hz|]. unfold_M. fold o. rewrite as_u32_small by lia.
    rewrite (holds_read s l c o n k); [|apply F|apply F|lia|lia|lia|done]. rewrite cur_after by lia. by rewrite Hk.
  - apply Hz. assert (~ o < Z.of_nat (length c)); [|lia]. intros Ho. apply lookup_ge_None in Hk.
    pose proof (chain_index s l f c o F ltac:(lia)). lia.
Qed.

(** * Writing *)

(** What happens to the other chains when the chain [l] becomes [l']. *)
Definition frame (s : FatFs) (l : list Z) (s' : FatFs) (l' : list Z) : Prop :=
  forall m, chain_ok s m -> (forall c, c ∈ m -> c ∉ l) ->
    chain_ok s' m /\ (forall c, c ∈ m -> c ∉ l')
    /\ forall c i, c ∈ m -> 0 <= i < cs -> disk s' (ofc c + i) = disk s (ofc c + i).
Lemma frame_trans s l s1 l1 s2 l2 : frame s l s1 l1 -> frame s1 l1 s2 l2 -> frame s l s2 l2.
Proof.
  intros F1 F2 m C Hd. destruct (F1 m C Hd) as (C1 & Hd1 & E1). destruct (F2 m C1 Hd1) as (C2 & Hd2 & E2).
  split; [done|]. split; [done|]. intros c i Hc Hi. by rewrite E2, E1.
Qed.
Lemma frame_file s l s' l' m f c :
  frame s l s' l' -> file_ok s m f c -> (forall x, x ∈ m -> x ∉ l) -> file_ok s' m f c /\ (forall x, x ∈ m -> x ∉ l').
Proof.
  intros Fr F Hd. destruct (Fr m (fi_chain _ _ _ _ F) Hd) as (C & Hd' & E). split; [|done]. destruct F. split; try done.
  intros i Hi. destruct (fi_bytes0 i Hi) as (k & Hk & Hb). exists k. split; [done|].
  rewrite E; [done|by eapply list_elem_of_lookup_2|apply Z.mod_pos_bound, cs_pos].
Qed.
(** States that differ in nothing that files see. *)
Definition same_view (s s' : FatFs) : Prop :=
  fat s' = fat s /\ next_free_cluster s' = next_free_cluster s /\ forall a, 512 <= a -> disk s' a = disk s a.
Lemma same_view_spec s s' : same_view s s' ->
  (forall c, entry_of s' c = entry_of s c) /\ (table_ok s -> table_ok s') /\ free_count s' = free_count s /\ (forall l, frame s l s' l).
Proof.
  intros (Ef & En & Ed). assert (He : forall c, entry_of s' c = entry_of s c) by (intros c; unfold entry_of; by rewrite Ef).
  split; [done|]. split; [|split].
  - intros [Hd Hh]. split; [intros c; rewrite Ef; apply Hd|rewrite En; apply Hh].
  - apply free_count_same. intros c _. by rewrite He.
  - intros l m C Hd. split; [|split; [done|]].
    + apply (chain_ok_ext s); [|done]. by intros c _.
    + intros c i Hc Hi. apply Ed. pose proof (ofc_range c ltac:(by eapply chain_elem_valid)). lia.
Qed.
Lemma set_dirty_view b s : exists s', set_dirty_flag g b s = Ret (Ok tt, s') /\ same_view s s'.
Proof.
  unfold set_dirty_flag. case_bool; eexists; (split; [done|]); (split; [done|split; [done|]]); [done|].
  intros a Ha. cbn [disk]. rewrite mem_write_out; [done|]. unfold FLAGS_OFFSET. cbn [length]. lia.
Qed.

(** The cluster that [alloc_cluster] puts at the end of a chain. *)
Lemma alloc_spec s l :
  table_ok s -> chain_ok s l ->
  match alloc_cluster g (last l) false s with
  | Ret (Ok k, s') => table_ok s' /\ chain_ok s' (l ++ [k]) /\ frame s l s' (l ++ [k]) /\ disk s' = disk s
                      /\ free_count s = S (free_count s')
  | Ret (Err e, s') => e = FNotEnoughSpace /\ s' = s /\ free_count s = 0%nat
  | Panic => False
  end.
Proof.
  intros T C. unfold alloc_cluster. pose proof (table_alloc_spec (last l) s T ltac:(intros; by eapply last_valid)) as Ha.
  unfold mbind, M_mbind, M_bind. destruct (table_alloc_cluster (last l) (next_free_cluster s) (total_clusters g) s) as [[[k|e] s1]|]; [| |done].
  2:{ destruct Ha as (-> & -> & Hf). unfold free_count. by rewrite Hf. }
  destruct Ha as [Hk ->]. pose proof (proj1 (elem_of_free_list s k) Hk) as [Hf Hv]. cbn. unfold_M.
  set (s1 := link_prev (last l) k (upd k EndOfChain s)). set (s2 := map_free_clusters _ _).
  assert (He : forall d, entry_of s2 d = entry_of s1 d) by done.
  assert (Hlv : forall n, last l = Some n -> valid n) by (intros; by eapply last_valid).
  assert (Hd : disk s2 = disk s) by (subst s2 s1; unfold link_prev; by destruct (last l)).
  assert (Hlast : forall c, last l = Some c -> c ∈ l) by (intros c Hc; rewrite last_lookup in Hc; by eapply list_elem_of_lookup_2).
  split_and!.
  - assert (T1 : table_ok s1) by (subst s1; unfold link_prev; destruct (last l); repeat apply upd_table_ok; done).
    split; [exact (tab_dom s1 T1)|]. intros n Hn. injection Hn as <-. destruct G. unfold valid, RESERVED_FAT_ENTRIES in *.
    rewrite as_u32_small by lia. lia.
  - apply (chain_ok_ext s1); [by intros c _|]. by apply chain_snoc.
  - intros m Cm Hm. split; [|split].
    + apply (chain_ok_ext s); [|done]. intros c Hc. rewrite He. unfold s1. rewrite entry_of_link by done.
      rewrite decide_False by (intros Hl; by apply (Hm c Hc), Hlast). rewrite decide_False; [done|]. intros ->. by apply (chain_used s m k).
    + intros c Hc [Hl|Hl]%elem_of_app; [by apply (Hm c)|]. apply list_elem_of_singleton in Hl as ->. by apply (chain_used s m k).
    + intros. by rewrite Hd.
  - done.
  - rewrite (free_count_same s1 s2) by (intros c _; by rewrite He). rewrite (free_count_take k EndOfChain s) by done. f_equal.
    unfold s1. destruct (last l) as [n|] eqn:En; [|done]. symmetry. apply free_count_same. intros c _.
    assert (Hnk : n <> k) by (intros ->; by apply (chain_used s l k C (Hlast k eq_refl))).
    cbn [link_prev]. rewrite entry_of_upd by (try apply valid_value; auto). case_decide as E; [|done]. subst. split; [done|].
    rewrite entry_of_upd, decide_False by done. intros Hn. exfalso. exact (chain_used s l n C (Hlast n eq_refl) Hn).
Qed.

(** The bytes [w] are written at position [o], inside one cluster. *)
Definition store (k o : Z) (w : list Z) (s : FatFs) : FatFs := set_disk (mem_write (ofc k +w o mod cs) w (disk s)) s.
Lemma store_in k o w s i :
  valid k -> 0 <= o -> Z.of_nat (length w) <= cs - o mod cs -> 0 <= i < Z.of_nat (length w) ->
  disk (store k o w s) (ofc k + (o mod cs + i)) = default 0 (w !! Z.to_nat i).
Proof.
  intros Hv Ho Hw Hi. pose proof cs_eq. pose proof (ofc_range k Hv). pose proof (Z.mod_pos_bound o cs ltac:(lia)).
  unfold store. cbn [disk set_disk]. rewrite wadd_small by lia. rewrite mem_write_in by lia. do 3 f_equal. lia.
Qed.
Lemma store_out k o w s d i :
  valid k -> valid d -> 0 <= o -> Z.of_nat (length w) <= cs - o mod cs -> 0 <= i < cs ->
  d <> k \/ ~ (o mod cs <= i < o mod cs + Z.of_nat (length w)) -> disk (store k o w s) (ofc d + i) = disk s (ofc d + i).
Proof.
  intros Hv Hd Ho Hw Hi Hne. pose proof cs_eq. pose proof (ofc_range k Hv). pose proof (Z.mod_pos_bound o cs ltac:(lia)).
  unfold store. cbn [disk set_disk]. rewrite wadd_small by lia. apply mem_write_out. intros Hin.
  destruct (ofc_apart d k i (ofc d + i - ofc k) Hd Hv Hi ltac:(lia) ltac:(lia)) as [-> E]. destruct Hne as [?|Hne]; [done|]. lia.
Qed.
Lemma store_frame k o w s l :
  k ∈ l -> Forall valid l -> 0 <= o -> Z.of_nat (length w) <= cs - o mod cs -> frame s l (store k o w s) l.
Proof.
  intros Hk Hv Ho Hw m C Hm. split; [|split; [done|]].
  - apply (chain_ok_ext s); [|done]. by intros c _.
  - intros c i Hc Hi. apply store_out; try done.
    + by apply (proj1 (Forall_forall _ _) Hv).
    + by eapply chain_elem_valid.
    + left. intros ->. by apply (Hm k).
Qed.
Lemma store_holds s l c k o w :
  chain_ok s l -> holds s l c -> l !! Z.to_nat (o / cs) = Some k -> 0 <= o <= Z.of_nat (length c) ->
  Z.of_nat (length w) <= cs - o mod cs -> holds (store k o w s) l (overlay o w c).
Proof.
  intros C Hh Hk Ho Hw i Hi. rewrite length_overlay in Hi by done. pose proof cs_pos.
  assert (Hv : valid k) by (eapply chain_elem_valid; [done|by eapply list_elem_of_lookup_2]).
  destruct (decide (o <= i < o + Z.of_nat (length w))) as [Hin|Hout].
  - destruct (same_cluster o (i - o) ltac:(lia) ltac:(lia)) as [Ed Em]. replace (o + (i - o)) with i in * by lia.
    exists k. rewrite Ed, Em. split; [done|]. rewrite overlay_in, store_in by (done || lia).
    destruct (lookup_lt_is_Some_2 w (Z.to_nat (i - o)) ltac:(lia)) as [x Hx]. by rewrite Hx.
  - destruct (Hh i ltac:(lia)) as (d & Hd & Hb). exists d. split; [done|]. rewrite overlay_out by lia. rewrite Hb. f_equal. symmetry.
    apply store_out; [done| |lia|lia|apply Z.mod_pos_bound; lia|].
    { eapply chain_elem_valid; [done|by eapply list_elem_of_lookup_2]. }
    destruct (decide (d = k)) as [->|]; [right|by left]. pose proof (NoDup_lookup l _ _ k (ch_nodup _ _ C) Hd Hk) as E.
    assert (E' : i / cs = o / cs) by (pose proof (Z.div_pos i cs); pose proof (Z.div_pos o cs); lia).
    pose proof (Z.div_mod i cs). pose proof (Z.div_mod o cs). intros Hin. apply Hout. nia.
Qed.

(** Arithmetic of positions: at the start of a cluster, and inside one. *)
Lemma ceil_start o : 0 <= o -> o mod cs = 0 -> (o + cs - 1) / cs = o / cs.
Proof. intros Ho Hm. pose proof cs_pos. pose proof (Z.div_mod o cs). symmetry. apply (Z.div_unique _ _ _ (cs - 1)); lia. Qed.
Lemma div_inside o : 0 <= o -> o mod cs <> 0 -> (o - 1) / cs = o / cs.
Proof.
  intros Ho Hm. pose proof cs_pos. pose proof (Z.div_mod o cs). pose proof (Z.mod_pos_bound o cs).
  symmetry. apply (Z.div_unique _ _ _ (o mod cs - 1)); lia.
Qed.
Lemma cur_end s l f c : file_ok s l f c -> cur l (Z.of_nat (length c)) = last l.
Proof.
  intros F. pose proof (fi_len _ _ _ _ F) as Hl. pose proof cs_pos. unfold cur. destruct (Z.eqb_spec (Z.of_nat (length c)) 0) as [E|E].
  - rewrite E, Z.add_0_l, Z.div_small in Hl by lia. by destruct l.
  - rewrite ceil_pred in Hl by lia. assert (0 <= (Z.of_nat (length c) - 1) / cs) by (apply Z.div_pos; lia).
    rewrite last_lookup. f_equal. lia.
Qed.
(** The number of clusters does not grow when there is one at the position, and grows by
    one behind the last. *)
Lemma ceil_inside o n len :
  0 <= o <= len -> 0 < n <= cs - o mod cs -> o mod cs <> 0 \/ o < len -> (Z.max len (o + n) + cs - 1) / cs = (len + cs - 1) / cs.
Proof.
  intros Ho Hn Hc. pose proof cs_pos. pose proof (Z.mod_pos_bound o cs ltac:(lia)).
  assert (Hlen : 0 < len). { destruct (decide (o = 0)) as [->|]; [|lia]. rewrite Z.mod_0_l in Hc by lia. lia. }
  destruct (decide (o + n <= len)); [by rewrite Z.max_l by lia|]. rewrite Z.max_r, !ceil_pred by lia. f_equal.
  replace (o + n - 1) with (o + (n - 1)) by lia. rewrite (proj1 (same_cluster o (n - 1) ltac:(lia) ltac:(lia))).
  destruct (decide (o < len)).
  - replace (len - 1) with (o + (len - 1 - o)) by lia. by rewrite (proj1 (same_cluster o (len - 1 - o) ltac:(lia) ltac:(lia))).
  - replace len with o by lia. symmetry. apply div_inside; lia.
Qed.
Lemma ceil_behind o n : 0 <= o -> o mod cs = 0 -> 0 < n <= cs -> (o + n + cs - 1) / cs = (o + cs - 1) / cs + 1.
Proof.
  intros Ho Hm Hn. rewrite (ceil_start o), (ceil_pred (o + n)) by lia. replace (o + n - 1) with (o + (n - 1)) by lia.
  by rewrite (proj1 (same_cluster o (n - 1) Ho ltac:(lia))).
Qed.

Definition with_head (l : list Z) (len : Z) (f : FatFile) : FatFile :=
  mkFat (head l) (current_cluster f) (offset f) (Some (mkEditor false len (head l))).
Lemma with_head_same s l f c : file_ok s l f c -> with_head l (Z.of_nat (length c)) f = f.
Proof. intros []. unfold with_head. destruct f; cbn in *. by subst. Qed.
Lemma write_cluster_spec s l f c :
  table_ok s -> file_ok s l f c -> offset f mod cs = 0 ->
  if offset f =? Z.of_nat (length c) then
    match write_cluster g (f, s) with
    | Ret (Ok k, (f', s')) =>
        f' = with_head (l ++ [k]) (Z.of_nat (length c)) f /\ table_ok s' /\ chain_ok s' (l ++ [k]) /\ frame s l s' (l ++ [k])
        /\ disk s' = disk s /\ free_count s = S (free_count s')
    | Ret (Err e, st) => e = FNotEnoughSpace /\ st = (f, s) /\ free_count s = 0%nat
    | Panic => False
    end
  else exists k, l !! Z.to_nat (offset f / cs) = Some k /\ write_cluster g (f, s) = Ret (Ok k, (f, s)).
Proof.
  intros T F Hm. pose proof (here_spec s l f c T F) as Hn. unfold current_cluster_opt in Hn. rewrite Hm in Hn. cbn [Z.eqb] in Hn.
  pose proof (fi_off _ _ _ _ F) as Ho. pose proof (fi_len _ _ _ _ F) as Hl. unfold write_cluster.
  unfold mbind, M_mbind, M_bind. rewrite Hn.
  destruct (Z.eqb_spec (offset f) (Z.of_nat (length c))) as [E|E].
  - rewrite lookup_ge_None_2 by (rewrite <- E, ceil_start in Hl by lia; lia).
    rewrite (fi_cur _ _ _ _ F), E, (cur_end s l f c F). unfold ff_is_dir. rewrite (fi_entry _ _ _ _ F). cbn [e_is_dir].
    pose proof (alloc_spec s l T (fi_chain _ _ _ _ F)) as Ha. unfold on_fs, zoom. cbn [fst snd].
    destruct (alloc_cluster g (last l) false s) as [[[k|e] s']|]; [| |done].
    + destruct Ha as (H1 & H2 & H3 & H4 & H5). destruct l as [|x l].
      * rewrite bool_decide_true by (by rewrite (fi_first _ _ _ _ F)). cbn. split; [|done]. unfold with_head, ff_set_first_cluster.
        by rewrite (fi_entry _ _ _ _ F).
      * rewrite bool_decide_false by (by rewrite (fi_first _ _ _ _ F)). cbn. split; [|done]. symmetry. apply (with_head_same _ _ _ _ F).
    + by destruct Ha as (-> & -> & ?).
  - destruct (lookup_lt_is_Some_2 l _ (chain_index s l f c (offset f) F ltac:(lia))) as [k Hk]. exists k. by rewrite Hk.
Qed.

(** The end of a write, when the cluster is known. *)
Definition after_write (k o n : Z) (f : FatFile) : FatFile := update_dir_entry_after_write (at_offset (Some k) (o + n) f).
Lemma after_write_ok s l f c k o w :
  chain_ok s l -> holds s l c -> l !! Z.to_nat (o / cs) = Some k -> 0 <= o <= Z.of_nat (length c) ->
  0 < Z.of_nat (length w) <= cs - o mod cs -> o + Z.of_nat (length w) < U32 -> Z.of_nat (length c) < U32 ->
  Z.of_nat (length l) = (Z.max (Z.of_nat (length c)) (o + Z.of_nat (length w)) + cs - 1) / cs ->
  file_ok (store k o w s) l (after_write k o (Z.of_nat (length w)) (with_head l (Z.of_nat (length c)) f)) (overlay o w c).
Proof.
  intros C Hh Hk Ho Hw Hmax Hc Hl.
  assert (Hlen : Z.of_nat (length (overlay o w c)) = Z.max (Z.of_nat (length c)) (o + Z.of_nat (length w))).
  { rewrite length_overlay by done. lia. }
  split; rewrite ?Hlen; try done.
  - apply (chain_ok_ext s); [|done]. by intros d _.
  - cbn. do 2 f_equal. unfold entry_set_size. cbn. case_bool; bool_to_prop; cbn; f_equal; lia.
  - lia.
  - cbn. lia.
  - cbn. rewrite cur_after by lia. done.
  - by apply store_holds; try lia.
Qed.
Lemma view_file s s' l f c : same_view s s' -> file_ok s l f c -> file_ok s' l f c.
Proof.
  intros Hv [C ? ? ? ? ? ? Hb]. destruct (same_view_spec s s' Hv) as (He & _ & _ & _). split; try done.
  - apply (chain_ok_ext s); [|done]. by intros d _.
  - intros i Hi. destruct (Hb i Hi) as (k & Hk & E). exists k. split; [done|]. rewrite E. f_equal. symmetry. apply Hv.
    pose proof (ofc_range k ltac:(eapply chain_elem_valid; [exact C|by eapply list_elem_of_lookup_2])).
    pose proof (Z.mod_pos_bound i cs (proj1 cs_pos)). lia.
Qed.

(** The cluster [k] for [n] bytes at position [o], with the chain and the state that have it. *)
Record target_ok (s : FatFs) (l c : list Z) (o n k : Z) (s1 : FatFs) (l1 : list Z) : Prop := {
  tg_table : table_ok s1; tg_chain : chain_ok s1 l1; tg_frame : frame s l s1 l1; tg_holds : holds s1 l1 c;
  tg_at : l1 !! Z.to_nat (o / cs) = Some k;
  tg_len : Z.of_nat (length l1) = (Z.max (Z.of_nat (length c)) (o + n) + cs - 1) / cs }.
Definition grows (o : Z) (c : list Z) : bool := (o mod cs =? 0) && (o =? Z.of_nat (length c)).
Lemma target_old s l f c n k :
  table_ok s -> file_ok s l f c -> 0 < n <= cs - offset f mod cs -> grows (offset f) c = false ->
  l !! Z.to_nat (offset f / cs) = Some k -> target_ok s l c (offset f) n k s l.
Proof.
  intros T F Hn Hg Hk. split; [done|apply F|by intros m C Hm|apply F|done|]. rewrite (fi_len _ _ _ _ F). symmetry.
  pose proof (fi_off _ _ _ _ F). unfold grows in Hg. apply ceil_inside; [done|done|].
  apply andb_false_iff in Hg as [Hg|Hg]; bool_to_prop; [by left|right; lia].
Qed.
Lemma target_spec s l f c n :
  table_ok s -> file_ok s l f c -> 0 < n <= cs - offset f mod cs ->
  if grows (offset f) c && bool_decide (free_count s = 0%nat) then write_target g (f, s) = Ret (Err FNotEnoughSpace, (f, s))
  else exists k s1 l1, write_target g (f, s) = Ret (Ok k, (with_head l1 (Z.of_nat (length c)) f, s1))
       /\ target_ok s l c (offset f) n k s1 l1 /\ free_count s = (free_count s1 + if grows (offset f) c then 1 else 0)%nat.
Proof.
  intros T F Hn. pose proof (fi_off _ _ _ _ F) as Ho. pose proof (fi_len _ _ _ _ F) as Hl. pose proof cs_pos as Hcs.
  pose proof (target_old s l f c n) as Hold. unfold write_target, grows in *. destruct (Z.eqb_spec (offset f mod cs) 0) as [Em|Em]; cbn [andb] in *.
  - pose proof (write_cluster_spec s l f c T F Em) as Hc. destruct (Z.eqb_spec (offset f) (Z.of_nat (length c))) as [El|El]; cbn [andb].
    + rewrite El, ceil_start in * by lia. destruct (write_cluster g (f, s)) as [[[k|e] [f1 s1]]|]; [| |done].
      * destruct Hc as (-> & T1 & C1 & Hfr & Hd & Hcnt). rewrite bool_decide_false by lia. exists k, s1, (l ++ [k]).
        split; [done|]. split; [|lia]. split; try done.
        -- intros i Hi. destruct (fi_bytes _ _ _ _ F i Hi) as (d & Hk & Hb). exists d. rewrite Hd. split; [|done]. by apply lookup_app_l_Some.
        -- rewrite <- Hl, Nat2Z.id. by apply list_lookup_middle.
        -- rewrite length_app. cbn [length]. rewrite Z.max_r, ceil_behind, ceil_start by lia. lia.
      * destruct Hc as (-> & [= -> ->] & Hcnt). by rewrite bool_decide_true by done.
    + destruct Hc as (k & Hk & ->). exists k, s, l. rewrite (with_head_same _ _ _ _ F). split; [done|]. split; [|lia]. by apply Hold.
  - destruct (lookup_lt_is_Some_2 l _ (chain_index s l f c (offset f - 1) F ltac:(destruct (decide (offset f = 0)) as [E|]; [rewrite E, Z.mod_0_l in Em by lia|]; lia)))
      as [k Hk]. rewrite div_inside in Hk by (lia || done). exists k, s, l. rewrite (with_head_same _ _ _ _ F). split; [|split; [by apply Hold|lia]].
    rewrite (fi_cur _ _ _ _ F). unfold cur. rewrite (proj2 (Z.eqb_neq (offset f) 0)) by (intros E; rewrite E, Z.mod_0_l in Em; lia).
    by rewrite div_inside, Hk by (lia || done).
Qed.

(** A write stores as much as fits into the cluster at the position, which is allocated at
    the end of the file. *)
Definition write_count (o : Z) (buf : list Z) : Z := Z.min (Z.min (Z.of_nat (length buf)) (cs - o mod cs)) (MAX_FILE_SIZE - o).
Lemma write_spec s l f c buf :
  table_ok s -> file_ok s l f c ->
  let o := offset f in let n := write_count o buf in
  if n =? 0 then ff_write g buf (f, s) = Ret (Ok 0, (f, s))
  else if grows o c && bool_decide (free_count s = 0%nat) then
    exists s', ff_write g buf (f, s) = Ret (Err FNotEnoughSpace, (f, s')) /\ same_view s s'
  else exists f' s' l', ff_write g buf (f, s) = Ret (Ok n, (f', s')) /\ table_ok s' /\ frame s l s' l'
       /\ file_ok s' l' f' (overlay o (take (Z.to_nat n) buf) c) /\ free_count s = (free_count s' + if grows o c then 1 else 0)%nat.
Proof.
  intros T F o n. pose proof (fi_off _ _ _ _ F) as Ho. pose proof (fi_max _ _ _ _ F) as Hmax. pose proof cs_pos as Hcs. fold o in Ho.
  pose proof (Z.mod_pos_bound o cs ltac:(lia)) as Hm. unfold ff_write. fold o. rewrite !as_u32_small by (unfold MAX_FILE_SIZE; lia).
  fold (write_count o buf). fold n. destruct (Z.eqb_spec n 0) as [|Hn0]; [done|].
  assert (Hn : 0 < n <= cs - o mod cs /\ o + n < U32 /\ n <= Z.of_nat (length buf)) by (unfold n, write_count, MAX_FILE_SIZE in *; lia).
  clearbody n. destruct (set_dirty_view true s) as (s0 & Hd & Hv). destruct (same_view_spec s s0 Hv) as (_ & HT & Hfc & Hfr).
  pose proof (target_spec s0 l f c n (HT T) (view_file s s0 l f c Hv F) ltac:(fold o; lia)) as Ht. fold o in Ht. rewrite Hfc in Ht.
  assert (Hw : Z.of_nat (length (take (Z.to_nat n) buf)) = n) by (rewrite length_take; lia). set (w := take (Z.to_nat n) buf) in *. clearbody w.
  unfold on_fs, zoom, modify. unfold mbind, mret, M_mbind, M_mret, M_bind, M_ret. cbn [fst snd]. rewrite Hd.
  destruct (grows o c && bool_decide (free_count s = 0%nat)); [rewrite Ht; by exists s0|].
  destruct Ht as (k & s1 & l1 & -> & [T1 C1 Hfr1 Hh1 Hk1 Hl1] & Hcnt). cbn [offset with_head]. fold o. rewrite as_u32_small by lia.
  eexists _, (store k o w s1), l1. split; [done|]. split; [by split; apply T1|]. split; [|split; [|exact Hcnt]].
  - eapply frame_trans; [apply (Hfr l)|]. eapply frame_trans; [exact Hfr1|].
    apply store_frame; [by eapply list_elem_of_lookup_2|apply C1|lia|lia].
  - rewrite <- Hw in *. apply (after_write_ok s1 l1 f c k o w); try done; lia.
Qed.

(** * Truncation *)

Lemma table_frame s l s' l' :
  (forall c, c ∉ l -> entry_of s' c = entry_of s c) -> disk s' = disk s -> (forall c, c ∈ l' -> c ∈ l) -> frame s l s' l'.
Proof.
  intros He Hd Hs m C Hm. split; [|split].
  - apply (chain_ok_ext s); [|done]. intros c Hc. by apply He, Hm.
  - intros c Hc Hc'. by apply (Hm c Hc), Hs.
  - intros. by rewrite Hd.
Qed.
Lemma map_free_table_ok f s : table_ok s -> table_ok (map_free_clusters f s).
Proof. intros []. by split. Qed.
Lemma chain_ok_map_free f s l : chain_ok s l -> chain_ok (map_free_clusters f s) l.
Proof. apply chain_ok_ext. done. Qed.

Lemma truncate_start s l f c :
  table_ok s -> file_ok s l f c -> offset f = 0 ->
  exists f' s', ff_truncate g (f, s) = Ret (Ok tt, (f', s')) /\ table_ok s' /\ frame s l s' []
    /\ file_ok s' [] f' [] /\ free_count s' = (free_count s + length l)%nat.
Proof.
  intros T F E0. pose proof cs_pos as Hcs. pose proof (fi_cur _ _ _ _ F) as Hc. unfold cur in Hc. rewrite E0 in Hc. cbn in Hc.
  assert (Hok : forall s', file_ok s' [] (mkFat None None 0 (Some (mkEditor false 0 None))) []).
  { intros s'. split; try done; try (cbn; lia).
    - split; [done|apply NoDup_nil_2|constructor].
    - cbn. rewrite Z.div_small; lia.
    - intros i Hi. cbn in Hi. lia. }
  unfold ff_truncate. rewrite (fi_entry _ _ _ _ F), E0. cbn [Z.eqb current_cluster first_cluster]. rewrite Hc, (fi_first _ _ _ _ F).
  unfold entry_set_size, entry_set_first. cbn [e_is_dir e_size e_first]. destruct l as [|x l]; cbn [head].
  - eexists _, s. split; [done|]. split; [done|]. split; [by intros m C Hm|]. split; [apply Hok|cbn; lia].
  - unfold free_cluster_chain. destruct (chain_free_eq (chain_fuel g) 0 (x :: l) s T (fi_chain _ _ _ _ F) (chain_length s _ (fi_chain _ _ _ _ F))) as [n Hn].
    cbn [head] in Hn. unfold on_fs, zoom, modify. unfold mbind, M_mbind, M_bind. cbn [fst snd]. rewrite Hn.
    eexists _, (map_free_clusters _ (free_all (x :: l) s)). split; [done|]. split; [by apply map_free_table_ok, free_all_table_ok|]. split; [|split; [apply Hok|]].
    + apply table_frame; [|exact (free_all_disk (x :: l) s)|by intros d ?%not_elem_of_nil].
      intros d Hd. change (entry_of (free_all (x :: l) s) d = entry_of s d). rewrite entry_of_free_all by apply F. by rewrite decide_False.
    + change (free_count (free_all (x :: l) s) = (free_count s + length (x :: l))%nat). rewrite free_all_count by apply F. lia.
Qed.
Lemma truncate_inside s l f c :
  table_ok s -> file_ok s l f c -> offset f <> 0 ->
  exists f' s' l', ff_truncate g (f, s) = Ret (Ok tt, (f', s')) /\ table_ok s' /\ frame s l s' l'
    /\ file_ok s' l' f' (take (Z.to_nat (offset f)) c) /\ (free_count s' + length l')%nat = (free_count s + length l)%nat.
Proof.
  intros T F E0. pose proof cs_pos as Hcs. pose proof (fi_off _ _ _ _ F) as Ho. pose proof (fi_cur _ _ _ _ F) as Hc. unfold cur in Hc.
  rewrite (proj2 (Z.eqb_neq _ 0)) in Hc by done. set (o := offset f) in *.
  assert (Hq : 0 <= (o - 1) / cs) by (apply Z.div_pos; lia). pose proof (chain_index s l f c (o - 1) F ltac:(lia)) as Hi.
  set (q := Z.to_nat ((o - 1) / cs)) in *. destruct (lookup_lt_is_Some_2 l q Hi) as [k Hk].
  assert (Hlen : Z.of_nat (length (take (Z.to_nat o) c)) = o) by (rewrite length_take; lia).
  unfold ff_truncate. rewrite (fi_entry _ _ _ _ F). fold o. rewrite (proj2 (Z.eqb_neq o 0)) by done. cbn [current_cluster first_cluster offset]. rewrite Hc, Hk.
  unfold truncate_cluster_chain. destruct (chain_truncate_eq (chain_fuel g) q k l s T (fi_chain _ _ _ _ F) Hk (chain_length s _ (fi_chain _ _ _ _ F))) as [n Hn].
  unfold on_fs, zoom, modify. unfold mbind, M_mbind, M_bind. cbn [fst snd]. rewrite Hn.
  eexists _, (map_free_clusters _ (cut q k l s)), (take (S q) l). split; [done|]. split; [by apply map_free_table_ok, free_all_table_ok, upd_table_ok|].
  split; [|split].
  - apply table_frame; [|exact (free_all_disk _ _)|intros d Hd; rewrite <- (take_drop (S q) l); apply elem_of_app; by left].
    intros d Hd. change (entry_of (cut q k l s) d = entry_of s d). rewrite entry_of_cut by (apply F || done). rewrite !decide_False; [done| |].
    + intros ->. by apply Hd; eapply list_elem_of_lookup_2.
    + intros Hin. apply Hd. rewrite <- (take_drop (S q) l). apply elem_of_app. by right.
  - assert (Hh : head (take (S q) l) = head l) by (by destruct l). split; rewrite ?Hlen, ?Hh; try (apply F || done || (cbn; fold o; lia)).
    + apply chain_ok_map_free, chain_cut; [apply F|done].
    + rewrite length_take, ceil_pred by lia. lia.
    + pose proof (fi_max _ _ _ _ F). lia.
    + cbn [current_cluster offset]. unfold cur. fold o. rewrite (proj2 (Z.eqb_neq o 0)) by done. fold q. rewrite lookup_take_lt by lia. done.
    + intros i Hi'. rewrite Hlen in Hi'. destruct (fi_bytes _ _ _ _ F i ltac:(lia)) as (d & Hd & Hb). exists d.
      assert (i / cs <= (o - 1) / cs) by (apply Z.div_le_mono; lia). rewrite !lookup_take_lt by lia. split; [done|].
      change (disk (map_free_clusters _ (cut q k l s))) with (disk (cut q k l s)). unfold cut. by rewrite free_all_disk.
  - change (free_count (cut q k l s) + length (take (S q) l) = free_count s + length l)%nat. rewrite cut_count by (apply F || done). rewrite length_take. lia.
Qed.

(** * The operations of the adapter *)

(** What happens to a file with the contents [c] when [free] clusters are free: the result,
    the new contents and the number of free clusters. *)
Definition clusters (len : Z) : Z := (len + cs - 1) / cs.
Definition spec_read (off : Z) (len : nat) (c : list Z) : list Z :=
  let o := Z.min off (Z.of_nat (length c)) in
  take (Z.to_nat (Z.min (Z.min (Z.of_nat len) (cs - o mod cs)) (Z.of_nat (length c) - o))) (drop (Z.to_nat o) c).
Definition spec_write (off : Z) (buf : list Z) (c : list Z) (free : nat) : result Z AxError * list Z * nat :=
  let o := Z.min off (Z.of_nat (length c)) in
  let n := write_count o buf in
  if n =? 0 then (Ok 0, c, free)
  else if grows o c && bool_decide (free = 0%nat) then (Err StorageFull, c, free)
  else (Ok n, overlay o (take (Z.to_nat n) buf) c, (free - if grows o c then 1 else 0)%nat).
Definition spec_truncate (size : Z) (c : list Z) (free : nat) : list Z * nat :=
  let o := Z.min size (Z.of_nat (length c)) in
  (take (Z.to_nat o) c, (free + Z.to_nat (clusters (Z.of_nat (length c)) - clusters o))%nat).
Definition spec_attr (c : list Z) : VfsNodeAttr :=
  let size := Z.of_nat (length c) in mkAttr 0x1ED TFile size ((size + FAT_BLOCK_SIZE - 1) / FAT_BLOCK_SIZE).
(** Offsets that a FAT file can have. *)
Definition is_u32 (n : Z) : bool := (0 <=? n) && (n <? U32).

Definition kept (s : FatFs) (l : list Z) (s' : FatFs) (l' : list Z) (f' : FatFile) (c' : list Z) : Prop :=
  table_ok s' /\ frame s l s' l' /\ file_ok s' l' f' c'.
Lemma kept_pos s l f c o : table_ok s -> file_ok s l f c -> 0 <= o <= Z.of_nat (length c) -> kept s l s l (at_offset (cur l o) o f) c.
Proof. intros T F Ho. split; [done|]. split; [by intros m C Hm|]. by apply file_ok_at. Qed.
Lemma kept_trans s l s1 l1 f1 c1 s2 l2 f2 c2 : kept s l s1 l1 f1 c1 -> kept s1 l1 s2 l2 f2 c2 -> kept s l s2 l2 f2 c2.
Proof. intros (_ & H1 & _) (T & H2 & F). split; [done|]. split; [by eapply frame_trans|done]. Qed.

(** [seek] to an offset, as the operations begin. *)
Lemma seek_start s l f c off :
  table_ok s -> file_ok s l f c ->
  if is_u32 off then exists f1, map_err as_vfs_err (ff_seek g (SeekStart off)) (f, s) = Ret (Ok (Z.min off (Z.of_nat (length c))), (f1, s))
       /\ kept s l s l f1 c /\ offset f1 = Z.min off (Z.of_nat (length c))
  else map_err as_vfs_err (ff_seek g (SeekStart off)) (f, s) = Ret (Err InvalidInput, (f, s)).
Proof.
  intros T F. unfold map_err, is_u32. pose proof (seek_spec s l f c (SeekStart off) off T F) as Hs.
  destruct ((0 <=? off) && (off <? U32)) eqn:E.
  - unfold seek_target, u32_try_from in Hs. rewrite E in Hs. bool_to_prop. rewrite (Hs eq_refl) by lia. eexists. split; [done|].
    split; [|done]. apply kept_pos; [done|done|lia].
  - unfold ff_seek, seek_target, u32_try_from. by rewrite E.
Qed.
Lemma read_at_spec s l f c off len :
  table_ok s -> file_ok s l f c ->
  exists f', kept s l s l f' c /\
    fw_read_at g off len (f, s) = Ret (if is_u32 off then Ok (spec_read off len c) else Err InvalidInput, (f', s)).
Proof.
  intros T F. unfold fw_read_at. unfold mbind, M_mbind, M_bind. pose proof (seek_start s l f c off T F) as Hs. destruct (is_u32 off) eqn:Eu.
  - destruct Hs as (f1 & -> & K & Eo). destruct K as (_ & _ & F1). unfold map_err. rewrite (read_spec s l f1 c len T F1), Eo. unfold is_u32 in Eu. bool_to_prop.
    pose proof cs_pos. pose proof (Z.mod_pos_bound (Z.min off (Z.of_nat (length c))) cs ltac:(lia)).
    eexists. split; [|done]. apply kept_pos; [done|done|lia].
  - exists f. rewrite Hs. split; [|done]. split; [done|]. split; [by intros m C Hm|done].
Qed.
Lemma write_at_spec s l f c off buf :
  table_ok s -> file_ok s l f c ->
  exists f' s' l', let '(r, c', free) := if is_u32 off then spec_write off buf c (free_count s) else (Err InvalidInput, c, free_count s) in
    fw_write_at g off buf (f, s) = Ret (r, (f', s')) /\ kept s l s' l' f' c' /\ free_count s' = free.
Proof.
  intros T F. unfold fw_write_at. unfold mbind, M_mbind, M_bind. pose proof (seek_start s l f c off T F) as Hs. destruct (is_u32 off).
  - destruct Hs as (f1 & -> & K & Eo). pose proof (proj2 (proj2 K)) as F1. pose proof (write_spec s l f1 c buf T F1) as Hw. rewrite Eo in Hw.
    unfold map_err, spec_write. cbv zeta in *. set (o := Z.min off _) in *. destruct (write_count o buf =? 0).
    + exists f1, s, l. by rewrite Hw.
    + destruct (grows o c && bool_decide (free_count s = 0%nat)).
      * destruct Hw as (s' & -> & Hv). exists f1, s', l. split; [done|]. destruct (same_view_spec s s' Hv) as (_ & HT & Hc & Hf).
        split; [|done]. split; [by apply HT|]. split; [apply Hf|by apply (view_file s)].
      * destruct Hw as (f' & s' & l' & -> & T' & Hfr & F' & Hc). exists f', s', l'. split; [done|]. split; [done|lia].
  - exists f, s, l. rewrite Hs. split; [done|]. split; [|done]. split; [done|]. split; [by intros m C Hm|done].
Qed.
Lemma truncate_at_spec s l f c size :
  table_ok s -> file_ok s l f c ->
  exists f' s' l', let '(c', free) := if is_u32 size then spec_truncate size c (free_count s) else (c, free_count s) in
    fw_truncate g size (f, s) = Ret (if is_u32 size then Ok tt else Err InvalidInput, (f', s')) /\ kept s l s' l' f' c' /\ free_count s' = free.
Proof.
  intros T F. unfold fw_truncate. unfold mbind, M_mbind, M_bind. pose proof (seek_start s l f c size T F) as Hs. destruct (is_u32 size).
  - destruct Hs as (f1 & -> & K & Eo). pose proof (proj2 (proj2 K)) as F1. unfold map_err, spec_truncate. set (o := Z.min size _) in *.
    assert (Ht : exists f' s' l', ff_truncate g (f1, s) = Ret (Ok tt, (f', s')) /\ kept s l s' l' f' (take (Z.to_nat o) c)
                 /\ (free_count s' + length l' = free_count s + length l)%nat).
    { destruct (decide (o = 0)) as [E0|E0].
      - destruct (truncate_start s l f1 c T F1 ltac:(lia)) as (f' & s' & -> & T' & Hfr & F' & Hc). exists f', s', []. rewrite E0.
        split; [done|]. split; [done|]. cbn [length]. lia.
      - destruct (truncate_inside s l f1 c T F1 ltac:(lia)) as (f' & s' & l' & -> & T' & Hfr & F' & Hc). exists f', s', l'. rewrite <- Eo. done. }
    destruct Ht as (f' & s' & l' & -> & K' & Hc). exists f', s', l'. split; [done|]. split; [done|].
    pose proof (fi_len _ _ _ _ F) as H1. pose proof (fi_len _ _ _ _ (proj2 (proj2 K'))) as H2. pose proof (fi_off _ _ _ _ F1).
    rewrite length_take in H2. replace (Z.of_nat (Z.to_nat o `min` length c)) with o in H2 by lia.
    pose proof cs_pos. pose proof (Z.div_le_mono (o + cs - 1) (Z.of_nat (length c) + cs - 1) cs ltac:(lia) ltac:(lia)) as Hle.
    unfold clusters. rewrite <- H1, <- H2 in *. lia.
  - exists f, s, l. rewrite Hs. split; [done|]. split; [|done]. split; [done|]. split; [by intros m C Hm|done].
Qed.
Lemma get_attr_spec s l f c :
  table_ok s -> file_ok s l f c -> exists f', kept s l s l f' c /\ fw_get_attr g (f, s) = Ret (Ok (spec_attr c), (f', s)).
Proof.
  intros T F. pose proof (fi_max _ _ _ _ F) as Hm. unfold fw_get_attr. unfold mbind, M_mbind, M_bind, map_err.
  rewrite (seek_spec s l f c (SeekEnd 0) (Z.of_nat (length c)) T F); [|unfold seek_target; rewrite (ff_size_eq s l f c F); cbn [mbind option_bind]|lia].
  - rewrite Z.min_id. exists (at_offset (cur l (Z.of_nat (length c))) (Z.of_nat (length c)) f).
    split; [by apply kept_pos; [| |lia]|]. unfold spec_attr, FAT_BLOCK_SIZE. cbv zeta.
    by rewrite wadd_small, wsub_small by lia.
  - unfold u32_try_from. rewrite Z.add_0_r. by rewrite (proj2 (Z.leb_le 0 _)), (proj2 (Z.ltb_lt _ U32)) by lia.
Qed.

(** * Any number of open files *)

Record FatVol := mkVol { v_files : list FatFile; v_fs : FatFs }.
Inductive fat_op :=
| OpRead (i : nat) (off : Z) (len : nat) | OpWrite (i : nat) (off : Z) (buf : list Z)
| OpTruncate (i : nat) (size : Z) | OpAttr (i : nat).
Inductive fat_res :=
| RRead (r : result (list Z) AxError) | RWrite (r : result Z AxError)
| RTruncate (r : result unit AxError) | RAttr (r : result VfsNodeAttr AxError) | RNoFile.
(** An operation on the file with index [i]. *)
Definition on_file {A} (i : nat) (m : FW A) (wrap : result A AxError -> fat_res) (v : FatVol) : outcome (fat_res * FatVol) :=
  match v_files v !! i with
  | None => Ret (RNoFile, v)
  | Some f =>
      match m (f, v_fs v) with
      | Ret (r, (f', s')) => Ret (wrap r, mkVol (<[i := f']> (v_files v)) s')
      | Panic => Panic
      end
  end.
Definition vol_step (op : fat_op) : FatVol -> outcome (fat_res * FatVol) :=
  match op with
  | OpRead i off len => on_file i (fw_read_at g off len) RRead
  | OpWrite i off buf => on_file i (fw_write_at g off buf) RWrite
  | OpTruncate i size => on_file i (fw_truncate g size) RTruncate
  | OpAttr i => on_file i (fw_get_attr g) RAttr
  end.
Fixpoint vol_run (ops : list fat_op) (v : FatVol) : outcome (list fat_res * FatVol) :=
  match ops with
  | [] => Ret ([], v)
  | op :: ops =>
      match vol_step op v with
      | Ret (r, v1) =>
          match vol_run ops v1 with Ret (rs, v2) => Ret (r :: rs, v2) | Panic => Panic end
      | Panic => Panic
      end
  end.

(** The specification: files are lists of bytes, and there is a number of free clusters. *)
Record AVol := mkAVol { a_files : list (list Z); a_free : nat }.
Definition a_on_file {A} (i : nat) (m : list Z -> nat -> result A AxError * list Z * nat) (wrap : result A AxError -> fat_res)
  (a : AVol) : fat_res * AVol :=
  match a_files a !! i with
  | None => (RNoFile, a)
  | Some c => let '(r, c', free) := m c (a_free a) in (wrap r, mkAVol (<[i := c']> (a_files a)) free)
  end.
(** Offsets are 32 bits wide. *)
Definition if_u32 {A} (off : Z) (m : list Z -> nat -> result A AxError * list Z * nat) (c : list Z) (free : nat) :=
  if is_u32 off then m c free else (Err InvalidInput, c, free).
Definition a_step (op : fat_op) : AVol -> fat_res * AVol :=
  match op with
  | OpRead i off len => a_on_file i (if_u32 off (fun c free => (Ok (spec_read off len c), c, free))) RRead
  | OpWrite i off buf => a_on_file i (if_u32 off (spec_write off buf)) RWrite
  | OpTruncate i size => a_on_file i (if_u32 size (fun c free => (Ok tt, (spec_truncate size c free).1, (spec_truncate size c free).2))) RTruncate
  | OpAttr i => a_on_file i (fun c free => (Ok (spec_attr c), c, free)) RAttr
  end.
Fixpoint a_run (ops : list fat_op) (a : AVol) : list fat_res * AVol :=
  match ops with
  | [] => ([], a)
  | op :: ops => let '(r, a1) := a_step op a in let '(rs, a2) := a_run ops a1 in (r :: rs, a2)
  end.

(** The open files with their chains, which are apart, hold the contents of the
    specification. *)
Record vol_chains (v : FatVol) (a : AVol) (ls : list (list Z)) : Prop := {
  vc_table : table_ok (v_fs v);
  vc_len : length ls = length (v_files v) /\ length (a_files a) = length (v_files v);
  vc_file : forall i f l c, v_files v !! i = Some f -> ls !! i = Some l -> a_files a !! i = Some c -> file_ok (v_fs v) l f c;
  vc_apart : forall i j l m x, i <> j -> ls !! i = Some l -> ls !! j = Some m -> x ∈ l -> x ∉ m;
  vc_free : free_count (v_fs v) = a_free a }.
Definition vol_rep (v : FatVol) (a : AVol) : Prop := exists ls, vol_chains v a ls.

Lemma vol_chains_update v a ls i f l c f' s' l' c' :
  vol_chains v a ls -> v_files v !! i = Some f -> ls !! i = Some l -> a_files a !! i = Some c -> kept (v_fs v) l s' l' f' c' ->
  vol_chains (mkVol (<[i := f']> (v_files v)) s') (mkAVol (<[i := c']> (a_files a)) (free_count s')) (<[i := l']> ls).
Proof.
  intros V Hf Hl Hc (T & Fr & F').
  assert (Hother : forall j f0 m c0, j <> i -> v_files v !! j = Some f0 -> ls !! j = Some m -> a_files a !! j = Some c0 ->
            file_ok s' m f0 c0 /\ forall x, x ∈ m -> x ∉ l').
  { intros j f0 m c0 Hj H1 H2 H3. eapply frame_file; [exact Fr|by eapply vc_file|].
    intros x Hx. by apply (vc_apart _ _ _ V j i m l x). }
  assert (Hm : forall j m x, j <> i -> ls !! j = Some m -> x ∈ m -> x ∉ l').
  { intros j m x Hj Hm Hx. pose proof (lookup_lt_Some _ _ _ Hm) as Hlt. destruct (vc_len _ _ _ V) as [E1 E2].
    destruct (lookup_lt_is_Some_2 (v_files v) j ltac:(lia)) as [f0 H0]. destruct (lookup_lt_is_Some_2 (a_files a) j ltac:(lia)) as [c0 H1].
    by apply (proj2 (Hother j f0 m c0 Hj H0 Hm H1)). }
  apply lookup_lt_Some in Hf as Hlf, Hl as Hll, Hc as Hlc. split; cbn [v_fs v_files a_files a_free]; rewrite ?length_insert; try done.
  - apply V.
  - intros j f0 m c0. destruct (decide (j = i)) as [->|Hj].
    + rewrite !list_lookup_insert_eq by done. by intros [= <-] [= <-] [= <-].
    + rewrite !list_lookup_insert_ne by done. intros H1 H2 H3. by apply (proj1 (Hother j f0 m c0 Hj H1 H2 H3)).
  - intros j k m m' x Hjk. destruct (decide (j = i)) as [->|Hj]; [|destruct (decide (k = i)) as [->|Hk]].
    + rewrite list_lookup_insert_eq, list_lookup_insert_ne by done. intros [= <-] Hm' Hx Hx'. by apply (Hm k m' x ltac:(done) Hm').
    + rewrite list_lookup_insert_ne, list_lookup_insert_eq by done. intros Hm' [= <-] Hx. by apply (Hm j m x).
    + rewrite !list_lookup_insert_ne by done. apply V. done.
Qed.
(** An operation that does to one file what its specification says. *)
Lemma on_file_refines {A} i (m : FW A) (sm : list Z -> nat -> result A AxError * list Z * nat) wrap v a :
  (forall s l f c, table_ok s -> file_ok s l f c ->
     exists f' s' l', let '(r, c', free) := sm c (free_count s) in m (f, s) = Ret (r, (f', s')) /\ kept s l s' l' f' c' /\ free_count s' = free) ->
  vol_rep v a -> exists v', on_file i m wrap v = Ret ((a_on_file i sm wrap a).1, v') /\ vol_rep v' (a_on_file i sm wrap a).2.
Proof.
  intros Hm [ls V]. unfold on_file, a_on_file. destruct (vc_len _ _ _ V) as [E1 E2]. destruct (v_files v !! i) as [f|] eqn:Hf.
  - pose proof (lookup_lt_Some _ _ _ Hf) as Hlt. destruct (lookup_lt_is_Some_2 ls i ltac:(lia)) as [l Hl].
    destruct (lookup_lt_is_Some_2 (a_files a) i ltac:(lia)) as [c Hc]. rewrite Hc, <- (vc_free _ _ _ V).
    destruct (Hm (v_fs v) l f c (vc_table _ _ _ V) (vc_file _ _ _ V i f l c Hf Hl Hc)) as (f' & s' & l' & H).
    destruct (sm c (free_count (v_fs v))) as [[r c'] free]. destruct H as (-> & K & <-). eexists. split; [done|].
    exists (<[i := l']> ls). by eapply vol_chains_update.
  - rewrite lookup_ge_None_2 by (apply lookup_ge_None in Hf; lia). exists v. split; [done|by exists ls].
Qed.
Lemma vol_step_refines op v a :
  vol_rep v a -> exists v', vol_step op v = Ret ((a_step op a).1, v') /\ vol_rep v' (a_step op a).2.
Proof.
  destruct op as [i off len|i off buf|i size|i]; cbn [vol_step a_step]; apply on_file_refines; intros s l f c T F; unfold if_u32.
  - destruct (read_at_spec s l f c off len T F) as (f' & K & E). exists f', s, l. destruct (is_u32 off); done.
  - apply (write_at_spec s l f c off buf T F).
  - destruct (truncate_at_spec s l f c size T F) as (f' & s' & l' & H). exists f', s', l'. destruct (is_u32 size); [|done].
    by destruct (spec_truncate size c (free_count s)).
  - destruct (get_attr_spec s l f c T F) as (f' & K & E). by exists f', s, l.
Qed.
End volume.

(** C24: Any sequence of reads, writes, truncations and queries of sizes through the adapter, on any
    number of open files of a FAT volume, succeeds or fails and returns what it does
    on plain lists of bytes with a count of free clusters: bytes written are read back, a
    call stops at the end of its cluster, offsets behind the end count as the end, a write that
    needs a cluster fails exactly when none is free, truncation frees what it cuts off, no
    file sees another one, and nothing panics. *)
Theorem fat_files_refine g ops v a :
  geometry_ok g -> vol_rep g v a ->
  exists v', vol_run g ops v = Ret ((a_run g ops a).1, v') /\ vol_rep g v' (a_run g ops a).2.
Proof.
  intros G. revert v a. induction ops as [|op ops IH]; intros v a V; cbn [vol_run a_run]; [by exists v|].
  destruct (vol_step_refines g G op v a V) as (v1 & -> & V1). destruct (a_step g op a) as [r a1]. cbn [fst snd] in *.
  destruct (IH v1 a1 V1) as (v2 & -> & V2). destruct (a_run g ops a1) as [rs a2]. by exists v2.
Qed.

(** * Directories *)

(** Every call of [lookup] or [create] on the rest of a path is on a shorter one, so the
    recursion ends, and [lookup] gives a node or [NotFound]. *)
Lemma strip_dots_total fuel path : (length path < fuel)%nat -> is_Some (strip_dots fuel path).
Proof.
  revert path. induction fuel as [|fuel IH]; intros path Hl; [lia|]. cbn [strip_dots].
  case_bool; [done|]. destruct (strip_prefix (trim_char slash path) [dot; slash]) as [rest|] eqn:E; [|done].
  apply IH. unfold strip_prefix in E. case_bool; [|done]. injection E as <-. rewrite length_drop. cbn [length].
  pose proof (trim_char_length slash path). destruct (trim_char slash path); [done|]. cbn [length] in *. lia.
Qed.
Lemma dw_lookup_total {V D} `{FatDirs V D} (d : D) path v :
  (exists n, dw_lookup d path v = Ret (Ok n, v)) \/ dw_lookup d path v = Ret (Err NotFound, v).
Proof.
  unfold dw_lookup. destruct (strip_dots_total (S (length path)) path ltac:(lia)) as [p ->]. unfold_M.
  case_bool; [left; by eexists|]. destruct (fd_open_file d p v); [left; by eexists|].
  destruct (fd_open_dir d p v); [left; by eexists|by right].
Qed.

(** A volume of four clusters with a file of three bytes and an empty one. *)
Module FatDemo.
Definition g : Bpb := mkBpb 512 1 1 4 false false.
Definition f0 : FatFile := mkFat (Some 2) None 0 (Some (mkEditor false 3 (Some 2))).
Definition f1 : FatFile := mkFat None None 0 (Some (mkEditor false 0 None)).
Definition s0 : FatFs :=
  mkFatFs (list_to_map [(2, 0x0FFFFFFF); (3, 0); (4, 0xF0000000); (5, 0)]) (mem_write 512 [7; 8; 9] (fun _ => 0)) None (Some 3) false.
Definition v0 : FatVol := mkVol [f0; f1] s0.
Definition a0 : AVol := mkAVol [[7; 8; 9]; []] 3.
Definition ops : list fat_op :=
  [OpWrite 0 100 [1; 2]; OpRead 0 1 9; OpWrite 1 0 (replicate 600 4); OpWrite 1 512 [6]; OpRead 1 511 8; OpAttr 1;
   OpTruncate 0 2; OpRead 0 0 8; OpRead 1 512 1; OpRead 0 4294967296 1; OpWrite 0 512 (replicate 512 3); OpTruncate 1 0; OpAttr 1].

Lemma geometry : geometry_ok g.
Proof. split; cbn; lia. Qed.
Lemma valid_cases c : valid g c -> c = 2 \/ c = 3 \/ c = 4 \/ c = 5.
Proof. unfold valid, RESERVED_FAT_ENTRIES. cbn. lia. Qed.
Lemma table : table_ok g s0.
Proof. split; [|done]. intros c [->|[->|[->| ->]]]%valid_cases; eexists; by vm_compute. Qed.
Lemma chain0 : chain_ok g s0 [2].
Proof.
  split; [|apply NoDup_singleton|by apply Forall_singleton].
  intros [|i] c Hi; [|done]. injection Hi as <-. by vm_compute.
Qed.
Lemma chain1 : chain_ok g s0 [].
Proof. split; [done|constructor|constructor]. Qed.
Lemma file0 : file_ok g s0 [2] f0 [7; 8; 9].
Proof.
  split; try done; [apply chain0|].
  intros i Hi. cbn in Hi. exists 2. assert (i = 0 \/ i = 1 \/ i = 2) as [->|[->| ->]] by lia; by vm_compute.
Qed.
Lemma file1 : file_ok g s0 [] f1 [].
Proof. split; try done; [apply chain1|]. intros i Hi. cbn in Hi. lia. Qed.
Lemma rep : vol_rep g v0 a0.
Proof.
  exists [[2]; []]. split; [apply table|done| | |by vm_compute].
  - intros [|[|i]] f l c; cbn; [| |done]; intros [= <-] [= <-] [= <-]; [apply file0|apply file1].
  - intros [|[|i]] [|[|j]] l m x Hij; cbn; try done; intros [= <-] [= <-]; set_solver.
Qed.
End FatDemo.

Lemma fat_files_refine_witness :
  exists v', vol_run FatDemo.g FatDemo.ops FatDemo.v0
    = Ret ([RWrite (Ok 2); RRead (Ok [8; 9; 1; 2]); RWrite (Ok 512); RWrite (Ok 1); RRead (Ok [4]); RAttr (Ok (mkAttr 0x1ED TFile 513 2));
            RTruncate (Ok tt); RRead (Ok [7; 8]); RRead (Ok [6]); RRead (Err InvalidInput); RWrite (Ok 510); RTruncate (Ok tt);
            RAttr (Ok (mkAttr 0x1ED TFile 0 0))], v').
Proof.
  destruct (fat_files_refine FatDemo.g FatDemo.ops FatDemo.v0 FatDemo.a0 FatDemo.geometry FatDemo.rep) as (v' & E & _).
  exists v'. rewrite E. by vm_compute.
Defined.
