(* ===== verification/PosixFs.v ===== *)
(** The file system calls of the POSIX layer: files and directories behind descriptors
    (src/arceos/api/arceos_posix_api/src/imp/fs.rs, io.rs), paths and hard links
    (path_link.rs), and the calls of src/src/syscall_imp/fs/ (ctl.rs, stat.rs, io.rs)
    on them. An open file is an object of a shared heap: descriptors that were
    duplicated or inherited refer to the same object and share its cursor. *)
From S2P Require Import Prelude.
From S2P Require Import Errno.
From S2P Require Import Str.
From S2P Require Import Fs.
From S2P Require Import FdTable.

(** The flags of fcntl.h, and [flags_to_options]. *)
Definition O_WRONLY : Z := 1.
Definition O_CREAT : Z := 64.
Definition O_TRUNC : Z := 512.
Definition O_APPEND : Z := 1024.
Definition O_DIRECTORY : Z := 65536.
Definition O_EXEC : Z := 2097152.
Definition has_flag (flags f : Z) : bool := negb (Z.land flags f =? 0).
Definition flags_to_options (flags : Z) : OpenOptions :=
  let flags := as_u32 flags in
  let acc := Z.land flags 3 in
  mkOpts (negb (acc =? 1)) (negb (acc =? 0)) (has_flag flags O_EXEC) (has_flag flags O_APPEND)
    (has_flag flags O_TRUNC) (has_flag flags O_CREAT) false (has_flag flags O_DIRECTORY).

(** [ctypes::stat], the fields that are set. *)
Record Stat := mkStat {
  st_ino : Z; st_nlink : Z; st_mode : Z; st_uid : Z; st_gid : Z; st_size : Z; st_blocks : Z; st_blksize : Z
}.

(** [Kstat] and its conversion from [stat] (stat.rs): the fields that are not set, the
    device numbers and the times, are 0. *)
Record Kstat := mkKstat {
  k_dev : Z; k_ino : Z; k_mode : Z; k_nlink : Z; k_uid : Z; k_gid : Z; k_rdev : Z; k_pad0 : Z;
  k_size : Z; k_blksize : Z; k_pad1 : Z; k_blocks : Z;
  k_atime_sec : Z; k_atime_nsec : Z; k_mtime_sec : Z; k_mtime_nsec : Z; k_ctime_sec : Z; k_ctime_nsec : Z
}.
Definition Kstat_from (st : Stat) : Kstat :=
  mkKstat 0 (st_ino st) (st_mode st) (st_nlink st) (st_uid st) (st_gid st) 0 0
    (wrap (st_size st)) (as_u32 (st_blksize st)) 0 (wrap (st_blocks st)) 0 0 0 0 0 0.

(** [StatX], and what [sys_statx] stores in the one it is given. *)
Record StatX := mkStatX {
  stx_mask : Z; stx_blksize : Z; stx_attributes : Z; stx_nlink : Z; stx_uid : Z; stx_gid : Z; stx_mode : Z;
  stx_ino : Z; stx_size : Z; stx_blocks : Z; stx_attributes_mask : Z;
  stx_atime : Z * Z; stx_btime : Z * Z; stx_ctime : Z * Z; stx_mtime : Z * Z;
  stx_rdev_major : Z; stx_rdev_minor : Z; stx_dev_major : Z; stx_dev_minor : Z;
  stx_mnt_id : Z; stx_dio_mem_align : Z; stx_dio_offset_align : Z
}.
Definition statx_fill (st : Stat) (b : StatX) : StatX :=
  mkStatX (stx_mask b) (as_u32 (st_blksize st)) (st_mode st) (st_nlink st) (st_uid st) (st_gid st)
    (as_u16 (st_mode st)) (st_ino st) (wrap (st_size st)) (wrap (st_blocks st)) 0x7FF
    (0, 0) (stx_btime b) (0, 0) (0, 0)
    (stx_rdev_major b) (stx_rdev_minor b) (stx_dev_major b) (stx_dev_minor b)
    (stx_mnt_id b) (stx_dio_mem_align b) (stx_dio_offset_align b).

Definition AT_FDCWD : Z := -100.

Section posix.
Context {V N F : Type} `{Vfs V N F}.
(** The other objects behind descriptors (pipes, sockets, the console). *)
Context {O : Type}.

(** What a descriptor refers to. *)
Inductive Obj := OFile (f : File N) (path : str) | ODir (d : Directory N) (path : str) | OOther (o : O).

(** The state of the layer: the file systems, the heap of open objects, the
    descriptor table and the two maps of the hard link manager. *)
Record Px := mkPx {
  px_fs : Fs V N F;
  px_objs : list Obj;
  px_fds : FlattenObjects nat;
  px_links : gmap str str;
  px_refs : gmap str Z;
}.
Definition PxM (A : Type) : Type := M Px LinuxError A.
Definition AxM (A : Type) : Type := M Px AxError A.

Context (other_read : O -> nat -> PxM (list Z)) (other_write : O -> list Z -> PxM Z) (other_stat : O -> PxM Stat).

Definition set_fs (x : Fs V N F) (s : Px) : Px := mkPx x (px_objs s) (px_fds s) (px_links s) (px_refs s).
Definition set_objs (x : list Obj) (s : Px) : Px := mkPx (px_fs s) x (px_fds s) (px_links s) (px_refs s).
Definition set_fds (x : FlattenObjects nat) (s : Px) : Px := mkPx (px_fs s) (px_objs s) x (px_links s) (px_refs s).
Definition set_links (l : gmap str str) (r : gmap str Z) (s : Px) : Px := mkPx (px_fs s) (px_objs s) (px_fds s) l r.
Definition on_fs {A} (m : FsM (V := V) (N := N) (F := F) A) : AxM A := zoom px_fs set_fs m.
Definition on_fds {A} (m : FdM (T := nat) A) : PxM A := zoom px_fds set_fds m.
Definition ax {A} (m : AxM A) : PxM A := map_err ax_to_linux m.

(** * Descriptors *)

(** [add_to_fd_table]: a new object and a descriptor for it. *)
Definition add_to_fd_table (o : Obj) : PxM Z :=
  s ← get;
  _ ← modify (fun s => set_objs (px_objs s ++ [o]) s);
  on_fds (add_file_like (length (px_objs s))).
(** The object of a descriptor. *)
Definition get_obj (fd : Z) : PxM (nat * Obj) :=
  h ← on_fds (get_file_like fd);
  s ← get;
  o ← unwrap (px_objs s !! h);
  mret (h, o).
Definition set_obj (h : nat) (o : Obj) : PxM unit := modify (fun s => set_objs (<[h := o]> (px_objs s)) s).

(** [File::from_fd] and [Directory::from_fd]. *)
Definition file_from_fd (fd : Z) : PxM (nat * File N * str) :=
  ho ← get_obj fd;
  match ho.2 with OFile f p => mret (ho.1, f, p) | _ => throw EINVAL end.
Definition dir_from_fd (fd : Z) : PxM (Directory N * str) :=
  ho ← get_obj fd;
  match ho.2 with ODir d p => mret (d, p) | _ => throw EINVAL end.

(** * Reading and writing (io.rs and the [FileLike] implementations) *)

Definition obj_read (h : nat) (o : Obj) (len : nat) : PxM (list Z) :=
  match o with
  | OFile f p => r ← ax (on_fs (file_read f len)); _ ← set_obj h (OFile r.2 p); mret r.1
  | ODir _ _ => throw EBADF
  | OOther o => other_read o len
  end.
Definition obj_write (h : nat) (o : Obj) (buf : list Z) : PxM Z :=
  match o with
  | OFile f p => r ← ax (on_fs (file_write f buf)); _ ← set_obj h (OFile r.2 p); mret r.1
  | ODir _ _ => throw EBADF
  | OOther o => other_write o buf
  end.
(** [FileLike::stat]. *)
Definition attr_stat (a : VfsNodeAttr) : Stat :=
  mkStat 1 1 (Z.lor (Z.shiftl (VfsNodeType_code (at_ty a)) 12) (at_perm a)) 1000 1000
    (as_i64 (at_size a)) (as_i64 (at_blocks a)) 512.
Definition obj_stat (o : Obj) : PxM Stat :=
  match o with
  | OFile f _ => a ← ax (on_fs (file_get_attr f)); mret (attr_stat a)
  | ODir _ _ => throw EBADF
  | OOther o => other_stat o
  end.

(** [sys_read] and [sys_write]; [null] tells whether the buffer is the null pointer.
    A read gives the bytes stored in the buffer. *)
Definition sys_read_body (fd : Z) (null : bool) (count : nat) : PxM (list Z) :=
  _ ← ensure (negb null) EFAULT;
  ho ← get_obj fd;
  obj_read ho.1 ho.2 count.
Definition sys_read (fd : Z) (null : bool) (count : nat) : Px -> outcome (Z * list Z * Px) := fun s =>
  match sys_read_body fd null count s with
  | Panic => Panic
  | Ret (Ok data, s') => Ret (syscall_body as_i64 (Ok (Z.of_nat (length data))), data, s')
  | Ret (Err e, s') => Ret (syscall_body as_i64 (Err e), [], s')
  end.
Definition sys_write_body (fd : Z) (null : bool) (buf : list Z) : PxM Z :=
  _ ← ensure (negb null) EFAULT;
  ho ← get_obj fd;
  obj_write ho.1 ho.2 buf.
Definition sys_write (fd : Z) (null : bool) (buf : list Z) : Px -> outcome (Z * Px) :=
  syscall_run as_i64 (sys_write_body fd null buf).

(** [sys_writev]: the results of the writes are added up, errors included. *)
Fixpoint writev_loop (fd : Z) (iovs : list (bool * list Z)) (ret : Z) (s : Px) : outcome (Z * Px) :=
  match iovs with
  | [] => Ret (ret, s)
  | (null, buf) :: iovs' =>
      match sys_write fd null buf s with
      | Panic => Panic
      | Ret (n, s') => writev_loop fd iovs' (as_i64 (ret + n)) s'
      end
  end.
Definition sys_writev (fd iocnt : Z) (iovs : list (bool * list Z)) (s : Px) : outcome (Z * Px) :=
  if negb ((0 <=? iocnt) && (iocnt <=? 1024)) then Ret (syscall_body as_i64 (Err EINVAL), s)
  else writev_loop fd (take (Z.to_nat iocnt) iovs) 0 s.

(** * Opening *)

(** [add_file_or_directory_fd]. *)
Definition add_file_or_directory_fd (open_file : str -> OpenOptions -> FsM (File N))
    (open_dir : str -> OpenOptions -> FsM (Directory N)) (filename : str) (o : OpenOptions) : PxM Z :=
  r ← attempt (f ← ax (on_fs (open_file filename o)); add_to_fd_table (OFile f filename));
  match r with
  | Ok fd => mret fd
  | Err EISDIR => d ← ax (on_fs (open_dir filename o)); add_to_fd_table (ODir d filename)
  | Err e => throw e
  end.
(** [sys_open]. *)
Definition sys_open_body (filename : result str LinuxError) (flags : Z) : PxM Z :=
  let o := flags_to_options flags in
  filename ← try_ filename;
  if oo_directory o then d ← ax (on_fs (dir_open filename o)); add_to_fd_table (ODir d filename)
  else add_file_or_directory_fd file_open dir_open filename o.
Definition sys_open (filename : option str) (flags : Z) : Px -> outcome (Z * Px) :=
  syscall_run as_i32 (sys_open_body (char_ptr_to_str filename) flags).
(** [sys_openat]; its own errors are -1. *)
Definition sys_openat (dirfd : Z) (filename : option str) (flags : Z) (s : Px) : outcome (Z * Px) :=
  match char_ptr_to_str filename with
  | Err _ => Ret (-1, s)
  | Ok name =>
      if starts_with name [slash] || (dirfd =? AT_FDCWD) then sys_open filename flags s
      else
        match (dp ← dir_from_fd dirfd;
               add_file_or_directory_fd (d_open_file_at dp.1) (d_open_dir_at dp.1) name (flags_to_options flags)) s with
        | Panic => Panic
        | Ret (Ok fd, s') => Ret (fd, s')
        | Ret (Err _, s') => Ret (-1, s')
        end
  end.

(** * Positions and attributes *)

(** [sys_lseek]; [offset as u64] for [SEEK_SET]. *)
Definition sys_lseek_body (fd offset whence : Z) : PxM Z :=
  pos ← (if whence =? 0 then mret (SeekStart (wrap offset))
         else if whence =? 1 then mret (SeekCurrent offset)
         else if whence =? 2 then mret (SeekEnd offset)
         else throw EINVAL);
  hf ← file_from_fd fd;
  r ← ax (on_fs (file_seek hf.1.2 pos));
  _ ← set_obj hf.1.1 (OFile r.2 hf.2);
  mret r.1.
Definition sys_lseek (fd offset whence : Z) : Px -> outcome (Z * Px) :=
  syscall_run as_i64 (sys_lseek_body fd offset whence).

(** [sys_stat], [sys_fstat] and [sys_lstat], which writes zeros. *)
Definition sys_stat_body (path : option str) (null : bool) : PxM Stat :=
  _ ← ensure (negb null) EFAULT;
  p ← try_ (char_ptr_to_str path);
  f ← ax (on_fs (file_open p opts_read));
  obj_stat (OFile f p).
Definition sys_fstat_body (fd : Z) (null : bool) : PxM Stat :=
  _ ← ensure (negb null) EFAULT;
  ho ← get_obj fd;
  obj_stat ho.2.
Definition sys_lstat_body (null : bool) : PxM Stat :=
  _ ← ensure (negb null) EFAULT;
  mret (mkStat 0 0 0 0 0 0 0 0).

(** [sys_statx] (stat.rs) up to the copy of the fields: only an empty path with
    [AT_EMPTY_PATH] is supported. *)
Definition AT_EMPTY_PATH : Z := 4096.
Definition sys_statx_body (dirfd : Z) (pathname : option str) (flags : Z) : PxM Stat :=
  path ← try_ (char_ptr_to_str pathname);
  if decide (path = []) then
    if Z.land flags AT_EMPTY_PATH =? 0 then throw EINVAL else sys_fstat_body dirfd false
  else throw ENOSYS.
Definition sys_statx (dirfd : Z) (pathname : option str) (flags : Z) (buf : StatX) (s : Px)
  : outcome (Z * StatX * Px) :=
  match sys_statx_body dirfd pathname flags s with
  | Panic => Panic
  | Ret (Ok st, s') => Ret (syscall_body as_i32 (Ok 0), statx_fill st buf, s')
  | Ret (Err e, s') => Ret (syscall_body as_i32 (Err e), buf, s')
  end.
(** [sys_fstat] of stat.rs: every error is -1. *)
Definition sys_fstat (fd : Z) (s : Px) : outcome (Z * option Kstat * Px) :=
  match sys_fstat_body fd false s with
  | Panic => Panic
  | Ret (Ok st, s') => Ret (0, Some (Kstat_from st), s')
  | Ret (Err _, s') => Ret (-1, None, s')
  end.

(** [sys_getcwd]: the bytes stored, NUL included; nothing for a null buffer. *)
Definition sys_getcwd_body (null : bool) (size : Z) : PxM (list Z) :=
  if null then mret []
  else
    s ← get;
    let cwd := str_bytes (current_dir_path (px_fs s)) in
    if Z.of_nat (length cwd) <? size then mret (cwd ++ [0]) else throw ERANGE.

(** [sys_rename]. *)
Definition sys_rename_body (old new : option str) : PxM Z :=
  o ← try_ (char_ptr_to_str old);
  n ← try_ (char_ptr_to_str new);
  _ ← ax (on_fs (fs_rename o n));
  mret 0.

(** [sys_chdir] and [sys_mkdirat] (ctl.rs): every error is -1. *)
Definition minus_one {A} (m : PxM A) (s : Px) : outcome (Z * Px) :=
  match m s with
  | Panic => Panic
  | Ret (Ok _, s') => Ret (0, s')
  | Ret (Err _, s') => Ret (-1, s')
  end.
Definition sys_chdir (path : option str) : Px -> outcome (Z * Px) :=
  minus_one (p ← try_ (char_ptr_to_str path); ax (on_fs (set_current_dir p))).
Definition sys_mkdirat (dirfd : Z) (path : option str) : Px -> outcome (Z * Px) :=
  minus_one (p ← try_ (char_ptr_to_str path);
             _ ← ensure (starts_with p [slash] || (dirfd =? AT_FDCWD)) EINVAL;
             ax (on_fs (dir_builder_create false p))).

(** * Paths and hard links (path_link.rs) *)

(** [real_path]. *)
Definition real_path (s : Px) (path : str) : str := default path (px_links s !! path).

(** [FilePath::new]. *)
Definition FilePath_new (path : str) : AxM str :=
  s ← get;
  let new_path := trim (absolute_path path (px_fs s)) in
  let new_path := if ends_with path [slash] && negb (ends_with new_path [slash])
                  then new_path ++ [slash] else new_path in
  _ ← assert_ (starts_with new_path [slash]);
  mret (real_path s new_path).

(** [is_root], [is_dir], [parent] and [name] of a [FilePath]. *)
Definition is_root (p : str) : bool := bool_decide (p = [slash]).
Definition is_dir (p : str) : bool := ends_with p [slash].
Definition FilePath_parent (p : str) : result str AxError :=
  if is_root p then Ok [slash]
  else
    let q := if ends_with p [slash] then take (length p - 1) p else p in
    match rfind slash q with Some pos => Ok (take (S pos) q) | None => Err NotFound end.
Definition FilePath_name (p : str) : result str AxError :=
  if is_root p then Ok [slash]
  else
    let q := if ends_with p [slash] then take (length p - 1) p else p in
    match rfind slash q with
    | Some pos =>
        let end_ := if ends_with q [slash] then (length q - 1)%nat else length q in
        Ok (take (end_ - S pos) (drop (S pos) q))
    | None => Err NotFound
    end.
(** [exists]. *)
Definition FilePath_exists (p : str) : AxM bool :=
  r ← attempt (on_fs (fs_lookup None p)); mret (is_ok r).
(** [join] and [components]. *)
Definition FilePath_join (p path : str) : AxM str :=
  FilePath_new ((if ends_with p [slash] then p else p ++ [slash]) ++ path).
Definition FilePath_components (p : str) : list str := split slash (trim_char slash p).

(** [decrease_ref_count]: when the last link goes, so does the file. The counter is a
    [usize]. *)
Definition decrease_ref_count (path : str) : AxM (option unit) :=
  s ← get;
  match px_refs s !! path with
  | None => mret None
  | Some count =>
      let count := count -w 1 in
      if count =? 0 then
        _ ← modify (set_links (px_links s) (delete path (px_refs s)));
        r ← attempt (on_fs (fs_remove_file None path));
        mret (if is_ok r then Some tt else None)
      else
        _ ← modify (set_links (px_links s) (<[path := count]> (px_refs s)));
        mret (Some tt)
  end.
(** [atomic_link_update] and [atomic_link_remove]. *)
Definition insert_link (src dst : str) (s : Px) : Px :=
  set_links (<[src := dst]> (px_links s)) (<[dst := default 0 (px_refs s !! dst) +w 1]> (px_refs s)) s.
Definition atomic_link_update (src dst : str) : AxM unit :=
  s ← get;
  match px_links s !! src with
  | Some old => if decide (old = dst) then mret tt
                else _ ← decrease_ref_count old; modify (insert_link src dst)
  | None => modify (insert_link src dst)
  end.
Definition atomic_link_remove (src : str) : AxM (option str) :=
  s ← get;
  match px_links s !! src with
  | None => mret None
  | Some dst =>
      _ ← modify (set_links (delete src (px_links s)) (px_refs s));
      _ ← decrease_ref_count dst;
      mret (Some dst)
  end.

(** [create_link], with [LinkError] as the [AxError] it becomes, and [remove_link]. *)
Definition create_link (src dst : str) : AxM unit :=
  e ← FilePath_exists dst;
  _ ← ensure e NotFound;
  _ ← ensure (is_dir dst) InvalidInput;
  atomic_link_update src dst.
Definition remove_link (src : str) : AxM (option str) :=
  r ← atomic_link_remove src;
  match r with
  | Some dst => mret (Some dst)
  | None => r ← attempt (on_fs (fs_remove_file None src)); mret (if is_ok r then Some src else None)
  end.
(** [link_count]. *)
Definition link_count (path : str) : AxM Z :=
  s ← get;
  match px_refs s !! path with
  | Some c => mret c
  | None => e ← FilePath_exists path; mret (Z.b2z e)
  end.

(** The lookup of a directory descriptor in [handle_empty_path] and
    [handle_relative_path]: the write guard of the descriptor table is still held when
    [Directory::from_fd] asks for a read guard of the same spin lock, so the call
    does not return; it has no outcome here either. *)
Definition self_deadlock {A} : AxM A := panic.
Definition dir_path_of (dir_fd : Z) : AxM str :=
  s ← get;
  _ ← ensure (negb ((as_i64 (count (px_fds s)) <=? dir_fd) || (dir_fd <? 0))) InvalidInput;
  self_deadlock.
Definition handle_empty_path (dir_fd : Z) : AxM str :=
  if dir_fd =? AT_FDCWD then mret [dot] else dir_path_of dir_fd.
Definition handle_relative_path (dir_fd : Z) (path : str) : AxM str :=
  d ← dir_path_of dir_fd; mret (d ++ path).
Definition prepend_cwd (path : str) : AxM str :=
  s ← get; mret (current_dir_path (px_fs s) ++ path).
Definition adjust_path_suffix (path : str) (force_dir : bool) : str :=
  let path := if force_dir && negb (ends_with path [slash]) then path ++ [slash] else path in
  if ends_with path [dot] then path ++ [slash] else path.

(** [handle_file_path]; the outer [None] is an absent address, the inner one the null
    pointer. *)
Definition handle_file_path (dir_fd : Z) (path_addr : option (option str)) (force_dir : bool) : AxM str :=
  path ← match path_addr with
         | Some None => throw BadAddress
         | Some p => match char_ptr_to_str p with Ok s => mret s | Err _ => throw NotFound end
         | None => mret []
         end;
  path ← (if decide (path = []) then handle_empty_path dir_fd else mret path);
  path ← (if starts_with path [slash] then mret path
          else if dir_fd =? AT_FDCWD then prepend_cwd path else handle_relative_path dir_fd path);
  FilePath_new (adjust_path_suffix path force_dir).

(** [sys_linkat] and [sys_unlinkat] (ctl.rs). *)
Definition ax_minus_one {A} (m : AxM A) (s : Px) : outcome (Z * Px) := minus_one (ax m) s.
Definition sys_linkat (old_dirfd : Z) (old_path : option str) (new_dirfd : Z) (new_path : option str)
  : Px -> outcome (Z * Px) :=
  ax_minus_one (old ← handle_file_path old_dirfd (Some old_path) false;
                new ← handle_file_path new_dirfd (Some new_path) false;
                create_link new old).
Definition AT_REMOVEDIR : Z := 512.
Definition unlink_file (p : str) : AxM unit :=
  a ← on_fs (api_metadata p);
  if at_is_dir a then throw IsADirectory
  else
    r ← remove_link p;
    match r : option str with Some _ => mret tt | None => throw NotFound end.
Definition sys_unlinkat (dir_fd : Z) (path : option str) (flags : Z) : Px -> outcome (Z * Px) :=
  ax_minus_one (p ← handle_file_path dir_fd (Some path) false;
                if flags =? AT_REMOVEDIR then on_fs (fs_remove_dir None p) else unlink_file p).
End posix.
