(* ===== verification/Stdio.v ===== *)
(** The console behind descriptors 0 to 2: the riscv64 console
    (src/arceos/modules/axhal/src/platform/riscv64_qemu_virt/console.rs), the buffered
    reader of src/vendor/axio, and the standard input and output of
    src/arceos/api/arceos_posix_api/src/imp/stdio.rs. The firmware's console calls are
    parameters. Buffers are values: the model covers kernel buffers, whose physical
    address the firmware is given. *)
From S2P Require Import Prelude.
From S2P Require Import Errno.
From S2P Require Import PosixFs.

(** The debug console of the SBI firmware: [console_read] of at most [n] bytes, and
    [console_write], which returns how many bytes it took. *)
Class Console (C : Type) := {
  sbi_read : nat -> C -> list Z * C;
  sbi_write : list Z -> C -> nat * C;
}.

(** What the SBI specification promises of them, in terms of all the bytes read from
    and written to the console so far. *)
Class ConsoleLaws (C : Type) `{Console C} := {
  received : C -> list Z;
  printed : C -> list Z;
  law_console_read n c bs c' : sbi_read n c = (bs, c') ->
    (length bs <= n)%nat /\ received c' = received c ++ bs /\ printed c' = printed c;
  law_console_write bs c n c' : sbi_write bs c = (n, c') ->
    (n <= length bs)%nat /\ printed c' = printed c ++ take n bs /\ received c' = received c;
}.

Section stdio.
Context {C : Type} `{Console C}.

(** * The console (console.rs) *)

Definition MAX_RW_SIZE : nat := 256.
Definition read_bytes (len : nat) (c : C) : list Z * C := sbi_read (min len MAX_RW_SIZE) c.
Definition try_write_bytes (bs : list Z) (c : C) : nat * C := sbi_write (take (min (length bs) MAX_RW_SIZE) bs) c.
(** The loop of [write_bytes]; every pass but the last writes a byte, so the length is
    fuel enough. *)
Fixpoint write_loop (fuel : nat) (bs : list Z) (c : C) : C :=
  match fuel with
  | O => c
  | S fuel =>
      if decide (bs = []) then c
      else let '(len, c') := try_write_bytes bs c in
           if decide (len = 0)%nat then c' else write_loop fuel (drop len bs) c'
  end.
Definition write_bytes (bs : list Z) (c : C) : C := write_loop (length bs) bs c.

(** * The raw streams (stdio.rs) *)

Definition cr_to_lf (b : Z) : Z := if b =? 13 then 10 else b.
Definition console_read_bytes (len : nat) (c : C) : list Z * C :=
  let '(bs, c') := read_bytes len c in (cr_to_lf <$> bs, c').
Definition console_write_bytes (bs : list Z) (c : C) : Z * C := (Z.of_nat (length bs), write_bytes bs c).

(** [StdinRaw::read]: until the buffer is full or nothing is there. *)
Fixpoint raw_read (fuel len : nat) (c : C) : list Z * C :=
  match fuel, len with
  | S fuel, S _ =>
      let '(bs, c1) := console_read_bytes len c in
      if decide (bs = []) then ([], c1)
      else let '(rest, c2) := raw_read fuel (len - length bs) c1 in (bs ++ rest, c2)
  | _, _ => ([], c)
  end.
Definition stdin_raw_read (len : nat) (c : C) : list Z * C := raw_read len len c.

(** * [BufReader] (axio) *)

Definition DEFAULT_BUF_SIZE : nat := 1024.
Record BufReader := mkBuf { br_inner : C; br_pos : nat; br_filled : nat; br_buf : list Z }.
Definition br_new (c : C) : BufReader := mkBuf c 0 0 (replicate DEFAULT_BUF_SIZE 0).
(** [buffer]: the bytes between [pos] and [filled]. *)
Definition br_buffer (b : BufReader) : list Z := drop (br_pos b) (take (br_filled b) (br_buf b)).
Definition discard_buffer (b : BufReader) : BufReader := mkBuf (br_inner b) 0 0 (br_buf b).
Definition br_is_empty (b : BufReader) : bool := (br_filled b <=? br_pos b)%nat.
Definition fill_buf (b : BufReader) : BufReader :=
  if br_is_empty b then
    let '(bs, c) := stdin_raw_read DEFAULT_BUF_SIZE (br_inner b) in
    mkBuf c 0 (length bs) (bs ++ drop (length bs) (br_buf b))
  else b.
Definition br_consume (n : nat) (b : BufReader) : BufReader :=
  mkBuf (br_inner b) (min (br_pos b + n) (br_filled b)) (br_filled b) (br_buf b).
Definition br_read (len : nat) (b : BufReader) : list Z * BufReader :=
  if br_is_empty b && (DEFAULT_BUF_SIZE <=? len)%nat then
    let b := discard_buffer b in
    let '(bs, c) := stdin_raw_read len (br_inner b) in (bs, mkBuf c (br_pos b) (br_filled b) (br_buf b))
  else
    let b := fill_buf b in
    let out := take len (br_buffer b) in (out, br_consume (length out) b).

(** * Standard input and output *)

(** One attempt of [read_blocked]: [None] means that the caller yields and tries again.
    The first attempt and those of the loop differ only for an empty buffer. *)
Definition stdin_pass (len : nat) (b : BufReader) : option (list Z) * BufReader :=
  let '(bs, b') := br_read len b in
  ((if (len =? 0)%nat || negb (length bs =? 0)%nat then Some bs else None), b').
(** [read_blocked], with the devices' changes between the attempts. *)
Fixpoint read_blocked (len : nat) (waits : list (C -> C)) (b : BufReader) : option (list Z) * BufReader :=
  match stdin_pass len b with
  | (Some bs, b') => (Some bs, b')
  | (None, b') =>
      match waits with
      | [] => (None, b')
      | w :: waits => read_blocked len waits (mkBuf (w (br_inner b')) (br_pos b') (br_filled b') (br_buf b'))
      end
  end.

(** The objects behind descriptors 0, and 1 and 2. *)
Inductive StdObj := Stdin | Stdout.
Definition std_read (o : StdObj) (len : nat) (waits : list (C -> C)) (b : BufReader)
  : result (option (list Z)) LinuxError * BufReader :=
  match o with
  | Stdin => let '(r, b') := read_blocked len waits b in (Ok r, b')
  | Stdout => (Err EPERM, b)
  end.
Definition std_write (o : StdObj) (buf : list Z) (c : C) : result Z LinuxError * C :=
  match o with
  | Stdin => (Err EPERM, c)
  | Stdout => let '(n, c') := console_write_bytes buf c in (Ok n, c')
  end.
(** [stat]: a character device, readable or writable by owner and group. *)
Definition std_stat (o : StdObj) : Stat :=
  let st_mode := match o with Stdin => Z.lor 0x2000 0x120 | Stdout => Z.lor 0x2000 0x90 end in
  mkStat 1 1 st_mode 0 0 0 0 0.
Definition std_poll (o : StdObj) : bool * bool := (true, true).
End stdio.
Arguments BufReader : clear implicits.

Section stdio_props.
Context {C : Type} `{ConsoleLaws C}.

Lemma write_loop_spec fuel bs c :
  (length bs <= fuel)%nat ->
  exists k, (k <= length bs)%nat /\ printed (write_loop fuel bs c) = printed c ++ take k bs /\
    received (write_loop fuel bs c) = received c /\
    ((forall bs c, bs <> [] -> (0 < (sbi_write bs c).1)%nat) -> k = length bs).
Proof.
  revert bs c. induction fuel as [|fuel IH]; intros bs c Hl.
  { exists 0%nat. destruct bs; [|cbn in Hl; lia]. cbn. by rewrite app_nil_r. }
  cbn [write_loop]. destruct (decide (bs = [])) as [->|Hne]; [exists 0%nat; cbn; by rewrite app_nil_r|].
  unfold try_write_bytes. destruct (sbi_write _ c) as [n c'] eqn:Ew.
  destruct (law_console_write _ _ _ _ Ew) as (Hn & Hp & Hr). rewrite length_take in Hn. rewrite take_take in Hp.
  replace (n `min` (length bs `min` MAX_RW_SIZE))%nat with n in Hp by lia.
  destruct (decide (n = 0)%nat) as [->|Hn0].
  - exists 0%nat. rewrite Hp, Hr. split; [lia|]. split; [done|]. split; [done|]. intros Hacc.
    specialize (Hacc (take (length bs `min` MAX_RW_SIZE) bs) c). rewrite Ew in Hacc. cbn in Hacc.
    destruct bs as [|x bs]; [done|]. exfalso. assert (0 < 0)%nat; [|lia]. apply Hacc. done.
  - destruct (IH (drop n bs) c') as (k & Hk & Hpr & Hre & Hall); [rewrite length_drop; lia|].
    rewrite length_drop in Hk, Hall. exists (n + k)%nat. split; [lia|].
    rewrite Hpr, Hre, Hp, Hr, <- app_assoc. split; [|split; [done|intros Ha; specialize (Hall Ha); lia]].
    do 2 f_equal. by rewrite take_take_drop.
Qed.

(** What raw reads return is what the console received in the meantime. *)
Lemma raw_read_spec fuel len c bs c' :
  raw_read fuel len c = (bs, c') ->
  (length bs <= len)%nat /\ printed c' = printed c /\
  exists new, received c' = received c ++ new /\ bs = cr_to_lf <$> new.
Proof.
  revert len c bs c'. induction fuel as [|fuel IH]; intros len c bs c'.
  { cbn. intros [= <- <-]. split; [cbn; lia|]. split; [done|]. exists []. by rewrite app_nil_r. }
  destruct len as [|len].
  { cbn. intros [= <- <-]. split; [cbn; lia|]. split; [done|]. exists []. by rewrite app_nil_r. }
  cbn [raw_read]. unfold console_read_bytes, read_bytes. destruct (sbi_read _ c) as [rs c1] eqn:Er.
  destruct (law_console_read _ _ _ _ Er) as (Hl & Hre & Hpr).
  destruct (decide (cr_to_lf <$> rs = [])) as [E|_].
  { intros [= <- <-]. apply fmap_nil_inv in E as ->. split; [cbn; lia|]. split; [done|]. by exists []. }
  rewrite length_fmap. destruct (raw_read fuel _ c1) as [rest c2] eqn:E2. intros [= <- <-].
  destruct (IH _ _ _ _ E2) as (Hl2 & Hp2 & new & Hr2 & ->).
  split; [rewrite length_app, !length_fmap in *; lia|]. split; [congruence|].
  exists (rs ++ new). rewrite Hr2, Hre, <- app_assoc. split; [done|]. by rewrite fmap_app.
Qed.

(** The buffer holds bytes that were filled in, between its two cursors. *)
Definition br_wf (b : BufReader C) : Prop :=
  (br_filled b <= DEFAULT_BUF_SIZE)%nat /\ length (br_buf b) = DEFAULT_BUF_SIZE.

Lemma br_empty_buffer (b : BufReader C) : br_is_empty b = true -> br_buffer b = [].
Proof. unfold br_is_empty, br_buffer. intros Hb%Nat.leb_le. apply drop_ge. rewrite length_take. lia. Qed.

Lemma fill_buf_spec (b : BufReader C) :
  br_wf b -> br_wf (fill_buf b) /\
  exists new, received (br_inner (fill_buf b)) = received (br_inner b) ++ new /\
    br_buffer (fill_buf b) = br_buffer b ++ (cr_to_lf <$> new).
Proof.
  intros [W1 W2]. unfold fill_buf. destruct (br_is_empty b) eqn:E.
  - destruct (stdin_raw_read _ _) as [bs c] eqn:Er. destruct (raw_read_spec _ _ _ _ _ Er) as (Hl & _ & new & Hr & Hbs).
    split; [split; cbn; [lia|rewrite length_app, length_drop; lia]|]. exists new. split; [done|].
    rewrite (br_empty_buffer b E), <- Hbs. unfold br_buffer. cbn [br_pos br_filled br_buf].
    rewrite drop_0. by rewrite take_app_length.
  - split; [done|]. exists []. by rewrite !app_nil_r.
Qed.

Lemma br_read_spec len (b : BufReader C) bs b' :
  br_wf b -> br_read len b = (bs, b') ->
  br_wf b' /\ (length bs <= len)%nat /\
  exists new, received (br_inner b') = received (br_inner b) ++ new /\
    bs ++ br_buffer b' = br_buffer b ++ (cr_to_lf <$> new).
Proof.
  intros Hwf. unfold br_read. destruct (br_is_empty b && _) eqn:E.
  - apply andb_true_iff in E as [E _]. destruct Hwf as [W1 W2].
    destruct (stdin_raw_read _ _) as [bs0 c] eqn:Er. intros [= <- <-].
    destruct (raw_read_spec _ _ _ _ _ Er) as (Hl & _ & new & Hr & Hbs).
    split; [split; cbn; lia|]. split; [done|]. exists new. split; [done|].
    rewrite (br_empty_buffer b E), Hbs. unfold br_buffer. cbn. by rewrite app_nil_r.
  - intros [= <- <-]. destruct (fill_buf_spec b Hwf) as ([W1 W2] & new & Hr & Hb).
    split; [split; cbn; lia|]. split; [rewrite length_take; lia|]. exists new. split; [done|].
    rewrite <- Hb. unfold br_buffer at 2. unfold br_consume. cbn [br_pos br_filled br_buf].
    set (b1 := fill_buf b) in *. rewrite length_take.
    assert (length (br_buffer b1) = br_filled b1 - br_pos b1)%nat as Hlen.
    { unfold br_buffer. rewrite length_drop, length_take. lia. }
    replace (drop ((br_pos b1 + len `min` length (br_buffer b1)) `min` br_filled b1)%nat (take (br_filled b1) (br_buf b1)))
      with (drop (len `min` length (br_buffer b1)) (br_buffer b1)).
    + replace (take len (br_buffer b1)) with (take (len `min` length (br_buffer b1)) (br_buffer b1));
        [by rewrite take_drop|]. rewrite <- take_take. by rewrite (take_ge _ (length (br_buffer b1))).
    + unfold br_buffer at 2. rewrite drop_drop.
      destruct (Nat.le_ge_cases (br_pos b1 + len `min` length (br_buffer b1)) (br_filled b1)) as [Hle|Hge].
      * by rewrite (Nat.min_l _ (br_filled b1)).
      * rewrite (Nat.min_r _ (br_filled b1)) by done. rewrite !drop_ge; [done|rewrite length_take; lia..].
Qed.

(** What the device does while a reader waits does not take bytes away. *)
Definition quiet (w : C -> C) : Prop := forall c, received (w c) = received c.

Lemma read_blocked_spec len waits (b : BufReader C) r b' :
  br_wf b -> Forall quiet waits -> read_blocked len waits b = (r, b') ->
  br_wf b' /\ (forall bs, r = Some bs -> (length bs <= len)%nat /\ (len <> 0%nat -> bs <> [])) /\
  exists new, received (br_inner b') = received (br_inner b) ++ new /\
    default [] r ++ br_buffer b' = br_buffer b ++ (cr_to_lf <$> new).
Proof.
  intros Hwf Hq. revert b Hwf. induction waits as [|w waits IH]; intros b Hwf; cbn [read_blocked]; unfold stdin_pass;
    destruct (br_read len b) as [bs b1] eqn:Er; destruct (br_read_spec len b bs b1 Hwf Er) as (Hwf1 & Hl & new & Hr & Hb);
    destruct ((len =? 0)%nat || negb (length bs =? 0)%nat) eqn:E.
  1,3: intros [= <- <-]; split; [done|]; split; [|by exists new];
    intros x [= <-]; split; [done|]; intros Hlen ->; cbn in E; rewrite orb_false_r in E; apply Nat.eqb_eq in E; done.
  all: apply orb_false_iff in E as [_ E%negb_false_iff%Nat.eqb_eq]; apply length_zero_iff_nil in E as ->; cbn [app] in Hb.
  - intros [= <- <-]. split; [done|]. split; [done|]. by exists new.
  - inversion_clear Hq as [|? ? Hw Hws]. intros Hrun.
    destruct (IH Hws (mkBuf (w (br_inner b1)) (br_pos b1) (br_filled b1) (br_buf b1)) Hwf1 Hrun) as (Hwf' & Hs & new' & Hr' & Hb').
    split; [done|]. split; [done|]. exists (new ++ new'). cbn [br_inner] in Hr'. rewrite Hr', Hw, Hr, <- app_assoc.
    split; [done|]. rewrite Hb', fmap_app, app_assoc, <- Hb. done.
Qed.

(** A sequence of reads of the standard input, and all the bytes they returned. *)
Fixpoint stdin_session (reqs : list (nat * list (C -> C))) (b : BufReader C) : list Z * BufReader C :=
  match reqs with
  | [] => ([], b)
  | (len, waits) :: reqs =>
      let '(r, b1) := read_blocked len waits b in
      let '(rest, b2) := stdin_session reqs b1 in (default [] r ++ rest, b2)
  end.

(** No input is lost, duplicated or reordered: whatever the sizes of the reads are, the
    bytes they returned followed by the buffered ones are exactly the bytes the console
    delivered, with carriage returns turned into line feeds. *)
Theorem stdin_stream reqs (c0 : C) out b' :
  Forall (fun q => Forall quiet q.2) reqs -> stdin_session reqs (br_new c0) = (out, b') ->
  exists new, received (br_inner b') = received c0 ++ new /\ out ++ br_buffer b' = cr_to_lf <$> new.
Proof.
  intros Hq. assert (forall b out b', br_wf b -> stdin_session reqs b = (out, b') -> br_wf b' /\
    exists new, received (br_inner b') = received (br_inner b) ++ new /\
      out ++ br_buffer b' = br_buffer b ++ (cr_to_lf <$> new)) as Hgen.
  { clear out b'. induction Hq as [|[len waits] reqs Hw Hq IH]; intros b out b' Hwf; cbn [stdin_session].
    { intros [= <- <-]. split; [done|]. exists []. by rewrite !app_nil_r. }
    destruct (read_blocked len waits b) as [r b1] eqn:E1. destruct (stdin_session reqs b1) as [rest b2] eqn:E2.
    intros [= <- <-]. destruct (read_blocked_spec _ _ _ _ _ Hwf Hw E1) as (Hwf1 & _ & n1 & R1 & B1).
    destruct (IH _ _ _ Hwf1 E2) as (Hwf2 & n2 & R2 & B2). split; [done|]. exists (n1 ++ n2).
    rewrite R2, R1, <- app_assoc. split; [done|]. by rewrite <- app_assoc, B2, fmap_app, !app_assoc, B1. }
  intros Hrun. destruct (Hgen (br_new c0) out b') as (_ & new & H1 & H2); [|done|by exists new].
  split; [apply Nat.le_0_l|apply length_replicate].
Qed.

(** [write] to the standard output always reports that everything was written; what
    reached the console is a prefix, and everything if the console always takes a byte. *)
Theorem stdout_write buf (c : C) :
  exists k c', std_write Stdout buf c = (Ok (Z.of_nat (length buf)), c') /\ (k <= length buf)%nat /\
    printed c' = printed c ++ take k buf /\
    ((forall bs c, bs <> [] -> (0 < (sbi_write bs c).1)%nat) -> printed c' = printed c ++ buf).
Proof.
  destruct (write_loop_spec (length buf) buf c) as (k & Hk & Hp & _ & Hall); [done|].
  exists k, (write_bytes buf c). split; [done|]. split; [done|]. split; [done|].
  intros Ha. unfold write_bytes. by rewrite Hp, (Hall Ha), firstn_all.
Qed.
End stdio_props.

(** A console with a queue of typed bytes and a log of each direction. *)
Module StdioDemo.
Record dev := mkDev { typed : list Z; got : list Z; put : list Z }.
#[export] Instance dev_console : Console dev := {
  sbi_read n c := (take n (typed c), mkDev (drop n (typed c)) (got c ++ take n (typed c)) (put c));
  sbi_write bs c := (length bs, mkDev (typed c) (got c) (put c ++ bs));
}.
#[export] Instance dev_laws : ConsoleLaws dev.
Proof.
  refine {| received := got; printed := put |}.
  - intros n c bs c' [= <- <-]. cbn. rewrite length_take. split; [lia|done].
  - intros bs c n c' [= <- <-]. cbn. by rewrite firstn_all.
Defined.
Definition typing (bs : list Z) (c : dev) : dev := mkDev (typed c ++ bs) (got c) (put c).
End StdioDemo.
Import StdioDemo.

(** A read that waits for the second of two lines. *)
Lemma stdin_stream_witness :
  exists new b', received (C := StdioDemo.dev) (br_inner b') = [] ++ new /\ [108; 115; 10; 97; 10] ++ br_buffer b' = cr_to_lf <$> new.
Proof.
  pose (c0 := StdioDemo.mkDev [108; 115; 13] [] []).
  pose (reqs := [(2%nat, []); (4%nat, []); (8%nat, [StdioDemo.typing []; StdioDemo.typing [97; 13]])]).
  destruct (stdin_stream reqs c0 [108; 115; 10; 97; 10] (stdin_session reqs (br_new c0)).2) as (new & H1 & H2).
  - repeat constructor.
  - vm_compute. reflexivity.
  - exists new, (stdin_session reqs (br_new c0)).2. split; [exact H1|exact H2].
Defined.
