(* ===== verification/Getdents.v ===== *)
(** Directory listings: [sys_getdents64] of src/src/syscall_imp/fs/ctl.rs, the records it
    writes to the user's buffer, and how it finds its position from what the buffer
    holds. The padding behind the fields of a record is not part of the value that is
    stored. *)
From S2P Require Import Prelude.
From S2P Require Import Errno.
From S2P Require Import MemAddr Frames Paging MemorySet AddrSpace UserMem.
From S2P Require Import FdTable.
From S2P Require Import Str.
From S2P Require Import Fs.
From S2P Require Import Ramfs.
From S2P Require Import PosixFs.

(** * Records *)

(** [DirEnt], its constructor, and its fields in memory. *)
Record DirEnt := mkDirEnt { d_ino : Z; d_off : Z; d_reclen : Z; d_type : Z }.
Definition FIXED_SIZE : nat := 19.
(** [FileType], with its codes, from the type of an entry. *)
Inductive FileType := FT_Unknown | FT_Fifo | FT_Chr | FT_Dir | FT_Blk | FT_Reg | FT_Lnk | FT_Socket | FT_Wht.
Definition FileType_code (t : FileType) : Z :=
  match t with
  | FT_Unknown => 0 | FT_Fifo => 1 | FT_Chr => 2 | FT_Dir => 4 | FT_Blk => 6
  | FT_Reg => 8 | FT_Lnk => 10 | FT_Socket => 12 | FT_Wht => 14
  end.
Definition FileType_from (t : VfsNodeType) : FileType :=
  match t with TDir => FT_Dir | TFile => FT_Reg | _ => FT_Unknown end.
Definition DirEnt_new (ino off reclen : Z) (file_type : FileType) : DirEnt :=
  mkDirEnt ino off (as_u16 reclen) (FileType_code file_type).
Definition dirent_bytes (d : DirEnt) : list Z :=
  le_put 8 (d_ino d) ++ le_put 8 (d_off d) ++ le_put 2 (d_reclen d) ++ le_put 1 (d_type d).
(** The record at an offset, as it is read back. *)
Definition dirent_at (buf : list Z) (off : nat) : DirEnt :=
  let field a n := le_get (take n (drop (off + a) buf)) in
  mkDirEnt (field 0 8)%nat (as_i64 (field 8 8)%nat) (field 16 2)%nat (field 18 1)%nat.

(** [DirBuffer]. *)
Record DirBuffer := mkDirBuffer { db_buf : list Z; db_offset : nat }.
Definition remaining_space (b : DirBuffer) : nat := length (db_buf b) - db_offset b.
Definition can_fit_entry (entry_size : nat) (b : DirBuffer) : bool := (entry_size <=? remaining_space b)%nat.
(** Stores at an offset of the buffer. *)
Definition put_at (off : nat) (bs buf : list Z) : list Z := take off buf ++ bs ++ drop (off + length bs) buf.
Definition write_entry (d : DirEnt) (name : list Z) (b : DirBuffer) : option DirBuffer :=
  if can_fit_entry (Z.to_nat (d_reclen d)) b then
    Some (mkDirBuffer (put_at (db_offset b + FIXED_SIZE) name (put_at (db_offset b) (dirent_bytes d) (db_buf b)))
            (db_offset b + Z.to_nat (d_reclen d)))
  else None.

(** * The position *)

(** The scan of the records left by the last call: the offset behind them and their
    number; a record that does not give its own end as [d_off] fails an assertion. *)
Fixpoint scan (fuel : nat) (buf : list Z) (buf_offset count : nat) : outcome (nat * nat) :=
  match fuel with
  | O => Panic
  | S fuel =>
      if (buf_offset + FIXED_SIZE <=? length buf)%nat then
        let d := dirent_at buf buf_offset in
        if d_reclen d =? 0 then Ret (buf_offset, count)
        else
          let buf_offset := (buf_offset + Z.to_nat (d_reclen d))%nat in
          if d_off d =? Z.of_nat buf_offset then scan fuel buf buf_offset (S count) else Panic
      else Ret (buf_offset, count)
  end.
(** Every record advances by at least a byte, so the length is fuel enough. *)
Definition find_position (buf : list Z) : outcome (nat * nat) := scan (S (length buf)) buf 0 0.

(** * The system call *)

Section getdents.
Context {V N F : Type} `{Vfs V N F}.

(** The size of the record of an entry. *)
Definition entry_size (e : VfsDirEntry) : nat := FIXED_SIZE + (length (de_name e) + 1).

(** [ReadDir::next]; the fuel covers a whole buffer of [.] and [..] entries and the next
    one. *)
Definition next_entry (rd : ReadDir N) : FsM (V := V) (N := N) (F := F) (option (result VfsDirEntry AxError) * ReadDir N) :=
  read_dir_next (length (rd_buf rd) + 34) rd.

(** The loop over the entries of the directory: errors are dropped ([flatten]), the first
    [count] entries are skipped, and the loop ends when a record does not fit. *)
Fixpoint entries_loop (fuel count : nat) (rd : ReadDir N) (b : DirBuffer) (total_size current_offset : Z)
  : FsM (V := V) (N := N) (F := F) (DirBuffer * Z * Z) :=
  match fuel with
  | O => panic
  | S fuel =>
      r ← next_entry rd;
      match r with
      | (None, _) => mret (b, total_size, current_offset)
      | (Some (Err _), rd) => entries_loop fuel count rd b total_size current_offset
      | (Some (Ok e), rd) =>
          match count with
          | S count => entries_loop fuel count rd b total_size current_offset
          | O =>
              let name_bytes := str_bytes (de_name e) ++ [0] in
              let size := Z.of_nat FIXED_SIZE + Z.of_nat (length name_bytes) in
              let current_offset := current_offset + size in
              let dirent := DirEnt_new 1 current_offset size (FileType_from (de_ty e)) in
              match write_entry dirent name_bytes b with
              | None => mret (b, total_size, current_offset)
              | Some b => entries_loop fuel O rd b (total_size + size) current_offset
              end
          end
      end
  end.

(** The closing record, when there is room for one. *)
Definition write_terminal (total_size current_offset : Z) (b : DirBuffer) : DirBuffer :=
  if (0 <? total_size) && can_fit_entry FIXED_SIZE b
  then default b (write_entry (DirEnt_new 1 current_offset 0 FT_Reg) [] b) else b.

(** The part of the call that works on the buffer [buf] of the user. *)
Definition getdents_fill (fuel : nat) (path : str) (buf : list Z) : FsM (V := V) (N := N) (F := F) (Z * list Z) :=
  match find_position buf with
  | Panic => panic
  | Ret (initial_offset, count) =>
      r ← attempt (read_dir_new path);
      match r with
      | Err _ => mret (code ENOENT, buf)
      | Ok rd =>
          res ← entries_loop fuel count rd (mkDirBuffer buf 0) (Z.of_nat initial_offset) (Z.of_nat initial_offset);
          let '(b, total_size, current_offset) := res in
          mret (total_size, db_buf (write_terminal total_size current_offset b))
      end
  end.

Context {O FA : Type} `{FrameAllocator FA}.
Notation PxS := (Px (V := V) (N := N) (F := F) (O := O)).

(** The user's buffer through the page table. *)
Definition load_user (sp : AddrSpace) (m : Mach FA) (va : Z) (len : nat) : option (list Z) :=
  mapM (fun i => user_byte (as_pt sp) m (va + Z.of_nat i)) (seq 0 len).
Definition store_user (sp : AddrSpace) (va : Z) (bs : list Z) (m : Mach FA) : Mach FA :=
  mkMach (m_fa m) (snd (foldl (fun '(i, mem) b =>
    (i + 1, match kaddr (as_pt sp) (va + i) with Some k => fun a => if a =? k then b else mem a | None => mem end))
    (0, m_mem m) bs)).

(** [sys_getdents64]; a page of the buffer that is not there is a fault of the kernel. *)
Definition sys_getdents64 (fuel : nat) (fd buf : Z) (len : nat) (s : PxS * (AddrSpace * Mach FA))
  : outcome (Z * (PxS * (AddrSpace * Mach FA))) :=
  if (len <? FIXED_SIZE)%nat then Ret (-1, s)
  else match alloc_for_lazy buf (Z.of_nat len) s.2 with
       | Panic => Panic
       | Ret (Err _, mm) => Ret (-1, (s.1, mm))
       | Ret (Ok _, (sp, m)) =>
           match dir_from_fd fd s.1 with
           | Panic => Panic
           | Ret (Err _, px) => Ret (-1, (px, (sp, m)))
           | Ret (Ok (_, path), px) =>
               match load_user sp m buf len with
               | None => Panic
               | Some bytes =>
                   match getdents_fill fuel path bytes (px_fs px) with
                   | Ret (Ok (n, bytes'), fs) => Ret (n, (set_fs fs px, (sp, store_user sp buf bytes' m)))
                   | _ => Panic
                   end
               end
           end
       end.
End getdents.

(** * What the records say *)

Lemma length_dirent_bytes d : length (dirent_bytes d) = FIXED_SIZE.
Proof. unfold dirent_bytes. by rewrite !length_app, !length_le_put. Qed.

(** A record that is in range reads back as it was written. *)
Definition dirent_ok (d : DirEnt) : Prop :=
  0 <= d_ino d < 2 ^ 64 /\ 0 <= d_off d < 2 ^ 63 /\ 0 <= d_reclen d < 2 ^ 16 /\ 0 <= d_type d < 2 ^ 8.

Lemma dirent_at_bytes d rest : dirent_ok d -> dirent_at (dirent_bytes d ++ rest) 0 = d.
Proof.
  intros (H1 & H2 & H3 & H4). unfold dirent_at, dirent_bytes. rewrite <- !app_assoc. cbn [Nat.add].
  assert (forall a b : list Z, forall n, length a = n -> take n (a ++ b) = a) as Ht.
  { intros a b n <-. apply take_app_length. }
  assert (forall a b : list Z, forall n m, length a = n -> drop (n + m) (a ++ b) = drop m b) as Hd.
  { intros a b n m <-. rewrite drop_app_ge by lia. f_equal. lia. }
  rewrite drop_0, (Ht (le_put 8 _)) by apply length_le_put.
  rewrite (Hd (le_put 8 (d_ino d)) _ 8%nat 0%nat), drop_0, (Ht (le_put 8 (d_off d))) by apply length_le_put.
  rewrite (Hd (le_put 8 (d_ino d)) _ 8%nat 8%nat), (Hd (le_put 8 (d_off d)) _ 8%nat 0%nat), drop_0,
    (Ht (le_put 2 _)) by apply length_le_put.
  rewrite (Hd (le_put 8 (d_ino d)) _ 8%nat 10%nat), (Hd (le_put 8 (d_off d)) _ 8%nat 2%nat),
    (Hd (le_put 2 _) _ 2%nat 0%nat), drop_0, (Ht (le_put 1 _)) by apply length_le_put.
  rewrite !le_get_put. cbn [Z.of_nat Pos.of_succ_nat Pos.succ Z.mul Pos.mul Pos.add].
  rewrite (Z.mod_small (d_ino d)), (Z.mod_small (d_off d)), (Z.mod_small (d_reclen d)), (Z.mod_small (d_type d)) by lia.
  rewrite as_i64_small by (change (2 ^ 63) with 9223372036854775808 in H2; lia). by destruct d.
Qed.

Lemma dirent_at_app pre buf off : dirent_at (pre ++ buf) (length pre + off) = dirent_at buf off.
Proof.
  unfold dirent_at. rewrite <- !Nat.add_assoc.
  assert (forall m, drop (length pre + m) (pre ++ buf) = drop m buf) as Hd.
  { intros m. rewrite drop_app_ge by lia. f_equal. lia. }
  by rewrite !Hd.
Qed.

Lemma dirent_at_app0 pre buf : dirent_at (pre ++ buf) (length pre) = dirent_at buf 0.
Proof. by rewrite <- (dirent_at_app pre buf 0), Nat.add_0_r. Qed.

(** The records of a list of entries that starts at offset [cur]. *)
Definition record (e : VfsDirEntry) (cur : Z) : list Z :=
  let size := Z.of_nat (entry_size e) in
  dirent_bytes (DirEnt_new 1 (cur + size) size (FileType_from (de_ty e))) ++ str_bytes (de_name e) ++ [0].
Fixpoint records (cur : Z) (es : list VfsDirEntry) : list Z :=
  match es with
  | [] => []
  | e :: es => record e cur ++ records (cur + Z.of_nat (entry_size e)) es
  end.
Definition sizes (es : list VfsDirEntry) : nat := sum_list (entry_size <$> es).

Lemma length_record e cur : length (record e cur) = entry_size e.
Proof. unfold record. rewrite !length_app, length_dirent_bytes, length_str_bytes. done. Qed.
Lemma length_records cur es : length (records cur es) = sizes es.
Proof.
  revert cur. induction es as [|e es IH]; intros cur; [done|].
  cbn [records]. by rewrite length_app, length_record, IH.
Qed.
Lemma records_app cur es es' : records cur (es ++ es') = records cur es ++ records (cur + Z.of_nat (sizes es)) es'.
Proof.
  revert cur. induction es as [|e es IH]; intros cur; [cbn; by rewrite Z.add_0_r|].
  cbn [records app]. rewrite IH, app_assoc. do 2 f_equal. unfold sizes. cbn. lia.
Qed.

(** What a program reads from the records: names and types, by stepping over them. *)
Fixpoint parse (fuel : nat) (l : list Z) : list (list Z * Z) :=
  match fuel with
  | O => []
  | S fuel =>
      if (FIXED_SIZE <=? length l)%nat then
        let d := dirent_at l 0 in
        let body := drop FIXED_SIZE (take (Z.to_nat (d_reclen d)) l) in
        (take (length body - 1) body, d_type d) :: parse fuel (drop (Z.to_nat (d_reclen d)) l)
      else []
  end.
Definition shown (e : VfsDirEntry) : list Z * Z := (str_bytes (de_name e), FileType_code (FileType_from (de_ty e))).

(** Names that fit a record. *)
Definition name_fits (e : VfsDirEntry) : Prop := Z.of_nat (entry_size e) < 65536.

Lemma entry_dirent_ok e cur :
  name_fits e -> 0 <= cur -> cur + Z.of_nat (entry_size e) < 2 ^ 63 ->
  dirent_ok (DirEnt_new 1 (cur + Z.of_nat (entry_size e)) (Z.of_nat (entry_size e)) (FileType_from (de_ty e))) /\
  as_u16 (Z.of_nat (entry_size e)) = Z.of_nat (entry_size e).
Proof.
  unfold name_fits. intros Hn Hc Hs. assert (as_u16 (Z.of_nat (entry_size e)) = Z.of_nat (entry_size e)) as E.
  { unfold as_u16, as_unsigned. apply Z.mod_small. change (2 ^ 16) with 65536. lia. }
  split; [|done]. unfold dirent_ok, DirEnt_new. cbn [d_ino d_off d_reclen d_type]. rewrite E.
  change (2 ^ 16) with 65536. change (2 ^ 64) with USIZE. change (2 ^ 8) with 256.
  split_and!; try lia; destruct (de_ty e); cbn; lia.
Qed.

Lemma record_at e cur rest :
  let d := DirEnt_new 1 (cur + Z.of_nat (entry_size e)) (Z.of_nat (entry_size e)) (FileType_from (de_ty e)) in
  dirent_ok d -> dirent_at (record e cur ++ rest) 0 = d.
Proof. intros d Hok. unfold record. rewrite <- !app_assoc. by apply dirent_at_bytes. Qed.

Lemma parse_records cur es n :
  Forall name_fits es -> 0 <= cur -> cur + Z.of_nat (sizes es) < 2 ^ 63 -> (length es < n)%nat ->
  parse n (records cur es) = shown <$> es.
Proof.
  intros Hf. revert cur n. induction Hf as [|e es He Hf IH]; intros cur n Hc Hs Hn.
  { destruct n; [lia|]. done. }
  destruct n as [|n]; [cbn in Hn; lia|]. change (sizes (e :: es)) with (entry_size e + sizes es)%nat in Hs.
  destruct (entry_dirent_ok e cur He Hc ltac:(lia)) as [Hok Hu]. cbn [parse records fmap list_fmap].
  rewrite length_app, length_record. replace (FIXED_SIZE <=? entry_size e + _)%nat with true
    by (symmetry; apply Nat.leb_le; unfold entry_size; lia).
  rewrite (record_at e cur _ Hok). cbn [DirEnt_new d_reclen d_type]. rewrite Hu, Nat2Z.id.
  rewrite (drop_app_length' (record e cur)) by (by rewrite length_record).
  rewrite IH; [|lia|lia|cbn in Hn; lia]. f_equal.
  rewrite (take_app_length' (record e cur)) by (by rewrite length_record).
  unfold record. rewrite drop_app_length' by (by rewrite length_dirent_bytes).
  rewrite length_app. cbn [length]. rewrite Nat.add_sub, take_app_length. done.
Qed.

(** ** Writing *)

Lemma length_put_at off bs buf : (off + length bs <= length buf)%nat -> length (put_at off bs buf) = length buf.
Proof. intros Hl. unfold put_at. rewrite !length_app, length_take, length_drop. lia. Qed.
Lemma take_put_at off bs buf : (off <= length buf)%nat -> take (off + length bs) (put_at off bs buf) = take off buf ++ bs.
Proof.
  intros Hl. unfold put_at. rewrite app_assoc, take_app_length'; [done|]. rewrite length_app, length_take. lia.
Qed.
Lemma drop_put_at off bs buf n : (off <= length buf)%nat -> (off + length bs <= n)%nat -> drop n (put_at off bs buf) = drop n buf.
Proof.
  intros Hl Hn. unfold put_at. rewrite app_assoc, drop_app_ge by (rewrite length_app, length_take; lia).
  rewrite drop_drop. f_equal. rewrite length_app, length_take. lia.
Qed.
Lemma put_at_put_at off a b buf :
  (off <= length buf)%nat -> put_at (off + length a) b (put_at off a buf) = put_at off (a ++ b) buf.
Proof.
  intros Hl. unfold put_at at 1. rewrite take_put_at, drop_put_at by (done || lia).
  unfold put_at. rewrite length_app, <- !app_assoc, Nat.add_assoc. done.
Qed.

Section getdents_props.
Context {V N F : Type} `{Vfs V N F}.
Notation St := (Fs V N F).

Lemma write_entry_record e cur b :
  name_fits e -> (db_offset b <= length (db_buf b))%nat ->
  write_entry (DirEnt_new 1 (cur + Z.of_nat (entry_size e)) (Z.of_nat (entry_size e)) (FileType_from (de_ty e)))
    (str_bytes (de_name e) ++ [0]) b =
  if (db_offset b + entry_size e <=? length (db_buf b))%nat
  then Some (mkDirBuffer (put_at (db_offset b) (record e cur) (db_buf b)) (db_offset b + entry_size e)) else None.
Proof.
  intros Hn Ho. unfold write_entry, can_fit_entry, remaining_space. cbn [DirEnt_new d_reclen].
  replace (as_u16 (Z.of_nat (entry_size e))) with (Z.of_nat (entry_size e))
    by (symmetry; unfold as_u16, as_unsigned; apply Z.mod_small; unfold name_fits in Hn; change (2 ^ 16) with 65536; lia).
  rewrite Nat2Z.id. destruct (Nat.leb_spec (entry_size e) (length (db_buf b) - db_offset b)),
    (Nat.leb_spec (db_offset b + entry_size e) (length (db_buf b))); try lia; [|done].
  do 2 f_equal. unfold record. rewrite <- (put_at_put_at (db_offset b) (dirent_bytes _)) by done.
  by rewrite length_dirent_bytes.
Qed.

(** The loop, on the list of entries it goes through. *)
Fixpoint fill_list (es : list VfsDirEntry) (b : DirBuffer) (total cur : Z) : DirBuffer * Z * Z :=
  match es with
  | [] => (b, total, cur)
  | e :: es =>
      let size := Z.of_nat (entry_size e) in
      match write_entry (DirEnt_new 1 (cur + size) size (FileType_from (de_ty e))) (str_bytes (de_name e) ++ [0]) b with
      | None => (b, total, cur + size)
      | Some b => fill_list es b (total + size) (cur + size)
      end
  end.

(** The iterator yields these entries in [n] calls, dropping errors. *)
Inductive yields (s : St) : nat -> ReadDir N -> list VfsDirEntry -> Prop :=
| yields_end rd rd' : next_entry rd s = Ret (Ok (None, rd'), s) -> yields s 0 rd []
| yields_err n rd rd' e es :
    next_entry rd s = Ret (Ok (Some (Err e), rd'), s) -> yields s n rd' es -> yields s (S n) rd es
| yields_entry n rd rd' e es :
    next_entry rd s = Ret (Ok (Some (Ok e), rd'), s) -> yields s n rd' es -> yields s (S n) rd (e :: es).

Lemma entries_loop_list s n rd es m count b total cur :
  yields s n rd es -> (n < m)%nat ->
  entries_loop m count rd b total cur s = Ret (Ok (fill_list (drop count es) b total cur), s).
Proof.
  intros Hy. revert m count b total cur. induction Hy as [rd rd' E|n rd rd' e es E Hy IH|n rd rd' e es E Hy IH];
    intros m count b total cur Hm; (destruct m as [|m]; [lia|]); cbn [entries_loop]; unfold_M; rewrite E.
  - by rewrite drop_nil.
  - apply IH. lia.
  - destruct count as [|count]; [|apply IH; lia]. rewrite drop_0. cbn [fill_list].
    replace (Z.of_nat FIXED_SIZE + Z.of_nat (length (str_bytes (de_name e) ++ [0]))) with (Z.of_nat (entry_size e))
      by (rewrite length_app, length_str_bytes; unfold entry_size; cbn [length]; lia).
    destruct (write_entry _ _ b) as [b'|]; [|done]. rewrite IH, drop_0 by lia. done.
Qed.

Lemma sizes_cons e es : sizes (e :: es) = (entry_size e + sizes es)%nat.
Proof. done. Qed.

Lemma sizes_app es es' : sizes (es ++ es') = (sizes es + sizes es')%nat.
Proof. unfold sizes. by rewrite fmap_app, sum_list_with_app || (induction es as [|e es IH]; [done|cbn in *; lia]). Qed.

(** The loop writes the records of as many entries as fit. *)
Lemma fill_list_spec es b total cur :
  Forall name_fits es -> (db_offset b <= length (db_buf b))%nat ->
  exists k b' cur', fill_list es b total cur = (b', total + Z.of_nat (sizes (take k es)), cur') /\
    (k <= length es)%nat /\
    db_buf b' = put_at (db_offset b) (records cur (take k es)) (db_buf b) /\
    db_offset b' = (db_offset b + sizes (take k es))%nat /\ (db_offset b' <= length (db_buf b))%nat /\
    cur' = cur + Z.of_nat (sizes (take (S k) es)) /\
    (forall e, es !! k = Some e -> (length (db_buf b) < db_offset b' + entry_size e)%nat).
Proof.
  intros Hf. revert b total cur. induction Hf as [|e es He Hf IH]; intros b total cur Ho.
  { exists 0%nat, b, cur. cbn. rewrite Z.add_0_r, Nat.add_0_r. split_and!; try (done || lia).
    unfold put_at. cbn. by rewrite Nat.add_0_r, take_drop. }
  cbn [fill_list]. rewrite write_entry_record by done.
  destruct (Nat.leb_spec (db_offset b + entry_size e) (length (db_buf b))) as [Hfit|Hno].
  - set (b1 := mkDirBuffer _ _).
    assert (length (db_buf b1) = length (db_buf b)) as Hlen by (unfold b1; cbn [db_buf]; apply length_put_at; by rewrite length_record).
    destruct (IH b1 (total + Z.of_nat (entry_size e)) (cur + Z.of_nat (entry_size e))) as (k & b' & cur' & -> & K1 & K2 & K3 & K4 & K5 & K6).
    { rewrite Hlen. done. }
    exists (S k), b', cur'. cbn [firstn]. rewrite sizes_cons. split_and!.
    + f_equal. f_equal. lia.
    + cbn. lia.
    + rewrite K2. cbn [b1 db_buf db_offset records take]. rewrite <- put_at_put_at by done. by rewrite length_record.
    + rewrite K3. cbn [b1 db_offset]. lia.
    + lia.
    + rewrite K5. change (take (S (S k)) (e :: es)) with (e :: take (S k) es). rewrite sizes_cons. lia.
    + intros e' He'. rewrite <- Hlen. by apply K6.
  - exists 0%nat, b, (cur + Z.of_nat (entry_size e)). cbn [firstn]. change (sizes []) with 0%nat.
    rewrite Z.add_0_r, Nat.add_0_r. split_and!; try done.
    + cbn. lia.
    + unfold put_at. cbn. by rewrite Nat.add_0_r, take_drop.
    + rewrite take_0, sizes_cons. change (sizes []) with 0%nat. lia.
    + intros e' [= <-]. done.
Qed.

(** The scan finds the end of the records that are there. *)
Lemma scan_records fuel pre es rest count :
  Forall name_fits es -> Z.of_nat (length pre + sizes es) < 2 ^ 63 -> (length es < fuel)%nat ->
  ((FIXED_SIZE <= length rest)%nat -> d_reclen (dirent_at rest 0) = 0) ->
  scan fuel (pre ++ records (Z.of_nat (length pre)) es ++ rest) (length pre) count
    = Ret ((length pre + sizes es)%nat, (count + length es)%nat).
Proof.
  intros Hf. revert fuel pre count. induction Hf as [|e es He Hf IH]; intros fuel pre count Hl Hfu Hr.
  - destruct fuel as [|fuel]; [lia|]. cbn [scan records app]. rewrite length_app.
    rewrite dirent_at_app0. change (sizes []) with 0%nat. cbn [length].
    rewrite !Nat.add_0_r. destruct (Nat.leb_spec (length pre + FIXED_SIZE) (length pre + length rest)); [|done].
    by rewrite Hr by lia.
  - destruct fuel as [|fuel]; [lia|]. rewrite sizes_cons in Hl.
    destruct (entry_dirent_ok e (Z.of_nat (length pre)) He ltac:(lia) ltac:(lia)) as [Hok Hu].
    cbn [scan records]. rewrite <- app_assoc. rewrite (proj2 (Nat.leb_le _ _)).
    2: { rewrite !length_app, length_record. unfold entry_size. lia. }
    rewrite dirent_at_app0, (record_at e _ _ Hok).
    cbn [DirEnt_new d_reclen d_off]. rewrite Hu, Nat2Z.id.
    destruct (Z.eqb_spec (Z.of_nat (entry_size e)) 0) as [E|_]; [unfold entry_size, FIXED_SIZE in E; lia|].
    rewrite <- Nat2Z.inj_add, Z.eqb_refl.
    rewrite app_assoc, <- (length_record e (Z.of_nat (length pre))), <- length_app.
    rewrite (IH fuel (pre ++ record e (Z.of_nat (length pre))) (S count)).
    + rewrite length_app, length_record, sizes_cons. cbn [length]. do 2 f_equal; lia.
    + rewrite length_app, length_record. lia.
    + cbn in Hfu. lia.
    + done.
Qed.

(** The closing record ends the scan, and leaves the records before it alone. *)
Lemma write_terminal_spec total cur b :
  0 <= cur < 2 ^ 63 -> (db_offset b <= length (db_buf b))%nat ->
  exists rest, db_buf (write_terminal total cur b) = take (db_offset b) (db_buf b) ++ rest /\
    length rest = (length (db_buf b) - db_offset b)%nat /\
    (0 < total -> (FIXED_SIZE <= length rest)%nat -> d_reclen (dirent_at rest 0) = 0).
Proof.
  intros Hc Ho. unfold write_terminal. destruct (Z.ltb_spec 0 total) as [Ht|Ht]; cbn [andb].
  2: { exists (drop (db_offset b) (db_buf b)). rewrite take_drop, length_drop. split_and!; try done. lia. }
  destruct (can_fit_entry FIXED_SIZE b) eqn:Hfit; unfold can_fit_entry, remaining_space in Hfit.
  - apply Nat.leb_le in Hfit. unfold write_entry. cbn [can_fit_entry DirEnt_new d_reclen].
    change (Z.to_nat (as_u16 0)) with 0%nat. cbn [can_fit_entry Nat.leb default db_buf].
    set (d := DirEnt_new 1 cur 0 FT_Reg).
    exists (dirent_bytes d ++ drop (db_offset b + FIXED_SIZE) (db_buf b)).
    assert (dirent_ok d) as Hd.
    { unfold dirent_ok, d, DirEnt_new. cbn [d_ino d_off d_reclen d_type]. change (as_u16 0) with 0.
      change (2 ^ 64) with USIZE. change (2 ^ 16) with 65536. change (2 ^ 8) with 256. cbn. lia. }
    split_and!.
    + unfold can_fit_entry. cbn [Nat.leb default db_buf]. unfold put_at at 1. cbn [length app]. rewrite Nat.add_0_r, take_drop.
      unfold put_at. by rewrite length_dirent_bytes.
    + rewrite length_app, length_dirent_bytes, length_drop. lia.
    + intros _ _. by rewrite dirent_at_bytes.
  - apply Nat.leb_gt in Hfit. exists (drop (db_offset b) (db_buf b)). rewrite take_drop, length_drop.
    split_and!; try done. lia.
Qed.

(** A call on a buffer without records. *)
Lemma getdents_first path buf rd (s : St) n es :
  find_position buf = Ret (0%nat, 0%nat) -> read_dir_new path s = Ret (Ok rd, s) -> yields s n rd es ->
  Forall name_fits es -> Z.of_nat (length buf) + 65536 < 2 ^ 63 ->
  exists k rest, getdents_fill (S n) path buf s
      = Ret (Ok (Z.of_nat (sizes (take k es)), records 0 (take k es) ++ rest), s) /\
    (k <= length es)%nat /\ (sizes (take k es) + length rest)%nat = length buf /\
    (forall e, es !! k = Some e -> (length rest < entry_size e)%nat) /\
    (k = length es -> es <> [] -> (FIXED_SIZE <= length rest)%nat -> d_reclen (dirent_at rest 0) = 0).
Proof.
  intros Hp Hrd Hy Hf Hl. unfold getdents_fill. rewrite Hp. unfold_M. rewrite Hrd.
  rewrite (entries_loop_list s n rd es) by (done || lia). rewrite drop_0. change (Z.of_nat 0) with 0.
  destruct (fill_list_spec es (mkDirBuffer buf 0) 0 0 Hf ltac:(cbn; lia)) as (k & b & cur & -> & K1 & K2 & K3 & K4 & K5 & K6).
  cbn [db_buf db_offset] in K2, K3, K4, K6. rewrite Nat.add_0_l in K3. rewrite Z.add_0_l.
  assert (put_at 0 (records 0 (take k es)) buf = records 0 (take k es) ++ drop (sizes (take k es)) buf) as Hput.
  { unfold put_at. cbn [firstn app]. by rewrite Nat.add_0_l, length_records. }
  assert (length (db_buf b) = length buf) as Hbl.
  { rewrite K2, Hput, length_app, length_records, length_drop. lia. }
  destruct (write_terminal_spec (Z.of_nat (sizes (take k es))) cur b) as (rest & -> & R2 & R3); [|lia|].
  { rewrite K5. destruct (es !! k) as [e|] eqn:He.
    - rewrite (take_S_r _ _ _ He), sizes_app. change (sizes [e]) with (entry_size e + 0)%nat.
      pose proof (Forall_lookup_1 _ _ _ _ Hf He) as Hne. unfold name_fits in Hne. lia.
    - apply lookup_ge_None in He. rewrite !take_ge in * by lia. lia. }
  exists k, rest. rewrite K3, K2, Hput, take_app_length' by (by rewrite length_records). split_and!; try done.
  - lia.
  - intros e He. specialize (K6 e He). lia.
  - intros -> Hne. apply R3. rewrite take_ge by done. destruct es as [|e es]; [done|].
    rewrite sizes_cons. unfold entry_size, FIXED_SIZE. lia.
Qed.

(** A listing into a fresh buffer is faithful: the call returns the size of the records of
    as many entries as fit, in the order of the directory; stepping over the records
    gives back exactly the names and types of these entries; and the next entry, if
    there is one, would not have fitted. *)
Theorem getdents_lists path buf rd (s : St) n es :
  find_position buf = Ret (0%nat, 0%nat) -> read_dir_new path s = Ret (Ok rd, s) -> yields s n rd es ->
  Forall name_fits es -> Z.of_nat (length buf) + 65536 < 2 ^ 63 ->
  exists k buf', getdents_fill (S n) path buf s = Ret (Ok (Z.of_nat (sizes (take k es)), buf'), s) /\
    (k <= length es)%nat /\ length buf' = length buf /\
    parse (S (length es)) (take (sizes (take k es)) buf') = shown <$> take k es /\
    (forall e, es !! k = Some e -> (length buf < sizes (take k es) + entry_size e)%nat).
Proof.
  intros Hp Hrd Hy Hf Hl. destruct (getdents_first path buf rd s n es Hp Hrd Hy Hf Hl) as (k & rest & E & K1 & K2 & K3 & _).
  exists k, (records 0 (take k es) ++ rest). split; [done|]. split; [done|].
  split; [rewrite length_app, length_records; lia|]. split.
  - rewrite take_app_length' by (by rewrite length_records). apply parse_records; [by apply Forall_take|lia|lia|].
    rewrite length_take. lia.
  - intros e He. specialize (K3 e He). lia.
Qed.

(** The end of a directory is never reported: a second call with the same buffer, after
    one that listed all entries, finds its position behind the records of the first and
    returns their size once more, not 0, and makes the first record one of length 0. *)
Theorem getdents_no_end path buf rd (s : St) n es :
  find_position buf = Ret (0%nat, 0%nat) -> read_dir_new path s = Ret (Ok rd, s) -> yields s n rd es ->
  Forall name_fits es -> Z.of_nat (length buf) + 65536 < 2 ^ 63 -> es <> [] -> (sizes es <= length buf)%nat ->
  exists buf1 buf2, getdents_fill (S n) path buf s = Ret (Ok (Z.of_nat (sizes es), buf1), s) /\
    getdents_fill (S n) path buf1 s = Ret (Ok (Z.of_nat (sizes es), buf2), s) /\
    0 < Z.of_nat (sizes es) /\ d_reclen (dirent_at buf2 0) = 0.
Proof.
  intros Hp Hrd Hy Hf Hl Hne Hfit.
  destruct (getdents_first path buf rd s n es Hp Hrd Hy Hf Hl) as (k & rest & E & K1 & K2 & K3 & K4).
  assert (k = length es) as ->.
  { destruct (decide (k = length es)) as [|Hk]; [done|]. exfalso.
    destruct (lookup_lt_is_Some_2 es k) as [e He]; [lia|]. specialize (K3 e He).
    rewrite <- (take_drop k es), sizes_app, (drop_S _ _ _ He), sizes_cons in Hfit. lia. }
  rewrite take_ge in * by done. specialize (K4 eq_refl Hne).
  set (buf1 := records 0 es ++ rest) in *. assert (length buf1 = length buf) as Hb1.
  { unfold buf1. rewrite length_app, length_records. lia. }
  assert (20 <= sizes es)%nat as Hpos.
  { destruct es as [|e es]; [done|]. rewrite sizes_cons. unfold entry_size, FIXED_SIZE. lia. }
  assert (find_position buf1 = Ret (sizes es, length es)) as Hp1.
  { unfold find_position. rewrite Hb1. apply (scan_records (S (length buf)) [] es rest 0); [done|cbn; lia| |done].
    enough (length es <= sizes es)%nat by lia. clear. induction es as [|e es IH]; [done|].
    rewrite sizes_cons. unfold entry_size. cbn. lia. }
  eexists buf1, _. split; [done|]. split; [|split; [lia|]].
  - unfold getdents_fill. rewrite Hp1. unfold_M. rewrite Hrd, (entries_loop_list s n rd es) by (done || lia).
    rewrite drop_ge by done. reflexivity.
  - destruct (write_terminal_spec (Z.of_nat (sizes es)) (Z.of_nat (sizes es)) (mkDirBuffer buf1 0)) as (r2 & -> & R2 & R3);
      [lia|cbn; lia|]. cbn [db_offset db_buf firstn app] in *. apply R3; unfold FIXED_SIZE; lia.
Qed.
End getdents_props.

(** The listing of /tmp with one file. *)
Module GetdentsDemo.
Definition buf : list Z := replicate 64 0.
Definition no_dir : ReadDir Z := mkReadDir (mkDirectory NRoot 0 0) 0 [] true.
Definition rd : ReadDir Z :=
  match read_dir_new ($"/tmp") FsDemo.made with Ret (Ok rd, _) => rd | _ => no_dir end.
Definition rd1 : ReadDir Z :=
  match next_entry (F := Z) rd FsDemo.made with Ret (Ok (_, rd), _) => rd | _ => no_dir end.
Definition rd2 : ReadDir Z :=
  match next_entry (F := Z) rd1 FsDemo.made with Ret (Ok (_, rd), _) => rd | _ => no_dir end.
Definition es : list VfsDirEntry := [mkDirEntry ($"log") TFile].
End GetdentsDemo.

Lemma demo_yields : yields FsDemo.made 1 GetdentsDemo.rd GetdentsDemo.es.
Proof.
  apply yields_entry with (rd' := GetdentsDemo.rd1); [vm_compute; reflexivity|].
  apply yields_end with (rd' := GetdentsDemo.rd2). vm_compute. reflexivity.
Qed.

Lemma getdents_lists_witness :
  exists k buf', getdents_fill 2 ($"/tmp") GetdentsDemo.buf FsDemo.made
      = Ret (Ok (Z.of_nat (sizes (take k GetdentsDemo.es)), buf'), FsDemo.made) /\
    parse 2 (take (sizes (take k GetdentsDemo.es)) buf') = shown <$> take k GetdentsDemo.es.
Proof.
  destruct (getdents_lists ($"/tmp") GetdentsDemo.buf GetdentsDemo.rd FsDemo.made 1 GetdentsDemo.es)
    as (k & buf' & H1 & _ & _ & H2 & _).
  - vm_compute. reflexivity.
  - vm_compute. reflexivity.
  - exact demo_yields.
  - repeat constructor.
  - reflexivity.
  - exists k, buf'. exact (conj H1 H2).
Defined.

Lemma getdents_no_end_witness :
  exists buf1 buf2, getdents_fill 2 ($"/tmp") GetdentsDemo.buf FsDemo.made = Ret (Ok (23, buf1), FsDemo.made) /\
    getdents_fill 2 ($"/tmp") buf1 FsDemo.made = Ret (Ok (23, buf2), FsDemo.made).
Proof.
  destruct (getdents_no_end ($"/tmp") GetdentsDemo.buf GetdentsDemo.rd FsDemo.made 1 GetdentsDemo.es)
    as (buf1 & buf2 & H1 & H2 & _).
  - vm_compute. reflexivity.
  - vm_compute. reflexivity.
  - exact demo_yields.
  - repeat constructor.
  - reflexivity.
  - discriminate.
  - apply Nat.leb_le. reflexivity.
  - exists buf1, buf2. exact (conj H1 H2).
Defined.
