(* ===== verification/PosixTheorems.v ===== *)
(** Theorems on the file system calls of [PosixFs]: hard links, shared cursors, path
    handling, and what the calls do on unusual input. *)
From S2P Require Import Prelude.
From S2P Require Import Errno.
From S2P Require Import Str.
From S2P Require Import Fs.
From S2P Require Import FsTheorems.
From S2P Require Import FdTable.
From S2P Require Import Ramfs.
From S2P Require Import PosixFs.

(** ** Hard links *)

(** The links to a path. *)
Definition links_to (links : gmap str str) (d : str) : gmap str str := filter (fun p => p.2 = d) links.
Definition refs_of (n : nat) : option Z := if (n =? 0)%nat then None else Some (Z.of_nat n).
(** The counters agree with the links. *)
Definition counts (links : gmap str str) (refs : gmap str Z) : Prop :=
  forall d, refs !! d = refs_of (size (links_to links d)).

Lemma links_to_insert links s d : links !! s = None ->
  (size (links_to (<[s := d]> links) d) = S (size (links_to links d))) /\
  (forall d', d' <> d -> links_to (<[s := d]> links) d' = links_to links d').
Proof.
  intros Hs. unfold links_to. split.
  - rewrite map_filter_insert_True by done. rewrite map_size_insert_None; [done|].
    apply map_lookup_filter_None_2. by left.
  - intros d' Hne. rewrite map_filter_insert_False by (cbn; congruence). f_equal. by apply delete_id.
Qed.

Lemma links_to_delete links s d : links !! s = Some d ->
  (size (links_to links d) = S (size (links_to (delete s links) d))) /\
  (forall d', d' <> d -> links_to (delete s links) d' = links_to links d').
Proof.
  intros Hs. destruct (links_to_insert (delete s links) s d (lookup_delete_eq links s)) as [H1 H2].
  rewrite (insert_delete_id links s d Hs) in H1, H2. split; [done|]. intros d' Hne. by rewrite <- H2.
Qed.

Section links.
Context {V N F : Type} `{Vfs V N F} {O : Type}.
Notation Px := (Px (V := V) (N := N) (F := F) (O := O)).

Definition links_ok (s : Px) : Prop := counts (px_links s) (px_refs s).

Lemma on_fs_links {A} (m : FsM A) (s s' : Px) r :
  on_fs m s = Ret (r, s') ->
  px_links s' = px_links s /\ px_refs s' = px_refs s /\ px_fds s' = px_fds s /\ px_objs s' = px_objs s.
Proof. unfold on_fs, zoom. destruct (m (px_fs s)) as [[]|]; [|done]. by intros [= <- <-]. Qed.

(** The counter of a path that loses one of its links; [links] are the remaining ones. *)
Lemma decrease_ok links d (s s' : Px) r :
  (forall d', px_refs s !! d' =
     refs_of (size (links_to links d') + (if decide (d' = d) then 1 else 0))) ->
  Z.of_nat (size (links_to links d)) + 1 < USIZE ->
  decrease_ref_count d s = Ret (r, s') ->
  counts links (px_refs s') /\ px_links s' = px_links s /\
  (links_to links d <> ∅ -> px_fs s' = px_fs s).
Proof.
  intros Hr Hb. unfold decrease_ref_count. unfold_M. rewrite (Hr d), decide_True by done.
  set (n := size (links_to links d)) in *.
  unfold refs_of at 1. rewrite (proj2 (Nat.eqb_neq (n + 1) 0)) by lia.
  replace (Z.of_nat (n + 1) -w 1) with (Z.of_nat n) by (unfold wsub; rewrite wrap_small; lia).
  destruct (Z.eqb_spec (Z.of_nat n) 0) as [Hz|Hnz].
  - cbn. destruct (on_fs (fs_remove_file None d) _) as [[x s1]|] eqn:E; [|done]. intros [= <- <-].
    destruct (on_fs_links _ _ _ _ E) as (El & Er & _ & _). cbn in El, Er. rewrite Er. split_and!; [|done|].
    + intros d'. destruct (decide (d' = d)) as [->|Hne].
      * rewrite lookup_delete_eq. unfold refs_of. fold n. by replace (n =? 0)%nat with true by (symmetry; apply Nat.eqb_eq; lia).
      * rewrite lookup_delete_ne, Hr, decide_False by done. by rewrite Nat.add_0_r.
    + intros Hne%map_size_non_empty_iff. lia.
  - cbn. intros [= <- <-]. cbn. split_and!; [|done|done]. intros d'. destruct (decide (d' = d)) as [->|Hne].
    + rewrite lookup_insert_eq. unfold refs_of. fold n. by rewrite (proj2 (Nat.eqb_neq n 0)) by lia.
    + rewrite lookup_insert_ne, Hr, decide_False by done. by rewrite Nat.add_0_r.
Qed.

Lemma links_to_size links d : (size (links_to links d) <= size links)%nat.
Proof. apply map_subseteq_size, map_filter_subseteq. Qed.

Lemma counts_delete (links : gmap str str) refs src dst :
  counts links refs -> links !! src = Some dst ->
  forall d', refs !! d' = refs_of (size (links_to (delete src links) d') + (if decide (d' = dst) then 1 else 0)).
Proof.
  intros Hc Hs d'. destruct (links_to_delete links src dst Hs) as [H1 H2]. rewrite Hc. f_equal.
  case_decide as E; [subst d'|by rewrite H2, Nat.add_0_r]. rewrite H1. lia.
Qed.

Lemma delete_size_bound (links : gmap str str) src dst :
  links !! src = Some dst -> Z.of_nat (size links) + 1 < USIZE ->
  Z.of_nat (size (links_to (delete src links) dst)) + 1 < USIZE.
Proof. intros Hs Hb. destruct (links_to_delete links src dst Hs) as [H1 _]. pose proof (links_to_size links dst). lia. Qed.

Lemma insert_link_ok (links : gmap str str) src dst (s : Px) :
  counts links (px_refs s) -> links !! src = None -> delete src (px_links s) = links ->
  Z.of_nat (size links) + 1 < USIZE ->
  links_ok (insert_link src dst s) /\ px_links (insert_link src dst s) = <[src := dst]> (px_links s).
Proof.
  intros Hc Hs <- Hb. split; [|done]. intros d. cbn. rewrite <- (insert_delete_eq (px_links s)).
  destruct (links_to_insert (delete src (px_links s)) src dst Hs) as [H1 H2].
  pose proof (links_to_size (delete src (px_links s)) dst).
  destruct (decide (d = dst)) as [->|Hne].
  - rewrite lookup_insert_eq, H1, Hc. unfold refs_of, wadd. clear H1.
    generalize dependent (size (links_to (delete src (px_links s)) dst)). intros n Hn. cbn [Nat.eqb]. f_equal. destruct (Nat.eqb_spec n 0) as [->|]; [by rewrite wrap_small|]. cbn [from_option id]. rewrite wrap_small by lia. lia.
  - rewrite lookup_insert_ne, H2 by done. apply Hc.
Qed.

Lemma link_update_ok src dst (s s' : Px) r :
  links_ok s -> Z.of_nat (size (px_links s)) + 1 < USIZE -> atomic_link_update src dst s = Ret (r, s') ->
  links_ok s' /\ px_links s' = <[src := dst]> (px_links s).
Proof.
  intros Hok Hb. unfold atomic_link_update. unfold_M. destruct (px_links s !! src) as [old|] eqn:E.
  - case_decide as Heq.
    + intros [= <- <-]. split; [done|]. subst. by rewrite insert_id.
    + destruct (decrease_ref_count old s) as [[[x|e] s1]|] eqn:E1; [| |done].
      * destruct (decrease_ok (delete src (px_links s)) old s s1 _ (counts_delete _ _ _ _ Hok E)
          (delete_size_bound _ _ _ E Hb) E1) as (Hc & Hl & _).
        intros [= <- <-]. rewrite <- Hl. apply (insert_link_ok (delete src (px_links s))); [done| |by rewrite Hl|].
        -- apply lookup_delete_eq.
        -- rewrite map_size_delete, E. cbn. lia.
      * revert E1. unfold decrease_ref_count. unfold_M. by repeat case_match.
  - intros [= <- <-]. assert (delete src (px_links s) = px_links s) as Hd by (by apply delete_id).
    by apply (insert_link_ok (px_links s)).
Qed.

Lemma exists_links dst (s s' : Px) r : FilePath_exists dst s = Ret (r, s') ->
  px_links s' = px_links s /\ px_refs s' = px_refs s.
Proof.
  unfold FilePath_exists. unfold_M. destruct (on_fs _ s) as [[x s1]|] eqn:E; [|done].
  intros [= <- <-]. destruct (on_fs_links _ _ _ _ E) as (? & ? & _). done.
Qed.

(** The hard link manager counts links exactly: after [create_link] and
    [remove_link] the counter of every path is the number of links to it, a created
    link is recorded, a removed one is forgotten, and the file behind it is left
    alone as long as another link refers to it. *)
Theorem hardlinks_counted (s s' : Px) :
  links_ok s -> Z.of_nat (size (px_links s)) + 1 < USIZE ->
  (forall src dst r, create_link src dst s = Ret (r, s') ->
     links_ok s' /\ px_links s' = match r with Ok _ => <[src := dst]> (px_links s) | Err _ => px_links s end) /\
  (forall src r, remove_link src s = Ret (r, s') ->
     links_ok s' /\ px_links s' = delete src (px_links s) /\
     forall dst, px_links s !! src = Some dst ->
       links_to (delete src (px_links s)) dst <> ∅ -> px_fs s' = px_fs s).
Proof.
  intros Hok Hb. split.
  - intros src dst r. unfold create_link. unfold_M.
    destruct (FilePath_exists dst s) as [[[b|e] s1]|] eqn:E; [| |done];
      destruct (exists_links _ _ _ _ E) as [El Er]; unfold links_ok in *; rewrite <- El, <- Er in *.
    + destruct b; [|by intros [= <- <-]]. destruct (is_dir dst); [|by intros [= <- <-]]. intros Hu.
      destruct (link_update_ok _ _ _ _ _ Hok Hb Hu) as [H1 H2]. split; [done|]. destruct r; [done|].
      exfalso. revert Hu. unfold atomic_link_update, decrease_ref_count. unfold_M. by repeat case_match.
    + by intros [= <- <-].
  - intros src r. unfold remove_link, atomic_link_remove. unfold_M.
    destruct (px_links s !! src) as [dst|] eqn:E.
    + set (s1 := set_links _ _ _). destruct (decrease_ref_count dst s1) as [[[x|e] s2]|] eqn:E1; [| |done].
      * destruct (decrease_ok (delete src (px_links s)) dst s1 s2 _ (counts_delete _ _ _ _ Hok E)
          (delete_size_bound _ _ _ E Hb) E1) as (Hc & Hl & Hf).
        intros [= <- <-]. unfold links_ok. rewrite Hl. split_and!; [done|done|]. intros ? [= <-] Hne. by apply Hf.
      * revert E1. unfold decrease_ref_count. unfold_M. by repeat case_match.
    + destruct (on_fs _ s) as [[x s2]|] eqn:E1; [|done]. intros [= <- <-].
      destruct (on_fs_links _ _ _ _ E1) as (El & Er & _ & _). unfold links_ok. rewrite El, Er.
      split_and!; [done|by rewrite delete_id|done].
Qed.
End links.

(** ** Paths *)

Lemma trim_ws_keeps ws fuel (s : str) :
  Forall (fun w => slash ∉ w /\ w <> []) ws ->
  exists s', trim_start_ws ws fuel (s ++ [slash]) = s' ++ [slash].
Proof.
  intros Hws. revert s. induction fuel as [|fuel IH]; intros s; cbn; [eauto|].
  destruct (list_find (fun w => starts_with (s ++ [slash]) w = true) ws) as [[i w]|] eqn:E; [|eauto].
  apply list_find_Some in E as (Hi & Hst & _).
  rewrite Forall_forall in Hws. destruct (Hws w (list_elem_of_lookup_2 _ _ _ Hi)) as [Hs _].
  apply starts_with_spec in Hst as [r Hr]. destruct r as [|c r _] using rev_ind.
  { rewrite app_nil_r in Hr. destruct Hs. rewrite <- Hr. apply elem_of_app. right. by apply list_elem_of_singleton. }
  rewrite app_assoc in Hr. apply app_inj_tail in Hr as [-> <-].
  rewrite <- app_assoc, drop_app_length. apply IH.
Qed.

Lemma whitespace_ok : Forall (fun w => slash ∉ w /\ w <> []) whitespace /\
  Forall (fun w => slash ∉ w /\ w <> []) (reverse <$> whitespace) /\
  forall s, list_find (fun w => starts_with (slash :: s) w = true) whitespace = None.
Proof.
  assert (Forall (fun w => slash ∉ w /\ w <> []) whitespace) as Hw.
  { unfold whitespace. cbn. repeat (apply Forall_cons; split; [split; [|done]; set_unfold; naive_solver|]). constructor. }
  split; [done|]. split.
  - rewrite Forall_fmap. eapply Forall_impl; [exact Hw|]. intros w [H1 H2]. cbn. rewrite elem_of_reverse.
    split; [done|]. intros E. apply H2. by rewrite <- (reverse_involutive w), E.
  - intros s. apply list_find_None. eapply Forall_impl; [exact Hw|]. intros w [H1 H2] E.
    destruct w as [|c w]; [done|]. cbn in E. apply andb_true_iff in E as [->%Ascii.eqb_eq _].
    apply H1. by apply elem_of_cons; left.
Qed.

Lemma trim_absolute s : starts_with (trim (slash :: s)) [slash] = true.
Proof.
  destruct whitespace_ok as (_ & Hr & Hf). unfold trim. cbn [length trim_start_ws]. rewrite Hf.
  rewrite reverse_cons. edestruct (trim_ws_keeps (reverse <$> whitespace)) as [s' ->]; [done|].
  by rewrite reverse_app.
Qed.

Section paths.
Context {V N F : Type} `{Vfs V N F} {O : Type}.
Notation Px := (Px (V := V) (N := N) (F := F) (O := O)).

(** The assertion of [FilePath::new] never fails: with a well-formed working
    directory every path, relative or absolute, becomes an absolute one (the target
    of the link if there is one), and nothing changes. *)
Theorem FilePath_new_total (s : Px) path :
  cwd_ok (current_dir_path (px_fs s)) ->
  exists p, FilePath_new path s = Ret (Ok p, s) /\
    (px_links s = ∅ -> starts_with p [slash] = true).
Proof.
  intros Hc. destruct (absolute_path_ok (px_fs s) path Hc) as (st & Hst & Ha).
  unfold FilePath_new. unfold_M. rewrite Ha.
  pose proof (trim_absolute (join st)) as Ht. change (slash :: join st) with (render true st) in Ht.
  set (q := if _ && _ then _ else _).
  assert (starts_with q [slash] = true) as Hq.
  { unfold q. destruct (_ && _); [|done]. apply starts_with_spec in Ht as [r ->]. done. }
  rewrite Hq. eexists. split; [done|]. intros Hl. unfold real_path. by rewrite Hl, lookup_empty.
Qed.

(** A system call that is given a directory descriptor and a relative path never
    returns: [handle_relative_path] waits for the descriptor table while holding it. *)
Theorem relative_path_at_fd_hangs (s : Px) fd p flags :
  0 <= fd < as_i64 (count (px_fds s)) -> from_utf8 p = Some p -> p <> [] -> starts_with p [slash] = false ->
  sys_unlinkat fd (Some p) flags s = Panic.
Proof.
  intros Hfd Hu Hne Hs. unfold sys_unlinkat, ax_minus_one, minus_one, ax, handle_file_path, char_ptr_to_str. unfold_M.
  rewrite Hu. rewrite decide_False, Hs by done.
  rewrite (proj2 (Z.eqb_neq fd AT_FDCWD)) by (unfold AT_FDCWD; lia).
  unfold handle_relative_path, dir_path_of. unfold_M.
  rewrite (proj2 (Z.leb_gt _ _)), (proj2 (Z.ltb_ge _ _)) by lia. done.
Qed.

(** Only directories can be linked: [create_link] refuses every path that does not
    end in a slash, so [link] fails for every regular file. *)
Theorem create_link_only_directories (s s' : Px) src dst :
  create_link src dst s = Ret (Ok tt, s') -> is_dir dst = true.
Proof.
  unfold create_link. unfold_M. destruct (FilePath_exists dst s) as [[[[]|] ?]|]; [|done..].
  by destruct (is_dir dst).
Qed.
End paths.

(** ** Shared cursors *)

Section cursors.
Context {V N F : Type} `{VfsFileLaws V N F} {O : Type}.
Notation Px := (Px (V := V) (N := N) (F := F) (O := O)).
Context (other_read : O -> nat -> PxM (V := V) (N := N) (F := F) (O := O) (list Z)).

(** A read through a descriptor of an open file. *)
Lemma sys_read_file (s : Px) fd h f p n l len :
  fo_get (px_fds s) (fd_usize fd) = Some h -> px_objs s !! h = Some (OFile f p) ->
  opened f n l (px_fs s) -> cap_contains (f_cap f) CAP_READ = true -> Z.of_nat len < 2 ^ 63 ->
  let data := take len (drop (Z.to_nat (f_offset f)) l) in
  sys_read_body other_read fd false len s =
  Ret (Ok data, set_objs (<[h := OFile (set_offset f (f_offset f +w Z.of_nat (length data))) p]> (px_objs s)) s).
Proof.
  intros Hfd Hobj Hop Hr Hlen data. unfold sys_read_body, get_obj, on_fds, zoom, get_file_like. unfold_M. cbn.
  rewrite Hfd. cbn. rewrite Hobj. cbn. unfold ax, on_fs, zoom. unfold_M.
  rewrite (file_read_opened _ _ _ _ _ Hop) by done. by destruct s.
Qed.

(** Descriptors that were duplicated or inherited share the cursor: a read through
    one continues where a read through the other stopped. *)
Theorem dup_shares_cursor (s : Px) fd1 fd2 h f p n l a b :
  fo_get (px_fds s) (fd_usize fd1) = Some h -> fo_get (px_fds s) (fd_usize fd2) = Some h ->
  px_objs s !! h = Some (OFile f p) -> opened f n l (px_fs s) -> cap_contains (f_cap f) CAP_READ = true ->
  Z.of_nat a < 2 ^ 63 -> Z.of_nat b < 2 ^ 63 ->
  (Z.to_nat (f_offset f) + a <= length l)%nat ->
  exists s1 s2,
    sys_read_body other_read fd1 false a s = Ret (Ok (take a (drop (Z.to_nat (f_offset f)) l)), s1) /\
    sys_read_body other_read fd2 false b s1 = Ret (Ok (take b (drop (Z.to_nat (f_offset f) + a) l)), s2).
Proof.
  intros H1 H2 Ho Hop Hr Ha Hb Hle.
  rewrite (sys_read_file s fd1 h f p n l a) by done. cbn zeta.
  set (f' := set_offset f _). pose (s1 := set_objs (<[h := OFile f' p]> (px_objs s)) s).
  assert (length (take a (drop (Z.to_nat (f_offset f)) l)) = a) as Hla by (rewrite length_take, length_drop; lia).
  pose proof Hop as [P1 P2 P3 P4].
  assert (f_offset f' = f_offset f + Z.of_nat a) as Hf'.
  { cbn. rewrite Hla. apply wrap_small. lia. }
  assert (opened f' n l (px_fs s1)) as Hop1 by (constructor; [done..|rewrite Hf'; lia]).
  exists s1. eexists. split; [done|].
  rewrite (sys_read_file s1 fd2 h f' p n l b); [|done| |done..].
  - cbn zeta. rewrite Hf'. replace (Z.to_nat (f_offset f + Z.of_nat a)) with (Z.to_nat (f_offset f) + a)%nat by lia. done.
  - cbn. apply list_lookup_insert_eq. by eapply lookup_lt_Some.
Qed.
End cursors.

(** ** A system with two descriptors on one file *)

Module PosixDemo.
Notation PxD := (Px (V := RamHeap) (N := Z) (F := Z) (O := unit)).
Notation PxMD := (PxM (V := RamHeap) (N := Z) (F := Z) (O := unit)).
Definition read_other (_ : unit) (_ : nat) : PxMD (list Z) := throw EINVAL.
Definition write_other (_ : unit) (buf : list Z) : PxMD Z := throw EINVAL.
Definition objs : list (Obj (N := Z) (O := unit)) :=
  [OOther tt; OOther tt; OOther tt; OFile (mkFile (NFs FsDemo.node) 3 false 1) ($"/tmp/log")].
Definition fds : FlattenObjects nat :=
  mkFO ([Some 0; Some 1; Some 2; Some 3; Some 3]%nat ++ replicate 1019 None) 5.
Definition px : PxD := mkPx FsDemo.made objs fds ∅ ∅.
(** Two links to /tmp/d/. *)
Definition linked : PxD :=
  mkPx FsDemo.made objs fds {[ $"/a" := $"/tmp/d/"; $"/b" := $"/tmp/d/" ]} {[ $"/tmp/d/" := 2 ]}.
Definition state_of {A} (r : outcome (result A AxError * PxD)) : PxD :=
  match r with Ret (_, s) => s | Panic => px end.
End PosixDemo.

Lemma dup_shares_cursor_witness :
  exists s1 s2,
    sys_read_body PosixDemo.read_other 3 false 2 PosixDemo.px = Ret (Ok (text "el"), s1) /\
    sys_read_body PosixDemo.read_other 4 false 9 s1 = Ret (Ok (text "lo"), s2).
Proof.
  apply (dup_shares_cursor PosixDemo.read_other PosixDemo.px 3 4 3 (mkFile (NFs FsDemo.node) 3 false 1)
    ($"/tmp/log") FsDemo.node (text "hello") 2 9); try reflexivity.
  - apply demo_opened. lia.
  - apply Nat.leb_le. reflexivity.
Defined.

Lemma hardlinks_counted_witness :
  links_ok (PosixDemo.state_of (remove_link ($"/a") PosixDemo.linked)) /\
  px_refs (PosixDemo.state_of (remove_link ($"/a") PosixDemo.linked)) = {[ $"/tmp/d/" := 1 ]}.
Proof.
  split; [|vm_compute; reflexivity].
  refine (proj1 (proj2 (hardlinks_counted PosixDemo.linked
    (PosixDemo.state_of (remove_link ($"/a") PosixDemo.linked)) _ _) ($"/a") (Ok (Some ($"/tmp/d/"))) _)).
  - intros d. unfold PosixDemo.linked, links_to. cbn [px_links px_refs]. destruct (decide (d = $"/tmp/d/")) as [->|Hne]; [vm_compute; reflexivity|].
    rewrite lookup_singleton_ne by congruence.
    rewrite map_filter_insert_False, map_filter_delete, map_filter_singleton_False by (intros E; apply Hne; by symmetry).
    by rewrite delete_empty, map_size_empty.
  - vm_compute. reflexivity.
  - vm_compute. reflexivity.
Defined.

Lemma FilePath_new_total_witness :
  exists p, FilePath_new ($"../tmp/./log ") PosixDemo.px = Ret (Ok p, PosixDemo.px) /\
    (px_links PosixDemo.px = ∅ -> starts_with p [slash] = true).
Proof.
  apply (FilePath_new_total PosixDemo.px ($"../tmp/./log ")). exists []. split; [constructor|vm_compute; reflexivity].
Defined.

Lemma relative_path_at_fd_hangs_witness : sys_unlinkat 4 (Some ($"log")) 0 PosixDemo.px = Panic.
Proof.
  apply (relative_path_at_fd_hangs PosixDemo.px 4 ($"log") 0); [|reflexivity|discriminate|reflexivity].
  vm_compute. split; congruence.
Defined.

Lemma create_link_only_directories_witness :
  exists s', create_link ($"/c") ($"/proc/sys/") PosixDemo.px = Ret (Ok tt, s') /\ is_dir ($"/proc/sys/") = true.
Proof.
  assert (exists s', create_link ($"/c") ($"/proc/sys/") PosixDemo.px = Ret (Ok tt, s')) as [s' E]
    by (eexists; vm_compute; reflexivity).
  exists s'. split; [exact E|]. exact (create_link_only_directories PosixDemo.px s' ($"/c") ($"/proc/sys/") E).
Defined.

(** A user program can stop the kernel: [lseek] to a negative position is accepted
    and returns -1 without an error, and a read from there on a file of /tmp slices the
    content with a start after its end. *)
Example negative_seek_panics :
  exists s1, sys_lseek 3 (-1) 0 PosixDemo.px = Ret (-1, s1) /\
    sys_read PosixDemo.read_other 3 false 2 s1 = Panic.
Proof. eexists. split; [vm_compute; reflexivity|]. vm_compute. reflexivity. Qed.

(** [writev] adds the error of one buffer to the sizes of the others: 5 bytes written
    and a null buffer give -9, which the caller reads as [EBADF]. *)
Example writev_sums_errors :
  exists s1, sys_writev PosixDemo.write_other 3 2 [(false, text "12345"); (true, [])] PosixDemo.px = Ret (- code EBADF, s1).
Proof. eexists. vm_compute. reflexivity. Qed.
