(* ===== verification/Loader.v ===== *)
(** Loading of user programs: [map_elf] and [load_user_app] of src/src/mm.rs, with
    [ELFParser] and the initial user stack of src/vendor/kernel-elf-parser, and the
    test case list of src/src/main.rs. The ELF decoder (xmas-elf) and the file system
    are parameters. *)
From S2P Require Import Prelude.
From S2P Require Import Errno.
From S2P Require Import MemAddr Frames Paging MemorySet.
From S2P Require Import AddrSpace.
From S2P Require Import Mmap.
From S2P Require Import Str.
Import MappingFlags.

(** Addresses of the platform configuration (configs/riscv64.toml). *)
Definition USER_INTERP_BASE : Z := 0x4000000.
Definition USER_STACK_TOP : Z := 0x400000000.
Definition USER_STACK_SIZE : Z := 0x10000.

(** What xmas-elf decodes of a file: the header and the program headers. [ph_data] is
    the content of the segment if it can be read as plain bytes. *)
Inductive ElfType := ET_Executable | ET_SharedObject | ET_Other.
Inductive PhType := PT_Load | PT_Interp | PT_Other.
#[export] Instance ElfType_eq_dec : EqDecision ElfType.
Proof. solve_decision. Defined.
#[export] Instance PhType_eq_dec : EqDecision PhType.
Proof. solve_decision. Defined.
Record ProgramHeader := mkPh {
  ph_type : PhType; ph_offset : Z; ph_vaddr : Z; ph_memsz : Z; ph_filesz : Z;
  ph_read : bool; ph_write : bool; ph_exec : bool; ph_data : option str;
}.
Record ElfFile := mkElf {
  elf_input : list Z; elf_magic : bool; elf_type : ElfType; elf_entry : Z;
  elf_phoff : Z; elf_phentsize : Z; elf_phnum : Z; elf_phs : list ProgramHeader;
}.

(** * [ELFParser] (info.rs) *)

Record ELFParser := mkParser { p_elf : ElfFile; p_base : Z }.
Record ELFPH := mkELFPH { seg_offset : Z; seg_vaddr : Z; seg_memsz : Z; seg_filesz : Z; seg_flags : Z }.

Definition is_interp (ph : ProgramHeader) : bool := bool_decide (ph_type ph = PT_Interp).
Definition is_load (ph : ProgramHeader) : bool := bool_decide (ph_type ph = PT_Load).
(** [elf_base_addr]. *)
Definition elf_base_addr (elf : ElfFile) (interp_base : Z) : option Z :=
  match elf_type elf with
  | ET_Executable => Some 0
  | ET_SharedObject =>
      match length (List.filter is_interp (elf_phs elf)) with
      | 0%nat => Some interp_base
      | 1%nat => Some 0
      | _ => None
      end
  | ET_Other => None
  end.
(** [ELFParser::new]. *)
Definition ELFParser_new (elf : ElfFile) (interp_base : Z) (bias : option Z) (uspace_base : Z) : option ELFParser :=
  if negb (elf_magic elf) then None
  else
    let is_pie := bool_decide (elf_type elf = ET_SharedObject) ||
                  (bool_decide (elf_type elf = ET_Executable) && existsb is_interp (elf_phs elf)) in
    if negb is_pie && existsb (fun ph => is_load ph && (ph_vaddr ph <? uspace_base)) (elf_phs elf) then None
    else match elf_base_addr elf interp_base with
         | None => None
         | Some base => Some (mkParser elf (if is_pie then base +w wrap (default 0 bias) else base))
         end.
Definition parser_entry (p : ELFParser) : Z := elf_entry (p_elf p) +w p_base p.

(** [auxv_vector]: types and values. *)
Definition AT_PHDR : Z := 3.
Definition AT_RANDOM : Z := 25.
Definition AT_EXECFN : Z := 31.
Definition auxv_vector (p : ELFParser) (pagesz : Z) : list (Z * Z) :=
  [(AT_PHDR, elf_phoff (p_elf p) +w p_base p); (4, elf_phentsize (p_elf p)); (5, elf_phnum (p_elf p));
   (6, pagesz); (7, p_base p); (8, 0); (9, parser_entry p); (16, 0); (17, 100); (15, 0);
   (11, 0); (12, 0); (13, 0); (14, 0); (AT_RANDOM, 0); (AT_EXECFN, 0); (0, 0)].

(** [ph_load]. *)
Definition ph_load (p : ELFParser) : list ELFPH :=
  (fun ph => mkELFPH (ph_offset ph) (ph_vaddr ph +w p_base p) (ph_memsz ph) (ph_filesz ph)
     (Z.lor USER (Z.lor (if ph_read ph then READ else 0)
       (Z.lor (if ph_write ph then WRITE else 0) (if ph_exec ph then EXECUTE else 0)))))
  <$> List.filter is_load (elf_phs (p_elf p)).

(** * The initial user stack (user_stack.rs) *)

(** [UserStack]: the stack pointer and the bytes from it to the top. *)
Definition Stack : Type := (Z * list Z)%type.
Definition st_push (src : list Z) (st : Stack) : Stack := (st.1 -w Z.of_nat (length src), src ++ st.2).
Definition le_bytes (v : Z) : list Z := (fun i => Z.land (Z.shiftr v (8 * i)) 255) <$> [0; 1; 2; 3; 4; 5; 6; 7].
Definition push_usize_slice (l : list Z) (st : Stack) : Stack :=
  foldr (fun v st => st_push (le_bytes v) st) st l.
(** [push_str]: NUL first, then the text below it. *)
Definition push_str (s : str) (st : Stack) : Stack := st_push (str_bytes s) (st_push [0] st).
(** [strs.iter().map(push_str)]: the positions of the strings. *)
Fixpoint push_strs (l : list str) (st : Stack) : list Z * Stack :=
  match l with
  | [] => ([], st)
  | s :: l' => let st1 := push_str s st in let '(ps, st2) := push_strs l' st1 in (st1.1 :: ps, st2)
  end.

Definition random_str : list Z := str_bytes ($"0123456789abcdef").
Definition padding_null : list Z := replicate 8 0.
(** [init_stack]. *)
Definition init_stack (args envs : list str) (auxv : list (Z * Z)) (sp : Z) : outcome Stack :=
  let st := st_push random_str (sp, []) in
  let random_pos := st.1 in
  let '(envp, st) := push_strs envs st in
  let '(argv, st) := push_strs args st in
  let st := st_push padding_null st in
  let st := st_push (replicate (Z.to_nat (st.1 mod 16)) 0) st in
  if negb (st.1 mod 16 =? 0) then Panic
  else match argv with
       | [] => Panic
       | arg0 :: _ =>
           let auxv := (fun '(t, v) => (t, if t =? AT_RANDOM then random_pos else if t =? AT_EXECFN then arg0 else v)) <$> auxv in
           let st := push_usize_slice (mjoin ((fun '(t, v) => [t; v]) <$> auxv)) st in
           let st := st_push padding_null st in
           let st := push_usize_slice envp st in
           let st := st_push padding_null st in
           let st := push_usize_slice argv st in
           Ret (push_usize_slice [Z.of_nat (length args)] st)
       end.
(** [app_stack_region]: the bytes of the stack. *)
Definition app_stack_region (args envs : list str) (auxv : list (Z * Z)) (stack_base stack_size : Z)
  : outcome (list Z) :=
  match init_stack args envs auxv (stack_base +w stack_size) with
  | Ret st => Ret st.2
  | Panic => Panic
  end.

(** * [map_elf] and [load_user_app] *)

(** [resolve_interp_path] on riscv64; the working directory and [canonicalize] come from
    the file system. *)
Definition resolve_interp_path (canonicalize : str -> str) (cwd requested app_path : str) : str :=
  let requested := trim_char (Ascii.ascii_of_nat 0) requested in
  let is_glibc := starts_with app_path ($"/glibc/") || starts_with app_path ($"./glibc/") ||
                  starts_with cwd ($"/glibc/") in
  if decide (requested ∈ [$"/lib/ld-linux-riscv64-lp64.so.1"; $"/lib/ld-linux-riscv64-lp64d.so.1";
                          $"/lib64/ld-linux-loongarch-lp64d.so.1"])
  then if is_glibc then $"/glibc/lib/ld-linux-riscv64-lp64d.so.1" else $"/musl/lib/libc.so"
  else canonicalize requested.

(** The environment variables every program gets. *)
Definition default_env : list str :=
  lit <$> ["SHLVL=1"; "PWD=/"; "GCC_EXEC_PREFIX=/riscv64-linux-musl-native/bin/../lib/gcc/";
    "COLLECT_GCC=./riscv64-linux-musl-native/bin/riscv64-linux-musl-gcc";
    "COLLECT_LTO_WRAPPER=/riscv64-linux-musl-native/bin/../libexec/gcc/riscv64-linux-musl/11.2.1/lto-wrapper";
    "COLLECT_GCC_OPTIONS='-march=rv64gc' '-mabi=lp64d' '-march=rv64imafdc' '-dumpdir' 'a.'";
    "LIBRARY_PATH=/lib/"; "LD_LIBRARY_PATH=/lib/"; "LD_DEBUG=files"]%string.

(** What the loader asks of the rest of the system: [axfs::api::read], [canonicalize] and
    [current_dir], and [ElfFile::new]. *)
Record LoaderEnv := mkLoaderEnv {
  le_read : str -> result (list Z) AxError;
  le_canonicalize : str -> str;
  le_cwd : str;
  le_elf : list Z -> option ElfFile;
}.

Section loader.
Context {FA : Type} `{FrameAllocator FA}.
Context (env : LoaderEnv).
Notation AsM := (AsM (FA := FA)).

(** The body of the loop over the segments. *)
Definition map_segment (input : list Z) (seg : ELFPH) : AsM AxError unit :=
  let seg_pad := align_offset_4k (seg_vaddr seg) in
  _ ← assert_ (seg_pad =? seg_offset seg mod PAGE_SIZE_4K);
  let seg_align_size := align_up_4k (seg_memsz seg +w seg_pad) in
  _ ← map_alloc (align_down_4k (seg_vaddr seg)) seg_align_size (seg_flags seg) true;
  let end_ := seg_offset seg +w seg_filesz seg in
  _ ← ensure ((seg_offset seg <=? end_) && (end_ <=? Z.of_nat (length input))) InvalidData;
  write_user (seg_vaddr seg)
    (take (Z.to_nat (end_ - seg_offset seg)) (drop (Z.to_nat (seg_offset seg)) input)).

(** A file as a parsed program, for the user space at [base]. *)
Definition parse_elf (data : list Z) (base : Z) : result ELFParser AxError :=
  match le_elf env data with
  | None => Err InvalidData
  | Some elf => match ELFParser_new elf USER_INTERP_BASE (Some base) base with
                | Some p => Ok p
                | None => Err InvalidData
                end
  end.

(** [map_elf]: a program with an interpreter is replaced by it. The fuel bounds the
    chain of interpreters, which the code follows without a bound. *)
Fixpoint map_elf (fuel : nat) (args : list str) (p : ELFParser) : AsM AxError (list str * Z * list (Z * Z)) :=
  match fuel with
  | O => panic
  | S fuel =>
      match List.find is_interp (elf_phs (p_elf p)) with
      | Some ph =>
          data ← unwrap (ph_data ph);
          interp_path ← ok_or (from_utf8 data) InvalidInput;
          let real := resolve_interp_path (le_canonicalize env) (le_cwd env) interp_path (default [] (head args)) in
          interp_data ← try_ (le_read env real);
          sp ← get_space;
          ip ← try_ (parse_elf interp_data (r_start (as_range sp)));
          map_elf fuel (real :: args) ip
      | None =>
          _ ← for_each (ph_load p) (map_segment (elf_input (p_elf p)));
          mret (args, parser_entry p, auxv_vector p PAGE_SIZE_4K)
      end
  end.

(** [load_user_app]: the entry point and the stack pointer. *)
Definition load_user_app (fuel : nat) (args : list str) : AsM AxError (Z * Z) :=
  match args with
  | [] => throw InvalidInput
  | arg0 :: _ =>
      file_data ← try_ (le_read env arg0);
      sp ← get_space;
      p ← try_ (parse_elf file_data (r_start (as_range sp)));
      r ← map_elf fuel args p;
      let '(args, entry, auxv) := r in
      let ustack_start := USER_STACK_TOP -w USER_STACK_SIZE in
      stack_data ← match app_stack_region args default_env auxv ustack_start USER_STACK_SIZE with
                   | Ret d => mret d
                   | Panic => panic
                   end;
      _ ← map_alloc ustack_start USER_STACK_SIZE (Z.lor READ (Z.lor WRITE USER)) true;
      let user_sp := USER_STACK_TOP -w Z.of_nat (length stack_data) in
      _ ← write_user user_sp stack_data;
      mret (entry, user_sp)
  end.
End loader.

(** * The test cases (main.rs) *)

Record TestCase := mkTestCase { tc_name : str; tc_cwd : str; tc_args : list str; tc_group : option str }.
(** [split_once('/')]. *)
Definition split_once (c : Ascii.ascii) (s : str) : option (str * str) :=
  match find_char c s with Some i => Some (take i s, drop (S i) s) | None => None end.
Definition parse_testcase (line : str) : option TestCase :=
  let line := trim line in
  if decide (line = []) then None
  else if starts_with line ($"#") then None
  else
    let direct := mkTestCase line [slash] [line] (Some ($"basic-musl")) in
    match split_once slash line with
    | Some (libc, group) =>
        if decide (libc ∈ [$"musl"; $"glibc"] /\ slash ∉ group)
        then Some (mkTestCase line (slash :: libc)
               [slash :: libc ++ $"/busybox"; $"sh"; $"./" ++ group ++ $"_testcode.sh"] None)
        else Some direct
    | None => Some direct
    end.
(** The cases [main] runs. *)
Definition testcases (line : str) : list TestCase :=
  omap parse_testcase (split (Ascii.ascii_of_nat 44) line).
