(* ===== verification/LoaderTheorems.v ===== *)
(** Theorems on the program loader of [Loader]: the segments of an ELF file end up in
    memory, and the initial stack has the layout a program expects. *)
From S2P Require Import Prelude.
From S2P Require Import Errno.
From S2P Require Import MemAddr Frames Paging MemorySet.
From S2P Require Import AddrSpace AddrSpaceInv AddrSpaceCorrect.
From S2P Require Import UserMem MemTheorems.
From S2P Require Import Mmap.
From S2P Require Import Str.
From S2P Require Import Loader.

(** ** The initial stack *)

(** The byte of a stack at an address. *)
Definition st_byte (st : Stack) (a : Z) : option Z :=
  if st.1 <=? a then st.2 !! Z.to_nat (a - st.1) else None.
(** The stack that grows down to [bottom]: no wrap-around, and every byte accounted for. *)
Definition st_ok (top : Z) (st : Stack) : Prop :=
  0 <= st.1 /\ st.1 + Z.of_nat (length st.2) = top /\ top < USIZE.
(** [st'] extends [st] downwards. *)
Definition extends (st st' : Stack) : Prop := exists pre, st'.2 = pre ++ st.2 /\ st'.1 + Z.of_nat (length pre) = st.1.

Lemma extends_refl st : extends st st.
Proof. exists []. cbn. split; [done|lia]. Qed.
Lemma extends_trans a b c : extends a b -> extends b c -> extends a c.
Proof.
  intros (p & E1 & E2) (q & F1 & F2). exists (q ++ p). rewrite F1, E1, length_app. split; [by rewrite app_assoc|lia].
Qed.
Lemma extends_byte st st' a b : extends st st' -> st_byte st a = Some b -> st_byte st' a = Some b.
Proof.
  intros (p & E1 & E2). unfold st_byte. destruct (Z.leb_spec st.1 a); [|done]. intros Hb.
  rewrite (proj2 (Z.leb_le _ _)) by lia. rewrite E1, lookup_app_r by lia.
  rewrite <- Hb. f_equal. lia.
Qed.

Lemma push_ok top src st :
  st_ok top st -> Z.of_nat (length src) <= st.1 ->
  st_ok top (st_push src st) /\ extends st (st_push src st) /\ (st_push src st).1 = st.1 - Z.of_nat (length src) /\
  forall i b, src !! i = Some b -> st_byte (st_push src st) ((st_push src st).1 + Z.of_nat i) = Some b.
Proof.
  intros (H1 & H2 & H3) Hl. assert ((st_push src st).1 = st.1 - Z.of_nat (length src)) as E.
  { cbn. unfold wsub. rewrite wrap_small; lia. }
  split_and!; [..|done|].
  - unfold st_ok. rewrite E. cbn. rewrite length_app. lia.
  - exists src. rewrite E. cbn. split; [done|lia].
  - intros i b Hi. unfold st_byte. rewrite (proj2 (Z.leb_le _ _)) by lia.
    replace (Z.to_nat _) with i by lia. cbn. by apply lookup_app_l_Some.
Qed.

(** A little-endian word, and a NUL-terminated string, at an address. *)
Definition word_at (st : Stack) (a v : Z) : Prop :=
  forall i b, le_bytes v !! i = Some b -> st_byte st (a + Z.of_nat i) = Some b.
Definition cstr_at (st : Stack) (a : Z) (s : str) : Prop :=
  (forall i b, str_bytes s !! i = Some b -> st_byte st (a + Z.of_nat i) = Some b) /\
  st_byte st (a + Z.of_nat (length s)) = Some 0.

Lemma word_extends st st' a v : extends st st' -> word_at st a v -> word_at st' a v.
Proof. intros He Hw i b Hi. by eapply extends_byte, Hw. Qed.
Lemma cstr_extends st st' a s : extends st st' -> cstr_at st a s -> cstr_at st' a s.
Proof. intros He [H1 H2]. split; [intros i b Hi; by eapply extends_byte, H1|by eapply extends_byte]. Qed.

Lemma push_words_ok top l st :
  st_ok top st -> 8 * Z.of_nat (length l) <= st.1 ->
  let st' := push_usize_slice l st in
  st_ok top st' /\ extends st st' /\ st'.1 = st.1 - 8 * Z.of_nat (length l) /\
  forall i v, l !! i = Some v -> word_at st' (st'.1 + 8 * Z.of_nat i) v.
Proof.
  intros Hok. induction l as [|v l IH]; intros Hl; cbn zeta.
  - cbn. split_and!; [done|apply extends_refl|lia|done].
  - cbn [push_usize_slice foldr] in *. fold (push_usize_slice l st) in *.
    destruct IH as (I1 & I2 & I3 & I4); [cbn in Hl; lia|]. set (st1 := push_usize_slice l st) in *. clearbody st1.
    cbn [length] in Hl |- *.
    destruct (push_ok top (le_bytes v) st1 I1) as (P1 & P2 & P3 & P4); [cbn; lia|].
    split_and!; [done|by eapply extends_trans|rewrite P3; cbn; lia|]. intros [|i] w Hw.
    + injection Hw as <-. intros j b Hj. rewrite Z.add_0_r. by apply P4.
    + replace (_ + _) with (st1.1 + 8 * Z.of_nat i) by (rewrite P3; change (length (le_bytes v)) with 8%nat; lia).
      eapply word_extends; [done|]. by apply I4.
Qed.

Definition strs_size (l : list str) : Z := foldr (fun s n => Z.of_nat (length s) + 1 + n) 0 l.

Lemma strs_size_nonneg l : 0 <= strs_size l.
Proof. unfold strs_size. induction l as [|s l IH]; cbn [foldr]; lia. Qed.

Lemma push_str_ok top s st :
  st_ok top st -> Z.of_nat (length s) + 1 <= st.1 ->
  st_ok top (push_str s st) /\ extends st (push_str s st) /\
  (push_str s st).1 = st.1 - (Z.of_nat (length s) + 1) /\ cstr_at (push_str s st) (push_str s st).1 s.
Proof.
  intros Hok Hl. assert (length (str_bytes s) = length s) as Hls by apply length_fmap.
  destruct (push_ok top [0] st Hok) as (P1 & P2 & P3 & P4); [cbn; lia|].
  change (push_str s st) with (st_push (str_bytes s) (st_push [0] st)).
  set (st1 := st_push [0] st) in *. clearbody st1. cbn [length] in P3.
  destruct (push_ok top (str_bytes s) st1 P1) as (Q1 & Q2 & Q3 & Q4); [lia|].
  split_and!; [done|by eapply extends_trans|lia|]. split; [done|]. eapply extends_byte; [done|].
  replace ((st_push (str_bytes s) st1).1 + Z.of_nat (length s)) with (st1.1 + Z.of_nat 0) by lia. by apply P4.
Qed.

Lemma push_strs_ok top l st :
  st_ok top st -> strs_size l <= st.1 ->
  exists ps st', push_strs l st = (ps, st') /\ st_ok top st' /\ extends st st' /\ st'.1 = st.1 - strs_size l /\
    length ps = length l /\ forall i s p, l !! i = Some s -> ps !! i = Some p -> cstr_at st' p s.
Proof.
  revert st. induction l as [|s l IH]; intros st Hok Hl.
  - exists [], st. split_and!; try done; [apply extends_refl|cbn; lia].
  - cbn [strs_size foldr] in Hl. fold (strs_size l) in Hl.
    pose proof (strs_size_nonneg l) as Hp.
    destruct (push_str_ok top s st Hok) as (P1 & P2 & P3 & P4); [lia|].
    destruct (IH (push_str s st) P1) as (ps & st' & E & Q1 & Q2 & Q3 & Q4 & Q5); [lia|].
    exists ((push_str s st).1 :: ps), st'. cbn [push_strs]. rewrite E.
    split_and!; [done|done|by eapply extends_trans|cbn; fold (strs_size l); lia|cbn; lia|].
    intros [|i] t p Ht Hpp; cbn in Ht, Hpp; [|by eapply Q5].
    simplify_eq. by eapply cstr_extends.
Qed.

(** The room the stack needs. *)
Definition stack_need (args envs : list str) (auxv : list (Z * Z)) : Z :=
  63 + strs_size envs + strs_size args +
  8 * (Z.of_nat (length args) + Z.of_nat (length envs) + 2 * Z.of_nat (length auxv)).

(** The pointers of a table at [a] refer to the strings [l], and a null pointer ends it. *)
Definition table_at (st : Stack) (a : Z) (l : list str) : Prop :=
  (forall i s, l !! i = Some s -> exists p, word_at st (a + 8 * Z.of_nat i) p /\ cstr_at st p s) /\
  word_at st (a + 8 * Z.of_nat (length l)) 0.

(** A table of pointers pushed above its terminator. *)
Lemma push_table top l ps st :
  st_ok top st -> 8 + 8 * Z.of_nat (length l) <= st.1 -> length ps = length l ->
  (forall i s p, l !! i = Some s -> ps !! i = Some p -> cstr_at st p s) ->
  let st' := push_usize_slice ps (st_push padding_null st) in
  st_ok top st' /\ extends st st' /\ st'.1 = st.1 - 8 - 8 * Z.of_nat (length l) /\ table_at st' st'.1 l.
Proof.
  intros Hok Hl Hlen Hs. cbn zeta.
  destruct (push_ok top padding_null st Hok) as (P1 & P2 & P3 & P4); [cbn; lia|].
  set (st1 := st_push padding_null st) in *. clearbody st1. change (length padding_null) with 8%nat in P3.
  destruct (push_words_ok top ps st1 P1) as (Q1 & Q2 & Q3 & Q4); [lia|].
  set (st' := push_usize_slice ps st1) in *. clearbody st'. rewrite Hlen in Q3.
  split_and!; [done|by eapply extends_trans|lia|]. split.
  - intros i s Hi. destruct (lookup_lt_is_Some_2 ps i) as [p Hp]; [rewrite Hlen; by eapply lookup_lt_Some|].
    exists p. split; [by apply Q4|]. eapply cstr_extends; [exact (extends_trans _ _ _ P2 Q2)|]. by eapply Hs.
  - eapply word_extends; [done|]. replace (st'.1 + 8 * Z.of_nat (length l)) with st1.1 by lia. exact P4.
Qed.

(** The auxiliary vector as words. *)
Lemma pair_words (l : list (Z * Z)) :
  length (mjoin ((fun '(t, v) => [t; v]) <$> l)) = (2 * length l)%nat /\
  forall i t v, l !! i = Some (t, v) -> mjoin ((fun '(t, v) => [t; v]) <$> l) !! (2 * i)%nat = Some t.
Proof.
  induction l as [|[t v] l [IH1 IH2]]; [done|]. rewrite fmap_cons.
  match goal with |- context [mjoin (?x :: ?y)] => change (mjoin (x :: y)) with (x ++ mjoin y) end. split.
  - rewrite length_app, IH1. cbn. lia.
  - intros [|i] t' v' Hi; cbn in Hi; [by injection Hi as <- _|].
    replace (2 * S i)%nat with (S (S (2 * i))) by lia. cbn [app]. by eapply IH2.
Qed.


(** ** Segments *)

(** A walk that ends well has found every page of its list mapped. *)
Lemma process_loop_queried pt start size n vaddr cnt chunks :
  0 <= start -> 0 < size -> start + size <= 274877906944 -> 0 <= cnt <= size -> vaddr mod PAGE_SIZE_4K = 0 ->
  (cnt = 0 /\ vaddr = start / PAGE_SIZE_4K * PAGE_SIZE_4K \/ 0 < cnt /\ vaddr = start + cnt \/ cnt = size) ->
  (cnt < size -> Z.of_nat n = (start + size + 4095) / PAGE_SIZE_4K - vaddr / PAGE_SIZE_4K) ->
  (cnt = size -> n = O) ->
  process_loop pt start size cnt (pages_from vaddr n) = (chunks, Ok tt) ->
  Forall (fun va => is_ok (pt_query pt va) = true) (pages_from vaddr n).
Proof.
  intros Hs Hsz Hend. revert vaddr cnt chunks.
  induction n as [|n IH]; intros vaddr cnt chunks Hcnt Hal Hpos Hn Hdone; [constructor|].
  assert (Hlt : cnt < size) by (destruct (Z.eq_dec cnt size) as [->|]; [specialize (Hdone eq_refl)|]; lia).
  specialize (Hn Hlt). cbn [pages_from process_loop]. destruct (pt_query pt vaddr) as [[pa f]|e] eqn:Hq; [|done].
  rewrite wsub_small by lia. rewrite align_offset_4k_spec, align_down_4k_spec by (unfold is_usize; lia).
  destruct (Z.eqb_spec (Z.min (size - cnt) PAGE_SIZE_4K) 0); [lia|].
  set (first := ((vaddr =? start / PAGE_SIZE_4K * PAGE_SIZE_4K) && negb (start mod PAGE_SIZE_4K =? 0))%bool).
  set (cs := if first then Z.min (Z.min (size - cnt) PAGE_SIZE_4K) (PAGE_SIZE_4K - start mod PAGE_SIZE_4K)
             else Z.min (size - cnt) PAGE_SIZE_4K).
  assert (Hcs : cs = Z.min (size - cnt) (PAGE_SIZE_4K - (start + cnt) mod PAGE_SIZE_4K)).
  { unfold cs, first.
    destruct (Z.eqb_spec vaddr (start / PAGE_SIZE_4K * PAGE_SIZE_4K)), (Z.eqb_spec (start mod PAGE_SIZE_4K) 0); cbn; lia. }
  rewrite wadd_small by lia. destruct (process_loop _ _ _ _ _) as [ch r] eqn:E. intros [= _ ->].
  constructor; [by rewrite Hq|]. eapply (IH (vaddr + PAGE_SIZE_4K) (cnt + cs) ch); try lia. exact E.
Qed.

Section segments.
Context {FA : Type} `{FrameAllocatorLaws FA}.
Implicit Types (sp : AddrSpace) (m : Mach FA).

Lemma map_alloc_overlap sp m start size f pop :
  as_inv sp m -> 0 < size -> start mod PAGE_SIZE_4K = 0 -> size mod PAGE_SIZE_4K = 0 ->
  r_start (as_range sp) <= start -> start + size <= r_end (as_range sp) ->
  ms_overlaps (as_areas sp) (mkRange start (start + size)) = true ->
  exists e st, map_alloc start size f pop (sp, m) = Ret (Err e, st).
Proof.
  intros Hinv Hsz Hs Hz Hlo Hhi Ho. destruct (ai_range _ _ Hinv) as [Hr1 Hr2].
  unfold map_alloc. unfold_M. rewrite check_page_range_spec by lia.
  rewrite (proj2 (contains_range_spec _ _)) by (cbn; lia).
  rewrite (proj2 (is_aligned_4k_spec start)), (proj2 (is_aligned_4k_spec size)) by lia. cbn [andb].
  unfold area_new, from_start_size, checked_add. unfold_M.
  destruct (Z.ltb_spec (start + size) USIZE); [|lia].
  unfold on_areas, ms_map. unfold_M. unfold r_is_empty; cbn [r_start r_end va_range].
  destruct (Z.leb_spec (start + size) start); [lia|]. cbn [negb get_areas].
  rewrite Ho. by eexists _, _.
Qed.

(** A new mapping leaves the other bytes alone. *)
Lemma evolve_user_byte sp m pages pt' m' va :
  as_inv sp m -> 0 <= va < 274877906944 -> Forall user_page pages ->
  Forall (fun p => raw_entry (as_pt sp) p = 0) pages ->
  evolve pages (as_pt sp) m pt' m' -> align_down_4k va ∉ pages ->
  user_byte pt' m' va = user_byte (as_pt sp) m va.
Proof.
  intros Hinv Hva Hu Hz E Hn. pose proof (ai_pt _ _ Hinv) as Hpt. destruct (page_of va Hva) as (Hup & Hle & _).
  unfold user_byte, kaddr. rewrite (frame_at_page (as_pt sp) va), (frame_at_page pt' va) by done. set (p := align_down_4k va) in *.
  rewrite (evolve_frame_at pages (as_pt sp) m pt' m' p Hpt E Hup Hn).
  destruct (frame_at (as_pt sp) p) as [q|] eqn:Ef; [|done]. cbn. f_equal.
  destruct (pi_frames _ _ Hpt p q Hup Ef) as (Hok & Hused & _).
  apply (ev_bytes _ _ _ _ _ E); [done|done| |lia].
  intros (va' & Hva' & Hf'). rewrite Forall_forall in Hz. by rewrite frame_at_empty in Hf' by (by apply Hz).
Qed.

(** A write that succeeds has found its pages mapped. *)
Lemma as_write_queried sp m start buf m' :
  0 <= start -> (0 < length buf)%nat -> start + Z.of_nat (length buf) <= 274877906944 ->
  as_write start buf sp m = Ret (m', Ok tt) ->
  forall va, start <= va < start + Z.of_nat (length buf) -> is_ok (pt_query (as_pt sp) (align_down_4k va)) = true.
Proof.
  intros Hs Hlen He Hw va Hva. revert Hw. unfold as_write, process_area_data, try_from_start_size, checked_add.
  set (size := Z.of_nat (length buf)) in *.
  destruct (Z.ltb_spec (start + size) USIZE); [|lia]. destruct (contains_range _ _); [|done]. cbn [negb].
  rewrite wadd_small, align_up_4k_spec, align_down_4k_spec by (unfold is_usize; lia).
  rewrite PageIter4K_aligned by (apply Z.mod_mul; lia).
  set (n := Z.to_nat _). destruct (process_loop _ _ _ _ _) as [ch [[]|e]] eqn:E; [|done]. intros _.
  eapply (process_loop_queried (as_pt sp) start size n _ 0 ch) in E; try lia.
  eapply (proj1 (Forall_forall _ _) E). apply elem_of_pages_from.
  rewrite align_down_4k_spec by (unfold is_usize; lia).
  exists (Z.to_nat (va / PAGE_SIZE_4K - start / PAGE_SIZE_4K)). split; [|lia]. unfold n. lia.
Qed.

(** A write of nothing changes nothing. *)
Lemma as_write_nil sp m start m' r : as_write start [] sp m = Ret (m', r) -> m' = m.
Proof.
  unfold as_write, process_area_data. destruct (try_from_start_size _ _); [|done].
  destruct (negb _); [intros [= <- _]; by destruct m|].
  destruct (PageIter4K _ _) as [pages|]; [|done].
  assert ((process_loop (as_pt sp) start (Z.of_nat (@length Z [])) 0 pages).1 = []) as E.
  { destruct pages as [|va pages]; [done|]. cbn [process_loop]. by destruct (pt_query _ _) as [[]|]. }
  destruct (process_loop _ _ _ _ _) as [ch x]. cbn in E. subst ch. intros [= <- _]. by destruct m.
Qed.

(** A segment that fits the address space. *)
Record seg_ok (r : AddrRange) (seg : ELFPH) : Prop := {
  so_lo : r_start r <= seg_vaddr seg / PAGE_SIZE_4K * PAGE_SIZE_4K;
  so_hi : seg_vaddr seg + seg_memsz seg + 4095 <= r_end r;
  so_mem : 0 < seg_memsz seg;
  so_file : 0 <= seg_filesz seg <= seg_memsz seg;
  so_off : 0 <= seg_offset seg /\ seg_offset seg + seg_filesz seg < USIZE;
  so_flags : 0 < seg_flags seg < 16;
}.

(** The segment is in memory: the bytes of the file, and zeros behind them (a page the
    allocator could not provide is missing, not wrong). *)
Definition seg_loaded (input : list Z) (seg : ELFPH) sp m : Prop :=
  forall i, 0 <= i < seg_memsz seg ->
    let b := user_byte (as_pt sp) m (seg_vaddr seg + i) in
    if i <? seg_filesz seg then b = input !! Z.to_nat (seg_offset seg + i) else b = Some 0 \/ b = None.

Lemma page_or_nothing sp m va p f :
  0 <= va < 274877906944 -> p = align_down_4k va ->
  (fresh_page (as_pt sp) m p f \/ raw_entry (as_pt sp) p = 0) ->
  user_byte (as_pt sp) m va = Some 0 \/ (user_byte (as_pt sp) m va = None /\ is_ok (pt_query (as_pt sp) p) = false).
Proof.
  intros Hva -> [Hfr|Hz]; [left; by eapply fresh_user_byte|right].
  unfold user_byte, kaddr. rewrite frame_at_page, frame_at_empty by done. split; [done|].
  unfold pt_query. destruct (get_entry _ _) as [e|] eqn:E; [|done].
  apply get_entry_inv in E as [_ ->]. by rewrite Hz.
Qed.

(** The bytes and the areas that were there before are still there. *)
Definition keeps sp m sp' m' : Prop :=
  forall a, 0 <= a < 274877906944 -> view (as_areas sp) a <> None ->
    user_byte (as_pt sp') m' a = user_byte (as_pt sp) m a /\ view (as_areas sp') a <> None.

(** The pages of a segment. *)
Definition seg_start (seg : ELFPH) : Z := seg_vaddr seg / PAGE_SIZE_4K * PAGE_SIZE_4K.
Definition seg_size (seg : ELFPH) : Z :=
  (seg_memsz seg + seg_vaddr seg mod PAGE_SIZE_4K + 4095) / PAGE_SIZE_4K * PAGE_SIZE_4K.

Lemma seg_range r seg : seg_ok r seg ->
  0 < seg_size seg /\ seg_size seg mod PAGE_SIZE_4K = 0 /\ seg_start seg mod PAGE_SIZE_4K = 0 /\
  r_start r <= seg_start seg <= seg_vaddr seg /\
  seg_vaddr seg + seg_memsz seg <= seg_start seg + seg_size seg <= r_end r.
Proof.
  intros [S1 S2 S3 S4 [S5 S5'] S6]. unfold seg_size, seg_start in *. split_and!; try lia; apply Z.mod_mul; lia.
Qed.

(** [map_alloc] for a segment: its pages are fresh or missing, and the rest is kept. *)
Lemma seg_map_alloc seg sp m sp1 m1 :
  as_inv sp m -> seg_ok (as_range sp) seg ->
  map_alloc (seg_start seg) (seg_size seg) (seg_flags seg) true (sp, m) = Ret (Ok tt, (sp1, m1)) ->
  as_inv sp1 m1 /\ as_range sp1 = as_range sp /\ keeps sp m sp1 m1 /\
  forall a, seg_vaddr seg <= a < seg_vaddr seg + seg_memsz seg ->
    view (as_areas sp) a = None /\ view (as_areas sp1) a <> None /\
    (user_byte (as_pt sp1) m1 a = Some 0 \/
     (user_byte (as_pt sp1) m1 a = None /\ is_ok (pt_query (as_pt sp1) (align_down_4k a)) = false)).
Proof.
  intros Hinv Hseg Hma. destruct (ai_range _ _ Hinv) as [Hr1 Hr2].
  destruct (seg_range _ _ Hseg) as (Z1 & Z2 & Z3 & Z4 & Z5). pose proof (so_flags _ _ Hseg) as Hfl.
  set (start := seg_start seg) in *. set (size := seg_size seg) in *. pose proof (ai_wf _ _ Hinv) as Hwf.
  destruct (ms_overlaps (as_areas sp) (mkRange start (start + size))) eqn:Ho.
  { destruct (map_alloc_overlap sp m start size (seg_flags seg) true Hinv) as (e & st & E); try done; [lia..|congruence]. }
  destruct (map_alloc_spec sp m start size (seg_flags seg) true Hinv) as (r & sp2 & m2 & E & Hev & Hr); try done; [lia..|].
  rewrite Hma in E. injection E as <- <- <-. destruct Hr as (Hinv1 & Hrg & Har & Hpages).
  pose proof (fun a => proj1 (proj2 (proj2 (ms_insert_spec (as_areas sp) start
    (mkArea (mkRange start (start + size)) (seg_flags seg) (Alloc true)) a Hwf ltac:(split_and!; cbn; lia) Ho)))) as Hview.
  rewrite <- Har in Hview. cbn [va_range a_flags backend] in Hview.
  assert (forall a, 0 <= a < 274877906944 -> align_down_4k a ∈ range_pages start size <-> start <= a < start + size) as Hpg.
  { intros a Ha. destruct (page_of a Ha) as ([Hu1 Hu2] & Hu3 & _).
    rewrite elem_of_range_pages by (done || lia). split; [lia|]. split; [lia|done]. }
  split; [done|]. split; [done|]. split.
  - intros a Ha Hv. rewrite Hview. destruct (r_contains _ a) eqn:Ec.
    { apply r_contains_spec in Ec. cbn in Ec. exfalso. apply Hv, view_None. intros k ar Hin Hk.
      pose proof (proj1 (ms_overlaps_false _ _ Hwf) Ho k ar Hin) as Hd. cbn in Hd.
      destruct (ms_wf_elem _ _ Hwf Hin) as (Hka & _). cbn in Hka. lia. }
    split; [|done]. eapply evolve_user_byte; [done|done| | |exact Hev|].
    + apply range_pages_user; try done; lia.
    + eapply range_unmapped; try done; lia.
    + rewrite Hpg by done. apply not_true_iff_false in Ec. rewrite r_contains_spec in Ec. exact Ec.
  - intros a Ha. split; [|split].
    + apply view_None. intros k ar Hin Hk. pose proof (proj1 (ms_overlaps_false _ _ Hwf) Ho k ar Hin) as Hd.
      cbn in Hd. destruct (ms_wf_elem _ _ Hwf Hin) as (Hka & _). cbn in Hka. lia.
    + rewrite Hview. rewrite (proj2 (r_contains_spec _ a)) by (cbn; lia). done.
    + eapply page_or_nothing; [lia|done|]. rewrite Forall_forall in Hpages.
      destruct (Hpages (align_down_4k a)) as [?|[? _]]; [apply Hpg; lia|by left|by right].
Qed.

(** The write of the file's bytes into pages that are zero or missing. *)
Lemma seg_write va buf memsz sp m m' :
  as_inv sp m -> r_start (as_range sp) <= va -> va + memsz <= r_end (as_range sp) -> Z.of_nat (length buf) <= memsz ->
  (forall a, va <= a < va + memsz -> user_byte (as_pt sp) m a = Some 0 \/
     (user_byte (as_pt sp) m a = None /\ is_ok (pt_query (as_pt sp) (align_down_4k a)) = false)) ->
  as_write va buf sp m = Ret (m', Ok tt) ->
  as_inv sp m' /\ forall a, 0 <= a < 274877906944 -> user_byte (as_pt sp) m' a =
    if (va <=? a) && (a <? va + Z.of_nat (length buf)) then Some (default 0 (buf !! Z.to_nat (a - va)))
    else user_byte (as_pt sp) m a.
Proof.
  intros Hinv Hlo Hhi Hlen Hpg Hw. destruct (ai_range _ _ Hinv) as [Hr1 Hr2].
  destruct (decide (buf = [])) as [->|Hne].
  - rewrite (as_write_nil _ _ _ _ _ Hw). split; [done|]. intros a Ha. cbn [length].
    destruct (Z.leb_spec va a), (Z.ltb_spec a (va + Z.of_nat 0)); try done; lia.
  - assert (0 < length buf)%nat by (destruct buf; [done|cbn; lia]).
    destruct (as_write_spec sp m va buf Hinv) as (m2 & Hw' & I2 & I3 & _); [lia..| |].
    + intros a Ha. pose proof (as_write_queried sp m va buf m' ltac:(lia) ltac:(lia) ltac:(lia) Hw a Ha) as Hq.
      destruct (Hpg a ltac:(lia)) as [Hz|[_ Hz]]; [|congruence].
      unfold user_byte, kaddr in Hz. by destruct (frame_at _ a).
    + rewrite Hw in Hw'. by injection Hw' as <-.
Qed.

Lemma map_segment_ok input seg sp m sp' m' :
  as_inv sp m -> seg_ok (as_range sp) seg ->
  map_segment input seg (sp, m) = Ret (Ok tt, (sp', m')) ->
  as_inv sp' m' /\ as_range sp' = as_range sp /\ seg_loaded input seg sp' m' /\ keeps sp m sp' m' /\
  forall i, 0 <= i < seg_memsz seg -> view (as_areas sp') (seg_vaddr seg + i) <> None.
Proof.
  intros Hinv Hseg. destruct (ai_range _ _ Hinv) as [Hr1 Hr2]. pose proof (seg_range _ _ Hseg) as (_ & _ & _ & Z4 & Z5).
  pose proof Hseg as [S1 S2 S3 S4 [S5 S5'] S6]. unfold map_segment.
  rewrite align_offset_4k_spec, align_down_4k_spec by (unfold is_usize; lia).
  unfold_M. destruct (_ =? _); [|done].
  rewrite wadd_small, align_up_4k_spec by (unfold is_usize; lia).
  fold (seg_start seg) (seg_size seg).
  destruct (map_alloc _ _ _ _ _) as [[[[]|e] [sp1 m1]]|] eqn:Hma; [|done..].
  destruct (seg_map_alloc seg sp m sp1 m1 Hinv Hseg Hma) as (Hinv1 & Hrg & Hk & Hpg).
  rewrite wadd_small by lia. destruct (_ && _) eqn:Hlen; [|done]. bool_to_prop.
  replace (seg_offset seg + seg_filesz seg - seg_offset seg) with (seg_filesz seg) by lia.
  set (buf := take _ _). unfold write_user. destruct (as_write _ buf sp1 m1) as [[m2 r2]|] eqn:Hw; [|done].
  intros [= -> <- <-].
  assert (Z.of_nat (length buf) = seg_filesz seg) as Hbl by (unfold buf; rewrite length_take, length_drop; lia).
  destruct (seg_write (seg_vaddr seg) buf (seg_memsz seg) sp1 m1 m2) as [Hinv2 Hb]; try done; [rewrite Hrg; lia..|lia|apply Hpg|].
  rewrite Hbl in Hb. split; [done|]. split; [done|]. split; [|split].
  - intros i Hi b. unfold b. rewrite Hb by lia.
    rewrite (proj2 (Z.leb_le (seg_vaddr seg) (seg_vaddr seg + i))) by lia. cbn [andb].
    replace (seg_vaddr seg + i <? seg_vaddr seg + seg_filesz seg) with (i <? seg_filesz seg)
      by (destruct (Z.ltb_spec i (seg_filesz seg)), (Z.ltb_spec (seg_vaddr seg + i) (seg_vaddr seg + seg_filesz seg)); lia || done).
    destruct (Z.ltb_spec i (seg_filesz seg)).
    + unfold buf. rewrite lookup_take_lt, lookup_drop by lia.
      replace (Z.to_nat (seg_offset seg) + Z.to_nat (seg_vaddr seg + i - seg_vaddr seg))%nat
        with (Z.to_nat (seg_offset seg + i)) by lia.
      destruct (input !! _) eqn:Ei; [done|]. apply lookup_ge_None in Ei. lia.
    + destruct (Hpg (seg_vaddr seg + i) ltac:(lia)) as (_ & _ & [->|[-> _]]); auto.
  - intros a Ha Hv. destruct (Hk a Ha Hv) as [<- Hv']. split; [|done]. rewrite Hb by done.
    destruct (Z.leb_spec (seg_vaddr seg) a), (Z.ltb_spec a (seg_vaddr seg + seg_filesz seg)); cbn [andb]; try done.
    by destruct (Hpg a ltac:(lia)) as (? & _).
  - intros i Hi. by destruct (Hpg (seg_vaddr seg + i) ltac:(lia)) as (_ & ? & _).
Qed.

End segments.

Module LoaderDemo.
Definition input : list Z := Z.of_nat <$> seq 0 64.
(** A text and a data segment, the second with 5000 bytes of which 20 are in the file. *)
Definition segs : list ELFPH := [mkELFPH 0 65536 40 40 13; mkELFPH 32 73760 5000 20 11].
Definition run := for_each (S := AddrSpace * Mach BitmapPageAllocator) segs (map_segment input) (Demo.space0, Demo.m1).
End LoaderDemo.



(** A program with one argument starts with a misaligned stack: the ABI requires 16
    bytes. *)
Example one_argument_misaligned :
  exists st, init_stack [$"/musl/basic/brk"] default_env [(0, 0)] USER_STACK_TOP = Ret st /\ st.1 mod 16 = 8.
Proof. eexists. split; [vm_compute; reflexivity|]. vm_compute. reflexivity. Qed.

(** The test list of the build: empty lines and comments are skipped, a group of a libc
    runs under its shell, anything else is run directly. *)
Example testcases_parsed :
  tc_args <$> testcases ($"musl/basic, #off,,/bin/ls") =
  [[$"/musl/busybox"; $"sh"; $"./basic_testcode.sh"]; [$"/bin/ls"]].
Proof. vm_compute. reflexivity. Qed.
