(* ===== verification/Process.v ===== *)
(** Processes: the extended data of a task and the system calls on it
    (src/src/task.rs, src/src/syscall_imp/task/thread.rs), and the page fault
    handler of src/src/mm.rs. A process is a task of the scheduler ([Sched]) with a
    user context ([Trap]), an address space ([AddrSpace]), a descriptor table
    ([FdTable]), a working directory and time statistics. *)
From stdpp Require Import functions relations.
From S2P Require Import Prelude.
From S2P Require Import Errno.
From S2P Require Import MemAddr Frames Paging MemorySet.
From S2P Require Import AddrSpace.
From S2P Require Import FdTable.
From S2P Require Import TimeStat.
From S2P Require Import Mmap.
From S2P Require Import Trap.
From S2P Require Import Sched.
From S2P Require Import Str.
From S2P Require Import PosixFs.
From S2P Require Import Loader.
From S2P Require Import MemTheorems.
Import MappingFlags.

(** * Flags and statuses (src/src/ctypes.rs) *)

(** All bits of [CloneFlags]: 7 to 24 and 29. *)
Definition CloneFlags_all : Z := 0x21ffff80.
Definition CloneFlags_from_bits (bits : Z) : option Z :=
  if Z.land bits (not64 CloneFlags_all) =? 0 then Some bits else None.

Definition WNOHANG : Z := 1.
(** All bits of [WaitFlags]: 0, 1, 3, 30 and 31. *)
Definition WaitFlags_all : Z := 0xc000000b.
Definition WaitFlags_from_bits (bits : Z) : option Z :=
  if Z.land bits (not64 WaitFlags_all) =? 0 then Some bits else None.

Inductive WaitStatus := WS_Exited | WS_Running | WS_NotExist.

Section process.
Context {FA : Type} `{FrameAllocator FA}.
(** The objects behind descriptors, and directories. *)
Context {T D : Type}.
(** The number of CPUs, the kernel's address space, and how a [Vec] grows. *)
Context (SMP : nat) (kernel : AddrSpace) (vec_grow : Z -> Z -> Z).

(** [TaskExt]. The address space is behind a [Mutex] (its owner, 0 when unlocked) and an
    [Arc]; the namespace holds the descriptor table, the current directory and its
    path. *)
Record TaskExt := mkTaskExt {
  proc_id : Z;
  parent_id : Z;
  children : list Z;
  clear_child_tid : Z;
  uctx : TrapFrame;
  aspace : AddrSpace;
  aspace_owner : Z;
  aspace_refs : Z;
  ns_fds : FlattenObjects T;
  ns_dir : D;
  ns_path : str;
  time : TimeStat;
  ext_heap_bottom : Z;
  ext_heap_top : Z;
}.

(** [TaskExt::new]; the namespace is filled by [ns_init_new]. *)
Definition ext_new (id : Z) (u : TrapFrame) (sp : AddrSpace) (heap_bottom : Z)
    (fds : FlattenObjects T) (dir : D) (path : str) : TaskExt :=
  mkTaskExt id 1 [] 0 u sp 0 1 fds dir path ts_new heap_bottom heap_bottom.

(** The system: the scheduler, the processes and the machine. *)
Record PSys := mkPSys { ps_sched : Sys; ps_ext : Z -> TaskExt; ps_mach : Mach FA }.

Definition upd_ext (p : Z) (f : TaskExt -> TaskExt) (ps : PSys) : PSys :=
  mkPSys (ps_sched ps) (<[p := f (ps_ext ps p)]> (ps_ext ps)) (ps_mach ps).
Definition set_sched (s : Sys) (ps : PSys) : PSys := mkPSys s (ps_ext ps) (ps_mach ps).
Definition set_mach (m : Mach FA) (ps : PSys) : PSys := mkPSys (ps_sched ps) (ps_ext ps) m.

Definition set_children (x : list Z) (e : TaskExt) : TaskExt :=
  mkTaskExt (proc_id e) (parent_id e) x (clear_child_tid e) (uctx e) (aspace e) (aspace_owner e)
    (aspace_refs e) (ns_fds e) (ns_dir e) (ns_path e) (time e) (ext_heap_bottom e) (ext_heap_top e).
Definition set_clear_child_tid (x : Z) (e : TaskExt) : TaskExt :=
  mkTaskExt (proc_id e) (parent_id e) (children e) x (uctx e) (aspace e) (aspace_owner e)
    (aspace_refs e) (ns_fds e) (ns_dir e) (ns_path e) (time e) (ext_heap_bottom e) (ext_heap_top e).
Definition set_uctx (x : TrapFrame) (e : TaskExt) : TaskExt :=
  mkTaskExt (proc_id e) (parent_id e) (children e) (clear_child_tid e) x (aspace e) (aspace_owner e)
    (aspace_refs e) (ns_fds e) (ns_dir e) (ns_path e) (time e) (ext_heap_bottom e) (ext_heap_top e).
Definition set_aspace (x : AddrSpace) (owner : Z) (e : TaskExt) : TaskExt :=
  mkTaskExt (proc_id e) (parent_id e) (children e) (clear_child_tid e) (uctx e) x owner
    (aspace_refs e) (ns_fds e) (ns_dir e) (ns_path e) (time e) (ext_heap_bottom e) (ext_heap_top e).

(** [task_ext().aspace.lock()] by the process itself: [Mutex::lock] asserts that the
    caller does not already own the mutex. *)
Definition lock_aspace (p : Z) (ps : PSys) : outcome unit :=
  if aspace_owner (ps_ext ps p) =? p then Panic else Ret tt.

(** * Creation of processes *)

(** The user context of a clone: the parent's frame, past the [ecall], with the new
    stack if one is given and 0 as the result. *)
Definition clone_uctx (tf : TrapFrame) (stack : option Z) : TrapFrame :=
  let u := uctx_from tf in
  let u1 := match stack with Some s => set_sp s u | None => u end in
  set_retval 0 (set_ip (get_ip u1 +w 4) u1).

(** [TaskExt::clone_task] of the current process [p], whose trap frame is [tf]. *)
Definition clone_task (p flags : Z) (stack : option Z) (tf : TrapFrame) (ps : PSys)
  : outcome (result Z AxError * PSys) :=
  match CloneFlags_from_bits (as_u32 (Z.land flags (not64 0x3f))) with
  | None => Panic
  | Some _ =>
      let return_id := s_next_id (ps_sched ps) in
      match lock_aspace p ps with
      | Panic => Panic
      | Ret _ =>
          match clone_or_err vec_grow kernel (aspace (ps_ext ps p)) (ps_mach ps) with
          | Panic => Panic
          | Ret (Err e, m) =>
              Ret (Err e, set_mach m (set_sched (set_ids (return_id + 1)
                            (s_next_ticket (ps_sched ps)) (ps_sched ps)) ps))
          | Ret (Ok new_aspace, m) =>
              match copy_inner (ns_fds (ps_ext ps p)) with
              | Panic => Panic
              | Ret fds =>
                  let e := ps_ext ps p in
                  let ext := ext_new return_id (clone_uctx tf stack) new_aspace 0 fds (ns_dir e) (ns_path e) in
                  match spawn_task SMP (cpumask_full SMP) (ps_sched ps) with
                  | Panic => Panic
                  | Ret sched =>
                      Ret (Ok return_id,
                        upd_ext p (fun e => set_children (children e ++ [return_id]) e)
                          (mkPSys sched (<[return_id := ext]> (ps_ext ps)) m))
                  end
              end
          end
      end
  end.

(** [sys_clone]. *)
Definition sys_clone (p flags user_stack : Z) (tf : TrapFrame) (ps : PSys) : outcome (Z * PSys) :=
  let stack := if user_stack =? 0 then None else Some user_stack in
  match clone_task p flags stack tf ps with
  | Panic => Panic
  | Ret (Ok id, ps') => Ret (syscall_body as_i64 (Ok id), ps')
  | Ret (Err _, ps') => Ret (syscall_body as_i64 (Err ENOMEM), ps')
  end.

(** [spawn_user_task], called by the init task [p]. *)
Definition spawn_user_task (p : Z) (sp : AddrSpace) (u : TrapFrame) (heap_bottom : Z) (ps : PSys)
  : outcome (Z * PSys) :=
  let id := s_next_id (ps_sched ps) in
  match copy_inner (ns_fds (ps_ext ps p)) with
  | Panic => Panic
  | Ret fds =>
      let e := ps_ext ps p in
      match spawn_task SMP (cpumask_full SMP) (ps_sched ps) with
      | Panic => Panic
      | Ret sched =>
          Ret (id, mkPSys sched
            (<[id := ext_new id u sp heap_bottom fds (ns_dir e) (ns_path e)]> (ps_ext ps)) (ps_mach ps))
      end
  end.

(** * Identity *)

Definition sys_getpid (p : Z) (ps : PSys) : Z := syscall_body as_i32 (Ok (as_i32 (proc_id (ps_ext ps p)))).
Definition sys_getppid (p : Z) (ps : PSys) : Z := syscall_body as_i32 (Ok (as_i32 (parent_id (ps_ext ps p)))).
Definition sys_set_tid_address (p addr : Z) (ps : PSys) : Z * PSys :=
  (syscall_body as_i64 (Ok p), upd_ext p (set_clear_child_tid addr) ps).

(** A store of an [i32] by the kernel to a user address: the MMU translates each byte,
    and a byte that is not mapped writable makes the kernel fault and panic. *)
Definition user_translate (sp : AddrSpace) (va : Z) : option Z :=
  match get_entry (as_pt sp) va with
  | Ok e => if Rv64PTE.is_present e && contains (Rv64PTE.flags e) WRITE
            then Some (phys_to_virt (Rv64PTE.paddr e) + va mod PAGE_SIZE_4K) else None
  | Err _ => None
  end.
Definition i32_byte (v i : Z) : Z := Z.land (Z.shiftr (as_u32 v) (8 * i)) 255.
Definition user_store_i32 (sp : AddrSpace) (va v : Z) (m : Mach FA) : outcome (Mach FA) :=
  match mapM (fun i => (fun pa => (pa, i32_byte v i)) <$> user_translate sp (va + i)) [0; 1; 2; 3] with
  | Some ws => Ret (mkMach (m_fa m) (foldl (fun mem '(pa, b) => <[pa := b]> mem) (m_mem m) ws))
  | None => Panic
  end.

(** * Waiting *)

(** The search loop of [wait_pid] over the children from index [i]: the index and
    identifier of the child it answers for, or the status it ends with; [WP_Join c]
    when it has to wait in [c.join()]. *)
Inductive wait_found := WP_Exited (i : nat) (c : Z) | WP_Join (i : nat) (c : Z) | WP_Status (s : WaitStatus).
Fixpoint wait_loop (pid : Z) (st : Z -> TaskState) (i : nat) (cs : list Z) (s : WaitStatus) : wait_found :=
  match cs with
  | [] => WP_Status s
  | c :: cs' =>
      if pid <=? 0 then
        if bool_decide (st c = Exited) then WP_Exited i c else wait_loop pid st (S i) cs' WS_Running
      else if c =? pid then (if bool_decide (st c = Exited) then WP_Exited i c else WP_Join i c)
      else wait_loop pid st (S i) cs' s
  end.

(** How [wait_pid] ends: the identifier of the child that exited, a wait in [join] of
    a child, or no answer. *)
Inductive wait_res := WR_Ok (id : Z) | WR_Join (c : Z) | WR_Err (s : WaitStatus).
(** [Vec::remove]. *)
Definition vec_remove {A} (i : nat) (l : list A) : list A := take i l ++ drop (S i) l.
(** [exit_code << 8] as an [i32]. *)
Definition status_word (code : Z) : Z := as_i32 (code * 256).

(** [wait_pid] of process [p]. The status word goes to [exit_code_ptr] unless it is
    null, and the child leaves the list. *)
Definition wait_pid (p pid exit_code_ptr : Z) (ps : PSys) : outcome (wait_res * PSys) :=
  let e := ps_ext ps p in
  let task c := s_tasks (ps_sched ps) c in
  match wait_loop pid (fun c => t_state (task c)) 0 (children e) WS_NotExist with
  | WP_Exited i c =>
      match (if exit_code_ptr =? 0 then Ret (ps_mach ps)
             else user_store_i32 (aspace e) exit_code_ptr (status_word (t_code (task c))) (ps_mach ps)) with
      | Panic => Panic
      | Ret m => Ret (WR_Ok c, set_mach m (upd_ext p (set_children (vec_remove i (children e))) ps))
      end
  | WP_Join _ c => Ret (WR_Join c, ps)
  | WP_Status st => Ret (WR_Err st, ps)
  end.

(** One round of the loop of [sys_wait4]: the call returns, waits in [join], or
    yields and tries again. *)
Inductive wait4_turn := W4_Return (v : Z) | W4_Join (c : Z) | W4_Yield.
Definition sys_wait4 (p pid exit_code_ptr option : Z) (ps : PSys) : outcome (wait4_turn * PSys) :=
  match WaitFlags_from_bits option with
  | None => Panic
  | Some flags =>
      match wait_pid p pid exit_code_ptr ps with
      | Panic => Panic
      | Ret (WR_Ok id, ps') => Ret (W4_Return (syscall_body as_i64 (Ok id)), ps')
      | Ret (WR_Join c, ps') => Ret (W4_Join c, ps')
      | Ret (WR_Err WS_NotExist, ps') => Ret (W4_Return (syscall_body as_i64 (Err ECHILD)), ps')
      | Ret (WR_Err WS_Running, ps') =>
          if negb (Z.land flags WNOHANG =? 0) then Ret (W4_Return (syscall_body as_i64 (Ok 0)), ps')
          else Ret (W4_Yield, ps')
      | Ret (WR_Err WS_Exited, _) => Panic
      end
  end.

(** * Exit and exec *)

(** [sys_exit] and [sys_exit_group] of process [p] on CPU [c]. *)
Definition sys_exit (c : nat) (p status : Z) (ps : PSys) : outcome PSys :=
  let e := ps_ext ps p in
  match (if clear_child_tid e =? 0 then Ret (ps_mach ps)
         else user_store_i32 (aspace e) (clear_child_tid e) 0 (ps_mach ps)) with
  | Panic => Panic
  | Ret m =>
      match exit_current c status (ps_sched ps) with
      | Panic => Panic
      | Ret s => Ret (mkPSys s (ps_ext ps) m)
      end
  end.
Definition sys_exit_group (c : nat) (status : Z) (ps : PSys) : outcome PSys :=
  match exit_current c status (ps_sched ps) with
  | Panic => Panic
  | Ret s => Ret (set_sched s ps)
  end.

(** What the loader uses, and a bound on chains of ELF interpreters. *)
Context (env : LoaderEnv) (interp_fuel : nat).

(** [task::exec] of process [p]. On success the user context is entered and the
    function does not return: the guard of the address space is never dropped. *)
Definition exec (p : Z) (name : str) (ps : PSys) : outcome (result unit AxError * PSys) :=
  match lock_aspace p ps with
  | Panic => Panic
  | Ret _ =>
      let e := ps_ext ps p in
      if negb (aspace_refs e =? 1) then Ret (Err Unsupported, ps)
      else
        let fin (r : result unit AxError) (st : AddrSpace * Mach FA) (owner : Z) (f : TaskExt -> TaskExt) :=
          Ret (r, set_mach (snd st) (upd_ext p (fun e => f (set_aspace (fst st) owner e)) ps)) in
        match unmap_user_areas (aspace e, ps_mach ps) with
        | Panic => Panic
        | Ret (Err er, st) => fin (Err er) st 0 (fun e => e)
        | Ret (Ok _, st) =>
            match load_user_app env interp_fuel [name] st with
            | Panic => Panic
            | Ret (Err _, st') => fin (Err NotFound) st' 0 (fun e => e)
            | Ret (Ok (entry, ustack), st') => fin (Ok tt) st' p (set_uctx (uctx_new entry ustack 0))
            end
        end
  end.

(** The number of non-empty components of a path. *)
Definition components (path : str) : nat :=
  length (List.filter (fun p => negb (bool_decide (p = []))) (split slash path)).

(** [sys_execve]: the result if it returns to the caller, or [None] when the new program
    is entered. The arguments and the environment of the caller are ignored. *)
Definition sys_execve (p : Z) (path : option str) (ps : PSys) : outcome (option Z * PSys) :=
  match char_ptr_to_str path with
  | Err e => Ret (Some (syscall_body as_i64 (Err e)), ps)
  | Ok path =>
      if (1 <? components path)%nat then Ret (Some (syscall_body as_i64 (Err EINVAL)), ps)
      else match exec p path ps with
           | Panic => Panic
           | Ret (Ok _, ps') => Ret (None, ps')
           | Ret (Err _, ps') => Ret (Some (syscall_body as_i64 (Err ENOSYS)), ps')
           end
  end.

(** [handle_page_fault] of src/src/mm.rs on CPU [c] running process [p]: a fault the
    address space cannot serve ends the process with code -1. *)
Definition mm_handle_page_fault (c : nat) (p vaddr access_flags : Z) (is_user : bool) (ps : PSys)
  : outcome (bool * PSys) :=
  if negb is_user then Ret (false, ps)
  else match lock_aspace p ps with
       | Panic => Panic
       | Ret _ =>
           match handle_page_fault vaddr access_flags (aspace (ps_ext ps p), ps_mach ps) with
           | Panic => Panic
           | Ret (r, (sp, m)) =>
               let ps1 := set_mach m (upd_ext p (set_aspace sp 0) ps) in
               match r with
               | Ok true => Ret (true, ps1)
               | _ => match exit_current c (-1) (ps_sched ps1) with
                      | Panic => Panic
                      | Ret s => Ret (true, set_sched s ps1)
                      end
               end
           end
       end.

(** * The processes as a transition system *)

(** A process makes a system call or faults, or the scheduler takes a step. *)
Inductive pstep (ps : PSys) : PSys -> Prop :=
| ps_clone p flags stack tf r ps' : sys_clone p flags stack tf ps = Ret (r, ps') -> pstep ps ps'
| ps_wait p pid ptr opt r ps' : sys_wait4 p pid ptr opt ps = Ret (r, ps') -> pstep ps ps'
| ps_tid p addr : pstep ps (snd (sys_set_tid_address p addr ps))
| ps_exec p path r ps' : sys_execve p path ps = Ret (r, ps') -> pstep ps ps'
| ps_exit c p status ps' : sys_exit c p status ps = Ret ps' -> pstep ps ps'
| ps_exit_group c status ps' : sys_exit_group c status ps = Ret ps' -> pstep ps ps'
| ps_fault c p va fl u r ps' : mm_handle_page_fault c p va fl u ps = Ret (r, ps') -> pstep ps ps'
| ps_sched_step s' : step SMP (ps_sched ps) s' -> pstep ps (set_sched s' ps).

(** Every child has one parent, occurs once in its list and was created before. *)
Record process_tree (ps : PSys) : Prop := {
  pt_once : forall p, NoDup (children (ps_ext ps p));
  pt_old : forall p c, c ∈ children (ps_ext ps p) -> c < s_next_id (ps_sched ps);
  pt_parent : forall p q c, c ∈ children (ps_ext ps p) -> c ∈ children (ps_ext ps q) -> p = q;
}.

(** A child that was waited for: it belongs to nobody and its identifier is used up. *)
Definition reaped (c : Z) (ps : PSys) : Prop :=
  c < s_next_id (ps_sched ps) /\ forall p, c ∉ children (ps_ext ps p).

(** ** The scheduler under the processes *)

Lemma exit_current_next_id c code s s' :
  exit_current c code s = Ret s' -> s_next_id s' = s_next_id s.
Proof. unfold exit_current. repeat case_match; intros; simplify_eq; done. Qed.

Lemma spawn_task_next_id mask s s' :
  spawn_task SMP mask s = Ret s' -> s_next_id s' = s_next_id s + 1.
Proof.
  unfold spawn_task, select_run_queue_index. repeat case_match; intros; simplify_eq; done.
Qed.

Lemma step_next_id s s' : step SMP s s' -> s_next_id s <= s_next_id s'.
Proof.
  destruct 1 as [c now ext s' _ _ E | c now o s' _ _ _ _ E | c _ _ _]; [..|done].
  - cut (s_next_id s' = s_next_id s); [lia|]. revert E.
    unfold Sched.exec, put_task_with_state, resched, switch_to, clear_prev_task_on_cpu, notify_exit,
      cancel_events, wait_until, wait_timeout_until, blocked_resched, check_events, wakeup_callback,
      notify_all, notify_one, unblock_one_task, unblock_task, select_run_queue_index.
    repeat case_match; intros; simplify_eq; done.
  - destruct o; cbn in E; [..| apply spawn_task_next_id in E; lia | |]; revert E;
      unfold yield_current, wait_timeout, wait_timeout_enter, sleep_until, exit_current,
        set_alarm_wakeup, blocked_resched;
      repeat case_match; intros; simplify_eq; done.
Qed.

(** ** The lists of children *)

Lemma upd_ext_children p f ps q :
  (forall e, children (f e) = children e) ->
  children (ps_ext (upd_ext p f ps) q) = children (ps_ext ps q).
Proof.
  intros Hf. cbn. destruct (decide (p = q)) as [<-|Hne].
  - by rewrite fn_lookup_insert, Hf.
  - by rewrite fn_lookup_insert_ne.
Qed.

Lemma wait_loop_exited pid st i cs s j c :
  wait_loop pid st i cs s = WP_Exited j c ->
  (i <= j)%nat /\ cs !! (j - i)%nat = Some c /\ st c = Exited /\ (0 < pid -> c = pid).
Proof. clear vec_grow.
  revert i s. induction cs as [|x cs IH]; intros i s; cbn; [done|].
  assert (forall s', wait_loop pid st (S i) cs s' = WP_Exited j c ->
    (i <= j)%nat /\ (x :: cs) !! (j - i)%nat = Some c /\ st c = Exited /\ (0 < pid -> c = pid)) as Hrec.
  { intros s' E. destruct (IH _ _ E) as (Hle & Hl & Hs & Hc). split; [lia|].
    by replace (j - i)%nat with (S (j - S i)) by lia. }
  case_bool_decide as Hx; repeat case_match; intros E; simplify_eq; try by eapply Hrec.
  - bool_to_prop. rewrite Nat.sub_diag. split_and!; [lia|done|done|lia].
  - bool_to_prop. rewrite Nat.sub_diag. split_and!; [lia|done|done|done].
Qed.

(** What a step does to the lists of children and the identifier counter. *)
Inductive kids_step (ps ps' : PSys) : Prop :=
| kids_same :
    (forall q, children (ps_ext ps' q) = children (ps_ext ps q)) ->
    s_next_id (ps_sched ps) <= s_next_id (ps_sched ps') -> kids_step ps ps'
| kids_clone p :
    (forall q, children (ps_ext ps' q) =
       let l := if decide (q = s_next_id (ps_sched ps)) then [] else children (ps_ext ps q) in
       if decide (q = p) then l ++ [s_next_id (ps_sched ps)] else l) ->
    s_next_id (ps_sched ps') = s_next_id (ps_sched ps) + 1 -> kids_step ps ps'
| kids_wait p i c :
    children (ps_ext ps p) !! i = Some c ->
    (forall q, children (ps_ext ps' q) =
       if decide (q = p) then vec_remove i (children (ps_ext ps p)) else children (ps_ext ps q)) ->
    s_next_id (ps_sched ps') = s_next_id (ps_sched ps) -> kids_step ps ps'.

Lemma clone_kids p flags stack tf ps r ps' :
  clone_task p flags stack tf ps = Ret (r, ps') -> kids_step ps ps'.
Proof.
  unfold clone_task. repeat case_match; intros E; simplify_eq.
  - apply (kids_clone _ _ p); cbn; [|by eapply spawn_task_next_id].
    intros q. set (n := s_next_id (ps_sched ps)).
    destruct (decide (q = p)) as [->|Hqp]; [rewrite fn_lookup_insert; cbn|rewrite fn_lookup_insert_ne by done];
      (destruct (decide _) as [->|Hn]; [by rewrite fn_lookup_insert|by rewrite fn_lookup_insert_ne by done]).
  - apply kids_same; cbn; [done|lia].
Qed.

Lemma wait_pid_kids p pid ptr ps r ps' : wait_pid p pid ptr ps = Ret (r, ps') -> kids_step ps ps'.
Proof.
  unfold wait_pid. destruct (wait_loop _ _ _ _ _) as [i c| |] eqn:E.
  - apply wait_loop_exited in E as (_ & Hl & _). rewrite Nat.sub_0_r in Hl.
    repeat case_match; intros; simplify_eq; (apply (kids_wait _ _ p i c); [done| |done]);
      intros q; cbn; (destruct (decide (q = p)) as [->|Hne];
        [by rewrite fn_lookup_insert|by rewrite fn_lookup_insert_ne]).
  - intros [= <- <-]. by apply kids_same.
  - intros [= <- <-]. by apply kids_same.
Qed.

Lemma exec_kids p name ps r ps' : exec p name ps = Ret (r, ps') -> kids_step ps ps'.
Proof.
  unfold exec. repeat case_match; intros; simplify_eq; try (by apply kids_same);
    (apply kids_same; [|done]); intros q; by apply upd_ext_children.
Qed.

Lemma fault_kids c p va fl u ps r ps' :
  mm_handle_page_fault c p va fl u ps = Ret (r, ps') -> kids_step ps ps'.
Proof.
  unfold mm_handle_page_fault. repeat case_match; intros; simplify_eq; try (by apply kids_same);
    (apply kids_same; [intros q; by apply upd_ext_children|]); [done|..]; cbn;
    match goal with E : exit_current _ _ _ = Ret _ |- _ => by rewrite (exit_current_next_id _ _ _ _ E) end.
Qed.

Lemma pstep_kids ps ps' : pstep ps ps' -> kids_step ps ps'.
Proof.
  destruct 1 as [p fl st tf r ps' E|p pid ptr opt r ps' E|p a|p path r ps' E|c p st ps' E|c st ps' E
    |c p va fl u r ps' E|s' E].
  - revert E. unfold sys_clone. repeat case_match; intros; simplify_eq; by eapply clone_kids.
  - revert E. unfold sys_wait4. repeat case_match; intros; simplify_eq; by eapply wait_pid_kids.
  - apply kids_same; [intros q; by apply upd_ext_children|done].
  - revert E. unfold sys_execve.
    repeat case_match; intros; simplify_eq; first [by eapply exec_kids|by apply kids_same].
  - revert E. unfold sys_exit. repeat case_match; intros; simplify_eq; apply kids_same; cbn; try done;
      match goal with E : exit_current _ _ _ = Ret _ |- _ => by rewrite (exit_current_next_id _ _ _ _ E) end.
  - revert E. unfold sys_exit_group. case_match eqn:E; intros; simplify_eq. apply kids_same; [done|].
    cbn. by rewrite (exit_current_next_id _ _ _ _ E).
  - by eapply fault_kids.
  - apply kids_same; [done|]. by apply step_next_id.
Qed.

Lemma vec_remove_spec (l : list Z) i c :
  l !! i = Some c -> NoDup l ->
  NoDup (vec_remove i l) /\ forall x, x ∈ vec_remove i l <-> x ∈ l /\ x <> c.
Proof. clear vec_grow.
  intros Hi Hnd. pose proof (delete_Permutation l i c Hi) as HP.
  rewrite delete_take_drop in HP. fold (vec_remove i l) in HP.
  generalize dependent (vec_remove i l). intros l' HP. rewrite HP in Hnd.
  apply NoDup_cons in Hnd as [Hc Hnd]. split; [done|].
  intros x. rewrite HP, elem_of_cons. naive_solver.
Qed.

Lemma kids_step_tree ps ps' : kids_step ps ps' -> process_tree ps -> process_tree ps'.
Proof.
  intros [Hk Hn|p Hk Hn|p i c Hi Hk Hn] [H1 H2 H3].
  - split; intros *; rewrite ?Hk; [done| |by eauto]. intros ?%H2. lia.
  - assert (forall q x, x ∈ children (ps_ext ps' q) ->
      (x ∈ children (ps_ext ps q) /\ x < s_next_id (ps_sched ps)) \/ (q = p /\ x = s_next_id (ps_sched ps))) as Hin.
    { intros q x. rewrite Hk. cbn. repeat case_decide; rewrite ?elem_of_app, ?list_elem_of_singleton, ?elem_of_nil;
        naive_solver. }
    split.
    + intros q. rewrite Hk. cbn.
      assert (NoDup (if decide (q = s_next_id (ps_sched ps)) then [] else children (ps_ext ps q))) as Hl.
      { case_decide; [constructor|done]. }
      destruct (decide (q = p)); [|done]. apply NoDup_app. split; [done|]. split; [|by apply NoDup_singleton].
      intros x Hx ->%list_elem_of_singleton. case_decide; [by apply elem_of_nil in Hx|apply H2 in Hx; lia].
    + intros q x [[_ ?]|[_ ->]]%Hin; lia.
    + intros q r x [[Hq ?]|[-> ->]]%Hin [[Hr ?]|[-> ?]]%Hin; first [lia|by eapply H3|done].
  - destruct (vec_remove_spec _ _ _ Hi (H1 p)) as [Hnd Hrm].
    assert (forall q x, x ∈ children (ps_ext ps' q) -> x ∈ children (ps_ext ps q)) as Hin.
    { intros q x. rewrite Hk. case_decide; [subst; rewrite Hrm; naive_solver|done]. }
    split.
    + intros q. rewrite Hk. by case_decide.
    + intros q x Hx. rewrite Hn. by eapply H2, Hin.
    + intros q r x Hq Hr. by eapply H3; apply Hin.
Qed.

Lemma kids_step_reaped ps ps' c : kids_step ps ps' -> process_tree ps -> reaped c ps -> reaped c ps'.
Proof.
  intros [Hk Hn|p Hk Hn|p i d Hi Hk Hn] HT [Hc Hr]; (split; [lia|]); intros q; rewrite Hk; [done|..].
  - cbn. repeat case_decide; rewrite ?elem_of_app, ?list_elem_of_singleton, ?elem_of_nil;
      naive_solver lia.
  - case_decide; [|done]. subst. rewrite (proj2 (vec_remove_spec _ _ _ Hi (pt_once _ HT p))). naive_solver.
Qed.

Lemma wait_pid_reaps p pid ptr ps c ps' :
  process_tree ps -> wait_pid p pid ptr ps = Ret (WR_Ok c, ps') ->
  c ∈ children (ps_ext ps p) /\ t_state (s_tasks (ps_sched ps) c) = Exited /\ reaped c ps'.
Proof.
  unfold wait_pid. intros HT. destruct (wait_loop _ _ _ _ _) as [i c'| |] eqn:E; [|done..].
  apply wait_loop_exited in E as (_ & Hl & Hs & _). rewrite Nat.sub_0_r in Hl.
  pose proof (list_elem_of_lookup_2 _ _ _ Hl) as Hin.
  destruct (vec_remove_spec _ _ _ Hl (pt_once _ HT p)) as [_ Hrm].
  repeat case_match; intros; simplify_eq; (split_and!; [done|done|]);
    (split; [by apply (pt_old _ HT p)|]); intros q; cbn;
    (destruct (decide (q = p)) as [->|Hne];
      [rewrite fn_lookup_insert; cbn; rewrite Hrm; naive_solver
      |rewrite fn_lookup_insert_ne by done; intros Hq; by destruct Hne; apply (pt_parent _ HT q p _ Hq)]).
Qed.

(** C15: The lists of children stay a forest: whatever the processes and the scheduler
    do, a process has one parent at most, occurs once in its list and was created
    before. *)
Theorem process_tree_invariant ps ps' : process_tree ps -> rtc pstep ps ps' -> process_tree ps'.
Proof.
  intros HT Hs. induction Hs as [|ps ps1 ps2 Hs _ IH]; [done|].
  apply IH. eapply kids_step_tree; [by apply pstep_kids|done].
Qed.

(** C21: [wait_pid] hands out a child that has exited, and only once: no process is ever
    given the same identifier again, whatever happens in between. *)
Theorem wait_returns_once ps p pid ptr c ps1 ps2 q pid' ptr' c' ps3 :
  process_tree ps -> wait_pid p pid ptr ps = Ret (WR_Ok c, ps1) -> rtc pstep ps1 ps2 ->
  wait_pid q pid' ptr' ps2 = Ret (WR_Ok c', ps3) ->
  t_state (s_tasks (ps_sched ps) c) = Exited /\ t_state (s_tasks (ps_sched ps2) c') = Exited /\ c' <> c.
Proof.
  intros HT E1 Hs E2. destruct (wait_pid_reaps _ _ _ _ _ _ HT E1) as (_ & Hx & Hr).
  assert (process_tree ps2 /\ reaped c ps2) as [HT2 Hr2].
  { pose proof (kids_step_tree _ _ (wait_pid_kids _ _ _ _ _ _ E1) HT) as HT1. revert HT1 Hr. clear - Hs.
    induction Hs as [|ps1 ps2 ps3 Hs _ IH]; [done|]. intros HT Hr. apply pstep_kids in Hs.
    apply IH; [by eapply kids_step_tree|by eapply kids_step_reaped]. }
  destruct (wait_pid_reaps _ _ _ _ _ _ HT2 E2) as (Hin & Hx' & _).
  split_and!; [done|done|]. intros ->. by apply (proj2 Hr2 q).
Qed.

(** ** [wait4] *)

Lemma wait_loop_any pid st i cs s : pid <= 0 ->
  wait_loop pid st i cs s =
  match list_find (fun c => st c = Exited) cs with
  | Some (j, c) => WP_Exited (i + j) c
  | None => WP_Status (match cs with [] => s | _ => WS_Running end)
  end.
Proof. clear vec_grow.
  intros Hp. revert i s. induction cs as [|c cs IH]; intros i s; cbn; [done|].
  rewrite (proj2 (Z.leb_le pid 0)) by done. case_bool_decide as Hc.
  - rewrite decide_True by done. by rewrite Nat.add_0_r.
  - rewrite decide_False by done. rewrite IH. destruct (list_find _ cs) as [[j d]|]; cbn.
    + f_equal. lia.
    + by destruct cs.
Qed.

Lemma wait_loop_one pid st i cs s : 0 < pid ->
  wait_loop pid st i cs s =
  match list_find (fun c => c = pid) cs with
  | Some (j, _) => if decide (st pid = Exited) then WP_Exited (i + j) pid else WP_Join (i + j) pid
  | None => WP_Status s
  end.
Proof. clear vec_grow.
  intros Hp. revert i s. induction cs as [|c cs IH]; intros i s; cbn; [done|].
  rewrite (proj2 (Z.leb_gt pid 0)) by done. destruct (Z.eqb_spec c pid) as [->|Hc].
  - rewrite (decide_True (P := pid = pid)) by done. rewrite Nat.add_0_r.
    case_bool_decide; [by rewrite decide_True|by rewrite decide_False].
  - rewrite (decide_False (P := c = pid)) by done. rewrite IH.
    destruct (list_find _ cs) as [[j d]|]; cbn; [|done]. by replace (i + S j)%nat with (S (i + j)) by lia.
Qed.

(** The state after a child at index [i] was reaped without a status pointer. *)
Definition reap (p : Z) (i : nat) (ps : PSys) : PSys :=
  upd_ext p (set_children (vec_remove i (children (ps_ext ps p)))) ps.

(** [wait4] for any child: the first child in creation order that has exited is
    returned and leaves the list; without children the call fails with [ECHILD]; if
    all are running it returns 0 under [WNOHANG] and yields otherwise. *)
Theorem wait4_any_child p pid opt ps :
  pid <= 0 -> WaitFlags_from_bits opt = Some opt ->
  let cs := children (ps_ext ps p) in
  sys_wait4 p pid 0 opt ps =
  Ret match list_find (fun c => t_state (s_tasks (ps_sched ps) c) = Exited) cs with
      | Some (i, c) => (W4_Return (as_i64 c), reap p i ps)
      | None =>
          (if decide (cs = []) then W4_Return (- code ECHILD)
           else if Z.land opt WNOHANG =? 0 then W4_Yield else W4_Return 0, ps)
      end.
Proof.
  intros Hp Ho cs. unfold sys_wait4, wait_pid. rewrite Ho, wait_loop_any by done. cbn [Nat.add]. fold cs.
  destruct (list_find _ _) as [[i c]|]; [done|]. destruct cs; cbn; [done|]. by destruct (_ =? 0).
Qed.

(** [wait4] for the process [pid]: a child that has exited is returned at once and a
    process that is not a child gives [ECHILD]; for a running child the caller sleeps
    until it exits, whatever the options are, [WNOHANG] included. *)
Theorem wait4_one_child p pid opt ps :
  0 < pid -> WaitFlags_from_bits opt = Some opt ->
  sys_wait4 p pid 0 opt ps =
  Ret match list_find (fun c => c = pid) (children (ps_ext ps p)) with
      | Some (i, _) =>
          if decide (t_state (s_tasks (ps_sched ps) pid) = Exited)
          then (W4_Return (as_i64 pid), reap p i ps) else (W4_Join pid, ps)
      | None => (W4_Return (- code ECHILD), ps)
      end.
Proof.
  intros Hp Ho. unfold sys_wait4, wait_pid. rewrite Ho, wait_loop_one by done. cbn [Nat.add].
  destruct (list_find _ _) as [[i c]|]; [|done]. by destruct (decide _).
Qed.

(** ** [clone] *)


(** ** [execve] *)

Lemma unmap_user_areas_empty st st' :
  unmap_user_areas (FA := FA) st = Ret (Ok tt, st') -> as_areas (fst st') = [].
Proof.
  destruct st as [sp m]. unfold unmap_user_areas, as_clear, on_areas, ms_clear, get_space, assert_. unfold_M.
  destruct (forallb _ _); [|done]. unfold get_areas, set_areas.
  repeat case_match; intros; simplify_eq; done.
Qed.

(** A successful [execve] never releases the lock of the address space: the next
    page fault or [clone] of the process, and any system call that takes the lock,
    panics the kernel. *)
Theorem execve_keeps_lock p path ps ps' :
  sys_execve p path ps = Ret (None, ps') ->
  lock_aspace p ps' = Panic /\
  (forall c va fl, mm_handle_page_fault c p va fl true ps' = Panic) /\
  (forall flags stack tf, sys_clone p flags stack tf ps' = Panic).
Proof.
  intros He. assert (aspace_owner (ps_ext ps' p) = p) as Ho.
  { revert He. unfold sys_execve, exec. repeat case_match; intros; simplify_eq. cbn.
    by rewrite fn_lookup_insert. }
  assert (lock_aspace p ps' = Panic) as Hl by (unfold lock_aspace; by rewrite Ho, Z.eqb_refl).
  split; [done|]. split.
  - intros c va fl. unfold mm_handle_page_fault. by rewrite Hl.
  - intros flags stack tf. unfold sys_clone, clone_task. rewrite Hl. by destruct (CloneFlags_from_bits _).
Qed.

(** An [execve] of a program that cannot be read returns [ENOSYS] to a process that no
    longer has any memory: its user areas were removed before the program was
    looked up. *)
Theorem execve_failure_loses_memory p path ps sp m e :
  from_utf8 path = Some path -> (components path <= 1)%nat ->
  aspace_owner (ps_ext ps p) <> p -> aspace_refs (ps_ext ps p) = 1 ->
  unmap_user_areas (aspace (ps_ext ps p), ps_mach ps) = Ret (Ok tt, (sp, m)) ->
  le_read env path = Err e ->
  exists ps', sys_execve p (Some path) ps = Ret (Some (- code ENOSYS), ps') /\
    as_areas (aspace (ps_ext ps' p)) = [].
Proof.
  intros Hutf Hc Ho Hr Hu Hl. pose proof (unmap_user_areas_empty _ _ Hu) as Ha.
  unfold sys_execve, char_ptr_to_str, exec, lock_aspace. rewrite Hutf, (proj2 (Nat.ltb_ge _ _)) by done.
  rewrite (proj2 (Z.eqb_neq _ _) Ho), Hr, Hu. unfold load_user_app. unfold_M. rewrite Hl. cbn.
  eexists. split; [done|]. cbn. by rewrite fn_lookup_insert.
Qed.
End process.

(** ** A system with one parent and its children *)

Module ProcDemo.
Notation PS := (PSys (FA := BitmapPageAllocator) (T := nat) (D := unit)).
Definition vec_grow (cap len : Z) : Z := Z.max (2 * cap) len.
Definition kernel : AddrSpace :=
  mkAS (mkRange 18446743798831644672 18446744073709547520) [] (mkPT 0 ∅ ∅ ∅).
Definition env : LoaderEnv := mkLoaderEnv (fun _ => Err NotFound) (fun p => p) [slash] (fun _ => None).
(** A loader whose only file is a program without segments. *)
Definition env_prog : LoaderEnv :=
  mkLoaderEnv (fun _ => Ok []) (fun p => p) [slash] (fun _ => Some (mkElf [] true ET_Executable 4096 0 0 0 [])).
Definition frame : TrapFrame := mkTF (fun r => r) 1000 0.
Definition ext (p : Z) : TaskExt (T := nat) (D := unit) :=
  mkTaskExt p 1 (if p =? 2 then [10; 11] else []) 0 frame Demo.space0 0 1 fo_new tt [slash] ts_new 0 0.
(** Tasks 10 and 11 have exited. *)
Definition sched : Sys := set_ids 12 1 (init 1).
Definition ps : PS := mkPSys sched ext Demo.m1.
End ProcDemo.

Lemma demo_process_tree : process_tree ProcDemo.ps.
Proof.
  split; cbn.
  - intros p. destruct (p =? 2); repeat constructor; set_solver.
  - intros p c. destruct (p =? 2); set_unfold; lia.
  - intros p q c. destruct (Z.eqb_spec p 2), (Z.eqb_spec q 2); set_unfold; intuition congruence.
Qed.

Notation demo_wait := (wait_pid (FA := BitmapPageAllocator) (T := nat) (D := unit)).

Lemma process_tree_invariant_witness :
  exists ps', demo_wait 2 (-1) 0 ProcDemo.ps = Ret (WR_Ok 10, ps') /\ process_tree ps'.
Proof.
  eexists. split; [reflexivity|].
  eapply (process_tree_invariant 1 ProcDemo.kernel ProcDemo.vec_grow ProcDemo.env 1 ProcDemo.ps _ demo_process_tree).
  eapply rtc_l; [|apply rtc_refl]. eapply (ps_wait _ _ _ _ _ _ 2 (-1) 0 0). reflexivity.
Defined.

Lemma wait_returns_once_witness :
  exists ps1 ps3, demo_wait 2 (-1) 0 ProcDemo.ps = Ret (WR_Ok 10, ps1) /\
    demo_wait 2 (-1) 0 ps1 = Ret (WR_Ok 11, ps3) /\ 11 <> 10.
Proof.
  eexists _, _. split; [reflexivity|]. split; [reflexivity|].
  eapply (wait_returns_once 1 ProcDemo.kernel ProcDemo.vec_grow ProcDemo.env 1 ProcDemo.ps 2 (-1) 0 10 _ _ 2 (-1) 0 11 _
    demo_process_tree); [reflexivity|apply rtc_refl|reflexivity].
Defined.

Lemma wait4_any_child_witness :
  exists ps', sys_wait4 2 (-1) 0 1 ProcDemo.ps = Ret (W4_Return 10, ps').
Proof.
  eexists. rewrite (wait4_any_child 2 (-1) 1 ProcDemo.ps ltac:(lia) eq_refl). reflexivity.
Defined.

Lemma wait4_one_child_witness : sys_wait4 2 7 0 1 ProcDemo.ps = Ret (W4_Return (- code ECHILD), ProcDemo.ps).
Proof. rewrite (wait4_one_child 2 7 1 ProcDemo.ps ltac:(lia) eq_refl). reflexivity. Defined.

Lemma execve_keeps_lock_witness :
  exists ps', sys_execve ProcDemo.env_prog 1 2 (Some ($"prog")) ProcDemo.ps = Ret (None, ps') /\ lock_aspace 2 ps' = Panic.
Proof.
  assert (match sys_execve ProcDemo.env_prog 1 2 (Some ($"prog")) ProcDemo.ps with
          | Ret (None, _) => true | _ => false end = true) as E by (vm_compute; reflexivity).
  destruct (sys_execve ProcDemo.env_prog 1 2 (Some ($"prog")) ProcDemo.ps) as [[[v|] ps']|] eqn:Er;
    [discriminate E| |discriminate E].
  exists ps'. split; [reflexivity|].
  exact (proj1 (execve_keeps_lock 1 ProcDemo.kernel ProcDemo.vec_grow ProcDemo.env_prog 1 2 (Some ($"prog")) ProcDemo.ps ps' Er)).
Defined.

Lemma execve_failure_loses_memory_witness :
  exists ps', sys_execve ProcDemo.env 1 2 (Some ($"prog")) ProcDemo.ps = Ret (Some (- code ENOSYS), ps') /\
    as_areas (aspace (ps_ext ps' 2)) = [].
Proof.
  eapply (execve_failure_loses_memory ProcDemo.env 1 2 ($"prog") ProcDemo.ps Demo.space0 Demo.m1 NotFound);
    try reflexivity. discriminate.
Defined.

(** The parent of the demo system calls [clone] from the user state of [Trap]. *)
Notation demo_clone := (clone_task (FA := BitmapPageAllocator) (T := nat) (D := unit) 1 ProcDemo.kernel ProcDemo.vec_grow).

