(* ===== verification/Isolation.v ===== *)
(** Memory isolation of processes: the user address spaces of the running processes
    share the frame allocator, the physical memory and the tables of the kernel
    half; the operations that one process makes on its own space leave the bytes
    of every other process alone.

    The system composes what [AddrSpace] models: [new_user_aspace] (axmm/src/lib.rs,
    called by [run_user_app] of src/main.rs), and [map_alloc], [unmap], [write] and
    [handle_page_fault] of the space of the process (axmm/src/aspace.rs). *)
From S2P Require Import Prelude Errno MemAddr Frames Paging MemorySet AddrSpace.
From S2P Require Import AddrSpaceInv AddrSpaceCorrect UserMem MemTheorems.
Import MappingFlags.

(** [USER_SPACE_BASE], [USER_SPACE_SIZE] and the kernel range of the platform
    configuration. *)
Definition USER_SPACE_BASE : Z := 4096.
Definition USER_SPACE_SIZE : Z := 274877902848.
Definition KERNEL_RANGE : AddrRange := mkRange 18446743798831644672 18446744073709547520.

(** The frames that hold the user memory of a page table. *)
Definition user_frame (pt : PageTable) (q : Z) : Prop :=
  exists va, user_page va /\ frame_at pt va = Some q.

Section isolation.
Context {FA : Type} `{FrameAllocatorLaws FA}.
Implicit Types (sp : AddrSpace) (m : Mach FA).

(** The spaces of the processes by process id, and the machine they share. *)
Definition System : Type := gmap Z AddrSpace * Mach FA.

(** The kernel space, whose tables the processes share: no process changes it. *)
Variable kernel : AddrSpace.

(** One successful memory operation of the process [pid]. *)
Inductive mem_step (pid : Z) : System -> System -> Prop :=
| step_create ps m sp m' :
    ps !! pid = None ->
    new_user_aspace kernel USER_SPACE_BASE USER_SPACE_SIZE m = Ret (Ok sp, m') ->
    mem_step pid (ps, m) (<[pid := sp]> ps, m')
| step_map ps m sp start size f pop sp' m' :
    ps !! pid = Some sp -> 0 < f < 16 ->
    map_alloc start size f pop (sp, m) = Ret (Ok tt, (sp', m')) ->
    mem_step pid (ps, m) (<[pid := sp']> ps, m')
| step_unmap ps m sp start size sp' m' :
    ps !! pid = Some sp -> is_usize size ->
    as_unmap start size (sp, m) = Ret (Ok tt, (sp', m')) ->
    mem_step pid (ps, m) (<[pid := sp']> ps, m')
| step_fault ps m sp va access b sp' m' :
    ps !! pid = Some sp ->
    handle_page_fault va access (sp, m) = Ret (Ok b, (sp', m')) ->
    mem_step pid (ps, m) (<[pid := sp']> ps, m')
| step_write ps m sp start buf m' :
    ps !! pid = Some sp -> (0 < length buf)%nat ->
    r_start (as_range sp) <= start -> start + Z.of_nat (length buf) <= r_end (as_range sp) ->
    all_mapped (as_pt sp) start (Z.of_nat (length buf)) ->
    as_write start buf sp m = Ret (m', Ok tt) ->
    mem_step pid (ps, m) (ps, m').

(** A schedule: the processes that make the steps, in order. *)
Inductive mem_steps : list Z -> System -> System -> Prop :=
| steps_nil s : mem_steps [] s s
| steps_cons pid pids s s1 s2 :
    mem_step pid s s1 -> mem_steps pids s1 s2 -> mem_steps (pid :: pids) s s2.

(** The frames of [D] are user memory of one process: neither user memory nor
    tables of the page table. *)
Definition apart (D : Z -> Prop) (pt : PageTable) : Prop :=
  forall q, D q -> ~ user_frame pt q /\ ~ table_frame pt q.

(** The invariant of the system. *)
Record sys_inv (s : System) : Prop := {
  si_mach : mach_wf (snd s);
  si_range : as_range kernel = KERNEL_RANGE;
  si_kentries : entries_ok (as_pt kernel);
  si_ktables : forall q, table_frame (as_pt kernel) q -> pframe_ok q /\ frame_used (snd s) q;
  si_kapart : forall p sp q, fst s !! p = Some sp -> user_frame (as_pt sp) q ->
    ~ table_frame (as_pt kernel) q;
  si_space : forall p sp, fst s !! p = Some sp -> as_inv sp (snd s);
  si_apart : forall p sp p' sp', fst s !! p = Some sp -> fst s !! p' = Some sp' -> p <> p' ->
    apart (user_frame (as_pt sp)) (as_pt sp');
}.

(** What one process sees of a system: its space, and the byte at every user
    address. *)
Definition same_memory (p : Z) (s s' : System) : Prop :=
  fst s' !! p = fst s !! p /\
  forall sp va, fst s !! p = Some sp -> 0 <= va < 274877906944 ->
    user_byte (as_pt sp) (snd s') va = user_byte (as_pt sp) (snd s) va.

(** ** What a step may do to the frames *)

(** A change of the user frames [D] and the tables [T] of one process that takes
    free frames only and leaves the frames in use outside [D] alone. *)
Record private_step (D T : Z -> Prop) m (D' T' : Z -> Prop) m' : Prop := {
  ps_mach : mach_wf m';
  ps_data : forall q, D' q -> D q \/ ~ frame_used m q;
  ps_table : forall q, T' q -> T q \/ D q \/ ~ frame_used m q;
  ps_foreign : forall q, pframe_ok q -> frame_used m q -> ~ D q -> frame_used m' q;
  ps_bytes : forall q i, pframe_ok q -> frame_used m q -> ~ D q -> 0 <= i < PAGE_SIZE_4K ->
    m_mem m' (phys_to_virt q + i) = m_mem m (phys_to_virt q + i);
}.

Lemma own_user_frame pages pt q : Forall user_page pages -> own pages pt q -> user_frame pt q.
Proof. intros Hu (va & Hva & E). exists va. split; [|done]. by eapply Forall_forall in Hu. Qed.

Lemma evolve_private pages pt m pt' m' :
  pt_inv pt m -> Forall user_page pages -> evolve pages pt m pt' m' ->
  private_step (user_frame pt) (table_frame pt) m (user_frame pt') (table_frame pt') m'.
Proof.
  intros Hinv Hu E. split.
  - apply E.
  - intros q (va & Hva & Hf). destruct (decide (va ∈ pages)) as [Hin|Hn].
    + destruct (ev_own _ _ _ _ _ E q) as [Ho|?]; [by exists va| |by right].
      left. by eapply own_user_frame.
    + left. exists va. split; [done|]. by rewrite <- (evolve_frame_at pages pt m pt' m').
  - intros q Hq. destruct (ev_table _ _ _ _ _ E q Hq) as [?|[Ho|?]]; [by left| |by right; right].
    right; left. by eapply own_user_frame.
  - intros q Hok Hus Hn. apply (ev_foreign _ _ _ _ _ E); [done|done|].
    intros Ho. by eapply Hn, own_user_frame.
  - intros q i Hok Hus Hn Hi. apply (ev_bytes _ _ _ _ _ E); [done|done| |done].
    intros Ho. by eapply Hn, own_user_frame.
Qed.

Lemma user_frame_ok sp m q :
  as_inv sp m -> user_frame (as_pt sp) q -> pframe_ok q /\ frame_used m q.
Proof.
  intros Hinv (va & Hva & Hf).
  destruct (pi_frames _ _ (ai_pt _ _ Hinv) va q Hva Hf) as (? & ? & _). done.
Qed.

Lemma space_frame_ok sp m q :
  as_inv sp m -> user_frame (as_pt sp) q \/ table_frame (as_pt sp) q -> pframe_ok q /\ frame_used m q.
Proof.
  intros Hinv [Hq|Hq]; [by eapply user_frame_ok|]. by apply (pi_tables _ _ (ai_pt _ _ Hinv)).
Qed.

(** The invariant of a space only depends on its frames staying in use. *)
Lemma as_inv_frame sp m m' :
  as_inv sp m -> mach_wf m' ->
  (forall q, user_frame (as_pt sp) q \/ table_frame (as_pt sp) q -> frame_used m' q) ->
  as_inv sp m'.
Proof.
  intros [[Hm He Hfr Hinj Ht] ? ? ? ? ?] Hm' Hus. split; try done. split; try done.
  - intros va q Hva Hf. destruct (Hfr va q Hva Hf) as (? & _ & ?).
    split_and!; [done| |done]. apply Hus. left. by exists va.
  - intros q Hq. split; [by apply Ht|]. apply Hus. by right.
Qed.

(** A private step of one process as another process sees it. *)
Lemma private_other D T m D' T' m' sp :
  private_step D T m D' T' m' -> as_inv sp m -> apart D (as_pt sp) ->
  (forall q, user_frame (as_pt sp) q -> ~ T q) ->
  as_inv sp m' /\ apart D' (as_pt sp) /\
  (forall q, user_frame (as_pt sp) q -> ~ D' q /\ ~ T' q) /\
  (forall va, 0 <= va < 274877906944 -> user_byte (as_pt sp) m' va = user_byte (as_pt sp) m va).
Proof.
  intros P Hinv Hap HT.
  assert (Hn : forall q, user_frame (as_pt sp) q \/ table_frame (as_pt sp) q -> ~ D q).
  { intros q Hq HD. destruct (Hap q HD). tauto. }
  assert (HnD' : forall q, user_frame (as_pt sp) q \/ table_frame (as_pt sp) q -> ~ D' q).
  { intros q Hq [HD|Hfree]%(ps_data _ _ _ _ _ _ P); [by eapply Hn|]. by apply Hfree, (space_frame_ok sp). }
  split_and!.
  - apply (as_inv_frame sp m); [done|apply P|]. intros q Hq.
    destruct (space_frame_ok sp m q Hinv Hq). apply (ps_foreign _ _ _ _ _ _ P); auto.
  - intros q HD'. split; intros Hq; by eapply HnD'; eauto.
  - intros q Hq. split; [by apply HnD'; left|].
    intros [?|[?|Hfree]]%(ps_table _ _ _ _ _ _ P); [by eapply HT|by eapply Hn; eauto|].
    by apply Hfree, (user_frame_ok sp).
  - intros va Hva. destruct (page_of va Hva) as (Hup & Hle & _).
    unfold user_byte, kaddr. rewrite (frame_at_page (as_pt sp) va) by done.
    destruct (frame_at (as_pt sp) (align_down_4k va)) as [q|] eqn:Ef; [|done]. cbn. f_equal.
    assert (Hq : user_frame (as_pt sp) q) by by exists (align_down_4k va).
    destruct (user_frame_ok sp m q Hinv Hq). apply (ps_bytes _ _ _ _ _ _ P); eauto. lia.
Qed.

(** ** The operations are private steps *)

Lemma private_refl sp m :
  as_inv sp m ->
  private_step (user_frame (as_pt sp)) (table_frame (as_pt sp)) m
    (user_frame (as_pt sp)) (table_frame (as_pt sp)) m.
Proof. intros Hinv. apply (evolve_private []); [apply Hinv|constructor|apply evolve_refl, Hinv]. Qed.

(** The addresses of areas are user addresses. *)
Lemma view_user sp m va x : as_inv sp m -> view (as_areas sp) va = Some x -> 0 <= va < 274877906944.
Proof.
  intros Hinv. unfold view. destruct (area_at (as_areas sp) va) as [a|] eqn:Ea; [|done]. intros _.
  apply area_at_Some in Ea as (k & Hin & Hr). destruct (ai_range _ _ Hinv) as [Hr1 Hr2].
  pose proof (proj1 (Forall_forall _ _) (ai_areas _ _ Hinv) _ Hin) as (Hlo & Hhi & _).
  destruct (ms_wf_elem _ _ (ai_wf _ _ Hinv) Hin) as (Hk & _). cbn in Hk, Hlo, Hhi. lia.
Qed.

(** The range check passed: the range is aligned and inside the space. *)
Lemma check_page_range_Ok sp m start size st :
  check_page_range start size (sp, m) = Ret (Ok tt, st) ->
  st = (sp, m) /\ start + size < USIZE /\ start mod PAGE_SIZE_4K = 0 /\ size mod PAGE_SIZE_4K = 0 /\
  r_start (as_range sp) <= start /\ start + size <= r_end (as_range sp).
Proof.
  destruct (Z.ltb_spec (start + size) USIZE) as [Hlt|Hge].
  - rewrite check_page_range_spec by done.
    destruct (contains_range _ _) eqn:Hc, (is_aligned_4k start) eqn:Ha, (is_aligned_4k size) eqn:Hb;
      cbn; try discriminate. intros [= <-].
    apply contains_range_spec in Hc. apply is_aligned_4k_spec in Ha, Hb. done.
  - unfold check_page_range, as_contains_range, from_start_size, checked_add. unfold_M. cbn.
    destruct (Z.ltb_spec (start + size) USIZE); [lia|discriminate].
Qed.

Lemma ms_map_Ok (area : MemoryArea Backend) (l : list (Z * MemoryArea Backend)) (st : PageTable * Mach FA) st' :
  ms_map area false (l, st) = Ret (Ok tt, st') ->
  r_is_empty (va_range area) = false /\ ms_overlaps l (va_range area) = false.
Proof.
  unfold ms_map, get_areas. unfold_M.
  destruct (r_is_empty (va_range area)); [discriminate|]. cbn.
  by destruct (ms_overlaps l (va_range area)).
Qed.

Lemma map_alloc_Ok_inv sp m start size f pop st :
  map_alloc start size f pop (sp, m) = Ret (Ok tt, st) ->
  0 < size /\ start mod PAGE_SIZE_4K = 0 /\ size mod PAGE_SIZE_4K = 0 /\
  r_start (as_range sp) <= start /\ start + size <= r_end (as_range sp) /\
  ms_overlaps (as_areas sp) (mkRange start (start + size)) = false.
Proof.
  unfold map_alloc. unfold_M.
  destruct (check_page_range start size (sp, m)) as [[[[]|e] st1]|] eqn:Hck; try discriminate.
  apply check_page_range_Ok in Hck as (-> & Hlt & H1 & H2 & H3 & H4).
  unfold area_new, from_start_size, checked_add. unfold_M.
  destruct (Z.ltb_spec (start + size) USIZE); [|lia]. unfold on_areas.
  match goal with |- context [ms_map ?a false ?st0] => destruct (ms_map a false st0) as [[[[]|e] [l [pt m1]]]|] eqn:Hms end;
    try discriminate.
  intros _. apply ms_map_Ok in Hms as [He Ho]. unfold r_is_empty in He. cbn in He.
  apply Z.leb_gt in He. split_and!; try done. lia.
Qed.

Lemma map_alloc_private sp m start size f pop sp' m' :
  as_inv sp m -> 0 < f < 16 ->
  map_alloc start size f pop (sp, m) = Ret (Ok tt, (sp', m')) ->
  as_inv sp' m' /\
  private_step (user_frame (as_pt sp)) (table_frame (as_pt sp)) m
    (user_frame (as_pt sp')) (table_frame (as_pt sp')) m'.
Proof.
  intros Hinv Hf Hrun. destruct (ai_range _ _ Hinv) as [Hr1 Hr2].
  destruct (map_alloc_Ok_inv _ _ _ _ _ _ _ Hrun) as (H1 & H2 & H3 & H4 & H5 & H6).
  destruct (map_alloc_spec sp m start size f pop) as (r & sp1 & m1 & Hrun' & E & Hr); try done.
  rewrite Hrun in Hrun'. injection Hrun' as <- <- <-. split; [apply Hr|].
  apply (evolve_private (range_pages start size)); [apply Hinv| |done].
  apply range_pages_user; lia.
Qed.

Lemma as_unmap_zero sp m start st :
  as_unmap start 0 (sp, m) = Ret (Ok tt, st) -> st = (sp, m).
Proof.
  unfold as_unmap. unfold_M.
  destruct (check_page_range start 0 (sp, m)) as [[[[]|e] st1]|] eqn:Hck; try discriminate.
  apply check_page_range_Ok in Hck as (-> & Hlt & _).
  unfold on_areas, ms_unmap, try_from_start_size, checked_add. unfold_M.
  destruct (Z.ltb_spec (start + 0) USIZE); [|lia]. unfold ok_or, r_is_empty, mret. cbn.
  destruct (Z.leb_spec (start + 0) start); [|lia]. intros [= <-]. by destruct sp.
Qed.

Lemma as_unmap_private sp m start size sp' m' :
  as_inv sp m -> is_usize size -> as_unmap start size (sp, m) = Ret (Ok tt, (sp', m')) ->
  as_inv sp' m' /\
  private_step (user_frame (as_pt sp)) (table_frame (as_pt sp)) m
    (user_frame (as_pt sp')) (table_frame (as_pt sp')) m'.
Proof.
  intros Hinv Hsz Hrun. destruct (ai_range _ _ Hinv) as [Hr1 Hr2].
  assert (Hck : start + size < USIZE /\ start mod PAGE_SIZE_4K = 0 /\ size mod PAGE_SIZE_4K = 0 /\
    r_start (as_range sp) <= start /\ start + size <= r_end (as_range sp)).
  { revert Hrun. unfold as_unmap. unfold_M.
    destruct (check_page_range start size (sp, m)) as [[[[]|e] st1]|] eqn:Hck; try discriminate.
    by apply check_page_range_Ok in Hck as (_ & ?). }
  destruct Hck as (Hlt & H1 & H2 & H3 & H4).
  destruct (decide (size = 0)) as [->|Hne].
  - apply as_unmap_zero in Hrun as [= -> ->]. split; [done|].
    by apply private_refl.
  - destruct (as_unmap_run sp m start size) as (pt1 & m1 & Hrun' & Hinv' & E & _); try done.
    { unfold is_usize in Hsz. lia. }
    rewrite Hrun in Hrun'. injection Hrun' as -> ->. split; [done|].
    eapply evolve_private; [apply Hinv| |exact E].
    apply req_pages_user, Forall_forall. intros r (ka & Hka & Hr)%elem_of_plan.
    pose proof (proj1 (Forall_forall _ _) (ai_areas _ _ Hinv) _ Hka) as Hua.
    apply (piece_req _ _ _ _ _ Hua (ms_wf_elem _ _ (ai_wf _ _ Hinv) Hka) Hr1 Hr2 H1) in Hr; [done|lia].
Qed.

Lemma handle_page_fault_private sp m va access b sp' m' :
  as_inv sp m -> handle_page_fault va access (sp, m) = Ret (Ok b, (sp', m')) ->
  as_inv sp' m' /\
  private_step (user_frame (as_pt sp)) (table_frame (as_pt sp)) m
    (user_frame (as_pt sp')) (table_frame (as_pt sp')) m'.
Proof.
  intros Hinv Hrun.
  destruct (handle_page_fault_spec sp m va access Hinv) as (b1 & pt1 & m1 & Hrun' & Hinv' & Hv).
  rewrite Hrun in Hrun'. injection Hrun' as <- -> ->. split; [done|]. cbn [as_pt].
  assert (Hsame : pt1 = as_pt sp /\ m1 = m -> private_step (user_frame (as_pt sp)) (table_frame (as_pt sp)) m
    (user_frame pt1) (table_frame pt1) m1) by (intros [-> ->]; by apply private_refl).
  destruct (view (as_areas sp) va) as [[f [off|[]]]|] eqn:Ev; try apply Hsame, Hv.
  destruct (contains f access); [|apply Hsame, Hv].
  apply (evolve_private [align_down_4k va]); [apply Hinv| |apply Hv].
  constructor; [|constructor]. by eapply page_of, view_user.
Qed.

Lemma as_write_private sp m start buf m' :
  as_inv sp m -> (0 < length buf)%nat ->
  r_start (as_range sp) <= start -> start + Z.of_nat (length buf) <= r_end (as_range sp) ->
  all_mapped (as_pt sp) start (Z.of_nat (length buf)) ->
  as_write start buf sp m = Ret (m', Ok tt) ->
  as_inv sp m' /\
  private_step (user_frame (as_pt sp)) (table_frame (as_pt sp)) m
    (user_frame (as_pt sp)) (table_frame (as_pt sp)) m'.
Proof.
  intros Hinv Hlen Hlo Hhi Hmap Hrun. destruct (ai_range _ _ Hinv) as [Hr1 Hr2].
  destruct (as_write_spec sp m start buf) as (m1 & Hrun' & Hinv' & _ & Hfr); try done.
  rewrite Hrun in Hrun'. injection Hrun' as <-. split; [done|].
  assert (Hfa : m_fa m' = m_fa m).
  { revert Hrun. unfold as_write. by destruct (process_area_data _ _ _ _) as [[? ?]|]; intros [= <- _]. }
  split.
  - apply Hinv'.
  - by left.
  - by left.
  - intros q _ Hus _. unfold frame_used. by rewrite Hfa.
  - intros q i Hok Hus Hn Hi. apply Hfr; [done|done|]. intros va Hva Hf. apply Hn.
    exists (align_down_4k va). rewrite <- frame_at_page by lia. split; [apply page_of; lia|done].
Qed.

(** ** New address spaces *)

(** The tables of the kernel half: the root indices from 256. *)
Definition khalf (i : Z) : bool := (256 <=? i) && (i <? 512).

Lemma copy_from_kernel root kpt :
  exists p2 p1 es,
    copy_from (mkPT root ∅ ∅ ∅) kpt (r_start KERNEL_RANGE) (r_size KERNEL_RANGE)
      = Ret (mkPT root p2 p1 es) /\
    (forall k, p2 !! k = if khalf k then p2_tables kpt !! k else None) /\
    (forall k, p1 !! k = if khalf (k / 512) then p1_tables kpt !! k else None) /\
    (forall k, es !! k = if khalf (k / 262144) then entries kpt !! k else None).
Proof.
  assert (Hm : forall (f : Z -> Z) (b : gmap Z Z) k,
    (filter (fun kv => khalf (f (fst kv)) = true) b ∪
     filter (fun kv => khalf (f (fst kv)) = false) ∅) !! k = if khalf (f k) then b !! k else None).
  { intros f b k. rewrite map_filter_empty, (right_id_L ∅ (∪)), map_lookup_filter.
    destruct (b !! k); cbn; destruct (khalf (f k)); done. }
  do 3 eexists. split; [reflexivity|]. split_and!; intros k; [exact (Hm id _ k)|..].
  - exact (Hm (fun p => p / 512) _ k).
  - exact (Hm (fun p => p / 262144) _ k).
Qed.

Lemma path_div va :
  vpn va / 262144 = p2_path va /\ p1_path va / 512 = p2_path va /\ vpn va / 512 = p1_path va.
Proof.
  unfold vpn, p1_path, p2_path, p1_index, p2_index, p3_index. change (ENTRY_COUNT - 1) with 511.
  rewrite !index_spec by lia. lia.
Qed.

Lemma user_path va : user_page va -> khalf (p2_path va) = false.
Proof.
  intros Hu. rewrite p2_path_spec by by apply user_page_39. destruct Hu. unfold khalf.
  destruct (Z.leb_spec 256 (va / 1073741824)); [lia|done].
Qed.

(** The page table of a new space: the tables are the root and tables of the
    kernel, and no user page has an entry. *)
Lemma shared_table_ok root kpt p2 p1 es :
  (forall k, p2 !! k = if khalf k then p2_tables kpt !! k else None) ->
  (forall k, p1 !! k = if khalf (k / 512) then p1_tables kpt !! k else None) ->
  (forall k, es !! k = if khalf (k / 262144) then entries kpt !! k else None) ->
  entries_ok kpt ->
  entries_ok (mkPT root p2 p1 es) /\
  (forall va, user_page va -> raw_entry (mkPT root p2 p1 es) va = 0) /\
  (forall q, table_frame (mkPT root p2 p1 es) q -> q = root \/ table_frame kpt q).
Proof.
  intros Hp2 Hp1 Hes Hk. split_and!.
  - intros va. unfold raw_entry, has_leaf. cbn [entries p2_tables p1_tables].
    rewrite Hes, Hp2, Hp1. destruct (path_div va) as (-> & -> & _).
    destruct (khalf (p2_path va)); [apply Hk|done].
  - intros va Hu. unfold raw_entry. cbn [entries]. rewrite Hes. destruct (path_div va) as (-> & _).
    by rewrite user_path.
  - intros q [->|[[k Hq]|[k Hq]]]; [by left|right; right..]; cbn [p2_tables p1_tables] in Hq;
      rewrite ?Hp2, ?Hp1 in Hq; destruct (khalf _); try done; [left|right]; by exists k.
Qed.

(** A new user space has the invariant, no user memory, and shares the tables of
    the kernel half. *)
Lemma new_user_aspace_spec m sp m' :
  mach_wf m -> as_range kernel = KERNEL_RANGE -> entries_ok (as_pt kernel) ->
  (forall q, table_frame (as_pt kernel) q -> pframe_ok q /\ frame_used m q) ->
  new_user_aspace kernel USER_SPACE_BASE USER_SPACE_SIZE m = Ret (Ok sp, m') ->
  as_inv sp m' /\
  private_step (fun _ => False) (table_frame (as_pt kernel)) m
    (user_frame (as_pt sp)) (table_frame (as_pt sp)) m'.
Proof.
  intros Hwf Hkr Hke Hkt. unfold new_user_aspace, new_empty, try_new.
  destruct (alloc_frame true m) as [[p m1]|] eqn:Ha; [|done].
  change (try_from_start_size USER_SPACE_BASE USER_SPACE_SIZE) with (Some (mkRange 4096 274877906944)).
  unfold copy_mappings_from. rewrite Hkr. cbn [as_range as_areas as_pt].
  change (overlaps (mkRange 4096 274877906944) KERNEL_RANGE) with false. cbv beta iota.
  destruct (copy_from_kernel p (as_pt kernel)) as (p2 & p1 & es & -> & Hp2 & Hp1 & Hes).
  intros [= <- <-]. cbn [as_pt].
  destruct (shared_table_ok p (as_pt kernel) p2 p1 es Hp2 Hp1 Hes Hke) as (Hent & Hzero & Htab).
  destruct (alloc_frame_spec m p m1 Hwf Ha) as (Hwf' & Hok & Hfree & Hus & Hsame & _).
  assert (Hno : forall q, ~ user_frame (mkPT p p2 p1 es) q).
  { intros q (va & Hva & Hf). by rewrite frame_at_empty in Hf by auto. }
  assert (Hused : forall q, frame_used m q -> frame_used m1 q) by (intros q ?; apply Hus; by right).
  split.
  - split; cbn; try done; [|split; constructor|auto]. split; try done.
    + intros va q Hva Hf. by destruct (Hno q); exists va.
    + intros va va' q Hva _ Hf. by destruct (Hno q); exists va.
    + intros q [->|Hq]%Htab; [split; [done|]; apply Hus; by left|].
      split; [by apply Hkt|by apply Hused, Hkt].
  - split; [done|by intros q ?%Hno| |auto|].
    + intros q [->|Hq]%Htab; [by right; right|by left].
    + intros q i _ Hq _ Hi. by apply Hsame.
Qed.

(** ** Preservation *)

(** A private step on the space of [pid] preserves the invariant and the memory of
    the other processes. *)
Lemma private_sys pid ps m D T sp' m' :
  sys_inv (ps, m) ->
  (forall q, D q -> ~ table_frame (as_pt kernel) q) ->
  (forall p sp, ps !! p = Some sp -> p <> pid ->
     apart D (as_pt sp) /\ forall q, user_frame (as_pt sp) q -> ~ T q) ->
  as_inv sp' m' ->
  private_step D T m (user_frame (as_pt sp')) (table_frame (as_pt sp')) m' ->
  sys_inv (<[pid := sp']> ps, m') /\
  forall p, p <> pid -> same_memory p (ps, m) (<[pid := sp']> ps, m').
Proof.
  intros [Hm Hr Hke Hkt Hka Hsp Hap] HDk HD Hinv' P. cbn [fst snd] in *.
  assert (Ho : forall p sp, ps !! p = Some sp -> p <> pid ->
    as_inv sp m' /\ apart (user_frame (as_pt sp')) (as_pt sp) /\
    (forall q, user_frame (as_pt sp) q -> ~ user_frame (as_pt sp') q /\ ~ table_frame (as_pt sp') q) /\
    (forall va, 0 <= va < 274877906944 -> user_byte (as_pt sp) m' va = user_byte (as_pt sp) m va)).
  { intros p sp Hp Hne. destruct (HD p sp Hp Hne). eapply private_other; eauto. }
  split; [split; cbn [fst snd]|].
  - apply P.
  - done.
  - done.
  - intros q Hq. destruct (Hkt q Hq) as [? ?]. split; [done|]. apply (ps_foreign _ _ _ _ _ _ P); [done|done|].
    intros ?. by apply (HDk q).
  - intros p sp q [[-> ->]|[Hne Hp]]%lookup_insert_Some Hq; [|by eapply Hka].
    intros Hk. apply (ps_data _ _ _ _ _ _ P) in Hq as [?|Hfree]; [by eapply HDk|]. by apply Hfree, Hkt.
  - intros p sp [[-> ->]|[Hne Hp]]%lookup_insert_Some; [done|]. by apply (Ho p).
  - intros p sp p1 sp1 [[-> ->]|[Hne Hp]]%lookup_insert_Some [[-> ->]|[Hne1 Hp1]]%lookup_insert_Some Hpp; try done.
    + by apply (Ho p1).
    + destruct (Ho p sp Hp Hpp) as (_ & _ & Hu & _). intros q Hq. by apply Hu.
    + by apply (Hap p sp p1 sp1).
  - intros p Hne. split; cbn [fst snd]; [by rewrite lookup_insert_ne|].
    intros sp va Hp. by apply (Ho p).
Qed.

(** The frames that a space and the kernel may have in common are tables. *)
Definition owned (ps : gmap Z AddrSpace) (pid : Z) (D T : Z -> Prop) : Prop :=
  (forall q, D q -> exists sp, ps !! pid = Some sp /\ user_frame (as_pt sp) q) /\
  (forall q, T q -> table_frame (as_pt kernel) q \/ exists sp, ps !! pid = Some sp /\ table_frame (as_pt sp) q).

(** Every step is a private step on the space of the process that makes it. *)
Lemma mem_step_private pid ps m s' :
  sys_inv (ps, m) -> mem_step pid (ps, m) s' ->
  exists D T sp' m', s' = (<[pid := sp']> ps, m') /\ owned ps pid D T /\ as_inv sp' m' /\
    private_step D T m (user_frame (as_pt sp')) (table_frame (as_pt sp')) m'.
Proof.
  intros Hs Hstep.
  assert (forall sp, ps !! pid = Some sp -> owned ps pid (user_frame (as_pt sp)) (table_frame (as_pt sp))) as Hown.
  { intros sp Hp. split; [by exists sp|]. right. by exists sp. }
  inversion Hstep as
    [ps1 m1 sp m' Hp Hrun|ps1 m1 sp st sz f pop sp' m' Hp Hf Hrun|ps1 m1 sp st sz sp' m' Hp Hz Hrun
    |ps1 m1 sp va ac b sp' m' Hp Hrun|ps1 m1 sp st buf m' Hp Hlen Hlo Hhi Hmap Hrun]; subst ps1 m1 s'.
  - destruct (new_user_aspace_spec m sp m') as [Hinv' P]; try done; [apply Hs..|].
    eexists _, _, sp, m'. split; [done|]. split; [|by split]. split; [done|]. by left.
  - eexists _, _, sp', m'. split; [done|]. split; [by apply Hown|]. eapply map_alloc_private; [by eapply Hs|done..].
  - eexists _, _, sp', m'. split; [done|]. split; [by apply Hown|]. eapply as_unmap_private; [by eapply Hs|done..].
  - eexists _, _, sp', m'. split; [done|]. split; [by apply Hown|]. eapply handle_page_fault_private; [by eapply Hs|done..].
  - eexists _, _, sp, m'. split; [by rewrite insert_id|]. split; [by apply Hown|].
    by eapply as_write_private; [eapply (si_space _ Hs)|..].
Qed.

Lemma mem_step_ok pid s s' :
  sys_inv s -> mem_step pid s s' ->
  sys_inv s' /\ forall p, p <> pid -> same_memory p s s'.
Proof.
  destruct s as [ps m]. intros Hs Hstep.
  destruct (mem_step_private pid ps m s' Hs Hstep) as (D & T & sp' & m' & -> & [HD HT] & Hinv' & P).
  eapply private_sys; [done| | |done|exact P].
  - intros q (sp & Hp & Hq)%HD. by eapply (si_kapart _ Hs pid).
  - intros p sp1 Hp1 Hne. split.
    + intros q (sp & Hp & Hq)%HD. by apply (si_apart _ Hs pid sp p sp1).
    + intros q Hq [Hk|(sp & Hp & Ht)]%HT; [by eapply (si_kapart _ Hs p)|].
      by apply (si_apart _ Hs p sp1 pid sp Hp1 Hp Hne q Hq).
Qed.

Lemma same_memory_trans p s s1 s2 :
  same_memory p s s1 -> same_memory p s1 s2 -> same_memory p s s2.
Proof.
  intros [E1 B1] [E2 B2]. split; [by rewrite E2|]. intros sp va Hp Hva.
  rewrite (B2 sp va), (B1 sp va); try done. by rewrite E1.
Qed.

End isolation.

(** * A concrete system *)
Module IsolationDemo.
(** A kernel space with one page of the kernel image mapped linearly. *)
Definition kernel_st : AddrSpace * Mach BitmapPageAllocator :=
  match new_empty (r_start KERNEL_RANGE) (r_size KERNEL_RANGE) Demo.m0 with
  | Ret (Ok k, m) =>
      Demo.state_of (k, m) (map_linear 18446743800981192704 2149580800 4096 7 (k, m))
  | _ => (Demo.space0, Demo.m0)
  end.
Definition kernel : AddrSpace := fst kernel_st.
Definition m0 : Mach BitmapPageAllocator := snd kernel_st.

(** A process is created, maps and touches a page, and writes four bytes to it. *)
Definition create (m : Mach BitmapPageAllocator) : AddrSpace * Mach BitmapPageAllocator :=
  match new_user_aspace kernel USER_SPACE_BASE USER_SPACE_SIZE m with
  | Ret (Ok sp, m') => (sp, m')
  | _ => (Demo.space0, m)
  end.
Definition mapped (st : AddrSpace * Mach BitmapPageAllocator) : AddrSpace * Mach BitmapPageAllocator :=
  Demo.state_of st (map_alloc 65536 4096 11 true st).
Definition written (x : Z) (st : AddrSpace * Mach BitmapPageAllocator) : Mach BitmapPageAllocator :=
  match as_write 65536 [x; x; x; x] (fst st) (snd st) with Ret (m, _) => m | Panic => snd st end.

(** The three operations succeed, and the page is mapped. *)
Definition runs_ok (x : Z) (m : Mach BitmapPageAllocator) : bool :=
  match new_user_aspace kernel USER_SPACE_BASE USER_SPACE_SIZE m with
  | Ret (Ok sp, m') =>
      match map_alloc 65536 4096 11 true (sp, m') with
      | Ret (Ok _, (sp1, m1)) =>
          (r_start (as_range sp1) =? 4096) && (r_end (as_range sp1) =? 274877906944) &&
          bool_decide (is_Some (frame_at (as_pt sp1) 65536)) &&
          match as_write 65536 [x; x; x; x] sp1 m1 with Ret (_, Ok _) => true | _ => false end
      | _ => false
      end
  | _ => false
  end.

(** Process 1 runs first, then process 2 does the same. *)
Definition p1_st := mapped (create m0).
Definition m1 := written 17 p1_st.
Definition p2_st := mapped (create m1).
Definition m2 := written 34 p2_st.
Definition sys1 : System := ({[1 := fst p1_st]}, m1).
Definition sys2 : System := (<[2 := fst p2_st]> {[1 := fst p1_st]}, m2).
End IsolationDemo.

Import IsolationDemo.

Lemma demo_kernel_table :
  as_pt kernel = mkPT 2147483648 {[258 := 2147487744]} {[132096 := 2147491840]} {[67633656 := 537395407]}.
Proof. vm_compute. reflexivity. Qed.

Lemma demo_m0_wf : mach_wf IsolationDemo.m0.
Proof.
  assert (Hwf : fa_wf (m_fa IsolationDemo.m0)).
  { intros i Hi. assert (i < 64)%nat by exact Hi. unfold frame_ok.
    change (base (m_fa IsolationDemo.m0)) with 18446743800979128320. lia. }
  split; [done|]. intros v Hv. cbn in Hv. apply elem_of_bpa_used in Hv as (i & Hi & ->).
  apply Hwf. by eapply lookup_lt_Some.
Qed.

(** The system before the first process. *)
Lemma demo_sys0 : sys_inv kernel (∅, IsolationDemo.m0).
Proof.
  split; cbn [fst snd].
  - apply demo_m0_wf.
  - vm_compute. reflexivity.
  - rewrite demo_kernel_table. intros va. unfold raw_entry, has_leaf. cbn [entries p2_tables p1_tables].
    destruct (path_div va) as (E1 & _ & E2). intros Hne.
    destruct (decide (vpn va = 67633656)) as [E|E]; [|by rewrite lookup_singleton_ne in Hne].
    assert (p1_path va = 132096) as -> by (rewrite <- E2, E; reflexivity).
    assert (p2_path va = 258) as -> by (rewrite <- E1, E; reflexivity).
    by rewrite !lookup_singleton_eq.
  - rewrite demo_kernel_table. intros q [->|[[k Hq]|[k Hq]]]; cbn [root_paddr p2_tables p1_tables] in *;
      try apply lookup_singleton_Some in Hq as [_ <-];
      (split; [unfold pframe_ok; lia|]; unfold frame_used; apply (bool_decide_unpack _); vm_compute; exact I).
  - intros p sp q Hp. by rewrite lookup_empty in Hp.
  - intros p sp Hp. by rewrite lookup_empty in Hp.
  - intros p sp p' sp' Hp. by rewrite lookup_empty in Hp.
Qed.

(** One process of the demo, as a schedule. *)
Lemma demo_steps pid ps m x :
  ps !! pid = None -> runs_ok x m = true ->
  mem_steps kernel [pid; pid; pid] (ps, m)
    (<[pid := fst (mapped (create m))]> ps, written x (mapped (create m))).
Proof.
  intros Hp. unfold runs_ok, mapped, written, create.
  destruct (new_user_aspace _ _ _ m) as [[[sp|e] m1]|] eqn:H1; try discriminate.
  destruct (map_alloc 65536 4096 11 true (sp, m1)) as [[[[]|e] [sp1 m2]]|] eqn:H2; try discriminate.
  cbn [Demo.state_of fst snd]. rewrite !andb_true_iff, bool_decide_eq_true, !Z.eqb_eq.
  destruct (as_write 65536 [x; x; x; x] sp1 m2) as [[m3 [[]|e]]|] eqn:H3; [|intros [_ ?]; discriminate..].
  intros [[[Hs He] Hm] _].
  eapply steps_cons; [by apply step_create|]. eapply steps_cons.
  { eapply (step_map _ _ _ _ sp 65536 4096 11); [by rewrite lookup_insert_eq|lia|exact H2]. }
  rewrite insert_insert_eq. eapply steps_cons; [|constructor].
  eapply (step_write _ _ _ _ sp1 65536 [x; x; x; x]); [by rewrite lookup_insert_eq|cbn; lia|lia|cbn; lia| |exact H3].
  intros va Hva. cbn in Hva. by rewrite (frame_at_same_page _ va 65536) by lia.
Qed.

