(* ===== verification/KernelIsolation.v ===== *)
(** The memory of the kernel and of its processes together: one page allocator serves the
    frames of user memory, the page tables (axmm) and the heap of the kernel (axalloc). The
    processes make the steps of Isolation; the kernel allocates, frees and writes blocks of
    its heap and takes pages. The page allocator is that of the machine, the byte allocator
    a part of the state of its own: the two locks of [GlobalAllocator]. *)
From S2P Require Import Prelude Errno MemAddr Frames Heap Paging MemorySet AddrSpace.
From S2P Require Import AddrSpaceInv AddrSpaceCorrect UserMem MemTheorems Isolation.

Section kernel_isolation.
Context {T : Type} `{TlsfLaws T}.
Variable kernel : AddrSpace.
Abbreviation Machine := (Mach BitmapPageAllocator).
Abbreviation Procs := (gmap Z AddrSpace).

(** The state: the spaces of the processes, the machine, and the byte allocator. *)
Definition KState : Type := (Procs * Machine) * TlsfByteAllocator T.
(** The global allocator. *)
Definition ga (m : Machine) (b : TlsfByteAllocator T) : GlobalAllocator T := mkGA b (m_fa m).

(** The pages of the heap and their bytes. *)
Definition heap_page (b : TlsfByteAllocator T) (v : Z) : Prop := exists r, r ∈ regions (tl_inner b) /\ v ∈ region_pages r.
Definition heap_byte (b : TlsfByteAllocator T) (a : Z) : Prop := exists v, heap_page b v /\ v <= a < v + PAGE_SIZE_4K.

(** Who makes a step. *)
Inductive actor := Proc (pid : Z) | Kern.

Inductive kstep : actor -> KState -> KState -> Prop :=
| k_mem pid s s' b : mem_step kernel pid s s' -> kstep (Proc pid) (s, b) (s', b)
| k_alloc fuel size align ps m b r g' :
    0 <= size -> ga_alloc fuel size align (ga m b) = Some (r, g') ->
    kstep Kern (ps, m, b) (ps, mkMach (palloc g') (m_mem m), balloc g')
| k_free pos size align s b : kstep Kern (s, b) (s, tl_dealloc pos size align b)
| k_pages n align ps m b p g' :
    ga_alloc_pages n align (ga m b) = Ok (p, g') ->
    kstep Kern (ps, m, b) (ps, mkMach (palloc g') (m_mem m), balloc g')
| k_store a buf ps m b :
    (forall i, 0 <= i < Z.of_nat (length buf) -> heap_byte b (a + i)) ->
    kstep Kern (ps, m, b) (ps, mkMach (m_fa m) (mem_write a buf (m_mem m)), b).

Inductive ksteps : list actor -> KState -> KState -> Prop :=
| ks_nil s : ksteps [] s s
| ks_cons x xs s s1 s2 : kstep x s s1 -> ksteps xs s1 s2 -> ksteps (x :: xs) s s2.

(** No page of the heap is user memory or a table, of any process or of the kernel. *)
Definition heap_apart (ps : Procs) (b : TlsfByteAllocator T) : Prop :=
  forall q, heap_page b (phys_to_virt q) ->
    ~ table_frame (as_pt kernel) q /\
    forall p sp, ps !! p = Some sp -> ~ user_frame (as_pt sp) q /\ ~ table_frame (as_pt sp) q.

Record kinv (s : KState) : Prop := {
  ki_sys : sys_inv kernel (fst s);
  ki_heap : heap_inv (ga (snd (fst s)) (snd s));
  ki_whole : Forall (fun r => r.2 mod PAGE_SIZE_4K = 0) (regions (tl_inner (snd s)));
  ki_apart : heap_apart (fst (fst s)) (snd s);
}.

(** ** Steps of processes *)

Lemma heap_page_used m b v : heap_inv (ga m b) -> heap_page b v -> v ∈ bpa_used (m_fa m).
Proof. intros Hh (r & Hr & Hv). pose proof (proj1 (Forall_forall _ _) (hi_used _ Hh) r Hr). set_solver. Qed.

Lemma used_frame_ok (a : BitmapPageAllocator) v : bpa_wf a -> v ∈ bpa_used a -> frame_ok v.
Proof. intros Hwf (i & Hi & ->)%elem_of_bpa_used. apply Hwf. by apply lookup_lt_Some in Hi. Qed.

(** A page of the heap as a frame. *)
Lemma heap_frame m b v :
  heap_inv (ga m b) -> heap_page b v ->
  exists q, phys_to_virt q = v /\ pframe_ok q /\ frame_used m q /\ frame_ok v.
Proof.
  intros Hh Hv. pose proof (heap_page_used _ _ _ Hh Hv) as Hu. pose proof (used_frame_ok _ _ (hi_wf _ Hh) Hu) as Hok.
  destruct (virt_to_phys_frame v Hok) as [Hq Hpv]. exists (virt_to_phys v). split; [done|]. split; [done|]. split; [|done].
  unfold frame_used. by rewrite Hpv.
Qed.

Lemma mem_step_kinv pid s s' b :
  kinv (s, b) -> mem_step kernel pid s s' ->
  kinv (s', b) /\ (forall p, p <> pid -> same_memory p s s') /\
  forall a, heap_byte b a -> m_mem (snd s') a = m_mem (snd s) a.
Proof.
  intros [Hs Hh Hw Ha] Hstep. cbn [fst snd] in *. destruct (mem_step_ok kernel pid s s' Hs Hstep) as [Hs' Hsame]. destruct s as [ps m].
  destruct (mem_step_private kernel pid ps m s' Hs Hstep) as (D & Tb & sp' & m' & -> & [HD HT] & _ & P). cbn [fst snd] in *.
  assert (forall q, heap_page b (phys_to_virt q) -> ~ D q) as HnD.
  { intros q [_ Hq]%Ha (sp & Hp & Hf)%HD. by destruct (Hq pid sp Hp). }
  split; [|split; [done|]].
  - split; cbn [fst snd]; [done| |done|].
    + destruct Hh as [H1 H2 H3 H4]. split; [exact (proj1 (si_mach _ _ Hs'))|done| |done]. apply Forall_forall. intros r Hr v Hv.
      destruct (heap_frame m b v ltac:(by split) ltac:(by exists r)) as (q & <- & Hq & Hu & _).
      apply (ps_foreign _ _ _ _ _ _ P); [done|done|]. apply HnD. by exists r.
    + intros q Hq. destruct (Ha q Hq) as [Hk Hp]. split; [done|]. intros p sp [[-> <-]|[Hne Hsp]]%lookup_insert_Some; [|by eapply Hp].
      assert (frame_used m q) as Hu by (eapply heap_page_used; done). split.
      * intros [?|?]%(ps_data _ _ _ _ _ _ P); [by eapply HnD|done].
      * intros [[?|(sp & Hsp & ?)]%HT|[?|?]]%(ps_table _ _ _ _ _ _ P); [done|by destruct (Hp _ _ Hsp)|by eapply HnD|done].
  - intros a (v & Hv & Hav). destruct (heap_frame m b v Hh Hv) as (q & <- & Hq & Hu & _).
    replace a with (phys_to_virt q + (a - phys_to_virt q)) by lia. apply (ps_bytes _ _ _ _ _ _ P); [done|done|by apply HnD|lia].
Qed.

(** ** Steps of the kernel *)

(** The invariant of the processes only needs that used pages stay used. *)
Lemma sys_inv_grow ps (m : Machine) a mem :
  sys_inv kernel (ps, m) -> bpa_wf a -> bpa_used (m_fa m) ⊆ bpa_used a -> sys_inv kernel (ps, mkMach a mem).
Proof.
  intros [Hm Hr Hke Hkt Hka Hsp Hap] Hwf Hsub. cbn [fst snd] in *.
  assert (mach_wf (mkMach a mem)) as Hm' by (split; [done|intros v; by apply used_frame_ok]).
  split; cbn [fst snd]; try done.
  - intros q [? ?]%Hkt. split; [done|]. by apply Hsub.
  - intros p sp Hp. apply (as_inv_frame sp m); [by apply (Hsp p)|done|]. intros q Hq. apply Hsub.
    exact (proj2 (space_frame_ok sp m q (Hsp p sp Hp) Hq)).
Qed.

(** Regions that the heap gains are made of pages that nobody used. *)
Lemma ga_alloc_regions fuel size align g r g' :
  heap_inv g -> 0 <= size -> ga_alloc fuel size align g = Some (r, g') ->
  forall x, x ∈ regions (tl_inner (balloc g')) ->
    x ∈ regions (tl_inner (balloc g)) \/ region_pages x ## bpa_used (palloc g) /\ x.2 mod PAGE_SIZE_4K = 0.
Proof.
  intros Hinv Hs. revert g Hinv. induction fuel as [|fuel IH]; intros g Hinv; [done|]. cbn [ga_alloc].
  unfold tl_alloc. destruct (tlsf_allocate size align _) as [[p t]|] eqn:Ea.
  - intros [= <- <-] x. cbn. apply law_tlsf_allocate in Ea as [-> _]. by left.
  - unfold ga_alloc_pages. destruct (pa_alloc_pages _ _ (palloc g)) as [[start a]|e] eqn:Ep; [|intros [= <- <-]; by left].
    cbn [set_palloc balloc]. destruct (tl_add_memory start _ (balloc g)) as [b|e] eqn:Eb; [|intros [= <- <-]; by left].
    destruct (ga_grow g size start a b Hinv Hs Ep Eb) as [Hinv1 Hsub]. intros Hrun x Hx.
    destruct (pa_alloc_pages_used _ _ _ _ _ (hi_wf _ Hinv) Ep) as (_ & _ & D & _).
    destruct (IH (mkGA b a) Hinv1 Hrun x Hx) as [Hin|[Hd Hm]]; [|right; split; [cbn in Hd; set_solver|done]].
    cbn [balloc] in Hin. unfold tl_add_memory in Eb. destruct (tlsf_insert _ _ _) as [t|] eqn:Ei; [|done]. injection Eb as <-.
    apply law_tlsf_insert in Ei. cbn in Hin. rewrite Ei in Hin. apply elem_of_cons in Hin as [->|Hin]; [|by left].
    right. split; [exact D|]. cbn [snd]. by apply expand_size_pages; [apply Hinv|].
Qed.

Lemma space_used s b p sp q :
  kinv (s, b) -> fst s !! p = Some sp -> user_frame (as_pt sp) q \/ table_frame (as_pt sp) q -> frame_used (snd s) q.
Proof. intros [Hs _ _ _] Hp Hq. exact (proj2 (space_frame_ok sp _ q (si_space _ _ Hs p sp Hp) Hq)). Qed.

Lemma k_alloc_kinv fuel size align ps m b r g' :
  kinv (ps, m, b) -> 0 <= size -> ga_alloc fuel size align (ga m b) = Some (r, g') ->
  kinv (ps, mkMach (palloc g') (m_mem m), balloc g').
Proof.
  intros Hk Hs Hrun. pose proof Hk as [Hsys Hh Hw Ha]. cbn [fst snd] in *.
  destruct (ga_alloc_spec _ _ _ _ _ _ Hh Hs Hrun) as (Hh' & Hsub & _). pose proof (ga_alloc_regions _ _ _ _ _ _ Hh Hs Hrun) as Hreg.
  split; cbn [fst snd].
  - apply sys_inv_grow with m; [done|apply Hh'|done].
  - by destruct g'.
  - apply Forall_forall. intros x Hx. destruct (Hreg x Hx) as [Hin|[_ Hm]]; [|done]. exact (proj1 (Forall_forall _ _) Hw x Hin).
  - intros q (x & Hx & Hq). destruct (Hreg x Hx) as [Hin|[Hd _]]; [apply Ha; by exists x|]. split.
    + intros Ht. destruct (si_ktables _ _ Hsys q Ht) as [_ Hu]. by apply (Hd _ Hq).
    + intros p sp Hp. split; intros Hf; apply (Hd _ Hq), (space_used (ps, m) b p sp q Hk Hp); [by left|by right].
Qed.

Lemma k_pages_kinv n align ps m b p g' :
  kinv (ps, m, b) -> ga_alloc_pages n align (ga m b) = Ok (p, g') -> kinv (ps, mkMach (palloc g') (m_mem m), balloc g').
Proof.
  intros [Hsys Hh Hw Ha]. cbn [fst snd] in *. unfold ga_alloc_pages.
  destruct (pa_alloc_pages n align (palloc (ga m b))) as [[q a]|e] eqn:Ep; [|done]. intros [= <- <-].
  destruct (pa_alloc_pages_used _ _ _ _ _ (hi_wf _ Hh) Ep) as (_ & W & _ & U). split; cbn [fst snd]; [| |done|done].
  - apply sys_inv_grow with m; [done|done|]. cbn in U |- *. rewrite U. set_solver.
  - destruct Hh as [H1 H2 H3 H4]. split; [done|done| |done]. eapply Forall_impl; [exact H3|]. intros x Hx. cbn in *. rewrite U. set_solver.
Qed.

Lemma k_store_kinv a buf ps m b :
  kinv (ps, m, b) -> (forall i, 0 <= i < Z.of_nat (length buf) -> heap_byte b (a + i)) ->
  let m' := mkMach (m_fa m) (mem_write a buf (m_mem m)) in
  kinv (ps, m', b) /\ forall p, same_memory p (ps, m) (ps, m').
Proof.
  intros Hk Hin m'. pose proof Hk as [Hsys Hh Hw Ha]. cbn [fst snd] in *. split.
  - split; cbn [fst snd]; [|done..]. apply sys_inv_grow with m; [done|apply Hh|done].
  - intros p. split; [done|]. cbn [fst snd]. intros sp va Hp Hva. unfold user_byte, kaddr.
    destruct (page_of va Hva) as (Hup & Hle & _). rewrite (frame_at_page (as_pt sp) va) by done.
    destruct (frame_at (as_pt sp) (align_down_4k va)) as [q|] eqn:Ef; [|done]. cbn. f_equal. apply mem_write_out. intros Hr.
    pose proof (Z.mod_pos_bound va 4096 ltac:(lia)). set (x := phys_to_virt q + va mod 4096) in *.
    destruct (Hin (x - a) ltac:(lia)) as (v & Hv & Hx). destruct (heap_frame m b v Hh Hv) as (qv & <- & _ & _ & Hok).
    assert (user_frame (as_pt sp) q) as Hq by by exists (align_down_4k va).
    pose proof (used_frame_ok _ _ (hi_wf _ Hh) (space_used (ps, m) b p sp q Hk Hp (or_introl Hq))) as Hokq.
    unfold frame_ok in Hok, Hokq. assert (phys_to_virt q = phys_to_virt qv) as Heq by lia. rewrite <- Heq in Hv.
    by destruct (proj2 (Ha q Hv) p sp Hp).
Qed.

Lemma kstep_ok x s s' :
  kinv s -> kstep x s s' ->
  kinv s' /\ (forall p, Proc p <> x -> same_memory p (fst s) (fst s')) /\
  (x <> Kern -> snd s' = snd s /\ forall a, heap_byte (snd s) a -> m_mem (snd (fst s')) a = m_mem (snd (fst s)) a).
Proof.
  intros Hk Hstep. destruct Hstep as [pid s s' b Hm|fuel size align ps m b r g' Hs Hr|pos size align s b|n align ps m b p g' Hr|a buf ps m b Hin].
  - destruct (mem_step_kinv pid s s' b Hk Hm) as (Hk' & Hsame & Hb). split; [done|]. split; [|done]. intros p Hp. apply Hsame. congruence.
  - split; [by eapply k_alloc_kinv|]. split; [|done]. by intros p _.
  - split; [|split; [by intros p _|done]]. destruct Hk as [Hsys [H1 H2 H3 H4] Hw Ha]. cbn [fst snd] in *.
    split; cbn [fst snd]; [done| |cbn; by rewrite law_tlsf_deallocate|].
    + split; cbn; rewrite ?law_tlsf_deallocate; done.
    + intros q (y & Hy & Hq). apply Ha. exists y. cbn in Hy. by rewrite law_tlsf_deallocate in Hy.
  - split; [by eapply k_pages_kinv|]. split; [|done]. by intros p' _.
  - destruct (k_store_kinv a buf ps m b Hk Hin) as [Hk' Hsame]. split; [done|]. by split.
Qed.

End kernel_isolation.

(** * A concrete system *)

Module KernelDemo.
Import HeapDemo.
(** The heap is empty at first; then the kernel allocates a block, and process 1 is
    created, maps a page and writes to it. *)
Definition s0 : KState := (∅, IsolationDemo.m0, tl_new (T:=pool)).
Definition grown : GlobalAllocator pool :=
  match ga_alloc 2 100 8 (ga IsolationDemo.m0 tl_new) with Some (_, g) => g | None => mkGA tl_new (m_fa IsolationDemo.m0) end.
Definition mA : Mach BitmapPageAllocator := mkMach (palloc grown) (m_mem IsolationDemo.m0).
Definition sA : KState := (∅, mA, balloc grown).
Definition p1 := IsolationDemo.mapped (IsolationDemo.create mA).
Definition sB : KState := ({[1 := fst p1]}, IsolationDemo.written 17 p1, balloc grown).
End KernelDemo.
Import HeapDemo KernelDemo.

Lemma demo_kinv : kinv IsolationDemo.kernel s0.
Proof.
  split; cbn [fst snd].
  - apply demo_sys0.
  - split; [apply demo_m0_wf|done|constructor|constructor].
  - constructor.
  - intros q (r & Hr & _). by apply not_elem_of_nil in Hr.
Qed.

Lemma ksteps_mem {T} `{TlsfLaws T} kernel pids s s' (b : TlsfByteAllocator T) :
  mem_steps kernel pids s s' -> ksteps kernel (Proc <$> pids) (s, b) (s', b).
Proof. induction 1 as [|pid pids s s1 s2 Hs _ IH]; [constructor|]. eapply ks_cons; [by apply k_mem|done]. Qed.

